(* ===== verification/_CoqProject ===== *)
-Q . S2P
Prelude.v
GoStrings.v
GoFloat.v
FloatFixed.v
GoFlag.v
DnsWire.v
UnitEnv.v
Hist.v
ProcStat.v
Framing.v
MockDns.v
RrlMock.v
NetAddr.v
RrlArms.v
RrlStats.v
RrlClient.v
RrlPace.v
RrlConns.v
RrlDoh.v
RrlServer.v
RrlSoak.v
RrlUpstream.v
RrlReport.v
RrlRun.v
RrlRow.v
LoadGen.v
Survey.v
BenchRun.v
LoadGenProc.v
BenchRow.v
BenchServers.v
BenchConfigs.v
BenchBlocking.v
BenchStart.v
BenchSections.v
BenchCompare.v
BenchMain.v
BenchCommand.v
Re2Diff.v
