(* ===== verification/Prelude.v ===== *)
(** * Verification of the elodin measurement harness

    Elodin is a DNS forwarder; this library is about the Go programs that
    measure it, under [src/bench], and the one that compares its regular
    expressions with another resolver's, [src/scripts/re2diff].  They play both ends of the server: an
    upstream that answers it ([cmd/mockdns], [cmd/rrlexp/mock.go]) and clients
    that ask it, start it with the environment its systemd unit would give it,
    and report what the clients saw.  A harness that miscounts reports a server
    that does not exist, so what is proved here is mostly that what is counted
    is what happened.

    ** Files

    - [Prelude]: machine integers, bytes, big-endian fields, the [result] type,
      generic list lemmas, tactics.  [GoStrings] and [GoFloat]: the parts of Go's
      standard library the code uses ([strings], [strconv], the [fmt] verbs;
      [float64] as executable IEEE binary64, [time.Duration]).  [FloatFixed]:
      sums of floats as fixed-point numbers, with what each operation rounds.
      [GoFlag]: [time.ParseDuration], [strconv.ParseInt] of any base and [flag],
      with the round trips of what a parent prints into an argument vector.
    - [DnsWire] ([internal/dnswire]): building queries, reading questions and
      replies, building answers.  Its class [Responder] is the contract of a
      function that answers a query: the reply repeats the query's id and
      question and is a response [ParseReply] accepts.  The mocks' [answer]
      functions are instances, and the clients' theorems are proved against the
      class.
    - [UnitEnv] ([internal/unitenv], [cmd/unitenv]): parsing of a unit's
      [Environment=] lines, the merged environment, and the check of a running
      process's one.
    - [Hist] ([internal/hist]): latency samples and percentiles.
    - [ProcStat] ([internal/procstat]): resident set, CPU time and thread count
      out of [/proc], and the sampler, a step relation over ticks.
    - [Framing] ([frame] of [client.go], [readFull] of [mockdns]): DNS over a
      byte stream that arrives in arbitrary segments.
    - [MockDns] ([cmd/mockdns]) and [RrlMock] ([cmd/rrlexp/mock.go]): the
      upstreams.  [RrlMock] is a state machine (up, failed by silence or by
      closing, restored), with [mock_step] the mock under any operations.
    - [NetAddr]: address literals of Go's [net], [isV6], [joinPort], prefixes.
    - [RrlArms] ([main.go], [arms_readers.go], [arms_upstream.go]): the arms of
      the experiment, every one of them, and the selection and run of the
      matrix.  [RrlStats] (counters), [RrlClient] ([client.go], [doh.go],
      [tls.go]), [RrlServer] ([server.go]), [RrlSoak] ([soak.go]), [RrlUpstream]
      ([arms_upstream.go]), [RrlReport] ([report.go]): what one arm does, from
      the configuration file to the tables.  [RrlPace] ([pace], [paceAt]): the
      pacing of a client, in Go's floats.  [RrlConns] ([client.go]): a UDP, TCP or
      DoT client with all its sockets, and [RrlDoh] ([doh.go]): the pacer and the
      workers of a DoH client, each over any interleaving.  [RrlRun]: [runArm],
      [runMatrix] and [main], as programs over what they start, ask and stop; a
      program that calls [fatal] ends there.  The operation [StartServer] of
      [RrlRun] is [RrlServer.startServer], and [WaitOutage] stands for
      [RrlUpstream.schedule]; what [StopClient] answers after a [Launch] is what the
      goroutines of that kind of client leave ([RrlRow.client_ends]), and [RrlRow]
      puts a row's clients and the run together.
    - [LoadGen] ([cmd/loadgen]): the load generator, its clients and its three
      runs; a run is an interleaving of its goroutines' steps.
    - The benchmark driver ([cmd/bench]).  [BenchRun] ([scenarios.go]): what a
      section does to the outside is an operation of [op], a section is a
      program over them ([prog]), [exec] runs one against any machine
      ([handler]) and [wp] is its weakest precondition; [load] and the median.
      [BenchServers] ([competitors.go], [main.go]): what each server serves and
      which a run compares.  [BenchConfigs] ([competitor_configs.go],
      [server.go]): the configuration of each, and [BenchBlocking] what one that
      blocks has to say, in each server's own language.  [BenchStart] ([server.go]):
      [startServer] and [serverPid].  [BenchSections] ([scenarios.go]) and
      [BenchCompare] ([compare.go]): the sections.  [BenchMain] ([main.go],
      [scenarios.go]): [runAll] and the report.  [Survey] ([survey.go]): the
      DNSSEC survey.  [BenchCommand] ([main.go]): the flags, the set-up and
      [main] on a whole machine.  The operation [StartServer] of [BenchRun] is
      [BenchStart.startServer] seen from a section, [StopServer] and [Rss] are
      [BenchStart.stop] and [BenchStart.rss].
    - [LoadGenProc]: the generator as a child process and the driver as its
      parent -- the flags of [cmd/loadgen] and [cmd/mockdns], the [Result] one
      prints and the other reads.  The operation [Loadgen] of [BenchRun] is
      [generator] on a command line and [run_read] of its end
      ([runs_generator]), [Once] is [once] of [once_child].  [BenchRow] puts
      [LoadGen], the child and [load] together.
    - [Re2Diff] ([scripts/re2diff/main.go]): what is drawn, the files handed to
      the driver, the verdict.

    ** How the code is modelled

    A function of the source is a function of the same name.  An error is
    [Err], an absent value [None]; Go's zero values are written out.  A struct
    that methods mutate is a [Record] and each method a function from the state
    to the next one; what a mutex makes atomic is one step.  Goroutines that
    only add to shared counters are folds, whose theorems say which results do
    not depend on the order.  What the kernel, the network, a file or the clock
    answers is an argument of the step that asks (a list of events, a list of
    probe results, the contents of a file); code of other modules (TLS and HTTP
    libraries) is never given a definition.

    ** Bounds and fuel

    The two name walks of [DnsWire] run on [walk_fuel], the message's length
    plus one: each step moves forward, or follows the one pointer that ends the
    walk, so the fuel is never exhausted ([question_walks_terminate]).  The
    stream loops ([serve_fuel], [tcp_reader]) consume two bytes of what is left at
    least, so one more than the length is enough, and the theorems about them
    give the result and not only its shape.  DNS ids are sixteen bits, which
    bounds [clean_run_accounting] at 65535 queries a socket.  Percentile indices
    stay within the samples below 2^53 of them ([fmul_unit_bound]).  Lengths are
    reduced modulo 2^16 where the code converts to [uint16].  A tick of [paceAt]
    drains a credit in as many sends as its whole part, one more than which is
    the fuel of [drain]; [paceAt_rate] holds up to 2^50 thousandths of a send,
    where the rounding of the credit is still less than a send's.  A duration is
    parsed on as much fuel as it has bytes, each part taking one at least, and
    what a flag gives is always a machine word ([num_flag_range]).

    ** What the theorems show

    - The wire: round trips of questions through queries, a reply that answers
      its query, walks that end, on any bytes.
    - The upstreams: every query read off a connection is answered once, in
      order, whatever the segmentation; an outage holds the ports, a connection
      of a listener that is gone is reset, and a restoration brings the mock
      back to the state before.
    - The clients: no query is lost from the counts, each reply counts in one
      class, each latency belongs to the query it answers, no name is asked
      twice and no connection is lost from the count, in any order.
    - The clients' pace: a paced writer makes its rate's sends to less than one,
      and a client of sockets offers what its writers' shares of the rate come to
      ([conns_rate], which also shows the rates that are not paced at all); a DoH
      client asks no more queries than it was given tokens and none twice, and
      its workers end once it is cancelled.
    - The arms: names unique, each limiter-off control, those of an upstream
      outage apart, next to an arm that differs from it in the limiter only, addresses in the prefixes the arm's name says, each arm of
      the matrix run once or skipped with a reason.
    - The server: no process outlives a failed start; the environment is the
      unit's; its counters are read back.
    - The series and report: windows account for the whole run, an outage is
      called recovered by its last run of healthy windows only, no table has a
      hole, each row that ran is reported.
    - The experiment as a whole ([rrlexp_teardown], [rrlexp_reports]): on any
      machine, clients, samplers and scrapes only meet a server that runs, a
      server or mock is stopped after what uses it, a run that returns leaves
      nothing behind and has reported each arm selected; and the one way of
      ending that leaves the server running is a client that exits.  The figures
      of a row are those of the two clients its arm asks for, over whatever order
      their goroutines took turns in, and they add up ([row_figures]).
    - The load generator: totals, per-client counts, response codes and samples
      agree over every interleaving, a paced run never runs ahead of its
      schedule, no name is asked twice, a query reports its own reply only; and
      which latencies a run leaves out of its percentiles ([lost_latencies]).
    - The benchmark: on any machine, one server at a time, asked only while it
      runs, and none left; a run kept is the median of the runs made; a
      ladder reports the last rate carried; every server that blocks is given
      the same names, by lines of its configuration that read the list and turn
      blocking on ([blocklist_loaded]); a server is started with the ports,
      upstream and environment its row asks for ([bench_start_outcome]); a report has the sections asked for; the survey counts
      each name once.  [bench_main_teardown] also shows the one way of ending
      that leaves the mocks running.
    - The driver and its children: a row is measured with the configuration its
      options say and reports that run's figures, through the argument vector
      and back through JSON ([loadOnce_generator], [once_measures]); what the row
      says holds of the queries one run of the generator made, whatever order its
      goroutines took turns in, or of its handshakes ([row_accounts]); whatever the
      arguments of the driver, every generator and every mock it starts takes
      its command line for what was asked ([bench_children], [setup_ready]).
    - The regular expressions: the driver is asked about what was drawn, and when
      it answers that as elodin reads, the command succeeds exactly when no
      pattern elodin keeps is read otherwise by urlfilter ([re2diff_verdict]).

    ** What is not modelled

    Sockets, processes, signals and files themselves, and the TLS, HTTP and DNS
    libraries: what they answer is an argument. JSON is modelled as its tree:
    the text of a number or a string is the Standard Library's. Of
    [cmd/rrlexp/mock.go], [holdTCP] and the goroutines that move bytes; of
    [cmd/bench], [freePort], the limit on open files and the sampling goroutine
    of a run, which are the answers of a machine; [slices.SortFunc] is the
    insertion sort it is on at most twelve elements. Of [re2diff], the random
    source, the driver, urlfilter and miekg/dns are arguments. Of a run of
    [RrlRun], how long the machine takes over anything is its answer; the
    goroutines of its clients are interleaved in [RrlConns] and [RrlDoh], a turn
    of one being a query sent or a message read, and those of its samplers are
    in [RrlSoak]. The server under test is written in Odin and is not part of
    this library.
*)

From Stdlib Require Export ZArith Lia Bool List Ascii.
From stdpp Require Export base tactics list option strings gmap.

#[global] Open Scope Z_scope.

(** ** Machine integers

    Go's [int] and [int64] are 64-bit two's complement on every platform the
    harness is built for; [uint16] and [byte] conversions keep the low bits. *)

Definition wrap64 (z : Z) : Z := (z + 2 ^ 63) mod 2 ^ 64 - 2 ^ 63.

Definition u16 (z : Z) : Z := z mod 65536.

Definition u8 (z : Z) : Z := z mod 256.

Definition u32 (z : Z) : Z := z mod 4294967296.

Definition int64_range (z : Z) : Prop := - 2 ^ 63 <= z < 2 ^ 63.

Lemma wrap64_id z : int64_range z -> wrap64 z = z.
Proof. unfold int64_range, wrap64. intros ?. rewrite Z.mod_small; lia. Qed.

Lemma u16_id z : 0 <= z < 65536 -> u16 z = z.
Proof. intros ?. unfold u16. by rewrite Z.mod_small. Qed.

Lemma u16_range z : 0 <= u16 z < 65536.
Proof. unfold u16. apply Z.mod_pos_bound. lia. Qed.

Lemma u8_id z : 0 <= z < 256 -> u8 z = z.
Proof. intros ?. unfold u8. by rewrite Z.mod_small. Qed.

Lemma u8_range z : 0 <= u8 z < 256.
Proof. unfold u8. apply Z.mod_pos_bound. lia. Qed.

Lemma u32_range z : 0 <= u32 z < 4294967296.
Proof. unfold u32. apply Z.mod_pos_bound. lia. Qed.

Lemma u32_id z : 0 <= z < 4294967296 -> u32 z = z.
Proof. intros ?. unfold u32. by rewrite Z.mod_small. Qed.

(** ** Results

    A Go function returning [(T, error)] is a [result]: either the value with
    a nil error, or the error.  The error type is the component's own. *)

Inductive result (E A : Type) : Type :=
  | Ok (a : A)
  | Err (e : E).
Arguments Ok {E A} a.
Arguments Err {E A} e.

Definition rbind {E A B} (m : result E A) (k : A -> result E B) : result E B :=
  match m with
  | Ok a => k a
  | Err e => Err e
  end.

Declare Scope elodin_scope.
Delimit Scope elodin_scope with elodin.
Notation "'let?' x ':=' m 'in' k" := (rbind m (fun x => k))
  (at level 10, x pattern, m at level 100, k at level 200)
  : elodin_scope.
#[global] Open Scope elodin_scope.

Definition is_ok {E A} (m : result E A) : bool :=
  match m with Ok _ => true | Err _ => false end.

Lemma Ok_inj {E A} (x y : A) : @Ok E A x = Ok y -> x = y.
Proof. by intros [= ->]. Qed.

Lemma rbind_ok {E A B} (m : result E A) (k : A -> result E B) b :
  rbind m k = Ok b <-> exists a, m = Ok a /\ k a = Ok b.
Proof. destruct m; simpl; naive_solver. Qed.

Lemma rbind_assoc {E A B C} (m : result E A) (f : A -> result E B) (g : B -> result E C) :
  rbind (rbind m f) g = rbind m (fun a => rbind (f a) g).
Proof. by destruct m. Qed.

(** ** Tactics and hints *)

Create HintDb elodin.
#[export] Hint Resolve u16_range u8_range u32_range : elodin.

(** Case analysis on the scrutinee of the first [match]/[if] of the goal. *)
Ltac step_match :=
  match goal with
  | |- context [match ?x with _ => _ end] => destruct x eqn:?
  end.

Ltac step_match_in H :=
  match type of H with
  | context [match ?x with _ => _ end] => destruct x eqn:?
  end.

(** Turn boolean comparisons in the context into propositions. *)
Ltac b2p :=
  repeat match goal with
  | H : (_ && _) = true |- _ => apply andb_true_iff in H; destruct H
  | H : (_ || _) = false |- _ => apply orb_false_iff in H; destruct H
  | H : negb _ = true |- _ => apply negb_true_iff in H
  | H : negb _ = false |- _ => apply negb_false_iff in H
  | H : (_ =? _) = true |- _ => apply Z.eqb_eq in H
  | H : (_ =? _) = false |- _ => apply Z.eqb_neq in H
  | H : (_ <? _) = true |- _ => apply Z.ltb_lt in H
  | H : (_ <? _) = false |- _ => apply Z.ltb_ge in H
  | H : (_ <=? _) = true |- _ => apply Z.leb_le in H
  | H : (_ <=? _) = false |- _ => apply Z.leb_gt in H
  | H : (_ >? _) = true |- _ => rewrite Z.gtb_ltb in H; apply Z.ltb_lt in H
  | H : (_ >? _) = false |- _ => rewrite Z.gtb_ltb in H; apply Z.ltb_ge in H
  | H : (_ >=? _) = true |- _ => rewrite Z.geb_leb in H; apply Z.leb_le in H
  | H : (_ >=? _) = false |- _ => rewrite Z.geb_leb in H; apply Z.leb_gt in H
  end.

(** ** Lists *)

Definition zlen {A} (l : list A) : Z := Z.of_nat (length l).

Lemma zlen_nil {A} : zlen (@nil A) = 0.
Proof. done. Qed.

Lemma zlen_cons {A} (x : A) l : zlen (x :: l) = 1 + zlen l.
Proof. unfold zlen. simpl. lia. Qed.

Lemma zlen_app {A} (l k : list A) : zlen (l ++ k) = zlen l + zlen k.
Proof. unfold zlen. rewrite length_app. lia. Qed.

Lemma zlen_nonneg {A} (l : list A) : 0 <= zlen l.
Proof. unfold zlen. lia. Qed.

#[export] Hint Rewrite @zlen_nil @zlen_cons @zlen_app : zlen.
#[export] Hint Resolve zlen_nonneg : elodin.

(** Go's [l[i]] with a panic (here [None]) out of range. *)
Definition index {A} (l : list A) (i : Z) : option A :=
  if (0 <=? i) && (i <? zlen l) then l !! Z.to_nat i else None.

Lemma index_Some {A} (l : list A) i :
  0 <= i < zlen l -> exists a, index l i = Some a /\ a ∈ l.
Proof.
  intros [Hl Hr]. unfold index.
  replace (0 <=? i) with true by (symmetry; lia).
  replace (i <? zlen l) with true by (symmetry; lia). simpl.
  destruct (lookup_lt_is_Some_2 l (Z.to_nat i)) as [a Ha]; [unfold zlen in *; lia|].
  exists a. split; [done|]. by eapply list_elem_of_lookup_2.
Qed.

(** Go's [l[lo:hi]] for bounds already checked by the caller. *)
Definition slice {A} (l : list A) (lo hi : Z) : list A :=
  take (Z.to_nat (hi - lo)) (drop (Z.to_nat lo) l).

Lemma slice_app {A} (pre l post : list A) :
  slice (pre ++ l ++ post) (zlen pre) (zlen pre + zlen l) = l.
Proof.
  unfold slice, zlen.
  replace (Z.to_nat (Z.of_nat (length pre) + Z.of_nat (length l) - Z.of_nat (length pre)))
    with (length l) by lia.
  by rewrite Nat2Z.id, drop_app_length, take_app_length.
Qed.

(** The value at an offset the caller has checked. *)
Definition at_off (l : list Z) (off : Z) : Z := nth (Z.to_nat off) l 0.

Lemma at_off_app (pre post : list Z) x : at_off (pre ++ x :: post) (zlen pre) = x.
Proof.
  unfold at_off, zlen. rewrite Nat2Z.id, app_nth2, Nat.sub_diag by lia. done.
Qed.

Lemma at_off_app_l (pre post : list Z) i :
  0 <= i < zlen pre -> at_off (pre ++ post) i = at_off pre i.
Proof. unfold at_off, zlen. intros ?. apply app_nth1. lia. Qed.

Lemma split_at {A} (l : list A) n :
  0 <= n <= zlen l -> exists r t, l = r ++ t /\ zlen r = n.
Proof.
  intros Hn. exists (take (Z.to_nat n) l), (drop (Z.to_nat n) l).
  split; [by rewrite take_drop|]. unfold zlen in *. rewrite length_take. lia.
Qed.

Lemma at_off_app_r (pre post : list Z) i :
  0 <= i -> at_off (pre ++ post) (zlen pre + i) = at_off post i.
Proof.
  unfold at_off, zlen. intros ?.
  replace (Z.to_nat (Z.of_nat (length pre) + i)) with (length pre + Z.to_nat i)%nat by lia.
  rewrite app_nth2 by lia. f_equal. lia.
Qed.

Lemma take_zlen_app {A} (l k : list A) n : n = zlen l -> take (Z.to_nat n) (l ++ k) = l.
Proof. intros ->. unfold zlen. by rewrite Nat2Z.id, take_app_length. Qed.

(** ** Counting and summing *)

Definition zcount {A} (f : A -> bool) (l : list A) : Z := zlen (List.filter f l).

Definition zsum (l : list Z) : Z := fold_right Z.add 0 l.

Lemma zcount_cons {A} (f : A -> bool) x l : zcount f (x :: l) = (if f x then 1 else 0) + zcount f l.
Proof. unfold zcount. simpl. destruct (f x); [by rewrite zlen_cons|lia]. Qed.

Lemma zcount_nonneg {A} (f : A -> bool) l : 0 <= zcount f l.
Proof. apply zlen_nonneg. Qed.

Lemma zcount_true {A} (f : A -> bool) l : Forall (fun x => f x = true) l -> zcount f l = zlen l.
Proof. induction 1 as [|x l Hx _ IH]; [done|]. by rewrite zcount_cons, Hx, IH, zlen_cons. Qed.

Lemma zcount_false {A} (f : A -> bool) l : Forall (fun x => f x = false) l -> zcount f l = 0.
Proof. induction 1 as [|x l Hx _ IH]; [done|]. by rewrite zcount_cons, Hx, IH. Qed.

Lemma zcount_app {A} (f : A -> bool) l k : zcount f (l ++ k) = zcount f l + zcount f k.
Proof. unfold zcount. by rewrite List.filter_app, zlen_app. Qed.

Lemma zsum_cons x l : zsum (x :: l) = x + zsum l.
Proof. done. Qed.

Lemma zsum_app l k : zsum (l ++ k) = zsum l + zsum k.
Proof. induction l as [|x l IH]; simpl; [done|]. unfold zsum in *. simpl. lia. Qed.

Lemma zsum_perm l k : l ≡ₚ k -> zsum l = zsum k.
Proof. induction 1; unfold zsum in *; simpl; lia. Qed.

(** Replacing one element changes a sum by the difference. *)
Lemma zsum_map_insert {A} (f : A -> Z) l i x y :
  l !! i = Some x -> zsum (map f (<[i := y]> l)) = zsum (map f l) + (f y - f x).
Proof.
  revert i. induction l as [|z l IH]; intros [|i]; simpl; try done.
  - intros [= ->]. unfold zsum. simpl. lia.
  - intros H. change (f z + zsum (map f (<[i := y]> l)) = f z + zsum (map f l) + (f y - f x)).
    rewrite (IH _ H). lia.
Qed.

Lemma zsum_alter l i : (i < length l)%nat -> zsum (alter (fun n => n + 1) i l) = zsum l + 1.
Proof.
  revert i. induction l as [|z l IH]; intros [|i]; cbn [length]; try lia; intros H.
  - unfold zsum. simpl. lia.
  - change (zsum (z :: alter (fun n => n + 1) i l) = zsum (z :: l) + 1).
    rewrite !zsum_cons, IH by lia. lia.
Qed.

Lemma zsum_map_zero {A} (f : A -> Z) l : Forall (fun x => f x = 0) l -> zsum (map f l) = 0.
Proof. induction 1 as [|x l Hx _ IH]; [done|]. cbn [map]. by rewrite zsum_cons, Hx, IH. Qed.

Lemma zsum_bounds l a b : Forall (fun x => a <= x <= b) l -> a * zlen l <= zsum l <= b * zlen l.
Proof. induction 1 as [|x l Hx _ IH]; [unfold zlen; simpl; lia|]. rewrite zlen_cons, zsum_cons. lia. Qed.

Lemma zsum_map_le {A} (f : A -> Z) l b : (forall x, 0 <= f x <= b) -> 0 <= zsum (map f l) <= b * zlen l.
Proof.
  intros H. induction l as [|x l IH]; [unfold zlen; simpl; lia|]. cbn [map]. rewrite zsum_cons, zlen_cons.
  specialize (H x). lia.
Qed.

Lemma zsum_nonneg l : Forall (Z.le 0) l -> 0 <= zsum l.
Proof. induction 1 as [|x l Hx _ IH]; [done|]. rewrite zsum_cons. lia. Qed.

Lemma zsum_member l x : Forall (Z.le 0) l -> x ∈ l -> x <= zsum l.
Proof.
  induction 1 as [|y l Hy Hl IH]; [by intros ?%elem_of_nil|]. rewrite zsum_cons. apply zsum_nonneg in Hl.
  intros [->|H%IH]%elem_of_cons; lia.
Qed.

Lemma zsum_map_add {A} (f g : A -> Z) l : zsum (map (fun x => f x + g x) l) = zsum (map f l) + zsum (map g l).
Proof. induction l as [|x l IH]; [done|]. cbn [map]. rewrite !zsum_cons, IH. lia. Qed.

Lemma zsum_map_mul {A} a (f : A -> Z) l : zsum (map (fun x => a * f x) l) = a * zsum (map f l).
Proof. induction l as [|x l IH]; [simpl; lia|]. cbn [map]. rewrite !zsum_cons, IH. lia. Qed.

Lemma zsum_indicator j n : (j < n)%nat -> zsum (map (fun i => if Nat.eqb i j then 1 else 0) (seq 0 n)) = 1.
Proof.
  intros Hj. replace n with (j + S (n - S j))%nat by lia. rewrite seq_app. cbn [seq]. rewrite map_app, zsum_app. cbn [map].
  rewrite Nat.eqb_refl, zsum_cons.
  rewrite !zsum_map_zero; [done|..]; apply Forall_forall; intros i Hi%list_elem_of_In%in_seq.
  all: destruct (Nat.eqb_spec i j); [lia|done].
Qed.

(** ** Sums of a table of counts *)

Section table.
Context {K : Type} `{Countable K}.

Definition msum (m : gmap K Z) : Z := zsum (map snd (map_to_list m)).

Lemma msum_insert_new k n m : m !! k = None -> msum (<[k := n]> m) = n + msum m.
Proof.
  intros E. unfold msum.
  by rewrite (zsum_perm _ _ (fmap_Permutation snd _ _ (map_to_list_insert m k n E))).
Qed.

(** Counting under a key adds one to the sum, whether or not the key is there. *)
Lemma msum_count k m : msum (<[k := default 0 (m !! k) + 1]> m) = msum m + 1.
Proof.
  destruct (m !! k) as [n|] eqn:E; simpl.
  - rewrite <- (insert_delete_id m k n E) at 2. rewrite <- insert_delete_eq.
    rewrite !msum_insert_new by apply lookup_delete_eq. lia.
  - rewrite msum_insert_new by done. lia.
Qed.
End table.
