(* ===== verification/GoStrings.v ===== *)
(** * Go's [strings], [strconv] and the [fmt] verbs the harness uses

    A Go string is a byte sequence; here it is a [string], one [ascii] per
    byte.  These are models of the language's standard library: every
    definition is executable, and the lemmas are the facts about them that the
    components share.  White space is the ASCII one ([strings.Fields] and
    [strings.TrimSpace] also know a few non-ASCII spaces, which no input the
    harness reads holds). *)

From S2P Require Import Prelude.

Notation slen s := (Z.of_nat (String.length s)).

Infix "+:+" := String.append (at level 60, right associativity) : elodin_scope.

#[global] Arguments String.append !_ _ / : simpl nomatch.
#[global] Arguments Ascii.eqb : simpl never.

Definition nl : ascii := "010"%char.
Definition cr : ascii := "013"%char.
Definition tab : ascii := "009"%char.
Definition nul : ascii := "000"%char.
(** The double quote, which string literals below cannot hold. *)
Definition dquote : ascii := "034"%char.
Definition nls : string := String nl "".
Definition dq : string := String dquote "".

(** ** Searching *)

Fixpoint has_prefix (p s : string) : bool :=
  match p, s with
  | EmptyString, _ => true
  | String a p', String b s' => Ascii.eqb a b && has_prefix p' s'
  | String _ _, EmptyString => false
  end.

Fixpoint contains (sub s : string) : bool :=
  has_prefix sub s ||
  match s with
  | EmptyString => false
  | String _ s' => contains sub s'
  end.

Fixpoint index_byte (c : ascii) (s : string) : option nat :=
  match s with
  | EmptyString => None
  | String a s' => if Ascii.eqb a c then Some 0%nat else S <$> index_byte c s'
  end.

Fixpoint last_index_byte (c : ascii) (s : string) : option nat :=
  match s with
  | EmptyString => None
  | String a s' =>
      match last_index_byte c s' with
      | Some i => Some (S i)
      | None => if Ascii.eqb a c then Some 0%nat else None
      end
  end.

(** [strings.Cut] at a one-byte separator: before, after, found. *)
Fixpoint cut (c : ascii) (s : string) : string * string * bool :=
  match s with
  | EmptyString => (EmptyString, EmptyString, false)
  | String a s' =>
      if Ascii.eqb a c then (EmptyString, s', true)
      else let '(b, r, f) := cut c s' in (String a b, r, f)
  end.

Fixpoint any_byte (f : ascii -> bool) (s : string) : bool :=
  match s with
  | EmptyString => false
  | String a s' => f a || any_byte f s'
  end.

(** ** Slices: [s[:n]] and [s[n:]] *)

Fixpoint str_take (n : nat) (s : string) : string :=
  match n, s with
  | S n', String a s' => String a (str_take n' s')
  | _, _ => EmptyString
  end.

Fixpoint str_drop (n : nat) (s : string) : string :=
  match n, s with
  | S n', String _ s' => str_drop n' s'
  | _, _ => s
  end.

(** ** Trimming *)

Definition trim_prefix (p s : string) : string :=
  if has_prefix p s then str_drop (String.length p) s else s.

Definition has_suffix (suf s : string) : bool :=
  (String.length suf <=? String.length s)%nat &&
  String.eqb (str_drop (String.length s - String.length suf) s) suf.

Definition trim_suffix (suf s : string) : string :=
  if has_suffix suf s then str_take (String.length s - String.length suf) s else s.

Fixpoint trim_left_func (f : ascii -> bool) (s : string) : string :=
  match s with
  | EmptyString => EmptyString
  | String a s' => if f a then trim_left_func f s' else s
  end.

Fixpoint trim_right_func (f : ascii -> bool) (s : string) : string :=
  match s with
  | EmptyString => EmptyString
  | String a s' =>
      match trim_right_func f s' with
      | EmptyString => if f a then EmptyString else String a EmptyString
      | r => String a r
      end
  end.

Definition is_space (c : ascii) : bool :=
  let n := nat_of_ascii c in ((9 <=? n) && (n <=? 13) || (n =? 32))%nat.

Definition trim_space (s : string) : string :=
  trim_right_func is_space (trim_left_func is_space s).

Definition in_set (cs : list ascii) (c : ascii) : bool := existsb (Ascii.eqb c) cs.

(** ** Splitting and joining *)

(** [strings.Split] / [strings.SplitSeq] at a one-byte separator. *)
Fixpoint split (c : ascii) (s : string) : list string :=
  match s with
  | EmptyString => [EmptyString]
  | String a s' =>
      if Ascii.eqb a c then EmptyString :: split c s'
      else match split c s' with
           | [] => [String a EmptyString]
           | w :: ws => String a w :: ws
           end
  end.

(** [strings.FieldsFunc]: the maximal runs of bytes [f] refuses. *)
Fixpoint fields_go (f : ascii -> bool) (cur : string) (s : string) : list string :=
  match s with
  | EmptyString => if String.eqb cur "" then [] else [cur]
  | String a s' =>
      if f a then (if String.eqb cur "" then [] else [cur]) ++ fields_go f "" s'
      else fields_go f (cur +:+ String a "") s'
  end.

Definition fields_func (f : ascii -> bool) (s : string) : list string := fields_go f "" s.

Definition fields (s : string) : list string := fields_func is_space s.

Fixpoint join (sep : string) (l : list string) : string :=
  match l with
  | [] => ""
  | [w] => w
  | w :: ws => w +:+ sep +:+ join sep ws
  end.

Fixpoint replace_byte (c d : ascii) (s : string) : string :=
  match s with
  | EmptyString => EmptyString
  | String a s' => String (if Ascii.eqb a c then d else a) (replace_byte c d s')
  end.

Fixpoint concat_all (l : list string) : string :=
  match l with
  | [] => ""
  | w :: ws => w +:+ concat_all ws
  end.

(** ** Numbers: [strconv.Itoa], [%d], [strconv.ParseInt(s, 10, 64)] *)

Definition digit_char (d : Z) : ascii := ascii_of_nat (Z.to_nat (48 + d)).

Fixpoint digits_go (fuel : nat) (n : Z) (acc : string) : string :=
  match fuel with
  | O => acc
  | S fuel' =>
      let acc' := String (digit_char (n mod 10)) acc in
      if n <? 10 then acc' else digits_go fuel' (n / 10) acc'
  end.

(** Decimal digits of a non-negative number: its bit length bounds their
    number, so the fuel never runs out. *)
Definition digits (n : Z) : string := digits_go (S (Z.to_nat (Z.log2 n))) n "".

Definition itoa (z : Z) : string := if z <? 0 then "-" +:+ digits (- z) else digits z.

Definition digit_val (c : ascii) : option Z :=
  let n := Z.of_nat (nat_of_ascii c) in
  if (48 <=? n) && (n <=? 57) then Some (n - 48) else None.

Fixpoint parse_digits (acc : Z) (s : string) : option Z :=
  match s with
  | EmptyString => Some acc
  | String c s' =>
      match digit_val c with
      | Some d => parse_digits (acc * 10 + d) s'
      | None => None
      end
  end.

Definition parse_udigits (s : string) : option Z :=
  match s with
  | EmptyString => None
  | _ => parse_digits 0 s
  end.

(** [None] is [strconv]'s error: not a number, or out of the 64-bit range. *)
Definition parse_int (s : string) : option Z :=
  let unsigned t := parse_udigits t in
  let v := match s with
           | String "-" s' => Z.opp <$> unsigned s'
           | String "+" s' => unsigned s'
           | _ => unsigned s
           end in
  match v with
  | Some z => if (- 2 ^ 63 <=? z) && (z <? 2 ^ 63) then Some z else None
  | None => None
  end.

Definition fmt_bool (b : bool) : string := if b then "true" else "false".

(** [%-Ns] and [%Ns]: padding counts characters; the padded strings here are
    ASCII. *)
Fixpoint spaces (n : nat) : string :=
  match n with O => "" | S n' => String " " (spaces n') end.
Definition pad_right (n : nat) (s : string) : string := s +:+ spaces (n - String.length s).
Definition pad_left (n : nat) (s : string) : string := spaces (n - String.length s) +:+ s.

(** ** Facts *)

Lemma str_app_nil_r s : s +:+ "" = s.
Proof. induction s; simpl; congruence. Qed.

Lemma str_app_assoc s t u : (s +:+ t) +:+ u = s +:+ (t +:+ u).
Proof. induction s; simpl; congruence. Qed.

Lemma str_length_app s t : String.length (s +:+ t) = (String.length s + String.length t)%nat.
Proof. induction s; simpl; congruence. Qed.

Lemma str_app_cons a s t : String a s +:+ t = String a (s +:+ t).
Proof. done. Qed.

#[global] Hint Rewrite str_app_nil_r str_app_assoc str_length_app : str.

Lemma str_take_app s t : str_take (String.length s) (s +:+ t) = s.
Proof. induction s; simpl; [by destruct t|congruence]. Qed.

Lemma str_drop_app s t : str_drop (String.length s) (s +:+ t) = t.
Proof. by induction s. Qed.

Lemma str_drop_drop n k s : str_drop k (str_drop n s) = str_drop (n + k) s.
Proof.
  revert s. induction n as [|n IH]; intros s; [done|].
  destruct s; simpl; [by destruct k|apply IH].
Qed.

Lemma str_take_drop n s : str_take n s +:+ str_drop n s = s.
Proof. revert s; induction n; intros [|a s]; simpl; try done. by rewrite IHn. Qed.

Lemma str_length_drop n s : String.length (str_drop n s) = (String.length s - n)%nat.
Proof. revert s; induction n; intros [|a s]; simpl; auto. Qed.

Lemma str_length_take n s : String.length (str_take n s) = (n `min` String.length s)%nat.
Proof. revert s; induction n; intros [|a s]; simpl; auto. Qed.

Lemma str_app_inj_length s1 s2 t1 t2 :
  String.length s1 = String.length s2 -> s1 +:+ t1 = s2 +:+ t2 -> s1 = s2 /\ t1 = t2.
Proof.
  revert s2; induction s1 as [|a s1 IH]; intros [|b s2]; simpl; try done.
  intros [= Hl] [= -> H]. destruct (IH s2 Hl H) as [-> ->]. done.
Qed.

Lemma has_prefix_spec p s : has_prefix p s = true <-> exists t, s = p +:+ t.
Proof.
  revert s; induction p as [|a p IH]; intros s; simpl.
  - naive_solver.
  - destruct s as [|b s]; simpl; [naive_solver|].
    rewrite andb_true_iff, Ascii.eqb_eq, IH. naive_solver.
Qed.

Lemma has_prefix_app p s : has_prefix p (p +:+ s) = true.
Proof. apply has_prefix_spec. eauto. Qed.

Lemma has_suffix_app s t : has_suffix t (s +:+ t) = true.
Proof.
  unfold has_suffix. rewrite str_length_app.
  replace (String.length s + String.length t - String.length t)%nat with (String.length s) by lia.
  rewrite str_drop_app, String.eqb_refl, andb_true_r. apply Nat.leb_le. lia.
Qed.

Lemma trim_suffix_app s t : trim_suffix t (s +:+ t) = s.
Proof.
  unfold trim_suffix. rewrite has_suffix_app, str_length_app.
  replace (String.length s + String.length t - String.length t)%nat with (String.length s) by lia.
  apply str_take_app.
Qed.

(** No byte of the string is [c]. *)
Definition lacks (c : ascii) (s : string) : Prop := any_byte (Ascii.eqb c) s = false.

Lemma lacks_cons c a s : lacks c (String a s) <-> a <> c /\ lacks c s.
Proof.
  unfold lacks. simpl. rewrite orb_false_iff, Ascii.eqb_neq. naive_solver.
Qed.

Lemma any_byte_app f s t : any_byte f (s +:+ t) = any_byte f s || any_byte f t.
Proof. induction s; simpl; [done|]. by rewrite IHs, orb_assoc. Qed.

Lemma lacks_app c s t : lacks c (s +:+ t) <-> lacks c s /\ lacks c t.
Proof. unfold lacks. by rewrite any_byte_app, orb_false_iff. Qed.

Lemma cut_found c s b r f :
  cut c s = (b, r, f) ->
  (f = true -> s = b +:+ String c r /\ lacks c b) /\ (f = false -> s = b /\ r = "" /\ lacks c s).
Proof.
  revert b r f; induction s as [|a s IH]; simpl; intros b r f.
  - intros [= <- <- <-]. split; [done|]. intros _. done.
  - destruct (Ascii.eqb a c) eqn:E.
    + intros [= <- <- <-]. apply Ascii.eqb_eq in E as ->. done.
    + destruct (cut c s) as [[b' r'] f'] eqn:Hc. intros [= <- <- <-].
      apply Ascii.eqb_neq in E. specialize (IH b' r' f' eq_refl) as [IH1 IH2].
      split; intros Hf.
      * destruct (IH1 Hf) as [-> ?]. split; [done|]. by apply lacks_cons.
      * destruct (IH2 Hf) as (-> & -> & ?). repeat split; try done. by apply lacks_cons.
Qed.

Lemma cut_lacks_app c s t : lacks c s -> cut c (s +:+ String c t) = (s, t, true).
Proof.
  induction s as [|a s IH]; simpl.
  - by rewrite Ascii.eqb_refl.
  - intros [Ha Hs]%lacks_cons. apply Ascii.eqb_neq in Ha. by rewrite Ha, IH.
Qed.

Lemma split_nonempty c s : split c s <> [].
Proof. destruct s as [|a s]; simpl; [done|]. repeat case_match; done. Qed.

Lemma split_lacks c s : lacks c s -> split c s = [s].
Proof.
  induction s as [|a s IH]; simpl; [done|]. intros [Ha Hs]%lacks_cons.
  apply Ascii.eqb_neq in Ha. by rewrite Ha, IH.
Qed.

Lemma split_lacks_app c s t : lacks c s -> split c (s +:+ String c t) = s :: split c t.
Proof.
  induction s as [|a s IH]; simpl; [by rewrite Ascii.eqb_refl|].
  intros [Ha Hs]%lacks_cons. apply Ascii.eqb_neq in Ha. by rewrite Ha, IH.
Qed.

(** Splitting undoes joining when no piece holds the separator. *)
Lemma split_join c l :
  l <> [] -> Forall (lacks c) l -> split c (join (String c "") l) = l.
Proof.
  intros Hl H. induction H as [|w ws Hw Hws IH]; [done|].
  destruct ws as [|w' ws]; [by apply split_lacks|].
  change (join (String c "") (w :: w' :: ws)) with (w +:+ String c (join (String c "") (w' :: ws))).
  by rewrite split_lacks_app, IH.
Qed.

Lemma split_pieces_lack c s : Forall (lacks c) (split c s).
Proof.
  induction s as [|a s IH]; simpl; [repeat constructor|].
  destruct (Ascii.eqb a c) eqn:E; [constructor; done|].
  apply Ascii.eqb_neq in E. destruct IH; repeat constructor; try done; by apply lacks_cons.
Qed.

Lemma join_split c s : join (String c "") (split c s) = s.
Proof.
  induction s as [|a s IH]; simpl; [done|].
  pose proof (split_nonempty c s) as Hn.
  destruct (Ascii.eqb a c) eqn:E.
  - apply Ascii.eqb_eq in E as ->. destruct (split c s) eqn:Hs; [done|]. by rewrite <- IH.
  - destruct (split c s) as [|w ws]; [done|]. destruct ws; simpl in *; by rewrite <- IH.
Qed.

Lemma has_suffix_spec suf s : has_suffix suf s = true <-> exists t, s = t +:+ suf.
Proof.
  split; [|intros [t ->]; apply has_suffix_app].
  unfold has_suffix. intros [_ E]%andb_true_iff. apply String.eqb_eq in E.
  exists (str_take (String.length s - String.length suf) s).
  rewrite <- E at 2. by rewrite str_take_drop.
Qed.

Lemma trim_suffix_none suf s : has_suffix suf s = false -> trim_suffix suf s = s.
Proof. unfold trim_suffix. by intros ->. Qed.

Lemma split_app_sep c s t : split c (s +:+ String c t) = split c s ++ split c t.
Proof.
  induction s as [|a s IH]; simpl; [by rewrite Ascii.eqb_refl|].
  rewrite IH. destruct (Ascii.eqb a c); [done|].
  pose proof (split_nonempty c s). by destruct (split c s).
Qed.

(** ** Trimming and fields *)

Definition all_bytes (f : ascii -> bool) (s : string) : bool := negb (any_byte (fun c => negb (f c)) s).

Lemma all_bytes_cons f a s : all_bytes f (String a s) = f a && all_bytes f s.
Proof. unfold all_bytes. simpl. by destruct (f a). Qed.

Lemma trim_right_spec f s : exists t, s = trim_right_func f s +:+ t /\ all_bytes f t = true.
Proof.
  induction s as [|a s (t & IH & Ht)]; simpl; [by exists ""|].
  destruct (trim_right_func f s) as [|b r] eqn:E.
  - destruct (f a) eqn:Fa.
    + exists (String a s). split; [done|]. rewrite all_bytes_cons, Fa. simpl in IH. by rewrite IH.
    + exists t. simpl. split; [by rewrite IH|done].
  - exists t. by split; [rewrite IH at 1|].
Qed.

Lemma trim_right_none f s : any_byte f s = false -> trim_right_func f s = s.
Proof.
  induction s as [|a s IH]; simpl; [done|]. intros [Fa Fs]%orb_false_iff.
  rewrite IH by done. rewrite Fa. by destruct s.
Qed.

Lemma any_byte_take f n s : any_byte f s = false -> any_byte f (str_take n s) = false.
Proof.
  revert n; induction s as [|a s IH]; intros [|n]; simpl; try done.
  intros [? ?]%orb_false_iff. apply orb_false_iff. auto.
Qed.

Lemma trim_suffix_lacks c suf s : lacks c s -> lacks c (trim_suffix suf s).
Proof. intros H. unfold trim_suffix. case_match; [by apply any_byte_take|done]. Qed.

Lemma all_bytes_lacks f c s : f c = false -> all_bytes f s = true -> lacks c s.
Proof.
  intros Hf. induction s as [|a s IH]; [done|].
  rewrite all_bytes_cons. intros [Ha Hs]%andb_true_iff. apply lacks_cons.
  split; [congruence|auto].
Qed.

(** Every field is non-empty and free of separators. *)
Definition field_ok (f : ascii -> bool) (s : string) : Prop := s <> "" /\ any_byte f s = false.

Lemma str_app_snoc_nonempty s a : s +:+ String a "" <> "".
Proof. by destruct s. Qed.

Lemma fields_go_ok f cur s :
  any_byte f cur = false -> Forall (field_ok f) (fields_go f cur s).
Proof.
  revert cur. induction s as [|a s IH]; intros cur Hc; simpl.
  - destruct (String.eqb_spec cur ""); repeat constructor; done.
  - destruct (f a) eqn:Fa.
    + apply Forall_app. split; [|by apply IH].
      destruct (String.eqb_spec cur ""); repeat constructor; done.
    + apply IH. rewrite any_byte_app, Hc. simpl. by rewrite Fa.
Qed.

Lemma fields_func_ok f s : Forall (field_ok f) (fields_func f s).
Proof. by apply fields_go_ok. Qed.

(** A separator-free stretch only extends the current field. *)
Lemma fields_go_run f cur s t :
  any_byte f s = false -> fields_go f cur (s +:+ t) = fields_go f (cur +:+ s) t.
Proof.
  revert cur. induction s as [|a s IH]; intros cur; simpl; [by rewrite str_app_nil_r|].
  intros [Fa Fs]%orb_false_iff. rewrite Fa, IH by done. by rewrite str_app_assoc.
Qed.

Lemma fields_func_single f s : field_ok f s -> fields_func f s = [s].
Proof.
  intros [Hn Hs]. unfold fields_func. rewrite <- (str_app_nil_r s) at 1.
  rewrite fields_go_run by done. simpl. by destruct (String.eqb_spec s "").
Qed.

Lemma trim_left_none f s : any_byte f s = false -> trim_left_func f s = s.
Proof. destruct s as [|a s]; simpl; [done|]. by intros [-> _]%orb_false_iff. Qed.

Lemma any_byte_impl (f g : ascii -> bool) s :
  (forall c, f c = true -> g c = true) -> any_byte g s = false -> any_byte f s = false.
Proof.
  intros H. induction s as [|a s IH]; simpl; [done|]. intros [Ha Hs]%orb_false_iff.
  apply orb_false_iff. split; [|auto]. destruct (f a) eqn:E; [|done]. apply H in E. congruence.
Qed.

(** ** Decimal printing and reading *)

Lemma digit_val_char d : 0 <= d < 10 -> digit_val (digit_char d) = Some d.
Proof.
  intros Hd.
  assert (d = 0 \/ d = 1 \/ d = 2 \/ d = 3 \/ d = 4 \/ d = 5 \/ d = 6 \/ d = 7 \/ d = 8 \/ d = 9) as H by lia.
  by repeat destruct H as [->|H]; [..|subst].
Qed.

Lemma parse_digits_go fuel n acc :
  0 <= n < 10 ^ Z.of_nat fuel -> (0 < fuel)%nat ->
  parse_digits 0 (digits_go fuel n acc) = parse_digits n acc.
Proof.
  revert n acc; induction fuel as [|fuel IH]; intros n acc Hn Hf; [lia|]. cbn [digits_go].
  pose proof (Z.mod_pos_bound n 10 ltac:(lia)).
  destruct (n <? 10) eqn:E; b2p.
  - cbn [parse_digits]. rewrite digit_val_char by done. by rewrite Z.mod_small by lia.
  - rewrite Nat2Z.inj_succ, Z.pow_succ_r in Hn by lia.
    assert (0 < fuel)%nat by (destruct fuel; [simpl in Hn; lia|lia]).
    rewrite IH; [|split; [apply Z.div_pos; lia|apply Z.div_lt_upper_bound; lia]|done].
    cbn [parse_digits]. rewrite digit_val_char by done.
    by rewrite Z.mul_comm, <- Z.div_mod by lia.
Qed.

Lemma digits_go_cons fuel n acc :
  0 <= n -> (0 < fuel)%nat -> exists d s, digits_go fuel n acc = String (digit_char d) s /\ 0 <= d < 10.
Proof.
  revert n acc; induction fuel as [|fuel IH]; intros n acc Hn Hf; [lia|]. cbn [digits_go].
  pose proof (Z.mod_pos_bound n 10 ltac:(lia)).
  destruct (n <? 10); [by eexists _, _|].
  destruct fuel; [by eexists _, _|]. apply IH; [apply Z.div_pos|]; lia.
Qed.

Lemma parse_digits_digits n : 0 <= n -> parse_digits 0 (digits n) = Some n.
Proof.
  intros Hn. unfold digits. rewrite parse_digits_go; [done| |lia].
  split; [done|]. destruct (Z.eq_dec n 0) as [->|]; [done|].
  pose proof (Z.log2_spec n ltac:(lia)) as [_ Hlt]. pose proof (Z.log2_nonneg n).
  rewrite Nat2Z.inj_succ, Z2Nat.id by lia.
  apply Z.lt_le_trans with (2 ^ Z.succ (Z.log2 n)); [done|]. apply Z.pow_le_mono_l. lia.
Qed.

Lemma parse_udigits_digits n : 0 <= n -> parse_udigits (digits n) = Some n.
Proof.
  intros Hn. rewrite <- (parse_digits_digits n) by done. unfold parse_udigits.
  destruct (digits_go_cons (S (Z.to_nat (Z.log2 n))) n "" Hn) as (d & s & E & _); [lia|].
  unfold digits in *. by rewrite E.
Qed.

(** [strconv.ParseInt] reads back what [strconv.Itoa] prints. *)
Lemma parse_int_itoa z : int64_range z -> parse_int (itoa z) = Some z.
Proof.
  unfold int64_range, itoa. intros Hz. destruct (z <? 0) eqn:E; b2p.
  - unfold parse_int. simpl. rewrite parse_udigits_digits by lia. simpl.
    replace (- - z) with z by lia. by rewrite (proj2 (Z.leb_le _ _)), (proj2 (Z.ltb_lt _ _)) by lia.
  - assert (parse_int (digits z) = match parse_udigits (digits z) with
      | Some v => if (- 2 ^ 63 <=? v) && (v <? 2 ^ 63) then Some v else None | None => None end) as ->.
    { unfold parse_int.
      destruct (digits_go_cons (S (Z.to_nat (Z.log2 z))) z "" E) as (d & s & Ed & Hd); [lia|].
      fold (digits z) in Ed. rewrite Ed.
      assert (d = 0 \/ d = 1 \/ d = 2 \/ d = 3 \/ d = 4 \/ d = 5 \/ d = 6 \/ d = 7 \/ d = 8 \/ d = 9) as H by lia.
      by repeat destruct H as [->|H]; [..|subst]. }
    rewrite parse_udigits_digits by done.
    by rewrite (proj2 (Z.leb_le _ _)), (proj2 (Z.ltb_lt _ _)) by lia.
Qed.

(** Printed numbers hold no separator. *)
Lemma any_byte_digits_go f fuel n acc :
  (forall d, 0 <= d < 10 -> f (digit_char d) = false) -> 0 <= n ->
  any_byte f acc = false -> any_byte f (digits_go fuel n acc) = false.
Proof.
  intros Hf; revert n acc; induction fuel as [|fuel IH]; intros n acc Hn Ha; [done|]. cbn [digits_go].
  pose proof (Z.mod_pos_bound n 10 ltac:(lia)).
  assert (any_byte f (String (digit_char (n mod 10)) acc) = false) by (simpl; by rewrite Hf).
  destruct (n <? 10); [done|]. apply IH; [apply Z.div_pos; lia|done].
Qed.

Lemma any_byte_itoa f z :
  f "-"%char = false -> (forall d, 0 <= d < 10 -> f (digit_char d) = false) -> any_byte f (itoa z) = false.
Proof.
  intros Hm Hd. unfold itoa. case_match; b2p; [simpl; rewrite Hm; simpl|];
    apply any_byte_digits_go; auto; lia.
Qed.

Lemma itoa_field z : field_ok is_space (itoa z).
Proof.
  assert (forall d, 0 <= d < 10 -> is_space (digit_char d) = false) as Hs.
  { intros d Hd.
    assert (d = 0 \/ d = 1 \/ d = 2 \/ d = 3 \/ d = 4 \/ d = 5 \/ d = 6 \/ d = 7 \/ d = 8 \/ d = 9) as H by lia.
    by repeat destruct H as [->|H]; [..|subst]. }
  split; [|by apply any_byte_itoa].
  unfold itoa. case_match; [by destruct (digits (- z))|]. b2p.
  destruct (digits_go_cons (S (Z.to_nat (Z.log2 z))) z "") as (d & s & E & _); [lia..|].
  unfold digits. by rewrite E.
Qed.

(** Fields of words joined by single blanks. *)
Lemma fields_func_blank f c s : f c = true -> fields_func f (String c s) = fields_func f s.
Proof. intros Hc. unfold fields_func. simpl. by rewrite Hc. Qed.

Lemma fields_func_word f w c s :
  field_ok f w -> f c = true -> fields_func f (w +:+ String c s) = w :: fields_func f s.
Proof.
  intros [Hn Hw] Hc. unfold fields_func. rewrite fields_go_run by done. simpl. rewrite Hc.
  by destruct (String.eqb_spec w "").
Qed.

Lemma fields_join ws : Forall (field_ok is_space) ws -> fields (join " " ws) = ws.
Proof.
  induction 1 as [|w ws Hw Hws IH]; [done|]. destruct ws as [|w' ws].
  - by apply fields_func_single.
  - change (join " " (w :: w' :: ws)) with (w +:+ String " " (join " " (w' :: ws))).
    unfold fields in *. by rewrite fields_func_word, IH.
Qed.

Lemma lacks_join c sep l : lacks c sep -> Forall (lacks c) l -> lacks c (join sep l).
Proof.
  intros Hs. induction 1 as [|w ws Hw _ IH]; [done|]. destruct ws; [done|].
  change (join sep (w :: s :: ws)) with (w +:+ sep +:+ join sep (s :: ws)).
  rewrite !lacks_app. done.
Qed.

Lemma itoa_digits n : 0 <= n -> itoa n = digits n.
Proof. intros ?. unfold itoa. by destruct (Z.ltb_spec n 0); [lia|]. Qed.

Lemma itoa_no_dash n : 0 <= n -> lacks "-"%char (itoa n).
Proof.
  intros Hn. rewrite itoa_digits by done. apply any_byte_digits_go; [|done|done].
  intros d Hd. apply Ascii.eqb_neq. intros E. pose proof (digit_val_char d Hd) as Hv.
  by rewrite <- E in Hv.
Qed.

Lemma digits_inj n k : 0 <= n -> 0 <= k -> digits n = digits k -> n = k.
Proof.
  intros Hn Hk E. apply (f_equal (parse_digits 0)) in E. rewrite !parse_digits_digits in E by done.
  congruence.
Qed.

Lemma itoa_neg n : n < 0 -> itoa n = String "-" (digits (- n)).
Proof. intros ?. unfold itoa. by destruct (Z.ltb_spec n 0); [|lia]. Qed.

Lemma itoa_inj n k : itoa n = itoa k -> n = k.
Proof.
  destruct (decide (n < 0)), (decide (k < 0)).
  - rewrite !itoa_neg by done. intros [= E]. apply digits_inj in E; lia.
  - intros E. pose proof (itoa_no_dash k ltac:(lia)) as H. rewrite <- E, itoa_neg in H by done.
    by apply lacks_cons in H as [? _].
  - intros E. pose proof (itoa_no_dash n ltac:(lia)) as H. rewrite E, itoa_neg in H by done.
    by apply lacks_cons in H as [? _].
  - rewrite !itoa_digits by lia. apply digits_inj; lia.
Qed.

Lemma itoa_lacks c z : c <> "-"%char -> digit_val c = None -> lacks c (itoa z).
Proof.
  intros Hm Hd. apply any_byte_itoa; [by apply Ascii.eqb_neq|].
  intros d Hr. apply Ascii.eqb_neq. intros ->. by rewrite digit_val_char in Hd.
Qed.

Lemma fields_spaces n s : fields (spaces n +:+ s) = fields s.
Proof. induction n as [|n IH]; [done|]. unfold fields in *. simpl. by rewrite fields_func_blank. Qed.

Lemma last_index_byte_lacks c s : lacks c s -> last_index_byte c s = None.
Proof.
  induction s as [|a s IH]; [done|]. rewrite lacks_cons. intros [Ha Hs]. simpl.
  rewrite IH by done. by apply Ascii.eqb_neq in Ha as ->.
Qed.

Lemma last_index_byte_app c s t :
  lacks c t -> last_index_byte c (s +:+ String c t) = Some (String.length s).
Proof.
  intros Ht. induction s as [|a s IH]; simpl.
  - by rewrite last_index_byte_lacks, Ascii.eqb_refl.
  - by rewrite IH.
Qed.

Lemma str_drop_past s c t : str_drop (String.length s + 1) (s +:+ String c t) = t.
Proof. by rewrite <- str_drop_drop, str_drop_app. Qed.

Lemma fields_go_trailing f c cur s : f c = true -> fields_go f cur (s +:+ String c "") = fields_go f cur s.
Proof.
  intros Hc. revert cur. induction s as [|a s IH]; intros cur; simpl.
  - rewrite Hc. by destruct (String.eqb cur "").
  - by rewrite !IH.
Qed.

Lemma fields_trailing c s : is_space c = true -> fields (s +:+ String c "") = fields s.
Proof. apply fields_go_trailing. Qed.

Lemma trim_right_app f s t : t <> "" -> any_byte f t = false -> trim_right_func f (s +:+ t) = s +:+ t.
Proof.
  intros Hn Ht. induction s as [|a s IH]; [by apply trim_right_none|]. simpl. rewrite IH.
  by destruct s, t.
Qed.

Lemma trim_right_head f a s : f a = false -> exists r, trim_right_func f (String a s) = String a r.
Proof. intros Ha. simpl. destruct (trim_right_func f s); [rewrite Ha|]; eauto. Qed.

Lemma join_ends sep ws : ws <> [] -> exists s t, join sep ws = s +:+ t /\ t ∈ ws.
Proof.
  induction ws as [|w [|w' ws] IH]; intros H; [done| |].
  - exists "", w. split; [done|by left].
  - destruct IH as (s & t & E & Ht); [done|].
    exists (w +:+ sep +:+ s), t. change (join sep (w :: w' :: ws)) with (w +:+ sep +:+ join sep (w' :: ws)).
    rewrite E, !str_app_assoc. split; [done|by right].
Qed.

Lemma trim_space_join ws : ws <> [] -> Forall (field_ok is_space) ws -> trim_space (join " " ws) = join " " ws.
Proof.
  intros Hn H. unfold trim_space. assert (trim_left_func is_space (join " " ws) = join " " ws) as ->.
  { destruct H as [|w ws [Hw1 Hw2] _]; [done|]. destruct w as [|a w]; [done|]. simpl in Hw2.
    apply orb_false_iff in Hw2 as [Ha _]. destruct ws; simpl; by rewrite Ha. }
  destruct (join_ends " " ws Hn) as (s & t & -> & Ht).
  rewrite Forall_forall in H. destruct (H t Ht). by apply trim_right_app.
Qed.

Lemma trim_suffix_lacks_none c s : lacks c s -> trim_suffix (String c "") s = s.
Proof.
  intros H. apply trim_suffix_none. destruct (has_suffix (String c "") s) eqn:E; [|done].
  apply has_suffix_spec in E as (t & ->). apply lacks_app in H as [_ H]. by apply lacks_cons in H as [? _].
Qed.

Lemma field_lacks f c s : f c = true -> field_ok f s -> lacks c s.
Proof.
  intros Hc [_ Hs]. eapply any_byte_impl; [|exact Hs]. intros d E%Ascii.eqb_eq. by subst.
Qed.

(** ** Where a piece of text occurs *)

Definition occurs (x s : string) : Prop := exists p q, s = p +:+ x +:+ q.

Lemma occurs_refl x : occurs x x.
Proof. exists "", "". by rewrite str_app_nil_r. Qed.

Lemma occurs_app_l x s t : occurs x s -> occurs x (s +:+ t).
Proof. intros (p & q & ->). exists p, (q +:+ t). by rewrite !str_app_assoc. Qed.

Lemma occurs_app_r x s t : occurs x t -> occurs x (s +:+ t).
Proof. intros (p & q & ->). exists (s +:+ p), q. by rewrite !str_app_assoc. Qed.

Lemma occurs_concat {A} (f : A -> string) l a : a ∈ l -> occurs (f a) (concat_all (map f l)).
Proof.
  induction 1 as [|a b l _ IH]; simpl; [apply occurs_app_l, occurs_refl|by apply occurs_app_r].
Qed.

Ltac occurs_in := solve [assumption | apply occurs_app_r; occurs_in | apply occurs_app_l; occurs_in].


(** [Forall] of a decidable test over a concrete list. *)
Ltac forall_eval := repeat (apply Forall_cons; split; [reflexivity|]); apply Forall_nil; exact I.

(** ** The lines of a file *)

Definition lines_of (ls : list string) : string := join nls ls +:+ nls.

(** The lines a reader of the file sees: the pieces between newlines. *)
Definition read_back (file : string) : list string := split nl (trim_suffix nls file).

Lemma read_back_lines ls : ls <> [] -> Forall (lacks nl) ls -> read_back (lines_of ls) = ls.
Proof. intros Hn Hl. unfold read_back, lines_of. rewrite trim_suffix_app. by apply split_join. Qed.

(** A file written a line at a time. *)
Lemma lines_of_concat {A} (f : A -> string) l :
  l <> [] -> concat_all (map (fun x => f x +:+ nls) l) = lines_of (map f l).
Proof.
  unfold lines_of. induction l as [|x [|y l] IH]; [done|intros _; simpl; by rewrite str_app_nil_r|intros _].
  cbn [map concat_all]. cbn [map concat_all] in IH. rewrite IH by done. cbn [join]. by rewrite !str_app_assoc.
Qed.

(** What is between [before] and [after] on a line. *)
Definition unwrap (before after line : string) : option string :=
  if has_prefix before line then
    let rest := str_drop (String.length before) line in
    if has_suffix after rest then Some (trim_suffix after rest) else None
  else None.

Lemma unwrap_wrap before after x : unwrap before after (before +:+ x +:+ after) = Some x.
Proof. unfold unwrap. by rewrite has_prefix_app, str_drop_app, has_suffix_app, trim_suffix_app. Qed.

(** The whole lines [ls] follow one another in a file, after its first line. *)
Definition has_lines (ls : list string) (file : string) : Prop :=
  exists p q, file = p +:+ nls +:+ lines_of ls +:+ q.

Lemma has_lines_app_r ls s t : has_lines ls t -> has_lines ls (s +:+ t).
Proof. intros (p & q & ->). exists (s +:+ p), q. by rewrite !str_app_assoc. Qed.

Lemma has_lines_app_l ls s t : has_lines ls s -> has_lines ls (s +:+ t).
Proof. intros (p & q & ->). exists p, (q +:+ t). by rewrite !str_app_assoc. Qed.
