(* ===== verification/GoFloat.v ===== *)
(** * Go's [float64], [time.Duration] and their printed forms

    [float64] is IEEE 754 binary64, the Standard Library's executable
    specification of it ([SpecFloat] at 53 bits and exponent bound 1024).
    [time.Duration] is an [int64] of nanoseconds.  The one theorem-sized fact
    here is [fmul_unit_bound]: a product of a fraction in [0, 1] with an
    integer below 2^53 never rounds past the integer, which is what keeps the
    percentile indices of the harness in range. *)

From Stdlib Require Import SpecFloat.
From S2P Require Import Prelude GoStrings.

Notation float64 := spec_float.

Definition fprec : Z := 53.
Definition femax : Z := 1024.

Definition f_of_Z (z : Z) : float64 := binary_normalize fprec femax z 0 false.
Definition fadd (x y : float64) : float64 := SFadd fprec femax x y.
Definition fsub (x y : float64) : float64 := SFsub fprec femax x y.
Definition fmul (x y : float64) : float64 := SFmul fprec femax x y.
Definition fdiv (x y : float64) : float64 := SFdiv fprec femax x y.
Definition flt (x y : float64) : bool := SFltb x y.
Definition fle (x y : float64) : bool := SFleb x y.

(** A decimal constant [n / d]: the quotient of two exact integers is
    correctly rounded, as the compiler rounds the constant. *)
Definition fconst (n d : Z) : float64 := fdiv (f_of_Z n) (f_of_Z d).

(** [int(f)]: truncation towards zero.  The result of a conversion that does
    not fit is implementation-defined in Go; on amd64 it is the smallest
    [int64]. *)
Definition trunc64 (f : float64) : Z :=
  match f with
  | S754_zero _ => 0
  | S754_finite s m e =>
      let v := if 0 <=? e then Zpos m * 2 ^ e else Zpos m / 2 ^ (- e) in
      let v := if s then - v else v in
      if (- 2 ^ 63 <=? v) && (v <? 2 ^ 63) then v else - 2 ^ 63
  | _ => - 2 ^ 63
  end.

(** ** [%.Nf]: the exact decimal value, rounded half to even *)

Definition round_half_even_div (a b : Z) : Z :=
  let q := a / b in
  let r := 2 * (a mod b) in
  if r <? b then q
  else if b <? r then q + 1
  else if Z.even q then q else q + 1.

Definition fmt_scaled (prec : nat) (v : Z) : string :=
  let s := digits v in
  match prec with
  | O => s
  | _ =>
      let padded := concat_all (repeat "0" (S prec - String.length s)) +:+ s in
      let cutat := (String.length padded - prec)%nat in
      str_take cutat padded +:+ "." +:+ str_drop cutat padded
  end.

Definition fmt_float (prec : nat) (f : float64) : string :=
  match f with
  | S754_nan => "NaN"
  | S754_infinity false => "+Inf"
  | S754_infinity true => "-Inf"
  | S754_zero s => (if s then "-" else "") +:+ fmt_scaled prec 0
  | S754_finite s m e =>
      let scaled := Zpos m * 10 ^ Z.of_nat prec in
      let v := if 0 <=? e then scaled * 2 ^ e else round_half_even_div scaled (2 ^ (- e)) in
      (if s then "-" else "") +:+ fmt_scaled prec v
  end.

Example fmt_float_ex1 : fmt_float 1 (fconst 125 1000) = "0.1".
Proof. reflexivity. Qed.
Example fmt_float_ex2 : fmt_float 0 (fdiv (f_of_Z 100) (f_of_Z 3)) = "33".
Proof. reflexivity. Qed.
Example fmt_float_ex3 : fmt_float 2 (fconst 2 1000) = "0.00".
Proof. reflexivity. Qed.

(** ** Durations *)

Notation duration := Z (only parsing).

Definition nanosecond : duration := 1.
Definition microsecond : duration := 1000.
Definition millisecond : duration := 1000 * microsecond.
Definition second : duration := 1000 * millisecond.
Definition minute : duration := 60 * second.

(** [d.Seconds()]: whole seconds plus the fraction, both as [float64]. *)
Definition seconds (d : duration) : float64 :=
  fadd (f_of_Z (Z.quot d second)) (fdiv (f_of_Z (Z.rem d second)) (f_of_Z second)).

Definition microseconds (d : duration) : Z := Z.quot d microsecond.
Definition milliseconds (d : duration) : Z := Z.quot d millisecond.

(** [d.Round(m)]: to the nearest multiple of [m], halves away from zero,
    saturating at the ends of [int64]. *)
Definition round_dur (d m : duration) : duration :=
  if m <=? 0 then d
  else
    let r := Z.rem d m in
    if d <? 0 then
      let r := - r in
      if wrap64 (r + r) <? m then d + r
      else let d1 := wrap64 (d - m + r) in if d1 <? d then d1 else - 2 ^ 63
    else if wrap64 (r + r) <? m then d - r
    else let d1 := wrap64 (d + m - r) in if d <? d1 then d1 else 2 ^ 63 - 1.

Fixpoint strip_zeros_right (s : string) : string :=
  match s with
  | EmptyString => EmptyString
  | String a s' =>
      match strip_zeros_right s' with
      | EmptyString => if Ascii.eqb a "0"%char then EmptyString else String a EmptyString
      | r => String a r
      end
  end.

(** [v / 10^prec] with its fraction's trailing zeros omitted. *)
Definition fmt_frac (v : Z) (prec : nat) : string :=
  let p := 10 ^ Z.of_nat prec in
  let f := digits (v mod p) in
  let f := strip_zeros_right (concat_all (repeat "0" (prec - String.length f)) +:+ f) in
  digits (v / p) +:+ (if String.eqb f "" then "" else "." +:+ f).

(** [d.String()]. *)
Definition dur_string (d : duration) : string :=
  let u := Z.abs d in
  let sign := if d <? 0 then "-" else "" in
  sign +:+
  if u =? 0 then "0s"
  else if u <? microsecond then digits u +:+ "ns"
  else if u <? millisecond then fmt_frac u 3 +:+ "µs"
  else if u <? second then fmt_frac u 6 +:+ "ms"
  else
    let s := u / second in
    let secs := fmt_frac (u mod minute) 9 +:+ "s" in
    if s <? 60 then secs
    else
      let m := s / 60 in
      let mins := digits (m mod 60) +:+ "m" +:+ secs in
      if m <? 60 then mins else digits (m / 60) +:+ "h" +:+ mins.

Example dur_string_ex1 : dur_string minute = "1m0s".
Proof. reflexivity. Qed.
Example dur_string_ex2 : dur_string (5 * second + 250 * millisecond) = "5.25s".
Proof. reflexivity. Qed.
Example dur_string_ex3 : dur_string 1500 = "1.5µs".
Proof. reflexivity. Qed.
Example dur_string_ex4 : dur_string (3661 * second) = "1h1m1s".
Proof. reflexivity. Qed.

(** ** Rounding never passes an integer bound *)

Lemma digits2_bounds m : 2 ^ (Zpos (digits2_pos m) - 1) <= Zpos m < 2 ^ Zpos (digits2_pos m).
Proof.
  induction m as [m IH|m IH|]; [..|by simpl].
  all: cbn [digits2_pos]; rewrite Pos2Z.inj_succ, Z.pow_succ_r by lia.
  all: replace (Z.succ (Zpos (digits2_pos m)) - 1) with (Z.succ (Zpos (digits2_pos m) - 1)) by lia.
  all: rewrite Z.pow_succ_r by lia; lia.
Qed.

Lemma iter_pos_nat {A} (f : A -> A) p x : SpecFloat.iter_pos f p x = Nat.iter (Pos.to_nat p) f x.
Proof.
  revert x; induction p as [p IH|p IH|]; intros x; simpl SpecFloat.iter_pos; [..|done].
  - rewrite !IH, Pos2Nat.inj_xI, <- Nat.iter_add.
    replace (S (2 * Pos.to_nat p)) with (Pos.to_nat p + Pos.to_nat p + 1)%nat by lia.
    by rewrite (Nat.iter_add _ 1).
  - rewrite !IH, Pos2Nat.inj_xO, <- Nat.iter_add. f_equal. lia.
Qed.

(** What a right shift keeps: the quotient, and whether the rest was zero. *)
Definition shr_inv (m : Z) (n : nat) (r : shr_record) : Prop :=
  shr_m r = m / 2 ^ Z.of_nat n /\
  (shr_r r || shr_s r = true -> m mod 2 ^ Z.of_nat n <> 0).

Lemma shr_1_spec r : 0 <= shr_m r ->
  shr_m (shr_1 r) = shr_m r / 2 /\
  (shr_r (shr_1 r) || shr_s (shr_1 r)) = (negb (shr_m r mod 2 =? 0) || (shr_r r || shr_s r)).
Proof.
  destruct r as [m r s]; simpl. intros Hm.
  destruct m as [|p|p]; [by destruct r, s| |lia].
  rewrite Zmod_odd, <- Z.div2_div. by destruct p as [p|p|], r, s.
Qed.

Lemma shr_iter_spec m n : 0 <= m -> shr_inv m n (Nat.iter n shr_1 (Build_shr_record m false false)).
Proof.
  intros Hm. induction n as [|n [IHm IHr]]; [split; simpl; [by rewrite Z.div_1_r|done]|].
  change (Nat.iter (S n) shr_1 ?x) with (shr_1 (Nat.iter n shr_1 x)).
  set (r := Nat.iter n shr_1 _) in *.
  assert (0 <= shr_m r) by (rewrite IHm; apply Z.div_pos; lia).
  destruct (shr_1_spec r H) as [E1 E2]. unfold shr_inv. rewrite E1, E2, IHm.
  rewrite Nat2Z.inj_succ, Z.pow_succ_r by lia. rewrite (Z.mul_comm 2).
  assert (0 < 2 ^ Z.of_nat n) by lia.
  split; [by rewrite Z.div_div by lia|].
  rewrite Z.rem_mul_r by lia. intros [Hq|Hq]%orb_true_iff.
  - apply negb_true_iff, Z.eqb_neq in Hq.
    pose proof (Z.mod_pos_bound m (2 ^ Z.of_nat n)).
    pose proof (Z.mod_pos_bound (m / 2 ^ Z.of_nat n) 2). nia.
  - specialize (IHr Hq). pose proof (Z.mod_pos_bound m (2 ^ Z.of_nat n)).
    pose proof (Z.mod_pos_bound (m / 2 ^ Z.of_nat n) 2). nia.
Qed.

Lemma round_nearest_even_le m n r B :
  shr_inv m n r -> m <= B * 2 ^ Z.of_nat n ->
  round_nearest_even (shr_m r) (loc_of_shr_record r) <= B.
Proof.
  intros [Hm Hr] HB. assert (0 < 2 ^ Z.of_nat n) by lia.
  assert (m / 2 ^ Z.of_nat n <= B) by (apply Z.div_le_upper_bound; lia).
  assert (shr_r r || shr_s r = true -> m / 2 ^ Z.of_nat n + 1 <= B).
  { intros Hi. specialize (Hr Hi). apply Z.le_succ_l, Z.div_lt_upper_bound; [lia|].
    destruct (Z.eq_dec m (B * 2 ^ Z.of_nat n)) as [->|]; [|lia].
    by rewrite Z.mod_mul in Hr by lia. }
  rewrite Hm in *. destruct r as [m' [] []]; simpl in *; try lia; [|auto..].
  specialize (H1 eq_refl). case_match; lia.
Qed.

(** [f] is a number between zero and the integer [N]. *)
Definition within (N : Z) (f : float64) : Prop :=
  match f with
  | S754_zero _ => 0 <= N
  | S754_finite false m e => e <= 0 /\ Zpos m <= N * 2 ^ (- e)
  | _ => False
  end.

Lemma within_trunc N f : N < 2 ^ 63 -> within N f -> 0 <= trunc64 f <= N.
Proof.
  intros HN. destruct f as [s|s| |[] m e]; simpl; try done.
  intros [He Hm].
  assert (Zpos m / 2 ^ (- e) <= N) by (apply Z.div_le_upper_bound; lia).
  assert (0 <= Zpos m / 2 ^ (- e)) by (apply Z.div_pos; lia).
  destruct (0 <=? e) eqn:E; b2p.
  - replace e with 0 in * by lia. simpl in *. rewrite Z.div_1_r in *. case_match; b2p; lia.
  - case_match; b2p; lia.
Qed.

Definition bits (m : Z) : Z := Zdigits2 m.

Lemma bits_bounds m : 0 < m -> 0 < bits m /\ 2 ^ (bits m - 1) <= m < 2 ^ bits m.
Proof. destruct m; try lia. intros _. split; [done|]. apply digits2_bounds. Qed.

(** Shifting to the format's exponent, for a number below an integer of at
    most 53 bits: the exponent stays at most zero. *)
Lemma shr_fexp_spec m e N :
  0 <= m -> e <= 0 -> N < 2 ^ 53 -> m <= N * 2 ^ (- e) ->
  exists n, let '(r, e') := shr_fexp fprec femax m e loc_Exact in
    shr_inv m n r /\ e' = e + Z.of_nat n /\ e' <= 0.
Proof.
  intros Hm He HN HB. unfold shr_fexp. set (d := fexp _ _ _ - e).
  assert (bits m + e <= 53) as Hd.
  { destruct (Z.eq_dec m 0) as [->|]; [simpl; lia|].
    destruct (bits_bounds m) as (Hp & Hlo & _); [lia|].
    assert (2 ^ (bits m - 1) < 2 ^ (53 - e)).
    { apply Z.le_lt_trans with m; [done|]. apply Z.le_lt_trans with (N * 2 ^ (- e)); [done|].
      replace (53 - e) with (53 + - e) by lia. rewrite Z.pow_add_r by lia.
      apply Z.mul_lt_mono_pos_r; lia. }
    apply Z.pow_lt_mono_r_iff in H; lia. }
  destruct d as [|p|p] eqn:Ed.
  - exists 0%nat. simpl. split; [|lia]. split; simpl; [by rewrite Z.div_1_r|done].
  - exists (Pos.to_nat p). simpl. rewrite iter_pos_nat. split; [|split].
    + apply shr_iter_spec. lia.
    + lia.
    + rewrite <- Ed. unfold d, fexp, emin, fprec, femax. fold (bits m). lia.
  - exists 0%nat. simpl. split; [|lia]. split; simpl; [by rewrite Z.div_1_r|done].
Qed.

Lemma binary_round_aux_within m e N :
  0 < m -> e <= 0 -> N < 2 ^ 53 -> m <= N * 2 ^ (- e) ->
  within N (binary_round_aux fprec femax false m e loc_Exact).
Proof.
  intros Hm He HN HB. unfold binary_round_aux.
  destruct (shr_fexp_spec m e N) as [n Hn]; [lia|done..|].
  destruct (shr_fexp _ _ m e _) as [r e']. destruct Hn as (Hr & -> & He').
  set (m' := round_nearest_even _ _).
  assert (m' <= N * 2 ^ (- (e + Z.of_nat n))) as Hm'.
  { eapply round_nearest_even_le; [exact Hr|].
    rewrite <- Z.mul_assoc, <- Z.pow_add_r by lia.
    by replace (- (e + Z.of_nat n) + Z.of_nat n) with (- e) by lia. }
  assert (0 <= m') as Hm0.
  { destruct Hr as [Hq _]. assert (0 <= shr_m r) by (rewrite Hq; apply Z.div_pos; lia).
    unfold m'. clear -H. destruct r as [q [] []]; simpl in *; try case_match; lia. }
  assert (0 <= N) by nia.
  destruct (shr_fexp_spec m' (e + Z.of_nat n) N) as [n2 Hn2]; [lia|done..|].
  destruct (shr_fexp _ _ m' _ _) as [r2 e2]. destruct Hn2 as ([Hq2 _] & -> & He2).
  assert (0 <= shr_m r2) by (rewrite Hq2; apply Z.div_pos; lia).
  destruct (shr_m r2) as [|p|p] eqn:Ep; [done| |lia].
  replace (_ <=? femax - fprec) with true by (symmetry; unfold femax, fprec; lia).
  split; [done|]. rewrite Hq2. apply Z.div_le_upper_bound; [lia|].
  rewrite Z.mul_comm, <- Z.mul_assoc, <- Z.pow_add_r by lia.
  by replace (- (e + Z.of_nat n + Z.of_nat n2) + Z.of_nat n2) with (- (e + Z.of_nat n)) by lia.
Qed.

(** Aligning a mantissa of at most 53 bits to exactly 53. *)
Lemma shl_align_53 p :
  Zpos (digits2_pos p) <= 53 ->
  exists mz ez, shl_align p 0 (fexp fprec femax (Zpos (digits2_pos p) + 0)) = (mz, ez) /\
    ez = Zpos (digits2_pos p) - 53 /\ Zpos mz = Zpos p * 2 ^ (- ez).
Proof.
  intros Hd. rewrite Z.add_0_r. unfold shl_align.
  replace (fexp fprec femax (Zpos (digits2_pos p))) with (Zpos (digits2_pos p) - 53)
    by (unfold fexp, emin, fprec, femax; lia).
  rewrite Z.sub_0_r. set (k := Zpos (digits2_pos p) - 53) in *.
  destruct k as [|q|q] eqn:Ek; [exists p, 0; split; [done|split;[done|]]; simpl; lia|lia|].
  eexists _, _; split; [done|]. split; [done|].
  clear. rewrite Pos2Z.opp_neg.
  induction q as [|q IHq] using Pos.peano_ind; [rewrite Z.pow_1_r; simpl; lia|].
  rewrite Pos.iter_succ, Pos2Z.inj_xO, IHq, Pos2Z.inj_succ, Z.pow_succ_r by lia. lia.
Qed.

Lemma bits_shl p mz :
  Zpos (digits2_pos p) <= 53 -> Zpos mz = Zpos p * 2 ^ (53 - Zpos (digits2_pos p)) ->
  bits (Zpos mz) = 53.
Proof.
  intros Hd Hmz. destruct (digits2_bounds p) as [Hlo Hhi].
  destruct (bits_bounds (Zpos mz)) as (Hb & Hlo' & Hhi'); [lia|].
  set (d := Zpos (digits2_pos p)) in *. set (b := bits (Zpos mz)) in *. rewrite Hmz in Hlo', Hhi'.
  assert (2 ^ (d - 1) * 2 ^ (53 - d) <= Zpos p * 2 ^ (53 - d) < 2 ^ d * 2 ^ (53 - d)) as [L R]
    by (split; [apply Z.mul_le_mono_nonneg_r|apply Z.mul_lt_mono_pos_r]; lia).
  rewrite <- Z.pow_add_r in L, R by lia.
  replace (d - 1 + (53 - d)) with 52 in L by lia. replace (d + (53 - d)) with 53 in R by lia.
  assert (2 ^ 52 < 2 ^ b) as T1 by lia. assert (2 ^ (b - 1) < 2 ^ 53) as T2 by lia.
  apply Z.pow_lt_mono_r_iff in T1; [|lia..]. apply Z.pow_lt_mono_r_iff in T2; lia.
Qed.

(** A mantissa of exactly 53 bits is already rounded. *)
Lemma binary_round_aux_53 mz k :
  bits (Zpos mz) = 53 -> -1000 <= k <= 0 ->
  binary_round_aux fprec femax false (Zpos mz) k loc_Exact = S754_finite false mz k.
Proof.
  intros Hb Hk. unfold binary_round_aux, shr_fexp at 1. fold (bits (Zpos mz)). rewrite Hb.
  replace (fexp fprec femax (53 + k) - k) with 0 by (unfold fexp, emin, fprec, femax; lia).
  simpl shr. cbn [shr_m loc_of_shr_record shr_record_of_loc round_nearest_even].
  unfold shr_fexp. fold (bits (Zpos mz)). rewrite Hb.
  replace (fexp fprec femax (53 + k) - k) with 0 by (unfold fexp, emin, fprec, femax; lia).
  simpl. by replace (k <=? femax - fprec) with true by (symmetry; unfold femax, fprec; lia).
Qed.

(** A small non-negative integer converts exactly. *)
Lemma f_of_Z_exact N :
  0 < N < 2 ^ 53 -> exists m e, f_of_Z N = S754_finite false m e /\ e <= 0 /\ Zpos m = N * 2 ^ (- e).
Proof.
  intros HN. destruct N as [|p|]; try lia. unfold f_of_Z, binary_normalize, binary_round.
  destruct (digits2_bounds p) as [Hlo Hhi].
  assert (Zpos (digits2_pos p) <= 53) as Hd.
  { assert (2 ^ (Zpos (digits2_pos p) - 1) < 2 ^ 53) by lia.
    apply Z.pow_lt_mono_r_iff in H; lia. }
  destruct (shl_align_53 p Hd) as (mz & ez & -> & -> & Hmz).
  replace (- (Zpos (digits2_pos p) - 53)) with (53 - Zpos (digits2_pos p)) in Hmz by lia.
  exists mz, (Zpos (digits2_pos p) - 53). rewrite binary_round_aux_53; [|by eapply bits_shl|lia].
  split; [done|]. split; [lia|].
  by replace (- (Zpos (digits2_pos p) - 53)) with (53 - Zpos (digits2_pos p)) by lia.
Qed.

(** A fraction of an integer below 2^53 rounds to at most that integer. *)
Lemma fmul_unit_bound q N :
  within 1 q -> 0 <= N < 2 ^ 53 -> 0 <= trunc64 (fmul q (f_of_Z N)) <= N.
Proof.
  intros Hq HN. apply within_trunc; [lia|].
  destruct (Z.eq_dec N 0) as [->|]; [by destruct q as [| | |[|]]|].
  destruct (f_of_Z_exact N) as (m & e & -> & He & Hm); [lia|].
  destruct q as [s|s| |[] mq eq]; simpl in Hq; try done; [simpl; lia|].
  destruct Hq as [Heq Hmq]. simpl.
  apply binary_round_aux_within; try lia.
  rewrite Pos2Z.inj_mul, Hm.
  replace (- (eq + e)) with (- eq + - e) by lia. rewrite Z.pow_add_r by lia. nia.
Qed.

(** ** The order of the floats

    [SFcompare] orders the floats that are not NaN by sign, exponent and
    mantissa. *)

Definition is_nan (f : float64) : bool := match f with S754_nan => true | _ => false end.

Definition fkey (f : float64) : Z * Z * Z :=
  match f with
  | S754_nan => (0, 0, 0)
  | S754_zero _ => (0, 0, 0)
  | S754_infinity true => (-2, 0, 0)
  | S754_infinity false => (2, 0, 0)
  | S754_finite true m e => (-1, - e, - Zpos m)
  | S754_finite false m e => (1, e, Zpos m)
  end.

Definition key_lt (a b : Z * Z * Z) : Prop :=
  let '(s, e, m) := a in let '(s', e', m') := b in
  s < s' \/ s = s' /\ (e < e' \/ e = e' /\ m < m').

Lemma flt_key x y : is_nan x = false -> is_nan y = false -> flt x y = true <-> key_lt (fkey x) (fkey y).
Proof.
  unfold flt, SFltb, SFcompare, key_lt.
  destruct x as [[]|[]| |[] m e], y as [[]|[]| |[] m' e']; simpl; intros Hx Hy; try done;
    try (split; [done|lia]); try (split; [lia|done]);
    rewrite ?Pos.compare_cont_spec; try change (Pos.compare_cont Eq m m') with (Pos.compare m m');
    destruct (Z.compare_spec e e'); simpl; try (split; [done|lia]); try (split; [lia|done]);
    destruct (Pos.compare_spec m m'); simpl; subst; (split; [done || lia|done || lia]).
Qed.

Lemma flt_irrefl x : flt x x = false.
Proof.
  destruct (is_nan x) eqn:E; [by destruct x|]. apply not_true_iff_false.
  rewrite flt_key by done. destruct (fkey x) as [[s e] m]. simpl. lia.
Qed.

Lemma flt_asym x y : is_nan x = false -> is_nan y = false -> flt x y = true -> flt y x = false.
Proof.
  intros Hx Hy H%flt_key; [|done..]. apply not_true_iff_false. rewrite flt_key by done.
  destruct (fkey x) as [[s e] m], (fkey y) as [[s' e'] m']. simpl in *. lia.
Qed.

(** Not being less is transitive. *)
Lemma nlt_trans x y z :
  is_nan x = false -> is_nan y = false -> is_nan z = false ->
  flt x y = false -> flt y z = false -> flt x z = false.
Proof.
  intros Hx Hy Hz. rewrite <- !not_true_iff_false, !flt_key by done.
  destruct (fkey x) as [[s e] m], (fkey y) as [[s' e'] m'], (fkey z) as [[s2 e2] m2]. simpl. lia.
Qed.
