(* ===== verification/FloatFixed.v ===== *)
(** * Sums and quotients of [float64] at a fixed point

    What rounding does to the figures of a pacer: a float that is not negative
    is a whole number of units of [2^-110], an addition or a division by a
    thousand is off by at most one part in [2^52], and taking one from a float
    that is at least one is exact. *)

From Stdlib Require Import SpecFloat.
From S2P Require Import Prelude GoStrings GoFloat.

(** ** The value of a float

    A float that is not negative, as a count of units of [2^-110].  It is
    [regular] when it has its full 53 bits and none below the unit: every
    figure of a pacer is.  An operation on regular floats that rounds is off by
    at most one part in [2^52]. *)

Definition fixed_point : Z := 110.

Definition fixed (f : float64) : Z :=
  match f with S754_finite false m e => Zpos m * 2 ^ (e + fixed_point) | _ => 0 end.

Definition regular (f : float64) : Prop :=
  match f with
  | S754_zero s => s = false
  | S754_finite false m e => bits (Zpos m) = 53 /\ - fixed_point <= e <= 0
  | _ => False
  end.

Lemma bits_of m k : 0 < k -> 2 ^ (k - 1) <= m < 2 ^ k -> bits m = k.
Proof.
  intros Hk [Hlo Hhi]. assert (0 < m) by (pose proof (Z.pow_pos_nonneg 2 (k - 1)); lia).
  destruct (bits_bounds m) as (Hp & Hlo' & Hhi'); [done|].
  assert (2 ^ (k - 1) < 2 ^ bits m) as T1 by lia. assert (2 ^ (bits m - 1) < 2 ^ k) as T2 by lia.
  apply Z.pow_lt_mono_r_iff in T1; [|lia..]. apply Z.pow_lt_mono_r_iff in T2; lia.
Qed.

(** What is left of a shift, whatever was lost before it. *)
Lemma shr_iter_quotient r n : 0 <= shr_m r -> shr_m (Nat.iter n shr_1 r) = shr_m r / 2 ^ Z.of_nat n.
Proof.
  intros Hm. induction n as [|n IH]; [by rewrite Z.div_1_r|].
  change (Nat.iter (S n) shr_1 r) with (shr_1 (Nat.iter n shr_1 r)).
  assert (0 <= shr_m (Nat.iter n shr_1 r)) as H by (rewrite IH; apply Z.div_pos; lia).
  destruct (shr_1_spec _ H) as [-> _]. rewrite IH, Nat2Z.inj_succ, Z.pow_succ_r, (Z.mul_comm 2) by lia.
  apply Z.div_div; lia.
Qed.

Lemma round_nearest_near q l : q <= round_nearest_even q l <= q + 1.
Proof. destruct l as [|[]]; simpl; try case_match; lia. Qed.

(** Shifting to 53 bits: the quotient, and nothing lost when it divides. *)
Lemma shr_fexp_53 q e loc :
  53 <= bits q -> 0 < q -> - fixed_point <= e ->
  exists r, shr_fexp fprec femax q e loc = (r, e + (bits q - 53)) /\
    shr_m r = q / 2 ^ (bits q - 53) /\
    (loc = loc_Exact -> q mod 2 ^ (bits q - 53) = 0 -> loc_of_shr_record r = loc_Exact).
Proof.
  intros Hb Hq He. unfold shr_fexp. fold (bits q).
  replace (fexp fprec femax (bits q + e) - e) with (bits q - 53)
    by (unfold fexp, emin, fprec, femax, fixed_point in *; lia).
  assert (shr_m (shr_record_of_loc q loc) = q) as Hr by (by destruct loc as [|[]]).
  destruct (bits q - 53) as [|p|p] eqn:En; [| |lia].
  - exists (shr_record_of_loc q loc). rewrite Hr, Z.add_0_r, Z.div_1_r. split_and!; try done. by intros ->.
  - exists (Nat.iter (Pos.to_nat p) shr_1 (shr_record_of_loc q loc)). simpl shr. rewrite iter_pos_nat.
    rewrite shr_iter_quotient, Hr, positive_nat_Z by (rewrite Hr; lia). split_and!; try done.
    intros -> Hm. destruct (shr_iter_spec q (Pos.to_nat p)) as [_ H]; [lia|].
    rewrite positive_nat_Z in H. simpl in *.
    destruct (Nat.iter _ _ _) as [m [] []]; simpl in *; try done; by specialize (H eq_refl).
Qed.

Lemma round_aux_fixed q e loc :
  53 <= bits q -> 0 < q -> - fixed_point <= e -> e + bits q <= 52 ->
  let n := bits q - 53 in
  let r := binary_round_aux fprec femax false q e loc in
  regular r /\ q / 2 ^ n * 2 ^ (e + n + fixed_point) <= fixed r <= (q / 2 ^ n + 1) * 2 ^ (e + n + fixed_point) /\
  (loc = loc_Exact -> q mod 2 ^ n = 0 -> fixed r = q * 2 ^ (e + fixed_point)).
Proof.
  intros Hb Hq He Hhi. cbv zeta. destruct (shr_fexp_53 q e loc Hb Hq He) as (r & Er & Hm & Hx).
  unfold binary_round_aux. rewrite Er, Hm. clear Er. set (n := bits q - 53) in *.
  destruct (bits_bounds q Hq) as (_ & Hlo & Hhi').
  assert (0 < 2 ^ n) as Hn by (apply Z.pow_pos_nonneg; lia).
  assert (2 ^ 52 <= q / 2 ^ n < 2 ^ 53) as [Q1 Q2].
  { split; [apply Z.div_le_lower_bound|apply Z.div_lt_upper_bound]; try done;
      rewrite <- Z.pow_add_r by lia; [replace (n + 52) with (bits q - 1) by lia|replace (n + 53) with (bits q) by lia]; done. }
  assert (loc = loc_Exact -> q mod 2 ^ n = 0 -> q / 2 ^ n * 2 ^ (e + n + fixed_point) = q * 2 ^ (e + fixed_point)) as Hex.
  { intros _ Hr. replace (e + n + fixed_point) with (n + (e + fixed_point)) by lia.
    rewrite Z.pow_add_r, Z.mul_assoc by lia. f_equal. rewrite Z.mul_comm. symmetry. by apply Z_div_exact_full_2; [lia|]. }
  pose proof (round_nearest_near (q / 2 ^ n) (loc_of_shr_record r)) as Hround.
  assert (loc = loc_Exact -> q mod 2 ^ n = 0 ->
    round_nearest_even (q / 2 ^ n) (loc_of_shr_record r) = q / 2 ^ n) as Hround'
    by (intros Hl Hr; by rewrite (Hx Hl Hr)).
  set (m' := round_nearest_even _ _) in *. clearbody m'.
  assert (bits m' = 53 /\ 0 < m' \/ m' = 2 ^ 53) as [[Hb' Hp]|Hm'].
  { destruct (Z.eq_dec m' (2 ^ 53)) as [|Hne]; [by right|left]. split; [apply bits_of|]; lia. }
  - destruct (shr_fexp_53 m' (e + n) loc_Exact) as (r2 & -> & Hm2 & _); [lia..|].
    rewrite Hb', Z.sub_diag, Z.add_0_r, Z.div_1_r in *. rewrite Hm2.
    destruct m' as [|p|p]; try lia.
    replace (_ <=? _) with true by (unfold femax, fprec; lia). simpl fixed.
    split; [split; [done|lia]|]. split; [split; apply Z.mul_le_mono_nonneg_r; lia|].
    intros Hl Hr. rewrite <- (Hex Hl Hr). by rewrite (Hround' Hl Hr).
  - subst m'. destruct (shr_fexp_53 (2 ^ 53) (e + n) loc_Exact) as (r2 & -> & Hm2 & _);
      [vm_compute; done|lia|lia|].
    change (bits (2 ^ 53) - 53) with 1 in *. rewrite Hm2. change (2 ^ 53 / 2 ^ 1) with (2 ^ 52).
    change (2 ^ 52) with (Zpos 4503599627370496).
    replace (_ <=? _) with true by (unfold femax, fprec; lia). simpl fixed.
    split; [split; [done|lia]|].
    replace (e + n + 1 + fixed_point) with (1 + (e + n + fixed_point)) by lia. rewrite (Z.pow_add_r 2 1) by lia.
    assert (q / 2 ^ n = 2 ^ 53 - 1 /\ q / 2 ^ n + 1 = 2 ^ 53) as [E1 E2] by lia. rewrite E1 at 1. rewrite E2.
    split; [split; nia|]. intros Hl Hr. specialize (Hround' Hl Hr). lia.
Qed.

(** Two numbers no further apart than one part in [2^52] of the second. *)
Definition near (a b : Z) : Prop := Z.abs (a - b) * 2 ^ 52 <= b.

Lemma near_refl a : 0 <= a -> near a a.
Proof. intros Ha. unfold near. rewrite Z.sub_diag. lia. Qed.

Lemma shl_align_down p e k :
  k <= 0 -> exists mz, shl_align p e (e + k) = (mz, e + k) /\ Zpos mz = Zpos p * 2 ^ (- k).
Proof.
  intros Hk. unfold shl_align. replace (e + k - e) with k by lia.
  destruct k as [|q|q]; [exists p; split; [by rewrite Z.add_0_r|]; simpl; lia|lia|]. eexists. split; [done|].
  clear. rewrite Pos2Z.opp_neg.
  induction q as [|q IHq] using Pos.peano_ind; [rewrite Z.pow_1_r; simpl; lia|].
  rewrite Pos.iter_succ, Pos2Z.inj_xO, IHq, Pos2Z.inj_succ, Z.pow_succ_r by lia. lia.
Qed.

Lemma binary_normalize_fixed p e :
  - fixed_point <= e -> -57 <= e + bits (Zpos p) <= 52 ->
  let r := binary_normalize fprec femax (Zpos p) e false in
  regular r /\ near (fixed r) (Zpos p * 2 ^ (e + fixed_point)) /\
  ((53 < bits (Zpos p) -> Zpos p mod 2 ^ (bits (Zpos p) - 53) = 0) ->
     fixed r = Zpos p * 2 ^ (e + fixed_point)).
Proof.
  intros He Hr. cbv zeta. unfold binary_normalize, binary_round.
  change (Zpos (digits2_pos p)) with (bits (Zpos p)).
  destruct (bits_bounds (Zpos p)) as (_ & Hlo & Hhi); [lia|]. set (b := bits (Zpos p)) in *.
  replace (fexp fprec femax (b + e)) with (e + (b - 53)) by (unfold fexp, emin, fprec, femax, fixed_point in *; lia).
  destruct (Z.le_gt_cases b 53) as [Hb|Hb].
  - destruct (shl_align_down p e (b - 53)) as (mz & -> & Hmz); [lia|].
    rewrite binary_round_aux_53; [|apply (bits_shl p); [done|rewrite Hmz; change (Zpos (digits2_pos p)) with b; do 2 f_equal; lia]|unfold fixed_point in *; lia].
    assert (fixed (S754_finite false mz (e + (b - 53))) = Zpos p * 2 ^ (e + fixed_point)) as Ef.
    { cbn [fixed]. rewrite Hmz, <- Z.mul_assoc, <- Z.pow_add_r by (unfold fixed_point in *; lia). do 2 f_equal. lia. }
    rewrite Ef. split; [|split; [apply near_refl; lia|done]].
    split; [|unfold fixed_point in *; lia]. apply (bits_shl p); [done|]. rewrite Hmz.
    change (Zpos (digits2_pos p)) with b. do 2 f_equal. lia.
  - replace (shl_align p e (e + (b - 53))) with (p, e).
    2: { unfold shl_align. replace (e + (b - 53) - e) with (b - 53) by lia. destruct (b - 53) eqn:E; [done|done|lia]. }
    destruct (round_aux_fixed (Zpos p) e loc_Exact) as (H1 & H2 & H3); [fold b; lia..|].
    fold b in H1, H2, H3. split; [done|]. split; [|intros Hm; by apply H3, Hm].
    set (n := b - 53) in *. assert (0 < 2 ^ n) by (apply Z.pow_pos_nonneg; lia).
    assert (0 < 2 ^ (e + fixed_point)) as Hu by (apply Z.pow_pos_nonneg; lia).
    replace (e + n + fixed_point) with (n + (e + fixed_point)) in H2 by lia. rewrite Z.pow_add_r in H2 by lia.
    pose proof (Z.div_mod (Zpos p) (2 ^ n) ltac:(lia)). pose proof (Z.mod_pos_bound (Zpos p) (2 ^ n) ltac:(lia)).
    assert (2 ^ 52 * 2 ^ n <= Zpos p) by (rewrite <- Z.pow_add_r by lia; replace (52 + n) with (b - 1) by lia; lia).
    unfold near. set (q := Zpos p / 2 ^ n) in *. set (u := 2 ^ (e + fixed_point)) in *.
    assert (Z.abs (fixed (binary_round_aux fprec femax false (Zpos p) e loc_Exact) - Zpos p * u) <= 2 ^ n * u) by nia.
    nia.
Qed.

(** A regular float that is not zero is a 53-bit mantissa above the unit. *)
Lemma regular_pos f :
  regular f -> 0 < fixed f ->
  exists m e, f = S754_finite false m e /\ bits (Zpos m) = 53 /\ - fixed_point <= e <= 0.
Proof. destruct f as [s|s| |[] m e]; simpl; try done. intros [] _. eauto. Qed.

Lemma regular_nonneg f : regular f -> 0 <= fixed f.
Proof. destruct f as [s|s| |[] m e]; simpl; try done; lia. Qed.

Lemma regular_zero f : regular f -> fixed f = 0 -> f = S754_zero false.
Proof.
  destruct f as [s|s| |[] m e]; simpl; try done; [by intros ->|]. intros [_ He] H.
  pose proof (Z.pow_pos_nonneg 2 (e + fixed_point)). nia.
Qed.

(** Two mantissas aligned to the lower of their exponents. *)
Lemma align_fixed m e e' :
  - fixed_point <= Z.min e e' ->
  Zpos (fst (shl_align m e (Z.min e e'))) * 2 ^ (Z.min e e' + fixed_point) = Zpos m * 2 ^ (e + fixed_point).
Proof.
  intros He. replace (Z.min e e') with (e + (Z.min e e' - e)) by lia.
  destruct (shl_align_down m e (Z.min e e' - e)) as (mz & -> & Hmz); [lia|]. cbn [fst].
  rewrite Hmz, <- Z.mul_assoc, <- Z.pow_add_r by lia. do 2 f_equal. lia.
Qed.

Lemma bits_scaled m k : 0 < m -> 0 <= k -> bits (m * 2 ^ k) = bits m + k.
Proof.
  intros Hm Hk. destruct (bits_bounds m Hm) as (Hp & Hlo & Hhi). apply bits_of; [lia|].
  replace (bits m + k - 1) with (bits m - 1 + k) by lia. rewrite !Z.pow_add_r by lia.
  assert (0 < 2 ^ k) by (apply Z.pow_pos_nonneg; lia). nia.
Qed.

Lemma bits_mono a b : 0 < a <= b -> bits a <= bits b.
Proof.
  intros H. destruct (bits_bounds a) as (? & ? & _); [lia|]. destruct (bits_bounds b) as (? & _ & ?); [lia|].
  assert (2 ^ (bits a - 1) < 2 ^ bits b) as T by lia. apply Z.pow_lt_mono_r_iff in T; lia.
Qed.

(** The largest count of units at which an operation keeps its result regular. *)
Definition fixed_max : Z := 2 ^ 162.

Lemma fadd_fixed x y :
  regular x -> regular y -> 0 < fixed y -> fixed x + fixed y < fixed_max ->
  regular (fadd x y) /\ near (fixed (fadd x y)) (fixed x + fixed y).
Proof.
  intros Hx Hy Hp Hmax. destruct (regular_pos y Hy Hp) as (my & ey & -> & Hby & Hey).
  destruct (Z.eq_dec (fixed x) 0) as [Hz|Hnz].
  { rewrite (regular_zero x Hx Hz) in *. split; [done|].
    set (y := S754_finite false my ey) in *. change (near (fixed y) (0 + fixed y)).
    rewrite Z.add_0_l. apply near_refl. lia. }
  pose proof (regular_nonneg x Hx).
  destruct (regular_pos x Hx) as (mx & ex & -> & Hbx & Hex); [lia|].
  unfold fadd, SFadd, cond_Zopp.
  pose proof (align_fixed mx ex ey ltac:(lia)) as Ax.
  pose proof (align_fixed my ey ex ltac:(lia)) as Ay. rewrite (Z.min_comm ey) in Ay.
  set (ez := Z.min ex ey) in *. set (a := fst (shl_align mx ex ez)) in *. set (b := fst (shl_align my ey ez)) in *.
  change (Zpos a + Zpos b) with (Zpos (a + b)). cbn [fixed] in *.
  assert (Zpos (a + b) * 2 ^ (ez + fixed_point) = Zpos mx * 2 ^ (ex + fixed_point) + Zpos my * 2 ^ (ey + fixed_point)) as E
    by (rewrite Pos2Z.inj_add, Z.mul_add_distr_r; lia).
  rewrite <- E in *.
  assert (bits (Zpos (a + b)) + (ez + fixed_point) <= 162).
  { rewrite <- bits_scaled by lia. apply Z.le_trans with (bits (fixed_max - 1)); [|vm_compute; done].
    apply bits_mono. split; [|lia]. apply Z.mul_pos_pos; [lia|]. apply Z.pow_pos_nonneg; lia. }
  assert (53 <= bits (Zpos (a + b)) + (ez + fixed_point)).
  { rewrite <- bits_scaled by lia. rewrite E. rewrite <- Hbx. apply bits_mono.
    pose proof (Z.pow_pos_nonneg 2 (ex + fixed_point)). pose proof (Z.pow_pos_nonneg 2 (ey + fixed_point)). nia. }
  destruct (binary_normalize_fixed (a + b) ez) as (G1 & G2 & _); [lia|unfold fixed_point in *; lia|done].
Qed.

Definition one : float64 := f_of_Z 1.

Lemma one_eq : one = S754_finite false 4503599627370496 (-52).
Proof. reflexivity. Qed.

Lemma fixed_one : fixed one = 2 ^ fixed_point.
Proof. reflexivity. Qed.

Lemma fle_one c : regular c -> fle one c = (2 ^ fixed_point <=? fixed c).
Proof.
  intros Hc. rewrite one_eq. destruct c as [s|s| |[] m e]; try done. destruct Hc as [Hb He].
  unfold fle, SFleb, SFcompare, fixed. destruct (bits_bounds (Zpos m)) as (_ & Hlo & Hhi); [lia|].
  rewrite Hb in *. change (53 - 1) with 52 in Hlo. change (2 ^ 52) with (Zpos 4503599627370496) in Hlo.
  assert (0 < 2 ^ (e + fixed_point)) by (apply Z.pow_pos_nonneg; lia).
  destruct (Z.compare_spec (-52) e) as [<-|Hlt|Hgt].
  - change (Pos.compare_cont Eq 4503599627370496 m) with (Pos.compare 4503599627370496 m).
    change (2 ^ (-52 + fixed_point)) with (2 ^ 58). change (2 ^ fixed_point) with (4503599627370496 * 2 ^ 58).
    assert (4503599627370496 * 2 ^ 58 <= Zpos m * 2 ^ 58) as Hle by (apply Z.mul_le_mono_nonneg_r; [done|exact Hlo]).
    apply Z.leb_le in Hle. rewrite Hle. destruct (Pos.compare_spec 4503599627370496 m) as [E|E|E]; [done..|].
    exfalso. apply (Pos.lt_irrefl m), (Pos.lt_le_trans _ _ _ E). exact Hlo.
  - symmetry. apply Z.leb_le. change (2 ^ fixed_point) with (4503599627370496 * 2 ^ 58).
    assert (2 ^ 58 <= 2 ^ (e + fixed_point)) by (apply Z.pow_le_mono_r; unfold fixed_point in *; lia).
    apply Z.mul_le_mono_nonneg; lia.
  - symmetry. apply Z.leb_gt.
    apply Z.lt_le_trans with (2 ^ 53 * 2 ^ (e + fixed_point)); [apply Z.mul_lt_mono_pos_r; lia|].
    rewrite <- Z.pow_add_r by lia. apply Z.pow_le_mono_r; lia.
Qed.

Lemma fsub_one c :
  regular c -> 2 ^ fixed_point <= fixed c < fixed_max ->
  regular (fsub c one) /\ fixed (fsub c one) = fixed c - 2 ^ fixed_point.
Proof.
  intros Hc Hr. destruct (regular_pos c Hc) as (m & e & -> & Hb & He).
  { assert (0 < 2 ^ fixed_point) by done. lia. }
  rewrite <- fixed_one in *. rewrite one_eq in *. unfold fsub, SFsub, cond_Zopp.
  assert (-52 <= e) as Hlo.
  { destruct (Z.le_gt_cases (-52) e); [done|]. destruct (bits_bounds (Zpos m)) as (_ & _ & Hhi); [lia|].
    rewrite Hb in Hhi. destruct Hr as [Hr _]. cbn [fixed] in Hr.
    assert (2 ^ (e + fixed_point) * 2 ^ 53 <= 2 ^ fixed_point);
      [rewrite <- Z.pow_add_r by lia; apply Z.pow_le_mono_r; lia|].
    change (4503599627370496 * 2 ^ (-52 + fixed_point)) with (2 ^ fixed_point) in Hr. nia. }
  pose proof (align_fixed m e (-52) ltac:(unfold fixed_point; lia)) as Ax.
  rewrite Z.min_r in Ax |- * by lia. change (fst (shl_align 4503599627370496 (-52) (-52))) with 4503599627370496%positive.
  set (a := fst (shl_align m e (-52))) in *. cbn [fixed] in *.
  rewrite <- Ax in *. rewrite <- Z.mul_sub_distr_r.
  change (2 ^ (-52 + fixed_point)) with (2 ^ 58) in *.
  assert (0 < 2 ^ 58) by done. assert (Zpos a = Zpos m * 2 ^ (e + 52)) as Ea.
  { apply (Z.mul_cancel_r _ _ (2 ^ 58)); [lia|]. rewrite Ax, <- Z.mul_assoc, <- Z.pow_add_r by lia.
    do 2 f_equal. unfold fixed_point. lia. }
  assert (4503599627370496 <= Zpos a) as Hge by nia.
  destruct (Zpos a - 4503599627370496) as [|p|p] eqn:Ed; [done| |lia].
  assert (bits (Zpos p) + 58 <= 162).
  { rewrite <- bits_scaled by lia. apply Z.le_trans with (bits (fixed_max - 1)); [|vm_compute; done].
    apply bits_mono. nia. }
  assert (bits (Zpos p) <= 53 + (e + 52)).
  { rewrite <- Hb, <- bits_scaled by lia. apply bits_mono. lia. }
  destruct (bits_bounds (Zpos p)) as (? & _); [lia|].
  destruct (binary_normalize_fixed p (-52)) as (G1 & _ & G3); [unfold fixed_point; lia|lia|].
  split; [done|]. rewrite G3; [unfold fixed_point; simpl (-52 + 110); lia|].
  intros Hp. assert (exists k, bits (Zpos p) - 53 = k /\ 0 <= k <= e + 52 /\ k <= 52) as (k & -> & Hk & Hk') by (exists (bits (Zpos p) - 53); lia).
  apply Z.mod_divide; [apply Z.pow_nonzero; lia|]. rewrite <- Ed, Ea. apply Z.divide_sub_r.
  - apply Z.divide_mul_r. exists (2 ^ (e + 52 - k)). rewrite <- Z.pow_add_r by lia. f_equal. lia.
  - exists (2 ^ (52 - k)). rewrite <- Z.pow_add_r by lia. replace (52 - k + k) with 52 by lia. done.
Qed.

Lemma f_of_Z_fixed N : 0 < N < 2 ^ 52 -> regular (f_of_Z N) /\ fixed (f_of_Z N) = N * 2 ^ fixed_point.
Proof.
  intros HN. destruct N as [|p|]; try lia. destruct (bits_bounds (Zpos p)) as (Hp & Hlo & _); [lia|].
  assert (bits (Zpos p) <= 52).
  { apply Z.le_trans with (bits (2 ^ 52 - 1)); [apply bits_mono; lia|vm_compute; done]. }
  destruct (binary_normalize_fixed p 0) as (H1 & _ & H3); [done|lia|].
  split; [done|]. apply H3. lia.
Qed.

(** A quotient by a thousand. *)
Lemma fdiv_1000 N :
  0 < N < 2 ^ 52 ->
  let q := fdiv (f_of_Z N) (f_of_Z 1000) in regular q /\ near (1000 * fixed q) (N * 2 ^ fixed_point).
Proof.
  intros HN. cbv zeta. destruct (f_of_Z_fixed N HN) as [Hr Hf].
  destruct (regular_pos _ Hr) as (m & e & E & Hb & He); [rewrite Hf; apply Z.mul_pos_pos; [lia|done]|].
  rewrite E in *. cbn [fixed] in Hf.
  change (f_of_Z 1000) with (S754_finite false 8796093022208000 (-43)).
  assert (-52 <= e).
  { destruct (Z.le_gt_cases (-52) e); [done|]. destruct (bits_bounds (Zpos m)) as (_ & _ & Hhi); [lia|].
    rewrite Hb in Hhi. assert (2 ^ (e + fixed_point) * 2 ^ 53 <= 2 ^ fixed_point);
      [rewrite <- Z.pow_add_r by lia; apply Z.pow_le_mono_r; lia|]. nia. }
  unfold fdiv, SFdiv, SFdiv_core_binary. change (Zdigits2 (Zpos m)) with (bits (Zpos m)).
  change (Zdigits2 8796093022208000) with 53. rewrite Hb.
  replace (Z.min _ _) with (e - 10) by (unfold fexp, emin, fprec, femax; lia).
  replace (e - -43 - (e - 10)) with 53 by lia.
  rewrite Z.shiftl_mul_pow2 by lia.
  destruct (Z.div_eucl (Zpos m * 2 ^ 53) 8796093022208000) as [q r] eqn:Eq.
  pose proof (Z_div_mod (Zpos m * 2 ^ 53) 8796093022208000 ltac:(lia)) as Hd. rewrite Eq in Hd.
  destruct Hd as [Hd Hrem].
  destruct (bits_bounds (Zpos m)) as (_ & Hlo & Hhi); [lia|]. rewrite Hb in *.
  assert (2 ^ 52 <= q < 2 ^ 54) as Hq by lia.
  assert (53 <= bits q <= 54) as Hbq.
  { split; [apply Z.le_trans with (bits (2 ^ 52)); [vm_compute; done|]|
      apply Z.le_trans with (bits (2 ^ 54 - 1)); [|vm_compute; done]]; apply bits_mono; lia. }
  destruct (round_aux_fixed q (e - 10) (new_location 8796093022208000 r)) as (H1 & H2 & _);
    [lia|lia|unfold fixed_point; lia|lia|].
  split; [done|]. set (v := binary_round_aux _ _ _ _ _ _) in *. rewrite <- Hf. unfold near.
  assert (0 < 2 ^ (e - 10 + fixed_point)) as Hu by (apply Z.pow_pos_nonneg; unfold fixed_point; lia).
  replace (2 ^ (e + fixed_point)) with (2 ^ 10 * 2 ^ (e - 10 + fixed_point))
    by (rewrite <- Z.pow_add_r by (unfold fixed_point; lia); f_equal; lia).
  destruct (bits_bounds q) as (_ & Hq1 & _); [lia|]. set (u := 2 ^ (e - 10 + fixed_point)) in *.
  replace (Zpos m * (2 ^ 10 * u)) with (Zpos m * 2 ^ 10 * u) by lia.
  assert (1000 * q <= Zpos m * 2 ^ 10 < 1000 * q + 1000) as HA by lia. set (A := Zpos m * 2 ^ 10) in *. clearbody A.
  assert (1000 * q * u <= A * u) as HA1 by (apply Z.mul_le_mono_nonneg_r; lia).
  assert (A * u <= (1000 * q + 1000) * u) as HA2 by (apply Z.mul_le_mono_nonneg_r; lia).
  assert (bits q - 53 = 0 \/ bits q - 53 = 1) as [En|En] by lia.
  - rewrite En, Z.add_0_r, Z.div_1_r in H2. fold u in H2.
    assert (1000 * 2 ^ 52 * u <= A * u) by (apply Z.mul_le_mono_nonneg_r; lia). lia.
  - rewrite En in H2. replace (bits q - 1) with 53 in Hq1 by lia.
    replace (e - 10 + 1 + fixed_point) with (1 + (e - 10 + fixed_point)) in H2 by lia.
    rewrite Z.pow_add_r in H2 by (unfold fixed_point; lia). fold u in H2. change (2 ^ 1) with 2 in H2.
    assert (2000 * 2 ^ 52 * u <= A * u) by (apply Z.mul_le_mono_nonneg_r; lia).
    pose proof (Z.div_mod q 2 ltac:(lia)). pose proof (Z.mod_pos_bound q 2 ltac:(lia)).
    assert (1000 * q * u <= 2000 * (q / 2) * u + 1000 * u) by (apply Z.le_trans with ((2000 * (q / 2) + 1000) * u);
      [apply Z.mul_le_mono_nonneg_r|]; lia).
    assert (2000 * (q / 2) * u <= 1000 * q * u) by (apply Z.mul_le_mono_nonneg_r; lia). lia.
Qed.

(** The whole part of a float. *)
Lemma trunc_fixed c : regular c -> fixed c < 2 ^ 63 * 2 ^ fixed_point -> trunc64 c = fixed c / 2 ^ fixed_point.
Proof.
  intros Hc Hm. destruct (Z.eq_dec (fixed c) 0) as [Hz|Hnz].
  { rewrite Hz. by rewrite (regular_zero c Hc Hz). }
  pose proof (regular_nonneg c Hc). destruct (regular_pos c Hc) as (m & e & -> & Hb & He); [lia|].
  cbn [fixed trunc64] in *. set (v := if 0 <=? e then _ else _).
  assert (v = Zpos m * 2 ^ (e + fixed_point) / 2 ^ fixed_point) as ->.
  { unfold v. destruct (Z.leb_spec 0 e).
    - replace e with 0 by lia. by rewrite Z.add_0_l, Z.mul_1_r, Z.div_mul.
    - replace fixed_point with (- e + (e + fixed_point)) at 2 by lia.
      rewrite (Z.pow_add_r 2 (- e)), Z.div_mul_cancel_r by (try apply Z.pow_nonzero; lia). done. }
  assert (0 <= Zpos m * 2 ^ (e + fixed_point) / 2 ^ fixed_point < 2 ^ 63).
  { split; [apply Z.div_pos; [lia|done]|]. apply Z.div_lt_upper_bound; [done|lia]. }
  destruct (_ && _) eqn:E; [done|]. apply andb_false_iff in E as [E|E]; b2p; lia.
Qed.

(** A whole number as a float: its mantissa is the number scaled. *)
Lemma f_of_Z_scaled a :
  0 < a < 2 ^ 52 ->
  exists m e, f_of_Z a = S754_finite false m e /\ -52 <= e <= 0 /\ bits (Zpos m) = 53 /\ Zpos m = a * 2 ^ (- e).
Proof.
  intros Ha. destruct (f_of_Z_fixed a Ha) as [Hr Hf]. assert (0 < 2 ^ fixed_point) as Hu by done.
  destruct (regular_pos _ Hr) as (m & e & E & Hb & He); [nia|]. rewrite E in *. cbn [fixed] in Hf.
  assert (0 < 2 ^ (e + fixed_point)) as Hp by (apply Z.pow_pos_nonneg; lia).
  destruct (bits_bounds (Zpos m)) as (_ & _ & Hhi); [lia|]. rewrite Hb in Hhi.
  assert (-52 <= e).
  { destruct (Z.le_gt_cases (-52) e); [done|].
    assert (2 ^ (e + fixed_point) * 2 ^ 53 <= 2 ^ fixed_point);
      [rewrite <- Z.pow_add_r by lia; apply Z.pow_le_mono_r; lia|]. nia. }
  exists m, e. split_and!; try done; try lia. apply (Z.mul_cancel_r _ _ (2 ^ (e + fixed_point))); [lia|].
  rewrite Hf, <- Z.mul_assoc, <- Z.pow_add_r by lia. do 2 f_equal. lia.
Qed.

(** A product of whole numbers that stays below [2^51] is exact. *)
Lemma fmul_whole a b : 0 < a -> 0 < b -> a * b < 2 ^ 51 -> trunc64 (fmul (f_of_Z a) (f_of_Z b)) = a * b.
Proof.
  intros Ha Hb Hab. destruct (f_of_Z_scaled a) as (m & e & -> & He & Bm & Hm); [nia|].
  destruct (f_of_Z_scaled b) as (n & k & -> & Hk & Bn & Hn); [nia|].
  unfold fmul, SFmul. cbn [xorb].
  assert (Zpos (m * n) = a * b * 2 ^ (- (e + k))) as Hq.
  { rewrite Pos2Z.inj_mul, Hm, Hn. replace (- (e + k)) with (- e + - k) by lia. rewrite Z.pow_add_r by lia. lia. }
  assert (bits (Zpos (m * n)) = bits (a * b) + - (e + k)) as Hbq by (rewrite Hq; apply bits_scaled; lia).
  assert (bits (a * b) <= 51) as Hb1.
  { apply Z.le_trans with (bits (2 ^ 51 - 1)); [apply bits_mono; lia|vm_compute; done]. }
  assert (53 <= bits (Zpos (m * n))).
  { rewrite <- Bm. apply bits_mono. rewrite Pos2Z.inj_mul. nia. }
  destruct (round_aux_fixed (Zpos (m * n)) (e + k) loc_Exact) as (Hr & _ & Hx); [done|lia|unfold fixed_point; lia|lia|].
  set (r := binary_round_aux _ _ _ _ _ _) in *.
  assert (fixed r = a * b * 2 ^ fixed_point) as Hf.
  { rewrite Hx; [|done|].
    - rewrite Hq, <- Z.mul_assoc, <- Z.pow_add_r by (unfold fixed_point; lia). do 2 f_equal. lia.
    - rewrite Hbq, Hq. set (d := bits (a * b) + - (e + k) - 53).
      replace (- (e + k)) with ((- (e + k) - d) + d) by lia.
      rewrite Z.pow_add_r, Z.mul_assoc by lia. apply Z.mod_mul. apply Z.pow_nonzero; lia. }
  rewrite trunc_fixed, Hf; [by apply Z.div_mul|done|]. rewrite Hf. apply Z.mul_lt_mono_pos_r; [done|lia].
Qed.
