(* ===== verification/GoFlag.v ===== *)
(** * Go's [time.ParseDuration], [strconv.ParseInt] in any base, and [flag]

    How the commands read their arguments.  [ParseDuration] is the Standard
    Library's loop, with its [float64] fraction and its [uint64] sums;
    [ParseInt0] reads a number whose base its prefix gives; [parse_args] is
    [FlagSet.Parse] over a table of the flags a command defines.

    The theorems here are the two round trips a child process depends on:
    [ParseDuration_string] for [Duration.String], and [ParseInt0_itoa] for
    [strconv.Itoa]. *)

From Stdlib Require Import SpecFloat.
From S2P Require Import Prelude GoStrings GoFloat FloatFixed.

(** ** [strconv.ParseInt(s, 0, 64)] *)

(** [c | ('x' - 'X')]. *)
Definition lower (c : ascii) : ascii := ascii_of_nat (Nat.lor (nat_of_ascii c) 32).

Definition digit_any (c : ascii) : option Z :=
  match digit_val c with
  | Some d => Some d
  | None =>
      let l := Z.of_nat (nat_of_ascii (lower c)) in
      if (97 <=? l) && (l <=? 122) then Some (l - 87) else None
  end.

(** The digits of a number, and whether underscores separate them. *)
Fixpoint digits_in (base acc : Z) (s : string) : option (Z * bool) :=
  match s with
  | EmptyString => Some (acc, false)
  | String c s =>
      if Ascii.eqb c "_" then
        match digits_in base acc s with Some (n, _) => Some (n, true) | None => None end
      else
        match digit_any c with
        | Some d => if d <? base then digits_in base (acc * base + d) s else None
        | None => None
        end
  end.

Definition is_base (c b : ascii) : bool := Ascii.eqb (lower c) b.

(** The base a prefix gives, and what it leaves to read. *)
Definition base_of (s : string) : Z * string :=
  match s with
  | String "0" rest =>
      match rest with
      | String c (String _ _ as body) =>
          if is_base c "b" then (2, body)
          else if is_base c "o" then (8, body)
          else if is_base c "x" then (16, body)
          else (8, rest)
      | _ => (8, rest)
      end
  | _ => (10, s)
  end.

Inductive saw : Type := SawStart | SawDigit | SawUnderscore | SawOther.

Fixpoint underscores_from (hex : bool) (w : saw) (s : string) : bool :=
  match s with
  | EmptyString => match w with SawUnderscore => false | _ => true end
  | String c s =>
      let l := Z.of_nat (nat_of_ascii (lower c)) in
      if match digit_val c with Some _ => true | None => hex && ((97 <=? l) && (l <=? 102)) end
      then underscores_from hex SawDigit s
      else if Ascii.eqb c "_" then
        match w with SawDigit => underscores_from hex SawUnderscore s | _ => false end
      else match w with SawUnderscore => false | _ => underscores_from hex SawOther s end
  end.

Definition underscoreOK (s : string) : bool :=
  match s with
  | String "0" (String c body) =>
      if is_base c "b" || is_base c "o" || is_base c "x" then underscores_from (is_base c "x") SawDigit body
      else underscores_from false SawStart s
  | _ => underscores_from false SawStart s
  end.

Definition ParseUint0 (s : string) : option Z :=
  if String.eqb s "" then None
  else
    let '(base, body) := base_of s in
    match digits_in base 0 body with
    | None => None
    | Some (n, under) => if under && negb (underscoreOK s) then None else if n <? 2 ^ 64 then Some n else None
    end.

(** An optional sign. *)
Definition sign_of (s : string) : bool * string :=
  match s with
  | String "-" u => (true, u)
  | String "+" u => (false, u)
  | _ => (false, s)
  end.

Definition ParseInt0 (s : string) : option Z :=
  let '(neg, u) := sign_of s in
  match ParseUint0 u with
  | None => None
  | Some n =>
      if neg then if 2 ^ 63 <? n then None else Some (- n)
      else if 2 ^ 63 <=? n then None else Some n
  end.

Example ParseInt0_ex :
  map ParseInt0 ["0x1F"; "1_000"; "1__0"; "-0b101"; "017"; "0"; "9223372036854775808"; "08"; ""; "+7"] =
  [Some 31; Some 1000; None; Some (-5); Some 15; Some 0; None; None; None; Some 7].
Proof. reflexivity. Qed.

(** ** [time.ParseDuration] *)

Fixpoint leadingInt (x : Z) (s : string) : option (Z * string) :=
  match s with
  | EmptyString => Some (x, "")
  | String c s' =>
      match digit_val c with
      | None => Some (x, s)
      | Some d =>
          if x >? 2 ^ 63 / 10 then None
          else
            let x := x * 10 + d in
            if x >? 2 ^ 63 then None else leadingInt x s'
      end
  end.

Definition ten : float64 := f_of_Z 10.

Fixpoint leadingFraction (x : Z) (scale : float64) (overflow : bool) (s : string) : Z * float64 * string :=
  match s with
  | EmptyString => (x, scale, "")
  | String c s' =>
      match digit_val c with
      | None => (x, scale, s)
      | Some d =>
          if overflow then leadingFraction x scale true s'
          else if x >? (2 ^ 63 - 1) / 10 then leadingFraction x scale true s'
          else
            let y := x * 10 + d in
            if y >? 2 ^ 63 then leadingFraction x scale true s'
            else leadingFraction y (fmul scale ten) false s'
      end
  end.

Definition in_number (c : ascii) : bool :=
  Ascii.eqb c "." || match digit_val c with Some _ => true | None => false end.

(** A unit runs to the next number. *)
Fixpoint take_unit (s : string) : string * string :=
  match s with
  | EmptyString => ("", "")
  | String c s' => if in_number c then ("", s) else let '(u, rest) := take_unit s' in (String c u, rest)
  end.

(** [unitMap]: both spellings of micro. *)
Definition unitMap (u : string) : option duration :=
  if String.eqb u "ns" then Some nanosecond
  else if String.eqb u "us" || String.eqb u "µs" || String.eqb u "μs" then Some microsecond
  else if String.eqb u "ms" then Some millisecond
  else if String.eqb u "s" then Some second
  else if String.eqb u "m" then Some minute
  else if String.eqb u "h" then Some (60 * minute)
  else None.

(** The digits after a period, their scale, and whether there were any. *)
Definition parse_fraction (s : string) : Z * float64 * string * bool :=
  match s with
  | String "." s' =>
      let '(f, scale, s2) := leadingFraction 0 (f_of_Z 1) false s' in
      (f, scale, s2, negb (String.length s2 =? String.length s')%nat)
  | _ => (0, f_of_Z 1, s, false)
  end.

(** One number and its unit: what it adds, and what is left. *)
Definition parse_part (s : string) : option (Z * string) :=
  match s with
  | EmptyString => None
  | String c _ =>
      if negb (in_number c) then None
      else
        match leadingInt 0 s with
        | None => None
        | Some (v, s1) =>
            let pre := negb (String.length s1 =? String.length s)%nat in
            let '(f, scale, s2, post) := parse_fraction s1 in
            if negb pre && negb post then None
            else
              let '(u, rest) := take_unit s2 in
              if String.eqb u "" then None
              else
                match unitMap u with
                | None => None
                | Some unit =>
                    if v >? 2 ^ 63 / unit then None
                    else
                      let v := v * unit in
                      let w := if f >? 0 then v + trunc64 (fmul (f_of_Z f) (fdiv (f_of_Z unit) scale)) else v in
                      if (f >? 0) && (w >? 2 ^ 63) then None else Some (w, rest)
                end
        end
  end.

(** The loop: every part takes a byte at least, so its length is the fuel. *)
Fixpoint parse_parts (fuel : nat) (d : Z) (s : string) : option Z :=
  match s with
  | EmptyString => Some d
  | _ =>
      match fuel with
      | O => None
      | S fuel =>
          match parse_part s with
          | None => None
          | Some (v, rest) => let d := (d + v) mod 2 ^ 64 in if d >? 2 ^ 63 then None else parse_parts fuel d rest
          end
      end
  end.

Definition ParseDuration (s : string) : option duration :=
  let '(neg, u) := sign_of s in
  if String.eqb u "0" then Some 0
  else if String.eqb u "" then None
  else
    match parse_parts (String.length u) 0 u with
    | None => None
    | Some d => if neg then Some (- d) else if d >? 2 ^ 63 - 1 then None else Some d
    end.

Example ParseDuration_ex :
  map ParseDuration ["1h15m30.918s"; "-1.5h"; ".5s"; "1"; "."; "5us"; "0"; "3000000h"; "1.5µs"] =
  [Some 4530918000000; Some (-5400000000000); Some 500000000; None; None; Some 5000; Some 0; None; Some 1500].
Proof. vm_compute. reflexivity. Qed.

(** ** Reading back what was printed *)

Lemma digits_go_head fuel n acc :
  0 < n < 10 ^ Z.of_nat fuel -> exists d s, digits_go fuel n acc = String (digit_char d) s /\ 0 < d < 10.
Proof.
  revert n acc. induction fuel as [|fuel IH]; intros n acc Hn; [simpl in Hn; lia|]. cbn [digits_go].
  rewrite Nat2Z.inj_succ, Z.pow_succ_r in Hn by lia. destruct (Z.ltb_spec n 10) as [Hlt|Hge].
  - rewrite Z.mod_small by lia. eauto with lia.
  - apply IH. split; [apply Z.div_str_pos; lia|apply Z.div_lt_upper_bound; lia].
Qed.

Lemma digits_head n : 0 < n -> exists d s, digits n = String (digit_char d) s /\ 0 < d < 10.
Proof.
  intros Hn. apply digits_go_head. split; [done|]. pose proof (Z.log2_spec n Hn) as [_ Hlt].
  pose proof (Z.log2_nonneg n). rewrite Nat2Z.inj_succ, Z2Nat.id by lia.
  apply Z.lt_le_trans with (2 ^ Z.succ (Z.log2 n)); [done|]. apply Z.pow_le_mono_l. lia.
Qed.

Lemma digits_go_length fuel n acc k :
  0 <= n < 10 ^ Z.of_nat k -> (0 < k)%nat ->
  (String.length (digits_go fuel n acc) <= k + String.length acc)%nat.
Proof.
  revert n acc k. induction fuel as [|fuel IH]; intros n acc [|k] Hn Hk; try lia; cbn [digits_go]; [lia|].
  rewrite Nat2Z.inj_succ, Z.pow_succ_r in Hn by lia. destruct (Z.ltb_spec n 10) as [Hlt|Hge]; [simpl; lia|].
  destruct k as [|k]; [simpl in Hn; lia|].
  etransitivity; [apply (IH _ _ (S k))|simpl; lia]; [|lia].
  split; [apply Z.div_pos; lia|apply Z.div_lt_upper_bound; lia].
Qed.

(** A number printed has digits only, so that it is read up to what follows. *)
Definition no_digit (s : string) : Prop := match s with EmptyString => True | String c _ => digit_val c = None end.

Lemma digit_val_range c d : digit_val c = Some d -> 0 <= d < 10.
Proof. unfold digit_val. case_match; [|done]. intros [= <-]. b2p. lia. Qed.

Lemma parse_digits_ge x s y : parse_digits x s = Some y -> 0 <= x -> x <= y.
Proof.
  revert x. induction s as [|c s IH]; intros x; simpl; [intros [= <-]; lia|].
  destruct (digit_val c) as [d|] eqn:E; [|done]. intros H Hx. apply digit_val_range in E. apply IH in H; lia.
Qed.

Lemma leadingInt_digits s x y rest :
  parse_digits x s = Some y -> 0 <= x -> y <= 2 ^ 63 -> no_digit rest -> leadingInt x (s +:+ rest) = Some (y, rest).
Proof.
  revert x. induction s as [|c s IH]; intros x; simpl.
  - intros [= ->] Hx Hy Hr. destruct rest as [|c rest]; [done|]. simpl in *. by rewrite Hr.
  - destruct (digit_val c) as [d|] eqn:E; [|done]. intros H Hx Hy Hr.
    apply digit_val_range in E as Hd. pose proof (parse_digits_ge _ _ _ H ltac:(lia)).
    replace (x >? 2 ^ 63 / 10) with false by (change (2 ^ 63 / 10) with 922337203685477580; lia).
    replace (x * 10 + d >? 2 ^ 63) with false by lia. apply IH; [done|lia|done|done].
Qed.

Definition pow_ten (k : nat) : float64 := Nat.iter k (fun s => fmul s ten) (f_of_Z 1).

Lemma leadingFraction_digits s x y k rest :
  parse_digits x s = Some y -> 0 <= x < 10 ^ Z.of_nat k -> (k + String.length s <= 18)%nat -> no_digit rest ->
  leadingFraction x (pow_ten k) false (s +:+ rest) = (y, pow_ten (k + String.length s), rest) /\
  y < 10 ^ Z.of_nat (k + String.length s).
Proof.
  revert x k. induction s as [|c s IH]; intros x k; simpl.
  - intros [= ->] Hx Hk Hr. rewrite Nat.add_0_r. split; [|lia]. destruct rest as [|c rest]; [done|]. simpl in *. by rewrite Hr.
  - destruct (digit_val c) as [d|] eqn:E; [|done]. intros H Hx Hk Hr. apply digit_val_range in E.
    assert (10 ^ Z.of_nat k <= 10 ^ 17) by (apply Z.pow_le_mono_r; lia). change (10 ^ 17) with 100000000000000000 in *.
    replace (x >? (2 ^ 63 - 1) / 10) with false by (change ((2 ^ 63 - 1) / 10) with 922337203685477580; lia).
    replace (x * 10 + d >? 2 ^ 63) with false by lia.
    destruct (IH (x * 10 + d) (S k) H) as [H1 H2]; [rewrite Nat2Z.inj_succ, Z.pow_succ_r by lia; lia|lia|done|].
    change (fmul (pow_ten k) ten) with (pow_ten (S k)). rewrite H1.
    replace (k + S (String.length s))%nat with (S k + String.length s)%nat by lia. done.
Qed.

(** A fraction without its trailing zeros, and with the leading ones it is
    printed with. *)
Lemma strip_zeros_value s x y :
  parse_digits x s = Some y -> 0 <= x ->
  exists j z, parse_digits x (strip_zeros_right s) = Some z /\ y = z * 10 ^ Z.of_nat j /\
    String.length s = (String.length (strip_zeros_right s) + j)%nat.
Proof.
  revert x. induction s as [|c s IH]; intros x; simpl; [intros [= ->] _; exists 0%nat, y; split_and!; try done; lia|].
  destruct (digit_val c) as [d|] eqn:E; [|done]. intros H Hx. apply digit_val_range in E as Hd.
  destruct (IH _ H) as (j & z & Hz & Hy & Hl); [lia|].
  destruct (strip_zeros_right s) as [|a t] eqn:Es; [|exists j, z; simpl; rewrite E; split_and!; try done; simpl in *; lia].
  simpl in Hz. injection Hz as <-. destruct (Ascii.eqb_spec c "0") as [->|Hc].
  - vm_compute in E. injection E as <-. exists (S j), x. simpl in *. split_and!; [done| |lia].
    rewrite Hy, Nat2Z.inj_succ, Z.pow_succ_r by lia. lia.
  - exists j, (x * 10 + d). simpl in *. rewrite E. split_and!; try done. lia.
Qed.

Lemma parse_digits_zeros n s : parse_digits 0 (concat_all (repeat "0" n) +:+ s) = parse_digits 0 s.
Proof. by induction n. Qed.

Lemma zeros_length n : String.length (concat_all (repeat "0" n)) = n.
Proof. induction n as [|n IH]; [done|]. simpl. by rewrite IH. Qed.

Definition fraction (m : Z) (prec : nat) : string :=
  strip_zeros_right (concat_all (repeat "0" (prec - String.length (digits m))) +:+ digits m).

Lemma fraction_value m prec :
  0 <= m < 10 ^ Z.of_nat prec -> (0 < prec)%nat ->
  exists x, parse_digits 0 (fraction m prec) = Some x /\ (String.length (fraction m prec) <= prec)%nat /\
    m = x * 10 ^ Z.of_nat (prec - String.length (fraction m prec)).
Proof.
  intros Hm Hp. unfold fraction. set (P := _ +:+ digits m).
  assert (parse_digits 0 P = Some m) as HP by (unfold P; rewrite parse_digits_zeros; apply parse_digits_digits; lia).
  assert (String.length P = prec) as HL.
  { unfold P. rewrite str_length_app, zeros_length. pose proof (digits_go_length (S (Z.to_nat (Z.log2 m))) m "" prec Hm Hp) as H.
    fold (digits m) in H. simpl in H. lia. }
  destruct (strip_zeros_value P 0 m HP) as (j & z & Hz & Hmz & Hl); [lia|].
  exists z. split; [done|]. split; [lia|]. rewrite Hmz. do 2 f_equal. lia.
Qed.

(** What follows a number in a duration: a unit, then nothing or a number. *)
Definition unit_ok (u : string) : Prop := u <> "" /\ any_byte in_number u = false.
Definition rest_ok (rest : string) : Prop := match rest with EmptyString => True | String c _ => in_number c = true end.

Lemma take_unit_app u rest : unit_ok u -> rest_ok rest -> take_unit (u +:+ rest) = (u, rest).
Proof.
  intros [_ Hu] Hr. induction u as [|c u IH]; simpl.
  - destruct rest as [|c rest]; [done|]. simpl in *. by rewrite Hr.
  - simpl in Hu. apply orb_false_iff in Hu as [Hc Hu]. by rewrite Hc, IH.
Qed.

Lemma digit_char_in d : 0 <= d < 10 -> in_number (digit_char d) = true.
Proof. intros Hd. unfold in_number. rewrite digit_val_char by done. apply orb_true_r. Qed.

Lemma unit_no_digit u rest : unit_ok u -> no_digit (u +:+ rest).
Proof.
  intros [Hn Hu]. destruct u as [|c u]; [done|]. simpl in *. apply orb_false_iff in Hu as [Hc _].
  unfold in_number in Hc. apply orb_false_iff in Hc as [_ Hc]. by destruct (digit_val c).
Qed.

Lemma parse_fraction_none u rest : unit_ok u -> parse_fraction (u +:+ rest) = (0, f_of_Z 1, u +:+ rest, false).
Proof.
  intros [Hn Hu]. destruct u as [|c u]; [done|]. simpl in Hu. apply orb_false_iff in Hu as [Hc _].
  by destruct c as [[] [] [] [] [] [] [] []].
Qed.

Lemma parse_fraction_some f x u rest :
  parse_digits 0 f = Some x -> (String.length f <= 9)%nat -> unit_ok u ->
  exists post, parse_fraction (String "." (f +:+ u +:+ rest)) = (x, pow_ten (String.length f), u +:+ rest, post) /\
    x < 10 ^ Z.of_nat (String.length f).
Proof.
  intros Hx Hl Hu. destruct (leadingFraction_digits f 0 x 0 (u +:+ rest) Hx) as [E Hb];
    [simpl; lia|lia|by apply unit_no_digit|].
  rewrite Nat.add_0_l in E, Hb. eexists. split; [|done]. cbn [parse_fraction]. change (f_of_Z 1) with (pow_ten 0). by rewrite E.
Qed.

(** A number, its fraction and its unit. *)
Lemma parse_part_of n fr u unit rest x scale post :
  0 <= n -> n * unit <= 2 ^ 63 -> 0 < unit -> unit_ok u -> unitMap u = Some unit -> rest_ok rest ->
  no_digit fr -> parse_fraction fr = (x, scale, u +:+ rest, post) ->
  let w := if x >? 0 then n * unit + trunc64 (fmul (f_of_Z x) (fdiv (f_of_Z unit) scale)) else n * unit in
  w <= 2 ^ 63 -> parse_part (digits n +:+ fr) = Some (w, rest).
Proof.
  intros Hn Hb Hunit Hu Hm Hr Hd Hf w Hw.
  assert (leadingInt 0 (digits n +:+ fr) = Some (n, fr)) as E.
  { apply leadingInt_digits; [by apply parse_digits_digits|done|nia|done]. }
  destruct (digits_go_cons (S (Z.to_nat (Z.log2 n))) n "" Hn) as (d & s & Ed & Hd'); [lia|]. fold (digits n) in Ed.
  rewrite Ed in *. rewrite str_app_cons in *. unfold parse_part. rewrite digit_char_in by done. cbn [negb].
  rewrite E, Hf. cbn [String.length]. rewrite str_length_app.
  replace (String.length fr =? _)%nat with false by (symmetry; apply Nat.eqb_neq; lia). cbn [negb andb].
  rewrite take_unit_app by done. destruct Hu as [Hn' _]. apply String.eqb_neq in Hn'. rewrite Hn', Hm.
  replace (n >? 2 ^ 63 / unit) with false
    by (symmetry; rewrite Z.gtb_ltb; apply Z.ltb_ge; apply Z.div_le_lower_bound; lia).
  fold w. replace (w >? 2 ^ 63) with false by lia. by rewrite andb_false_r.
Qed.

(** A whole number and its unit. *)
Lemma parse_part_whole n u unit rest :
  0 <= n -> n * unit <= 2 ^ 63 -> 0 < unit -> unit_ok u -> unitMap u = Some unit -> rest_ok rest ->
  parse_part (digits n +:+ u +:+ rest) = Some (n * unit, rest).
Proof.
  intros Hn Hb Hunit Hu Hm Hr.
  exact (parse_part_of n (u +:+ rest) u unit rest 0 (f_of_Z 1) false Hn Hb Hunit Hu Hm Hr
    (unit_no_digit u rest Hu) (parse_fraction_none u rest Hu) Hb).
Qed.

(** The quotients [unit / scale] that occur are exact. *)
Lemma unit_scale prec k :
  (prec = 3 \/ prec = 6 \/ prec = 9)%nat -> (k <= prec)%nat ->
  fdiv (f_of_Z (10 ^ Z.of_nat prec)) (pow_ten k) = f_of_Z (10 ^ Z.of_nat (prec - k)).
Proof.
  intros [->|[->| ->]] Hk; repeat (destruct k as [|k]; [vm_compute; reflexivity|]); lia.
Qed.

(** A number printed with a fraction, and its unit. *)
Lemma parse_part_frac v prec u rest :
  0 <= v <= 2 ^ 63 -> (prec = 3 \/ prec = 6 \/ prec = 9)%nat -> unit_ok u ->
  unitMap u = Some (10 ^ Z.of_nat prec) -> rest_ok rest ->
  parse_part (fmt_frac v prec +:+ u +:+ rest) = Some (v, rest).
Proof.
  intros Hv Hp Hu Hm Hr. set (p := 10 ^ Z.of_nat prec) in *.
  assert (0 < p <= 10 ^ 9) as Hpp by (split; [apply Z.pow_pos_nonneg|apply Z.pow_le_mono_r]; lia).
  pose proof (Z.mod_pos_bound v p ltac:(lia)) as Hmod. pose proof (Z.div_mod v p ltac:(lia)) as Hdm.
  pose proof (Z.div_pos v p ltac:(lia) ltac:(lia)) as Hq.
  destruct (fraction_value (v mod p) prec Hmod) as (x & Hx & Hl & Hmx); [lia|].
  unfold fmt_frac. fold p. change (strip_zeros_right _) with (fraction (v mod p) prec).
  set (f := fraction (v mod p) prec) in *. destruct (String.eqb_spec f "") as [Ef|Ef].
  - rewrite Ef in Hx. injection Hx as <-. rewrite str_app_nil_r, (parse_part_whole _ u p) by (done || lia).
    do 2 f_equal. lia.
  - destruct (parse_fraction_some f x u rest Hx) as (post & Hf & Hxb); [lia|done|].
    rewrite !str_app_assoc. change ("." +:+ f +:+ u +:+ rest) with (String "." (f +:+ u +:+ rest)).
    assert (0 <= x) by (apply (parse_digits_ge _ _ _ Hx); lia).
    assert (x = 0 \/ trunc64 (fmul (f_of_Z x) (fdiv (f_of_Z p) (pow_ten (String.length f)))) = v mod p) as Ht.
    { destruct (Z.eq_dec x 0); [by left|right]. unfold p at 1. rewrite unit_scale by done.
      rewrite fmul_whole; [lia|lia|apply Z.pow_pos_nonneg; lia|lia]. }
    assert ((if x >? 0 then v / p * p + trunc64 (fmul (f_of_Z x) (fdiv (f_of_Z p) (pow_ten (String.length f))))
             else v / p * p) = v) as Hw.
    { destruct (Z.gtb_spec x 0); [destruct Ht as [Ht|Ht]; lia|]. assert (x = 0) as Hx0 by lia. rewrite Hx0 in Hmx. lia. }
    pose proof (parse_part_of (v / p) (String "." (f +:+ u +:+ rest)) u p rest x _ post Hq ltac:(lia) ltac:(lia) Hu Hm Hr
      eq_refl Hf) as Hpart. cbv zeta in Hpart. rewrite Hw in Hpart. apply Hpart. lia.
Qed.

Lemma parse_parts_step fuel d s v rest :
  (0 < fuel)%nat -> parse_part s = Some (v, rest) -> 0 <= d + v <= 2 ^ 63 ->
  parse_parts fuel d s = parse_parts (pred fuel) (d + v) rest.
Proof.
  intros Hf Hs Hd. destruct fuel as [|fuel]; [lia|]. destruct s as [|c s]; [done|]. cbn [parse_parts pred].
  rewrite Hs, Z.mod_small by lia. by replace (d + v >? 2 ^ 63) with false by lia.
Qed.

(** The body of a printed duration that is not zero. *)
Definition dur_body (u : Z) : string :=
  if u <? microsecond then digits u +:+ "ns"
  else if u <? millisecond then fmt_frac u 3 +:+ "µs"
  else if u <? second then fmt_frac u 6 +:+ "ms"
  else
    let s := u / second in
    let secs := fmt_frac (u mod minute) 9 +:+ "s" in
    if s <? 60 then secs
    else
      let m := s / 60 in
      let mins := digits (m mod 60) +:+ "m" +:+ secs in
      if m <? 60 then mins else digits (m / 60) +:+ "h" +:+ mins.

Definition digit_first (s : string) : Prop := exists d t, s = String (digit_char d) t /\ 0 <= d < 10.

Lemma digits_first n s : 0 <= n -> digit_first (digits n +:+ s).
Proof.
  intros Hn. destruct (digits_go_cons (S (Z.to_nat (Z.log2 n))) n "" Hn) as (d & t & E & Hd); [lia|].
  fold (digits n) in E. rewrite E. by exists d, (t +:+ s).
Qed.

Lemma frac_first v prec s : 0 <= v -> digit_first (fmt_frac v prec +:+ s).
Proof.
  intros Hv. unfold fmt_frac. rewrite str_app_assoc. apply digits_first. apply Z.div_pos; [done|].
  apply Z.pow_pos_nonneg; lia.
Qed.

Lemma first_rest s : digit_first s -> rest_ok s /\ s <> "".
Proof. intros (d & t & -> & Hd). split; [by apply digit_char_in|done]. Qed.

(** Every part but the last has something after it. *)
Lemma parse_parts_last fuel d s v :
  (0 < fuel)%nat -> parse_part s = Some (v, "") -> 0 <= d + v <= 2 ^ 63 -> parse_parts fuel d s = Some (d + v).
Proof. intros Hf Hs Hd. rewrite (parse_parts_step _ _ _ _ _ Hf Hs Hd). by destruct (pred fuel). Qed.

Lemma first_length s t : digit_first s -> (1 + String.length t <= String.length (s +:+ t))%nat.
Proof. intros (d & r & -> & _). simpl. rewrite str_length_app. lia. Qed.

Lemma parts_seconds fuel d w :
  (0 < fuel)%nat -> 0 <= w < minute -> 0 <= d -> d + w <= 2 ^ 63 ->
  parse_parts fuel d (fmt_frac w 9 +:+ "s") = Some (d + w).
Proof.
  intros Hf Hw Hd Hs. apply parse_parts_last; [done| |lia].
  apply (parse_part_frac w 9 "s" ""); try done; [unfold minute, second, millisecond, microsecond in Hw; lia|lia].
Qed.

Lemma parts_minutes fuel d n w :
  (1 < fuel)%nat -> 0 <= n -> 0 <= w < minute -> 0 <= d -> d + n * minute + w <= 2 ^ 63 ->
  parse_parts fuel d (digits n +:+ "m" +:+ fmt_frac w 9 +:+ "s") = Some (d + n * minute + w).
Proof.
  intros Hf Hn Hw Hd Hs. assert (0 <= n * minute) by (unfold minute, second, millisecond, microsecond; lia).
  assert (parse_part (digits n +:+ "m" +:+ fmt_frac w 9 +:+ "s") = Some (n * minute, fmt_frac w 9 +:+ "s")) as Hp.
  { apply parse_part_whole; try done; [lia|]. apply first_rest, frac_first. lia. }
  rewrite (parse_parts_step fuel d _ _ _ ltac:(lia) Hp) by lia. apply parts_seconds; lia.
Qed.

Lemma parts_hours fuel h n w :
  (2 < fuel)%nat -> 0 <= h -> 0 <= n -> 0 <= w < minute -> h * (60 * minute) + n * minute + w <= 2 ^ 63 ->
  parse_parts fuel 0 (digits h +:+ "h" +:+ digits n +:+ "m" +:+ fmt_frac w 9 +:+ "s") =
  Some (h * (60 * minute) + n * minute + w).
Proof.
  intros Hf Hh Hn Hw Hs. set (body := digits n +:+ "m" +:+ fmt_frac w 9 +:+ "s").
  assert (0 <= h * (60 * minute)) by (apply Z.mul_nonneg_nonneg; done).
  assert (0 <= n * minute) by (apply Z.mul_nonneg_nonneg; done).
  assert (parse_part (digits h +:+ "h" +:+ body) = Some (h * (60 * minute), body)) as Hp.
  { apply parse_part_whole; try done; [lia|]. by apply first_rest, digits_first. }
  rewrite (fun Hf => parse_parts_step fuel 0 _ _ _ Hf Hp) by lia.
  unfold body. rewrite parts_minutes; [f_equal; lia|lia|lia|done|lia|lia].
Qed.

Lemma dur_body_parses u :
  0 < u <= 2 ^ 63 -> digit_first (dur_body u) /\ parse_parts (String.length (dur_body u)) 0 (dur_body u) = Some u.
Proof.
  intros Hu. unfold dur_body.
  assert (forall s, digit_first s -> parse_part s = Some (u, "") ->
            digit_first s /\ parse_parts (String.length s) 0 s = Some u) as Hone.
  { intros s Hs Hp. split; [done|]. change (Some u) with (Some (0 + u)). apply parse_parts_last; [destruct Hs as (d & t & -> & _); simpl; lia|done|lia]. }
  destruct (Z.ltb_spec u microsecond).
  { apply Hone; [apply digits_first; lia|]. rewrite <- (Z.mul_1_r u) at 2.
    apply (parse_part_whole u "ns" 1 ""); try done; lia. }
  destruct (Z.ltb_spec u millisecond); [apply Hone; [apply frac_first; lia|by apply (parse_part_frac u 3 "µs" ""); [lia|lia|..]]|].
  destruct (Z.ltb_spec u second); [apply Hone; [apply frac_first; lia|by apply (parse_part_frac u 6 "ms" ""); [lia|lia|..]]|].
  pose proof (Z.mod_pos_bound u minute ltac:(done)) as Hw. pose proof (Z.div_mod u minute ltac:(done)) as Hdm.
  assert (u / second / 60 = u / minute) as Hdiv by (rewrite Z.div_div by done; done).
  assert (Hf : forall t, digit_first (fmt_frac (u mod minute) 9 +:+ t)) by (intros t; apply frac_first; lia).
  cbv zeta. rewrite Hdiv. set (w := u mod minute) in *. set (m := u / minute) in *.
  assert (0 <= m) by (apply Z.div_pos; [lia|done]).
  destruct (Z.ltb_spec (u / second) 60) as [Hs|Hs].
  { split; [apply Hf|]. assert (m = 0) as Hm by (rewrite <- Hdiv; apply Z.div_small; split; [apply Z.div_pos; [lia|done]|done]).
    rewrite parts_seconds; [f_equal; lia|pose proof (first_length _ "" (Hf "s")); rewrite str_app_nil_r in *; lia|lia|done|lia]. }
  assert (Hl : forall n t, 0 <= n -> (1 + String.length t <= String.length (digits n +:+ t))%nat).
  { intros n t Hn. pose proof (first_length _ t (digits_first n "" Hn)) as L. by rewrite str_app_nil_r in L. }
  destruct (Z.ltb_spec m 60) as [Hm|Hm].
  { split; [by apply digits_first, Z.mod_pos_bound|]. rewrite Z.mod_small by lia.
    rewrite parts_minutes; [f_equal; lia|pose proof (Hl m ("m" +:+ fmt_frac w 9 +:+ "s") ltac:(done)); simpl in *; lia|done..|lia]. }
  pose proof (Z.mod_pos_bound m 60 ltac:(lia)) as Hm'. pose proof (Z.div_mod m 60 ltac:(lia)) as Hdm'.
  assert (u = m / 60 * (60 * minute) + m mod 60 * minute + w) as Hval by (rewrite Hdm; unfold minute; lia).
  assert (0 <= m / 60) by (by apply Z.div_pos).
  split; [by apply digits_first|].
  pose proof (Hl (m / 60) ("h" +:+ digits (m mod 60) +:+ "m" +:+ fmt_frac w 9 +:+ "s") ltac:(done)).
  pose proof (Hl (m mod 60) ("m" +:+ fmt_frac w 9 +:+ "s") ltac:(lia)). rewrite !(str_length_app "h"), !(str_length_app "m") in *.
  change (String.length "h") with 1%nat in *.
  rewrite parts_hours; [f_equal; lia|lia|done|lia|done|lia].
Qed.

Lemma sign_digit s : digit_first s -> sign_of s = (false, s).
Proof.
  intros (k & t & -> & Hk).
  assert (k = 0 \/ k = 1 \/ k = 2 \/ k = 3 \/ k = 4 \/ k = 5 \/ k = 6 \/ k = 7 \/ k = 8 \/ k = 9) as Hc by lia.
  by repeat destruct Hc as [->|Hc]; [..|subst].
Qed.

(** [ParseDuration] reads back what [Duration.String] prints, of any duration. *)
Lemma ParseDuration_string d : int64_range d -> ParseDuration (dur_string d) = Some d.
Proof.
  unfold int64_range. intros Hd. destruct (Z.eq_dec d 0) as [->|Hz]; [reflexivity|].
  assert (dur_string d = (if d <? 0 then "-" else "") +:+ dur_body (Z.abs d)) as ->.
  { unfold dur_string. by replace (Z.abs d =? 0) with false by lia. }
  destruct (dur_body_parses (Z.abs d)) as [Hb Hp]; [lia|].
  assert (forall neg : bool, (if String.eqb (dur_body (Z.abs d)) "0" then Some 0
    else if String.eqb (dur_body (Z.abs d)) "" then None
    else match parse_parts (String.length (dur_body (Z.abs d))) 0 (dur_body (Z.abs d)) with
         | None => None
         | Some d => if neg then Some (- d) else if d >? 2 ^ 63 - 1 then None else Some d
         end) = if neg then Some (- Z.abs d) else if Z.abs d >? 2 ^ 63 - 1 then None else Some (Z.abs d)) as Hbody.
  { intros neg. destruct (String.eqb_spec (dur_body (Z.abs d)) "0") as [E|_]; [by rewrite E in Hp|].
    destruct (String.eqb_spec (dur_body (Z.abs d)) "") as [E|_]; [by destruct Hb as (? & ? & Hb & _); rewrite E in Hb|].
    by rewrite Hp. }
  unfold ParseDuration. destruct (Z.ltb_spec d 0) as [Hneg|Hpos].
  - change (sign_of ("-" +:+ dur_body (Z.abs d))) with (true, dur_body (Z.abs d)). cbv iota. rewrite (Hbody true). f_equal. lia.
  - change ("" +:+ dur_body (Z.abs d)) with (dur_body (Z.abs d)).
    rewrite sign_digit by done. rewrite (Hbody false). replace (Z.abs d >? 2 ^ 63 - 1) with false by lia. f_equal. lia.
Qed.

(** Decimal digits are the digits of base ten. *)
Lemma digits_in_ten s x y : parse_digits x s = Some y -> digits_in 10 x s = Some (y, false).
Proof.
  revert x. induction s as [|c s IH]; intros x; simpl; [by intros [= ->]|].
  unfold digit_any. destruct (digit_val c) as [d|] eqn:E; [|done]. intros H.
  destruct (Ascii.eqb_spec c "_") as [->|_]; [done|]. apply digit_val_range in E.
  rewrite (proj2 (Z.ltb_lt d 10)) by lia. by apply IH.
Qed.

Lemma ParseUint0_digits n : 0 <= n < 2 ^ 64 -> ParseUint0 (digits n) = Some n.
Proof.
  intros Hn. destruct (Z.eq_dec n 0) as [->|Hz]; [reflexivity|].
  destruct (digits_head n) as (d & t & E & Hd); [lia|].
  pose proof (digits_in_ten _ _ _ (parse_digits_digits n ltac:(lia))) as Hp. unfold ParseUint0.
  assert (base_of (digits n) = (10, digits n)) as ->.
  { rewrite E. assert (d = 1 \/ d = 2 \/ d = 3 \/ d = 4 \/ d = 5 \/ d = 6 \/ d = 7 \/ d = 8 \/ d = 9) as Hc by lia.
    by repeat destruct Hc as [->|Hc]; [..|subst]. }
  rewrite Hp. rewrite E at 1. cbn [String.eqb andb]. by rewrite (proj2 (Z.ltb_lt n (2 ^ 64))) by lia.
Qed.

(** [ParseInt(s, 0, 64)] reads back what [Itoa] prints. *)
Lemma ParseInt0_itoa z : int64_range z -> ParseInt0 (itoa z) = Some z.
Proof.
  unfold int64_range, itoa. intros Hz. unfold ParseInt0. destruct (Z.ltb_spec z 0) as [Hneg|Hpos].
  - change (sign_of ("-" +:+ digits (- z))) with (true, digits (- z)). cbv iota.
    rewrite ParseUint0_digits by lia. replace (2 ^ 63 <? - z) with false by lia. f_equal. lia.
  - rewrite sign_digit by (rewrite <- (str_app_nil_r (digits z)); by apply digits_first).
    rewrite ParseUint0_digits by lia. by replace (2 ^ 63 <=? z) with false by lia.
Qed.

(** ** [flag] *)

Inductive flag_kind : Type := FString | FInt | FUint | FBool | FDuration.

Inductive flag_value : Type := VString (s : string) | VNumber (n : Z) | VBool (b : bool).

Definition ParseBool (s : string) : option bool :=
  if existsb (String.eqb s) ["1"; "t"; "T"; "TRUE"; "true"; "True"] then Some true
  else if existsb (String.eqb s) ["0"; "f"; "F"; "FALSE"; "false"; "False"] then Some false
  else None.

(** A flag's [Set]. *)
Definition set_value (k : flag_kind) (s : string) : option flag_value :=
  match k with
  | FString => Some (VString s)
  | FInt => VNumber <$> ParseInt0 s
  | FUint => VNumber <$> ParseUint0 s
  | FBool => VBool <$> ParseBool s
  | FDuration => VNumber <$> ParseDuration s
  end.

Inductive flag_error : Type :=
  | BadSyntax (arg : string) | NotDefined (name : string) | Help
  | NeedsArgument (name : string) | InvalidValue (value name : string).

(** [flag.ExitOnError]: asking for help is no error. *)
Definition flag_exit (e : flag_error) : Z := match e with Help => 0 | _ => 2 end.

(** The flags a command defines. *)
Definition flag_set : Type := list (string * flag_kind).

Fixpoint lookup_flag (fs : flag_set) (name : string) : option flag_kind :=
  match fs with
  | [] => None
  | (n, k) :: fs => if String.eqb n name then Some k else lookup_flag fs name
  end.

(** What an argument is: no flag, the end of the flags, no flag's syntax, or a
    flag with the value after its first equals sign, if any. *)
Inductive flag_arg : Type := NoFlag | EndOfFlags | Malformed | Flag (name : string) (value : option string).

Definition flag_name (name : string) : flag_arg :=
  match name with
  | EmptyString => Malformed
  | String c rest =>
      if Ascii.eqb c "-" || Ascii.eqb c "=" then Malformed
      else
        let '(n, v, has) := cut "=" rest in
        Flag (String c n) (if has then Some v else None)
  end.

Definition flag_arg_of (s : string) : flag_arg :=
  match s with
  | String "-" EmptyString => NoFlag
  | String "-" (String "-" EmptyString) => EndOfFlags
  | String "-" (String "-" name) => flag_name name
  | String "-" name => flag_name name
  | _ => NoFlag
  end.

(** [Parse]: the flags set, in order, and the arguments left. *)
Fixpoint parse_args (fs : flag_set) (args : list string)
  : result flag_error (list (string * flag_value) * list string) :=
  match args with
  | [] => Ok ([], [])
  | s :: args' =>
      match flag_arg_of s with
      | NoFlag => Ok ([], args)
      | EndOfFlags => Ok ([], args')
      | Malformed => Err (BadSyntax s)
      | Flag name value =>
          let set (k : flag_kind) (v : string) (rest : result flag_error (list (string * flag_value) * list string)) :=
            match set_value k v with
            | None => Err (InvalidValue v name)
            | Some x => let? (set, left_) := rest in Ok ((name, x) :: set, left_)
            end in
          match lookup_flag fs name with
          | None => if String.eqb name "help" || String.eqb name "h" then Err Help else Err (NotDefined name)
          | Some FBool => set FBool (default "true" value) (parse_args fs args')
          | Some k =>
              match value, args' with
              | Some v, _ => set k v (parse_args fs args')
              | None, v :: args' => set k v (parse_args fs args')
              | None, [] => Err (NeedsArgument name)
              end
          end
      end
  end.

Example parse_args_ex :
  parse_args [("rate", FInt); ("once", FBool); ("d", FDuration)] ["-rate"; "0x10"; "--once"; "-d=1m"; "-"; "x"] =
    Ok ([("rate", VNumber 16); ("once", VBool true); ("d", VNumber minute)], ["-"; "x"]) /\
  parse_args [("rate", FInt)] ["-rate"; "ten"] = Err (InvalidValue "ten" "rate") /\
  parse_args [("rate", FInt)] ["-h"] = Err Help.
Proof. vm_compute. done. Qed.

(** A flag of a command's own, followed by its value. *)
Lemma parse_args_cons fs arg name k v x args :
  flag_arg_of arg = Flag name None -> lookup_flag fs name = Some k -> k <> FBool -> set_value k v = Some x ->
  parse_args fs (arg :: v :: args) = (let? (set, left_) := parse_args fs args in Ok ((name, x) :: set, left_)).
Proof. intros Hf Hl Hk Hs. cbn [parse_args]. rewrite Hf, Hl. destruct k; try done; by rewrite Hs. Qed.

Lemma parse_args_bool fs arg name args :
  flag_arg_of arg = Flag name None -> lookup_flag fs name = Some FBool ->
  parse_args fs (arg :: args) = (let? (set, left_) := parse_args fs args in Ok ((name, VBool true) :: set, left_)).
Proof. intros Hf Hl. cbn [parse_args]. by rewrite Hf, Hl. Qed.

(** The last value given to a flag. *)
Fixpoint flag_given (set : list (string * flag_value)) (name : string) (v : flag_value) : flag_value :=
  match set with
  | [] => v
  | (n, x) :: set => flag_given set name (if String.eqb n name then x else v)
  end.

Definition string_value (v : flag_value) : string := match v with VString s => s | _ => "" end.
Definition number_value (v : flag_value) : Z := match v with VNumber n => n | _ => 0 end.
Definition bool_value (v : flag_value) : bool := match v with VBool b => b | _ => false end.

(** The variable of a flag after [Parse], given its default. *)
Definition str_flag (set : list (string * flag_value)) (name v : string) : string :=
  string_value (flag_given set name (VString v)).
Definition num_flag (set : list (string * flag_value)) (name : string) (v : Z) : Z :=
  number_value (flag_given set name (VNumber v)).
Definition bool_flag (set : list (string * flag_value)) (name : string) (v : bool) : bool :=
  bool_value (flag_given set name (VBool v)).

(** ** Numbers given to flags are machine words *)

Lemma digit_any_nonneg c d : digit_any c = Some d -> 0 <= d.
Proof.
  unfold digit_any. destruct (digit_val c) as [x|] eqn:E; [intros [= <-]; apply digit_val_range in E; lia|].
  case_match; [|done]. intros [= <-]. b2p. lia.
Qed.

Lemma digits_in_nonneg base acc s n u : 0 <= base -> 0 <= acc -> digits_in base acc s = Some (n, u) -> 0 <= n.
Proof.
  intros Hb. revert acc n u. induction s as [|c s IH]; intros acc n u Ha; simpl; [by intros [= <- _]|].
  destruct (Ascii.eqb c "_").
  - destruct (digits_in base acc s) as [[n' u']|] eqn:E; [|done]. intros [= <- _]. by eapply IH.
  - destruct (digit_any c) as [d|] eqn:Ed; [|done]. destruct (d <? base); [|done].
    apply digit_any_nonneg in Ed. apply IH. nia.
Qed.

Lemma base_of_pos s : 0 <= fst (base_of s).
Proof. unfold base_of. repeat case_match; simpl; lia. Qed.

Lemma ParseInt0_range s z : ParseInt0 s = Some z -> int64_range z.
Proof.
  unfold ParseInt0, int64_range. destruct (sign_of s) as [neg u]. destruct (ParseUint0 u) as [n|] eqn:E; [|done].
  assert (0 <= n).
  { unfold ParseUint0 in E. destruct (String.eqb u ""); [done|]. pose proof (base_of_pos u) as Hb.
    destruct (base_of u) as [base body]. destruct (digits_in base 0 body) as [[m under]|] eqn:Ed; [|done].
    apply digits_in_nonneg in Ed; [|done..]. repeat case_match; congruence. }
  destruct neg; case_match; try done; intros [= <-]; b2p; lia.
Qed.

Lemma parse_parts_range fuel d s n : 0 <= d <= 2 ^ 63 -> parse_parts fuel d s = Some n -> 0 <= n <= 2 ^ 63.
Proof.
  revert d s. induction fuel as [|fuel IH]; intros d [|c s] Hd; cbn [parse_parts]; try (by intros [= <-]); try done.
  destruct (parse_part (String c s)) as [[v rest]|]; [|done].
  pose proof (Z.mod_pos_bound (d + v) (2 ^ 64) ltac:(lia)). case_match; [done|]. apply IH. b2p. lia.
Qed.

Lemma ParseDuration_range s d : ParseDuration s = Some d -> int64_range d.
Proof.
  unfold ParseDuration, int64_range. destruct (sign_of s) as [neg u].
  destruct (String.eqb u "0"); [intros [= <-]; lia|]. destruct (String.eqb u ""); [done|].
  destruct (parse_parts (String.length u) 0 u) as [n|] eqn:E; [|done]. apply parse_parts_range in E; [|lia].
  destruct neg; [intros [= <-]; lia|]. case_match; [done|]. intros [= <-]. b2p. lia.
Qed.

(** What [Parse] sets, some argument gave. *)
Lemma parse_args_given fs args set left_ name x :
  parse_args fs args = Ok (set, left_) -> (name, x) ∈ set ->
  exists k v, lookup_flag fs name = Some k /\ set_value k v = Some x.
Proof.
  revert set left_. induction args as [args IH] using (well_founded_ind (Wf_nat.well_founded_ltof _ length)).
  intros set left_. destruct args as [|s args]; cbn [parse_args]; [intros [= <- _] H; set_solver|].
  destruct (flag_arg_of s) as [| | |name' value]; try (intros [= <- _] H; set_solver); try done.
  destruct (lookup_flag fs name') as [k|] eqn:Ek; [|by case_match].
  assert (forall v rest k', length rest < S (length args) -> k = k' ->
    match set_value k' v with
    | Some y => let? (set, left_) := parse_args fs rest in Ok ((name', y) :: set, left_)
    | None => Err (InvalidValue v name')
    end = Ok (set, left_) -> (name, x) ∈ set -> exists k v, lookup_flag fs name = Some k /\ set_value k v = Some x)%nat
    as Hone.
  { intros v rest k' Hrest <-. destruct (set_value k v) as [y|] eqn:Ey; [|done].
    destruct (parse_args fs rest) as [[set' l']|] eqn:E; [|done]. intros [= <- <-] [[= -> ->]|H]%elem_of_cons; [eauto|].
    by eapply (IH rest). }
  destruct k, value as [v|], args as [|w args]; try done; apply Hone; simpl; lia || done.
Qed.

Lemma num_flag_range fs args set left_ name d :
  parse_args fs args = Ok (set, left_) -> lookup_flag fs name = Some FInt \/ lookup_flag fs name = Some FDuration ->
  int64_range d -> int64_range (num_flag set name d).
Proof.
  intros Hp Hk Hd. unfold num_flag.
  assert (forall x, (name, x) ∈ set -> exists n, x = VNumber n /\ int64_range n) as Hset.
  { intros x Hx. destruct (parse_args_given _ _ _ _ _ _ Hp Hx) as (k & v & Hl & Hv).
    destruct Hk as [Hk|Hk]; rewrite Hk in Hl; injection Hl as <-; cbn [set_value] in Hv;
      apply fmap_Some in Hv as (n & Hn & ->); eauto using ParseInt0_range, ParseDuration_range. }
  assert (exists n, VNumber d = VNumber n /\ int64_range n) as Hv by eauto. clear Hp. revert Hv.
  generalize (VNumber d). induction set as [|[n' x] set IH]; intros v Hv; cbn [flag_given].
  - by destruct Hv as (n & -> & Hn).
  - apply IH; [intros y Hy; apply Hset; by right|]. destruct (String.eqb_spec n' name) as [->|_]; [apply Hset; by left|done].
Qed.
