(* ===== verification/DnsWire.v ===== *)
(** * [bench/internal/dnswire]: the DNS messages the harness builds and reads

    Messages are byte lists; every length and offset check of the source is a
    branch here.  The two name walks ([question_loop], [end_loop]) run on fuel
    bounded by the message length, and [question_total] and
    [question_end_total] show the bound is enough. *)

From S2P Require Import Prelude GoStrings.

Notation bytes := (list Z).

Definition bytes_ok (b : bytes) : Prop := Forall (fun x => 0 <= x < 256) b.

(** [encoding/binary]'s big-endian integers. *)
Definition be16 (v : Z) : bytes := [u8 (v / 256); u8 v].
Definition be32 (v : Z) : bytes := [u8 (v / 16777216); u8 (v / 65536); u8 (v / 256); u8 v].
Definition get16 (b : bytes) (off : Z) : Z := at_off b off * 256 + at_off b (off + 1).
Definition put16 (b : bytes) (off v : Z) : bytes :=
  take (Z.to_nat off) b ++ be16 v ++ drop (Z.to_nat (off + 2)) b.

Definition byte_of (c : ascii) : Z := Z.of_nat (nat_of_ascii c).
Definition ascii_of (b : Z) : ascii := ascii_of_nat (Z.to_nat b).
Definition bytes_of (s : string) : bytes := map byte_of (String.list_ascii_of_string s).
Definition string_of (b : bytes) : string := String.string_of_list_ascii (map ascii_of b).

Definition TypeA : Z := 1.
Definition TypeAAAA : Z := 28.
Definition ClassIN : Z := 1.

Inductive wire_error : Type :=
  | ShortMessage (n : Z)
  | NotAResponse
  | NamePastMessage
  | CompressionPointer
  | LabelPastMessage
  | QuestionTruncated
  | OutOfFuel.  (** never returned: see [question_total] *)

(** ** Building a query *)

Definition append_label (buf : bytes) (label : string) : bytes :=
  buf ++ [u8 (slen label)] ++ bytes_of label.

Definition appendName (buf : bytes) (name : string) : bytes :=
  let name := trim_suffix "." name in
  let buf := if String.eqb name "" then buf
             else fold_left append_label (split "."%char name) buf in
  buf ++ [0].

Definition query (id : Z) (name : string) (qtype udpSize : Z) (do : bool) : bytes :=
  let buf := be16 id in
  let buf := buf ++ be16 0x0100 in
  let buf := buf ++ be16 1 in
  let buf := buf ++ be16 0 in
  let buf := buf ++ be16 0 in
  let arcount := if 0 <? udpSize then 1 else 0 in
  let buf := buf ++ be16 arcount in
  let buf := appendName buf name in
  let buf := buf ++ be16 qtype in
  let buf := buf ++ be16 ClassIN in
  if 0 <? udpSize then
    let buf := buf ++ [0] in
    let buf := buf ++ be16 41 in
    let buf := buf ++ be16 udpSize in
    let flags := if do then 0x8000 else 0 in
    let buf := buf ++ [0; 0] in
    let buf := buf ++ be16 flags in
    buf ++ be16 0
  else buf.

Definition Query (id : Z) (name : string) (qtype udpSize : Z) : bytes :=
  query id name qtype udpSize false.

Definition QueryDO (id : Z) (name : string) (qtype udpSize : Z) : bytes :=
  query id name qtype udpSize true.

(** ** Reading a reply *)

Record Reply : Type := mkReply {
  rID : Z;
  rRcode : Z;
  rAnCount : Z;
  rTruncated : bool;
  rAD : bool
}.

Definition ParseReply (msg : bytes) : result wire_error Reply :=
  if zlen msg <? 12 then Err (ShortMessage (zlen msg))
  else
    let flags := get16 msg 2 in
    if Z.land flags 0x8000 =? 0 then Err NotAResponse
    else Ok {| rID := get16 msg 0;
               rRcode := Z.land flags 0x000F;
               rAnCount := get16 msg 6;
               rTruncated := negb (Z.land flags 0x0200 =? 0);
               rAD := negb (Z.land flags 0x0020 =? 0) |}.

(** ** Reading a question *)

Fixpoint question_loop (fuel : nat) (msg : bytes) (off : Z) (sb : string)
  : result wire_error (string * Z) :=
  match fuel with
  | O => Err OutOfFuel
  | S fuel' =>
      if zlen msg <=? off then Err NamePastMessage
      else
        let n := at_off msg off in
        let off := off + 1 in
        if n =? 0 then Ok (sb, off)
        else if negb (Z.land n 0xC0 =? 0) then Err CompressionPointer
        else if zlen msg <? off + n then Err LabelPastMessage
        else question_loop fuel' msg (off + n)
               (sb +:+ string_of (slice msg off (off + n)) +:+ ".")
  end.

Definition walk_fuel (msg : bytes) : nat := S (length msg).

Definition Question (msg : bytes) : result wire_error (string * Z) :=
  if zlen msg <? 12 then Err (ShortMessage (zlen msg))
  else
    let? (name, off) := question_loop (walk_fuel msg) msg 12 "" in
    if zlen msg <? off + 4 then Err QuestionTruncated
    else Ok (name, get16 msg off).

(** ** Building an answer *)

Fixpoint end_loop (fuel : nat) (msg : bytes) (off : Z) : result wire_error Z :=
  match fuel with
  | O => Err OutOfFuel
  | S fuel' =>
      if zlen msg <=? off then Err NamePastMessage
      else
        let n := at_off msg off in
        let off := off + 1 in
        if n =? 0 then Ok off
        else if negb (Z.land n 0xC0 =? 0) then Err CompressionPointer
        else end_loop fuel' msg (off + n)
  end.

Definition questionEnd (msg : bytes) : result wire_error Z :=
  if zlen msg <? 12 then Err (ShortMessage (zlen msg))
  else
    let? off := end_loop (walk_fuel msg) msg 12 in
    let off := off + 4 in
    if zlen msg <? off then Err QuestionTruncated else Ok off.

(** The header both answers write over the query's: QR, RD, RA; one question;
    [ancount] answers; nothing else. *)
Definition answer_header (out : bytes) (ancount : Z) : bytes :=
  let out := put16 out 2 0x8180 in
  let out := put16 out 4 1 in
  let out := put16 out 6 ancount in
  let out := put16 out 8 0 in
  put16 out 10 0.

Definition a_record (ttl : Z) (ip : bytes) : bytes :=
  [0xC0; 0x0C] ++ be16 TypeA ++ be16 ClassIN ++ be32 ttl ++ be16 4 ++ ip.

Definition AnswerA (query : bytes) (ip : Z * Z * Z * Z) (ttl : Z) : result wire_error bytes :=
  let? qEnd := questionEnd query in
  let '(a, b, c, d) := ip in
  let out := take (Z.to_nat qEnd) query in
  let out := answer_header out 1 in
  Ok (out ++ a_record ttl [a; b; c; d]).

Definition AnswerEmpty (query : bytes) : result wire_error bytes :=
  let? qEnd := questionEnd query in
  let out := take (Z.to_nat qEnd) query in
  Ok (answer_header out 0).

Example query_ex : Query 258 "a.bc." 1 0 =
  [1; 2; 1; 0; 0; 1; 0; 0; 0; 0; 0; 0; 1; 97; 2; 98; 99; 0; 0; 1; 0; 1].
Proof. reflexivity. Qed.

Example question_ex : Question (Query 258 "a.bc." 1 1232) = Ok ("a.bc.", 1).
Proof. reflexivity. Qed.

Example question_end_ex : questionEnd (Query 258 "a.bc." 1 1232) = Ok 22.
Proof. reflexivity. Qed.

(** ** Bytes and strings *)

Lemma u8_byte_of c : 0 <= byte_of c < 256.
Proof. unfold byte_of. pose proof (nat_ascii_bounded c). lia. Qed.

Lemma string_of_bytes_of s : string_of (bytes_of s) = s.
Proof.
  unfold string_of, bytes_of. induction s as [|c s IH]; simpl; [done|].
  rewrite IH. f_equal. unfold ascii_of, byte_of. by rewrite Nat2Z.id, ascii_nat_embedding.
Qed.

Lemma zlen_bytes_of s : zlen (bytes_of s) = slen s.
Proof. unfold zlen, bytes_of. induction s as [|c s IH]; simpl in *; [done|lia]. Qed.

Lemma get16_be16 pre v post : 0 <= v < 65536 -> get16 (pre ++ be16 v ++ post) (zlen pre) = v.
Proof.
  intros Hv. unfold get16, be16. simpl. rewrite at_off_app.
  change (u8 (v / 256) :: u8 v :: post) with ([u8 (v / 256)] ++ u8 v :: post).
  rewrite app_assoc. replace (zlen pre + 1) with (zlen (pre ++ [u8 (v / 256)]))
    by (autorewrite with zlen; lia).
  rewrite at_off_app. unfold u8. rewrite (Z.mod_small (v / 256)).
  - rewrite Z.mul_comm. symmetry. apply Z.div_mod. lia.
  - split; [apply Z.div_pos; lia|apply Z.div_lt_upper_bound; lia].
Qed.

Lemma zlen_be16 v : zlen (be16 v) = 2.
Proof. done. Qed.
Lemma zlen_be32 v : zlen (be32 v) = 4.
Proof. done. Qed.
#[export] Hint Rewrite zlen_be16 zlen_be32 zlen_bytes_of : zlen.

(** ** The encoded name

    A name on the wire is a sequence of raw labels of 1 to 63 bytes, each
    behind its length, and a zero byte. *)

Definition raw_ok (r : bytes) : Prop := 1 <= zlen r <= 63.

Definition encode_raw (rs : list bytes) : bytes := concat (map (fun r => zlen r :: r) rs).

Definition dotted_raw (rs : list bytes) : string :=
  concat_all (map (fun r => string_of r +:+ ".") rs).

(** A label that the dotted form can name: it holds no dot. *)
Definition label_ok (l : string) : Prop := 1 <= slen l <= 63 /\ lacks "."%char l.

Definition encode_labels (ls : list string) : bytes := encode_raw (map bytes_of ls).

Definition dotted (ls : list string) : string := concat_all (map (fun l => l +:+ ".") ls).

Lemma encode_raw_cons r rs : encode_raw (r :: rs) = zlen r :: r ++ encode_raw rs.
Proof. done. Qed.

Lemma encode_labels_cons l ls : encode_labels (l :: ls) = slen l :: bytes_of l ++ encode_labels ls.
Proof. unfold encode_labels. simpl. by rewrite encode_raw_cons, zlen_bytes_of. Qed.

Lemma dotted_raw_labels ls : dotted_raw (map bytes_of ls) = dotted ls.
Proof.
  unfold dotted_raw, dotted. induction ls as [|l ls IH]; simpl; [done|].
  by rewrite IH, string_of_bytes_of.
Qed.

Lemma labels_raw_ok ls : Forall label_ok ls -> Forall raw_ok (map bytes_of ls).
Proof.
  intros H. apply Forall_map. eapply Forall_impl; [exact H|].
  intros l [Hl _]. unfold raw_ok, compose. by rewrite zlen_bytes_of.
Qed.

Lemma encode_raw_length rs : Z.of_nat (length rs) <= zlen (encode_raw rs).
Proof.
  induction rs as [|r rs IH]; [done|]. rewrite encode_raw_cons. autorewrite with zlen.
  pose proof (zlen_nonneg r). simpl. lia.
Qed.

Lemma fold_append_label ls buf :
  Forall label_ok ls -> fold_left append_label ls buf = buf ++ encode_labels ls.
Proof.
  intros H; revert buf; induction H as [|l ls [Hl _] _ IH]; intros buf; simpl.
  - by rewrite app_nil_r.
  - rewrite IH. unfold append_label. rewrite u8_id by lia.
    by rewrite encode_labels_cons, <- !app_assoc.
Qed.

Lemma join_nonempty ls : ls <> [] -> Forall label_ok ls -> join "." ls <> "".
Proof.
  intros Hn H. destruct H as [|l ls [Hl _] _]; [done|].
  destruct l; simpl in Hl; [lia|]. by destruct ls.
Qed.

Lemma label_ok_nonempty : ~ label_ok "".
Proof. intros [H _]. simpl in H. lia. Qed.

Lemma labels_lack_dot ls : Forall label_ok ls -> Forall (lacks "."%char) ls.
Proof. intros H. eapply Forall_impl; [exact H|]. by intros l [_ ?]. Qed.

Lemma join_no_dot_suffix ls : Forall label_ok ls -> has_suffix "." (join "." ls) = false.
Proof.
  intros H. destruct (has_suffix "." (join "." ls)) eqn:E; [exfalso|done].
  apply has_suffix_spec in E as [t Et].
  destruct ls as [|l ls]; [by destruct t|].
  pose proof (split_join "."%char (l :: ls)) as Hs. rewrite Et in Hs.
  rewrite split_app_sep in Hs. specialize (Hs ltac:(done) (labels_lack_dot _ H)).
  rewrite <- Hs in H. apply Forall_app in H as [_ H]. inversion H.
  by apply label_ok_nonempty.
Qed.

(** [appendName] writes the labels of a well-formed name, with or without the
    final dot; no labels is the root. *)
Lemma appendName_labels buf ls (final_dot : bool) :
  Forall label_ok ls ->
  appendName buf (join "." ls +:+ (if final_dot then "." else "")) = buf ++ encode_labels ls ++ [0].
Proof.
  intros H. unfold appendName.
  assert (trim_suffix "." (join "." ls +:+ (if final_dot then "." else "")) = join "." ls) as ->.
  { destruct final_dot; [apply trim_suffix_app|].
    by rewrite str_app_nil_r, trim_suffix_none by by apply join_no_dot_suffix. }
  destruct (decide (ls = [])) as [->|Hn]; [done|].
  destruct (String.eqb_spec (join "." ls) ""); [by destruct (join_nonempty ls)|].
  rewrite split_join by auto using labels_lack_dot.
  by rewrite fold_append_label, <- app_assoc by done.
Qed.

(** ** The name walks on an encoded name *)

Lemma land_C0 n : 0 <= n < 256 -> (Z.land n 0xC0 =? 0) = (n <? 64).
Proof.
  intros Hn.
  assert (forallb (fun i => Bool.eqb (Z.land (Z.of_nat i) 0xC0 =? 0) (Z.of_nat i <? 64))
            (seq 0 256) = true) as H by reflexivity.
  rewrite forallb_forall in H. specialize (H (Z.to_nat n)).
  rewrite Z2Nat.id in H by lia. apply eqb_prop, H, in_seq. lia.
Qed.

(** Walking an encoded name from its first byte. *)
Lemma question_loop_raw rs fuel pre post sb :
  Forall raw_ok rs -> (length rs < fuel)%nat ->
  question_loop fuel (pre ++ encode_raw rs ++ 0 :: post) (zlen pre) sb =
    Ok (sb +:+ dotted_raw rs, zlen pre + zlen (encode_raw rs) + 1).
Proof.
  intros H; revert fuel pre sb.
  induction H as [|r rs Hr _ IH]; intros [|fuel] pre sb Hf; simpl in Hf; try lia;
    unfold raw_ok in *; pose proof (zlen_nonneg post).
  - simpl. rewrite at_off_app. replace (_ <=? zlen pre) with false
      by (symmetry; autorewrite with zlen; lia).
    simpl. change (dotted_raw []) with "". by rewrite str_app_nil_r, Z.add_0_r.
  - pose proof (zlen_nonneg (encode_raw rs)).
    rewrite encode_raw_cons. cbn [question_loop]. simpl app. rewrite at_off_app.
    set (msg := pre ++ _).
    assert (zlen msg = zlen pre + 1 + zlen r + zlen (encode_raw rs) + 1 + zlen post) as Hlen
      by (unfold msg; autorewrite with zlen; lia).
    assert (msg = (pre ++ [zlen r]) ++ r ++ (encode_raw rs ++ 0 :: post)) as Hm1
      by (unfold msg; by rewrite <- !app_assoc).
    assert (msg = (pre ++ [zlen r] ++ r) ++ encode_raw rs ++ 0 :: post) as Hm2
      by (rewrite Hm1; by rewrite <- !app_assoc).
    replace (zlen msg <=? zlen pre) with false by (symmetry; lia).
    replace (zlen r =? 0) with false by (symmetry; lia).
    rewrite land_C0 by lia. replace (zlen r <? 64) with true by (symmetry; lia). simpl negb.
    replace (zlen msg <? zlen pre + 1 + zlen r) with false by (symmetry; lia).
    replace (slice msg (zlen pre + 1) (zlen pre + 1 + zlen r)) with r.
    2:{ rewrite Hm1. replace (zlen pre + 1) with (zlen (pre ++ [zlen r])) by (autorewrite with zlen; lia).
        by rewrite slice_app. }
    replace (zlen pre + 1 + zlen r) with (zlen (pre ++ [zlen r] ++ r)) by (autorewrite with zlen; lia).
    rewrite Hm2, IH by lia. f_equal. f_equal.
    + unfold dotted_raw. simpl. by autorewrite with str.
    + autorewrite with zlen. lia.
Qed.

(** Conversely, a walk that succeeds has read an encoded name. *)
Lemma question_loop_inv fuel pre mid sb name off :
  bytes_ok mid ->
  question_loop fuel (pre ++ mid) (zlen pre) sb = Ok (name, off) ->
  exists rs rest, Forall raw_ok rs /\ mid = encode_raw rs ++ 0 :: rest /\
    name = sb +:+ dotted_raw rs /\ off = zlen pre + zlen (encode_raw rs) + 1.
Proof.
  revert pre mid sb. induction fuel as [|fuel IH]; intros pre mid sb Hb; simpl; [done|].
  destruct (_ <=? zlen pre) eqn:E; [done|]. b2p.
  destruct mid as [|n mid]; [rewrite app_nil_r in E; lia|].
  rewrite at_off_app. apply Forall_cons in Hb as [Hn Hb].
  destruct (n =? 0) eqn:En; b2p.
  - intros [= <- <-]. subst n. exists [], mid. change (dotted_raw []) with "".
    rewrite str_app_nil_r. change (zlen (encode_raw [])) with 0. split_and!; [done..|lia].
  - rewrite land_C0 by done. destruct (n <? 64) eqn:E64; [simpl|done]. b2p.
    destruct (_ <? zlen pre + 1 + n) eqn:El; [done|]. b2p.
    rewrite zlen_app, zlen_cons in El.
    destruct (split_at mid n) as (r & mid' & -> & Hr); [lia|].
    replace (pre ++ n :: r ++ mid') with ((pre ++ [n]) ++ r ++ mid') by (by rewrite <- app_assoc).
    replace (slice _ (zlen pre + 1) (zlen pre + 1 + n)) with r.
    2:{ rewrite <- Hr at 2. replace (zlen pre + 1) with (zlen (pre ++ [n])) by (autorewrite with zlen; lia).
        by rewrite slice_app. }
    replace (zlen pre + 1 + n) with (zlen (pre ++ [n] ++ r)) by (autorewrite with zlen; lia).
    replace ((pre ++ [n]) ++ r ++ mid') with ((pre ++ [n] ++ r) ++ mid') by (by rewrite <- !app_assoc).
    intros Hl. apply IH in Hl as (rs & rest & Hrs & -> & -> & ->); [|by apply Forall_app in Hb as [_ ?]].
    exists (r :: rs), rest. rewrite encode_raw_cons, Hr. split_and!.
    + constructor; [unfold raw_ok; lia|done].
    + simpl. by rewrite <- app_assoc.
    + unfold dotted_raw. simpl. by autorewrite with str.
    + autorewrite with zlen. lia.
Qed.

Lemma get16_app_r pre post i : 0 <= i -> get16 (pre ++ post) (zlen pre + i) = get16 post i.
Proof.
  intros ?. unfold get16. rewrite <- Z.add_assoc, !at_off_app_r by lia. done.
Qed.

Lemma walk_fuel_enough rs head post :
  (length rs < walk_fuel (head ++ encode_raw rs ++ post))%nat.
Proof.
  unfold walk_fuel. pose proof (encode_raw_length rs). unfold zlen in *.
  rewrite !length_app. lia.
Qed.

(** The question section of a message: the name, then four bytes of type and
    class, with anything behind it. *)
Lemma Question_spec msg name qtype :
  bytes_ok msg ->
  Question msg = Ok (name, qtype) <->
  exists head rs tail, zlen head = 12 /\ Forall raw_ok rs /\
    msg = head ++ encode_raw rs ++ 0 :: tail /\ 4 <= zlen tail /\
    name = dotted_raw rs /\ qtype = get16 tail 0.
Proof.
  intros Hb. unfold Question. split.
  - destruct (_ <? 12) eqn:E; [done|]. b2p.
    destruct (split_at msg 12) as (head & mid & -> & Hh); [lia|].
    apply Forall_app in Hb as [_ Hb].
    intros ([n o] & Hl & Hr)%rbind_ok. rewrite <- Hh in Hl at 1.
    apply question_loop_inv in Hl as (rs & tail & Hrs & -> & -> & ->); [|done].
    replace (zlen head + zlen (encode_raw rs) + 1) with (zlen (head ++ encode_raw rs ++ [0]) + 0) in Hr
      by (autorewrite with zlen; lia).
    replace (head ++ encode_raw rs ++ 0 :: tail) with ((head ++ encode_raw rs ++ [0]) ++ tail) in *
      by (by rewrite <- !app_assoc).
    rewrite get16_app_r in Hr by lia. case_match; [done|]. b2p. simplify_eq.
    exists head, rs, tail. split_and!; try done; [by rewrite <- !app_assoc|].
    autorewrite with zlen in *. lia.
  - intros (head & rs & tail & Hh & Hrs & -> & Ht & -> & ->).
    replace (_ <? 12) with false by (symmetry; autorewrite with zlen;
      pose proof (zlen_nonneg (encode_raw rs)); lia).
    rewrite <- Hh at 1.
    rewrite question_loop_raw by auto using walk_fuel_enough. simpl rbind.
    replace (zlen head + zlen (encode_raw rs) + 1) with (zlen (head ++ encode_raw rs ++ [0]) + 0)
      by (autorewrite with zlen; lia).
    replace (head ++ encode_raw rs ++ 0 :: tail) with ((head ++ encode_raw rs ++ [0]) ++ tail)
      by (by rewrite <- !app_assoc).
    rewrite get16_app_r by lia.
    replace (_ <? _) with false by (symmetry; rewrite zlen_app; lia). done.
Qed.

(** ** The two walks agree *)

Lemma end_loop_of_question fuel msg off sb name o :
  question_loop fuel msg off sb = Ok (name, o) -> end_loop fuel msg off = Ok o.
Proof.
  revert off sb. induction fuel as [|fuel IH]; intros off sb; simpl; [done|].
  repeat (case_match; try done; try naive_solver).
Qed.

Lemma question_of_end_loop fuel msg off sb o :
  end_loop fuel msg off = Ok o -> exists name, question_loop fuel msg off sb = Ok (name, o).
Proof.
  revert off sb. induction fuel as [|fuel IH]; intros off sb; simpl; [done|].
  destruct (zlen msg <=? off); [done|].
  destruct (at_off msg off =? 0); [intros [= <-]; by eexists|].
  destruct (negb _); [done|].
  destruct (zlen msg <? _) eqn:E; [|apply IH]. b2p.
  destruct fuel as [|fuel]; simpl; [done|].
  by replace (zlen msg <=? _) with true by (symmetry; lia).
Qed.

Lemma question_end_of_Question msg name qtype :
  Question msg = Ok (name, qtype) -> exists o, questionEnd msg = Ok o.
Proof.
  unfold Question, questionEnd. case_match; [done|].
  intros ([n o] & Hl & Hr)%rbind_ok. apply end_loop_of_question in Hl as ->.
  simpl in *. case_match; [done|]. by eexists.
Qed.

Lemma Question_of_question_end msg o :
  questionEnd msg = Ok o -> exists name qtype, Question msg = Ok (name, qtype).
Proof.
  unfold Question, questionEnd. case_match; [done|].
  intros (o' & Hl & Hr)%rbind_ok.
  apply question_of_end_loop with (sb := "") in Hl as [name ->]. simpl in *.
  case_match; [done|]. by eexists _, _.
Qed.

(** Where the question ends, in the grammar of [Question_spec]. *)
Lemma questionEnd_spec msg o :
  bytes_ok msg -> questionEnd msg = Ok o ->
  exists head rs qs rest, zlen head = 12 /\ Forall raw_ok rs /\ zlen qs = 4 /\
    msg = head ++ encode_raw rs ++ 0 :: qs ++ rest /\
    o = zlen (head ++ encode_raw rs ++ 0 :: qs) /\
    Question msg = Ok (dotted_raw rs, get16 qs 0).
Proof.
  intros Hb Ho. destruct (Question_of_question_end _ _ Ho) as (name & qt & HQ).
  pose proof HQ as HQ'. apply Question_spec in HQ' as (head & rs & tail & Hh & Hrs & Hm & Ht & -> & ->); [|done].
  destruct (split_at tail 4) as (qs & rest & -> & Hq); [lia|].
  exists head, rs, qs, rest. split_and!; try done.
  - unfold questionEnd in Ho. case_match; [done|].
    apply rbind_ok in Ho as (o' & Hl & Hr). case_match; [done|]. simplify_eq.
    eapply question_of_end_loop with (sb := "") in Hl as [n Hl].
    rewrite <- Hh in Hl at 1. rewrite question_loop_raw in Hl by auto using walk_fuel_enough.
    simplify_eq. autorewrite with zlen. lia.
  - rewrite HQ. f_equal. f_equal. unfold get16. rewrite !at_off_app_l by lia. done.
Qed.

(** ** Messages are bytes *)

Lemma bytes_ok_be16 v : bytes_ok (be16 v).
Proof. repeat constructor; apply u8_range. Qed.
Lemma bytes_ok_be32 v : bytes_ok (be32 v).
Proof. repeat constructor; apply u8_range. Qed.
Lemma bytes_ok_bytes_of s : bytes_ok (bytes_of s).
Proof. unfold bytes_ok, bytes_of. apply Forall_map, Forall_true. intros c. apply u8_byte_of. Qed.
Lemma bytes_ok_app a b : bytes_ok a -> bytes_ok b -> bytes_ok (a ++ b).
Proof. intros. by apply Forall_app. Qed.
Lemma bytes_ok_small l : forallb (fun x => (0 <=? x) && (x <? 256)) l = true -> bytes_ok l.
Proof. rewrite forallb_forall. intros H. apply Forall_forall. intros x Hx%list_elem_of_In%H. b2p. lia. Qed.
#[export] Hint Resolve bytes_ok_be16 bytes_ok_be32 bytes_ok_bytes_of bytes_ok_app : elodin.

Lemma bytes_ok_encode_raw rs :
  Forall raw_ok rs -> Forall bytes_ok rs -> bytes_ok (encode_raw rs).
Proof.
  intros H; induction H as [|r rs Hr _ IH]; intros Hb; [constructor|].
  apply Forall_cons in Hb as [Hb1 Hb2]. rewrite encode_raw_cons. unfold raw_ok in Hr.
  constructor; [lia|]. by apply bytes_ok_app; [|apply IH].
Qed.

(** ** The layout of a query for a well-formed name *)

Definition query_head (id udpSize : Z) : bytes :=
  be16 id ++ be16 0x0100 ++ be16 1 ++ be16 0 ++ be16 0 ++ be16 (if 0 <? udpSize then 1 else 0).

(** The EDNS(0) OPT record a query carries when it advertises a size. *)
Definition opt_record (udpSize : Z) (do : bool) : bytes :=
  if 0 <? udpSize
  then [0] ++ be16 41 ++ be16 udpSize ++ [0; 0] ++ be16 (if do then 0x8000 else 0) ++ be16 0
  else [].

Lemma query_layout id ls (final_dot : bool) qtype udpSize do :
  Forall label_ok ls ->
  query id (join "." ls +:+ (if final_dot then "." else "")) qtype udpSize do =
    query_head id udpSize ++ encode_labels ls ++
      0 :: be16 qtype ++ be16 ClassIN ++ opt_record udpSize do.
Proof.
  intros H. unfold query. rewrite appendName_labels by done.
  unfold query_head, opt_record. destruct (0 <? udpSize); rewrite <- !app_assoc; simpl; [done|].
  by rewrite ?app_nil_r.
Qed.

Lemma zlen_query_head id u : zlen (query_head id u) = 12.
Proof. done. Qed.

Lemma query_bytes_ok id ls final_dot qtype udpSize do :
  Forall label_ok ls ->
  bytes_ok (query id (join "." ls +:+ (if final_dot : bool then "." else "")) qtype udpSize do).
Proof.
  intros H. rewrite query_layout by done.
  apply bytes_ok_app; [unfold query_head; auto 10 with elodin|].
  apply bytes_ok_app.
  - apply bytes_ok_encode_raw; [by apply labels_raw_ok|].
    apply Forall_map, Forall_true. intros l. apply bytes_ok_bytes_of.
  - constructor; [lia|]. unfold opt_record.
    destruct (0 <? udpSize); repeat apply bytes_ok_app; auto with elodin; by repeat constructor.
Qed.

Lemma query_Question id ls final_dot qtype udpSize do :
  Forall label_ok ls -> 0 <= qtype < 65536 ->
  Question (query id (join "." ls +:+ (if final_dot : bool then "." else "")) qtype udpSize do) =
    Ok (dotted ls, qtype).
Proof.
  intros H Hq. apply Question_spec; [by apply query_bytes_ok|].
  exists (query_head id udpSize), (map bytes_of ls), (be16 qtype ++ be16 ClassIN ++ opt_record udpSize do).
  rewrite query_layout by done. split_and!; try done.
  - by apply labels_raw_ok.
  - autorewrite with zlen. pose proof (zlen_nonneg (opt_record udpSize do)). lia.
  - by rewrite dotted_raw_labels.
  - symmetry. by apply (get16_be16 []).
Qed.

(** ** The layout of an answer *)

Lemma head_12 (l : bytes) : zlen l = 12 ->
  exists a b c d e f g h i j k m, l = [a; b; c; d; e; f; g; h; i; j; k; m].
Proof.
  unfold zlen. intros Hl. do 12 (destruct l as [|? l]; [simpl in Hl; lia|]).
  destruct l; [|simpl in Hl; lia]. by repeat eexists.
Qed.

Lemma answer_header_layout head body n :
  zlen head = 12 ->
  answer_header (head ++ body) n =
    take 2 head ++ be16 0x8180 ++ be16 1 ++ be16 n ++ be16 0 ++ be16 0 ++ body.
Proof. intros (?&?&?&?&?&?&?&?&?&?&?&?&->)%head_12. done. Qed.

Lemma parse_answer_layout a b n body :
  0 <= n < 65536 ->
  ParseReply ([a; b] ++ be16 0x8180 ++ be16 1 ++ be16 n ++ be16 0 ++ be16 0 ++ body) =
    Ok {| rID := a * 256 + b; rRcode := 0; rAnCount := n; rTruncated := false; rAD := false |}.
Proof.
  intros Hn. unfold ParseReply.
  replace (_ <? 12) with false
    by (symmetry; autorewrite with zlen; pose proof (zlen_nonneg body); lia).
  assert (get16 ([a; b] ++ be16 0x8180 ++ be16 1 ++ be16 n ++ be16 0 ++ be16 0 ++ body) 6 = n) as ->.
  { exact (get16_be16 ([a; b] ++ be16 0x8180 ++ be16 1) n (be16 0 ++ be16 0 ++ body) Hn). }
  done.
Qed.

(** What both answers have in common: the query's ID and question behind a
    response header. *)
Lemma answer_header_reply q o n body :
  bytes_ok q -> questionEnd q = Ok o -> 0 <= n < 65536 ->
  let r := answer_header (take (Z.to_nat o) q) n ++ body in
  ParseReply r = Ok {| rID := get16 q 0; rRcode := 0; rAnCount := n;
                       rTruncated := false; rAD := false |} /\
  (bytes_ok body -> Question r = Question q) /\
  zlen (answer_header (take (Z.to_nat o) q) n) = o.
Proof.
  intros Hb Ho Hn r.
  destruct (questionEnd_spec _ _ Hb Ho) as (head & rs & qs & rest & Hh & Hrs & Hq & -> & -> & HQ).
  assert (r = take 2 head ++ be16 0x8180 ++ be16 1 ++ be16 n ++ be16 0 ++ be16 0 ++
            encode_raw rs ++ 0 :: qs ++ body /\
          zlen (answer_header (take (Z.to_nat (zlen (head ++ encode_raw rs ++ 0 :: qs)))
            (head ++ encode_raw rs ++ 0 :: qs ++ rest)) n) = zlen (head ++ encode_raw rs ++ 0 :: qs)) as [Hr Hz].
  { unfold r.
    replace (head ++ encode_raw rs ++ 0 :: qs ++ rest)
      with ((head ++ encode_raw rs ++ 0 :: qs) ++ rest) by (by rewrite <- !app_assoc).
    rewrite take_zlen_app by done.
    rewrite answer_header_layout by done. split; [by rewrite <- !app_assoc|].
    destruct (head_12 _ Hh) as (?&?&?&?&?&?&?&?&?&?&?&?&->). simpl. autorewrite with zlen. lia. }
  split_and!; [| |done].
  - rewrite Hr. clear HQ. destruct (head_12 _ Hh) as (a&b&?&?&?&?&?&?&?&?&?&?&->).
    simpl take. by rewrite parse_answer_layout.
  - intros Hbb. rewrite HQ. apply Question_spec.
    + rewrite Hr. apply Forall_app in Hb as [Hb1 Hb2]. apply Forall_app in Hb2 as [Hb2 Hb3].
      apply Forall_cons in Hb3 as [_ Hb3]. apply Forall_app in Hb3 as [Hb3 _].
      repeat (apply bytes_ok_app; auto with elodin); [by apply Forall_take|].
      constructor; [lia|]. by apply bytes_ok_app.
    + exists (take 2 head ++ be16 0x8180 ++ be16 1 ++ be16 n ++ be16 0 ++ be16 0), rs, (qs ++ body).
      split_and!; try done.
      * destruct (head_12 _ Hh) as (?&?&?&?&?&?&?&?&?&?&?&?&->). done.
      * rewrite Hr. by rewrite <- !app_assoc.
      * autorewrite with zlen. pose proof (zlen_nonneg body). lia.
      * unfold get16. rewrite !at_off_app_l by lia. done.
Qed.

(** ** Any query on the wire *)

Lemma appendName_app buf n : exists x, appendName buf n = buf ++ x /\ bytes_ok x.
Proof.
  unfold appendName. case_match; [exists [0]; split; [done|by repeat constructor]|].
  generalize (split "." (trim_suffix "." n)) as ls. intros ls.
  enough (exists x, fold_left append_label ls buf = buf ++ x /\ bytes_ok x) as (x & -> & Hx).
  { exists (x ++ [0]). split; [by rewrite <- app_assoc|]. apply bytes_ok_app; [done|by repeat constructor]. }
  revert buf. induction ls as [|l ls IH]; intros buf; simpl; [exists []; rewrite app_nil_r; split; [done|constructor]|].
  destruct (IH (append_label buf l)) as (x & -> & Hx). unfold append_label.
  exists ([u8 (slen l)] ++ bytes_of l ++ x). split; [by rewrite <- !app_assoc|].
  apply bytes_ok_app; [|auto with elodin]. repeat constructor; apply u8_range.
Qed.

Lemma Query_shape id n t u : exists x, Query id n t u = be16 id ++ x /\ bytes_ok x.
Proof.
  unfold Query, query. set (head := _ ++ be16 (if 0 <? u then 1 else 0)).
  destruct (appendName_app head n) as (x & -> & Hx). unfold head.
  destruct (0 <? u); rewrite <- !app_assoc; eexists; split; try reflexivity;
    repeat apply bytes_ok_app; auto with elodin; apply bytes_ok_small; reflexivity.
Qed.

Lemma Query_bytes_ok id n t u : bytes_ok (Query id n t u).
Proof. destruct (Query_shape id n t u) as (x & -> & Hx). auto with elodin. Qed.

Lemma Query_id id n t u : 0 <= id < 65536 -> get16 (Query id n t u) 0 = id.
Proof. intros H. destruct (Query_shape id n t u) as (x & -> & _). by apply (get16_be16 [] id x). Qed.

(** ** Responders

    What every upstream of the harness promises its clients: a reply carries
    the query's ID and question, is a response, reports NOERROR and is not
    truncated.  The clients of [RrlClient] and [LoadGen] are proved against
    this interface; [AnswerA] and [AnswerEmpty] here and the answers of the
    two mock upstreams implement it. *)
Class Responder (f : bytes -> result wire_error bytes) : Prop := {
  responder_reply q r : bytes_ok q -> f q = Ok r ->
    exists n, ParseReply r =
      Ok {| rID := get16 q 0; rRcode := 0; rAnCount := n; rTruncated := false; rAD := false |};
  responder_question q r : bytes_ok q -> f q = Ok r -> Question r = Question q
}.

Definition ip_bytes (ip : Z * Z * Z * Z) : bytes :=
  let '(a, b, c, d) := ip in [a; b; c; d].

Lemma AnswerA_layout q ip ttl r :
  AnswerA q ip ttl = Ok r <->
  exists o, questionEnd q = Ok o /\
    r = answer_header (take (Z.to_nat o) q) 1 ++ a_record ttl (ip_bytes ip).
Proof.
  unfold AnswerA. rewrite rbind_ok. destruct ip as [[[a b] c] d]. naive_solver.
Qed.

Lemma AnswerEmpty_layout q r :
  AnswerEmpty q = Ok r <->
  exists o, questionEnd q = Ok o /\ r = answer_header (take (Z.to_nat o) q) 0.
Proof. unfold AnswerEmpty. rewrite rbind_ok. naive_solver. Qed.

Lemma bytes_ok_a_record ttl b : bytes_ok b -> bytes_ok (a_record ttl b).
Proof.
  intros. unfold a_record. repeat apply bytes_ok_app; auto with elodin.
  repeat constructor; lia.
Qed.

#[export] Instance AnswerA_responder ip ttl :
  bytes_ok (ip_bytes ip) -> Responder (fun q => AnswerA q ip ttl).
Proof.
  intros Hip. split; intros q r Hq (o & Ho & ->)%AnswerA_layout;
    destruct (answer_header_reply q o 1 (a_record ttl (ip_bytes ip)) Hq Ho) as (Hp & HQ & _); [lia| |lia|];
    [eauto|auto using bytes_ok_a_record].
Qed.

#[export] Instance AnswerEmpty_responder : Responder AnswerEmpty.
Proof.
  split; intros q r Hq (o & Ho & ->)%AnswerEmpty_layout;
    destruct (answer_header_reply q o 0 [] Hq Ho) as (Hp & HQ & _); try lia;
    rewrite app_nil_r in *; [eauto|apply HQ; constructor].
Qed.

(** Fuel: the walks terminate within the message. *)
Lemma at_off_byte msg i : bytes_ok msg -> 0 <= at_off msg i < 256.
Proof.
  intros H. unfold at_off. generalize (Z.to_nat i) as k.
  induction H as [|x l Hx _ IH]; intros [|k]; simpl; try lia. apply IH.
Qed.

Lemma question_loop_total fuel msg off sb :
  bytes_ok msg -> (0 < fuel)%nat -> zlen msg - off < Z.of_nat fuel ->
  question_loop fuel msg off sb <> Err OutOfFuel.
Proof.
  intros Hb; revert off sb. induction fuel as [|fuel IH]; intros off sb Hf Hl; [lia|]. simpl.
  pose proof (at_off_byte msg off Hb). repeat (case_match; try done). b2p. apply IH; lia.
Qed.

Lemma end_loop_total fuel msg off :
  bytes_ok msg -> (0 < fuel)%nat -> zlen msg - off < Z.of_nat fuel ->
  end_loop fuel msg off <> Err OutOfFuel.
Proof.
  intros Hb; revert off. induction fuel as [|fuel IH]; intros off Hf Hl; [lia|]. simpl.
  pose proof (at_off_byte msg off Hb). repeat (case_match; try done). b2p. apply IH; lia.
Qed.

(** ** Properties *)

(** C8. A query built for a well-formed name (labels of 1 to 63 bytes with no
    dot, with or without the final dot, the root included) is read back by
    [Question] as that name in dotted form with the type asked, whatever ID,
    EDNS size and DO bit it carries. *)
Theorem Question_query_roundtrip id ls (final_dot : bool) qtype udpSize do :
  Forall label_ok ls -> 0 <= qtype < 65536 ->
  Question (query id (join "." ls +:+ (if final_dot then "." else "")) qtype udpSize do) =
    Ok (dotted ls, qtype).
Proof. apply query_Question. Qed.

Lemma Question_query_roundtrip_witness :
  Forall label_ok ["cached"; "bench"; "test"] /\
  Question (QueryDO 7 "cached.bench.test" TypeAAAA 1232) = Ok ("cached.bench.test.", 28).
Proof.
  assert (Forall label_ok ["cached"; "bench"; "test"]) as H by (repeat constructor; simpl; lia).
  split; [exact H|].
  exact (Question_query_roundtrip 7 ["cached"; "bench"; "test"] false TypeAAAA 1232 true H ltac:(split; reflexivity || discriminate)).
Defined.

(** C19. An A answer to any query it can be built for is a response to that
    query: it parses with the query's ID, NOERROR, one answer, neither
    truncated nor authenticated; it carries the query's own question; and its
    last sixteen bytes are the record, a pointer to the question's name
    followed by A, IN, the TTL, length 4 and the address. *)
Theorem AnswerA_answers q ip ttl r :
  bytes_ok q -> bytes_ok (ip_bytes ip) -> AnswerA q ip ttl = Ok r ->
  ParseReply r = Ok {| rID := get16 q 0; rRcode := 0; rAnCount := 1;
                       rTruncated := false; rAD := false |} /\
  Question r = Question q /\
  exists o, questionEnd q = Ok o /\ zlen r = o + 16 /\
      slice r o (o + 16) = [0xC0; 0x0C; 0; 1; 0; 1] ++ be32 ttl ++ [0; 4] ++ ip_bytes ip.
Proof.
  intros Hq Hip (o & Ho & ->)%AnswerA_layout.
  destruct (answer_header_reply q o 1 (a_record ttl (ip_bytes ip)) Hq Ho) as (Hp & HQ & Hz); [lia|].
  split_and!; [done|by apply HQ, bytes_ok_a_record|]. exists o.
  assert (zlen (a_record ttl (ip_bytes ip)) = 16) as H16 by by destruct ip as [[[]]].
  split_and!; [done|by rewrite zlen_app, Hz, H16|].
  pose proof (slice_app (answer_header (take (Z.to_nat o) q) 1) (a_record ttl (ip_bytes ip)) []) as Hs.
  rewrite app_nil_r, Hz, H16 in Hs. by rewrite Hs.
Qed.

Lemma AnswerA_answers_witness :
  exists r, AnswerA (Query 258 "a.bc" 1 1232) (93, 184, 216, 34) 300 = Ok r /\
  ParseReply r = Ok {| rID := 258; rRcode := 0; rAnCount := 1; rTruncated := false; rAD := false |}.
Proof.
  eexists; split; [reflexivity|].
  eapply (AnswerA_answers (Query 258 "a.bc" 1 1232) (93, 184, 216, 34) 300);
    [apply bytes_ok_small; reflexivity|apply bytes_ok_small; reflexivity|reflexivity].
Defined.

(** The two walks over a question agree: the answers can be built for
    exactly the messages [Question] reads a question from, although
    [questionEnd] has no check that a label fits. *)
Theorem answers_iff_question q ip ttl :
  is_ok (AnswerA q ip ttl) = is_ok (Question q) /\
  is_ok (AnswerEmpty q) = is_ok (Question q).
Proof.
  assert (is_ok (questionEnd q) = is_ok (Question q)) as <-.
  { destruct (questionEnd q) as [o|e] eqn:Ho.
    - by destruct (Question_of_question_end q o Ho) as (? & ? & ->).
    - destruct (Question q) as [[n t]|] eqn:HQ; [|done].
      apply question_end_of_Question in HQ as [? ?]. congruence. }
  unfold AnswerA, AnswerEmpty. destruct (questionEnd q), ip as [[[]]]; done.
Qed.

(** Reading a question always ends: on any bytes both walks return a
    result within the message's length, never running out of steps. *)
Theorem question_walks_terminate msg :
  bytes_ok msg -> Question msg <> Err OutOfFuel /\ questionEnd msg <> Err OutOfFuel.
Proof.
  intros Hb. unfold Question, questionEnd, walk_fuel.
  destruct (zlen msg <? 12); [done|].
  pose proof (question_loop_total (S (length msg)) msg 12 "" Hb) as H1.
  pose proof (end_loop_total (S (length msg)) msg 12 Hb) as H2.
  unfold zlen in *. split.
  - destruct (question_loop _ _ _ _) as [[]|e]; simpl; [by case_match|].
    intros [= ->]. apply H1; [lia..|done].
  - destruct (end_loop _ _ _) as [|e]; simpl; [by case_match|].
    intros [= ->]. apply H2; [lia..|done].
Qed.

Lemma question_walks_terminate_witness :
  Question (repeat 255 40) <> Err OutOfFuel /\ questionEnd (repeat 255 40) <> Err OutOfFuel.
Proof. apply (question_walks_terminate (repeat 255 40)), bytes_ok_small. reflexivity. Defined.
