(* ===== verification/UnitEnv.v ===== *)
(** * [bench/internal/unitenv] and [bench/cmd/unitenv]: the environment of the shipped unit

    [Parse] reads the [Environment=] assignments of the systemd unit, [Shipped]
    puts them before the inherited environment, [Check] reads a process's
    environment back.  Reading a file is the caller's argument (the bytes, or
    the error of the read). *)

From S2P Require Import Prelude GoStrings.

Inductive unit_error : Type :=
  | NotReadHere (line : string)
  | NotAnAssignment (field : string)
  | SetTwice (key : string)
  | ReadFailed
  | RunsWithout (kv : string).

Definition blank : ascii -> bool := in_set [" "%char; tab].
Definition blank_cr : ascii -> bool := in_set [" "%char; tab; cr].
Definition backslash : ascii := "092"%char.
(** The bytes [strings.ContainsAny] looks for in a value: quotes, backslash
    and percent. *)
Definition special : ascii -> bool := in_set [dquote; "'"%char; backslash; "%"%char].

Definition isComment (line : string) : bool := has_prefix "#" line || has_prefix ";" line.

Definition environmentFields (line : string) (comment inService : bool)
  : result unit_error (list string) :=
  let '(directive, value, found) := cut "="%char line in
  if negb found || comment then Ok []
  else
    let directive := trim_right_func blank directive in
    if negb (contains "Environment" directive) then Ok []
    else if negb (String.eqb directive "Environment") || negb inService ||
            any_byte special value || String.eqb (trim_space value) ""
    then Err (NotReadHere line)
    else Ok (fields_func blank_cr value).

Definition is_upper (c : ascii) : bool :=
  let n := nat_of_ascii c in ((65 <=? n) && (n <=? 90))%nat.
Definition is_lower (c : ascii) : bool :=
  let n := nat_of_ascii c in ((97 <=? n) && (n <=? 122))%nat.
Definition is_digit (c : ascii) : bool :=
  let n := nat_of_ascii c in ((48 <=? n) && (n <=? 57))%nat.

(** The loop of [validName], at byte index [i]. *)
Fixpoint valid_from (i : nat) (key : string) : bool :=
  match key with
  | EmptyString => true
  | String c key' =>
      if negb (Ascii.eqb c "_"%char) && negb (is_upper c) && negb (is_lower c) &&
         ((i =? 0)%nat || negb (is_digit c))
      then false
      else valid_from (S i) key'
  end.

Definition validName (key : string) : bool := valid_from 0 key && negb (String.eqb key "").

Definition addAssignment (env : list string) (field : string) : result unit_error (list string) :=
  match index_byte "="%char field with
  | None => Err (NotAnAssignment field)
  | Some sep =>
      if (sep =? 0)%nat || negb (validName (str_take sep field)) then Err (NotAnAssignment field)
      else
        let key := str_take (S sep) field in
        if existsb (has_prefix key) env then Err (SetTwice key)
        else Ok (env ++ [field])
  end.

Fixpoint addAssignments (env fields : list string) : result unit_error (list string) :=
  match fields with
  | [] => Ok env
  | field :: fields' => let? env := addAssignment env field in addAssignments env fields'
  end.

Definition continues (line : string) : bool :=
  let line := trim_suffix (String cr "") line in
  ((String.length line - String.length (trim_right_func (Ascii.eqb backslash) line)) mod 2 =? 1)%nat.

(** The loop over the unit's lines, from the state it carries. *)
Fixpoint parse_lines (lines : list string) (env : list string) (inService continued : bool)
  : result unit_error (list string) :=
  match lines with
  | [] => Ok env
  | raw :: lines' =>
      let line := trim_left_func blank raw in
      let comment := isComment line in
      if continued then parse_lines lines' env inService (comment || continues line)
      else
        let continued := negb comment && continues line in
        if has_prefix "[" line then
          parse_lines lines' env (String.eqb (trim_right_func blank_cr line) "[Service]") continued
        else
          let? fields := environmentFields line comment inService in
          let? env := addAssignments env fields in
          parse_lines lines' env inService continued
  end.

Definition Parse (text : string) : result unit_error (list string) :=
  parse_lines (split nl text) [] false false.

(** [slices.ContainsFunc(unit, ...)]: whether [unit] sets [key]. *)
Definition sets (unit : list string) (key : string) : bool :=
  existsb (has_prefix (key +:+ "=")) unit.

Definition dropped (unit : list string) (kv : string) : bool :=
  let '(key, _, _) := cut "="%char kv in
  has_prefix "MALLOC_" kv || has_prefix "GLIBC_TUNABLES=" kv || has_prefix "LD_PRELOAD=" kv ||
  sets unit key.

Fixpoint shipped_go (unit env inherited : list string) : list string :=
  match inherited with
  | [] => env
  | kv :: inherited' =>
      if dropped unit kv then shipped_go unit env inherited'
      else shipped_go unit (env ++ [kv]) inherited'
  end.

Definition Shipped (unit inherited : list string) : list string := shipped_go unit unit inherited.

Definition Load (file : result unit_error string) : result unit_error (list string) :=
  let? data := file in Parse data.

Fixpoint check_all (have want : list string) : result unit_error unit :=
  match want with
  | [] => Ok tt
  | kv :: want' =>
      if existsb (String.eqb kv) have then check_all have want' else Err (RunsWithout kv)
  end.

Definition Check (environ : result unit_error string) (want : list string) : result unit_error unit :=
  let? data := environ in check_all (split nul data) want.

(** [bench/cmd/unitenv]: what the command prints for a unit file and its own
    environment, or the failure it exits with. *)
Definition unitenv_main (file : result unit_error string) (environ : list string)
  : result unit_error string :=
  let? unit := Load file in
  Ok (concat_all (map (fun kv => kv +:+ String nul "") (Shipped unit environ))).

Example parse_ex :
  Parse ("# c" +:+ nls +:+ "[Service]" +:+ nls +:+ "Environment=A=1 B=2" +:+ nls) = Ok ["A=1"; "B=2"].
Proof. reflexivity. Qed.
Example parse_outside_ex :
  Parse ("[Unit]" +:+ nls +:+ "Environment=A=1") = Err (NotReadHere "Environment=A=1").
Proof. reflexivity. Qed.
Example parse_twice_ex :
  Parse ("[Service]" +:+ nls +:+ "Environment=A=1 A=2") = Err (SetTwice "A=").
Proof. reflexivity. Qed.

(** ** Assignments *)

(** [KEY=VALUE] with a name systemd takes. *)
Definition assignment (f : string) : Prop := exists k v, f = k +:+ "=" +:+ v /\ validName k = true.

Definition key_of (f : string) : string := let '(k, _, _) := cut "="%char f in k.

Lemma valid_from_lacks i k : valid_from i k = true -> lacks "="%char k.
Proof.
  revert i; induction k as [|c k IH]; intros i; simpl; [done|].
  case_match; [done|]. intros Hk. apply lacks_cons. split; [|by eapply IH].
  intros ->. unfold is_upper, is_lower, is_digit in *. simpl in *.
  rewrite ?orb_true_r in *. done.
Qed.

Lemma validName_lacks k : validName k = true -> lacks "="%char k.
Proof. intros [H _]%andb_true_iff. by eapply valid_from_lacks. Qed.

Lemma key_of_assignment k v : validName k = true -> key_of (k +:+ "=" +:+ v) = k.
Proof. intros H. unfold key_of. simpl. by rewrite cut_lacks_app by by apply validName_lacks. Qed.

Lemma index_byte_spec c s n :
  index_byte c s = Some n ->
  exists b r, s = b +:+ String c r /\ String.length b = n /\ lacks c b.
Proof.
  revert n; induction s as [|a s IH]; intros n; simpl; [done|].
  destruct (Ascii.eqb_spec a c) as [->|Ha].
  - intros [= <-]. by exists "", s.
  - intros (m & Hm & ->)%fmap_Some. destruct (IH _ Hm) as (b & r & -> & <- & Hl).
    exists (String a b), r. split_and!; [done..|]. by apply lacks_cons.
Qed.

Lemma index_byte_lacks_app c b r : lacks c b -> index_byte c (b +:+ String c r) = Some (String.length b).
Proof.
  induction b as [|a b IH]; simpl; [by rewrite Ascii.eqb_refl|].
  intros [Ha Hb]%lacks_cons. apply Ascii.eqb_neq in Ha. by rewrite Ha, IH.
Qed.

Lemma str_take_snoc b c r : str_take (S (String.length b)) (b +:+ String c r) = b +:+ String c "".
Proof. induction b as [|a b IH]; simpl; [done|]. by rewrite <- IH. Qed.

(** Within assignments, having the prefix [K=] is having the key [K]. *)
Lemma has_key_prefix k f : validName k = true -> assignment f ->
  has_prefix (k +:+ "=") f = true <-> key_of f = k.
Proof.
  intros Hk (k' & v & -> & Hk'). rewrite key_of_assignment by done. split.
  - intros (t & Ht)%has_prefix_spec. rewrite str_app_assoc in Ht. simpl in Ht.
    pose proof (cut_lacks_app "="%char k' v (validName_lacks _ Hk')) as C. rewrite Ht in C.
    rewrite cut_lacks_app in C by by apply validName_lacks. congruence.
  - intros ->. apply has_prefix_spec. exists v. by rewrite str_app_assoc.
Qed.

(** What a call that succeeds has checked. *)
Lemma addAssignment_spec env field env' :
  addAssignment env field = Ok env' <->
  env' = env ++ [field] /\ assignment field /\
  existsb (has_prefix (key_of field +:+ "=")) env = false.
Proof.
  unfold addAssignment. split.
  - destruct (index_byte _ field) as [sep|] eqn:Hs; [|done].
    destruct (index_byte_spec _ _ _ Hs) as (k & v & -> & <- & Hk).
    rewrite str_take_app, str_take_snoc. unfold key_of. rewrite cut_lacks_app by done.
    destruct ((_ =? 0)%nat || _) eqn:Ev; [done|]. b2p.
    destruct (existsb _ env) eqn:Ex; [done|]. intros [= <-].
    split_and!; [done| |done]. by exists k, v.
  - intros (-> & (k & v & -> & Hk) & Hx). rewrite key_of_assignment in Hx by done.
    change ("=" +:+ v) with (String "="%char v).
    rewrite index_byte_lacks_app by by apply validName_lacks.
    rewrite str_take_app, str_take_snoc, Hk.
    destruct k as [|c k]; [done|]. simpl String.length. simpl Nat.eqb. simpl orb.
    change (String c k +:+ String "=" "") with (String c k +:+ "=") in *. by rewrite Hx.
Qed.

(** The environments [Parse] builds: assignments with distinct keys. *)
Definition env_ok (env : list string) : Prop := Forall assignment env /\ NoDup (map key_of env).

Lemma assignment_key_valid f : assignment f -> validName (key_of f) = true.
Proof. intros (k & v & -> & Hk). by rewrite key_of_assignment. Qed.

Lemma no_prefix_no_key env f :
  Forall assignment env -> assignment f ->
  existsb (has_prefix (key_of f +:+ "=")) env = false <-> key_of f ∉ map key_of env.
Proof.
  intros He Hf. rewrite <- not_true_iff_false. f_equiv.
  rewrite existsb_exists, list_elem_of_In, in_map_iff. rewrite Forall_forall in He.
  pose proof (assignment_key_valid f Hf).
  split; intros (g & H1 & H2); exists g; rewrite <- list_elem_of_In in *.
  - apply has_key_prefix in H2; auto.
  - split; [done|]. apply has_key_prefix; auto.
Qed.

Lemma addAssignment_env_ok env field env' :
  env_ok env -> addAssignment env field = Ok env' -> env_ok env'.
Proof.
  intros [He Hn] (-> & Hf & Hx)%addAssignment_spec. split.
  - by apply Forall_app; repeat constructor.
  - apply no_prefix_no_key in Hx; [|done..]. rewrite map_app. apply NoDup_app.
    split_and!; [done| |apply NoDup_singleton]. set_solver.
Qed.

Lemma addAssignments_env_ok fields env env' :
  env_ok env -> addAssignments env fields = Ok env' -> env_ok env'.
Proof.
  revert env; induction fields as [|f fields IH]; intros env He; simpl; [by intros [= <-]|].
  intros (env1 & H1 & H2)%rbind_ok. eauto using addAssignment_env_ok.
Qed.

Lemma parse_lines_env_ok lines env inService continued env' :
  env_ok env -> parse_lines lines env inService continued = Ok env' -> env_ok env'.
Proof.
  revert env inService continued; induction lines as [|raw lines IH];
    intros env inService continued He; cbn [parse_lines]; [by intros [= <-]|].
  destruct continued; [by apply IH|]. destruct (has_prefix "[" (trim_left_func blank raw)); [by apply IH|].
  intros (fields & _ & (env1 & H1 & H2)%rbind_ok)%rbind_ok.
  eauto using addAssignments_env_ok.
Qed.

(** ** An Environment= line is never continued *)

Lemma lacks_backslash_not_continued line : lacks backslash line -> continues line = false.
Proof.
  intros H. unfold continues.
  rewrite trim_right_none by by apply trim_suffix_lacks. by rewrite Nat.sub_diag.
Qed.

Lemma environmentFields_nonempty line comment inService fs :
  environmentFields line comment inService = Ok fs -> fs <> [] ->
  comment = false /\ inService = true /\ lacks backslash line.
Proof.
  unfold environmentFields. destruct (cut _ line) as [[d v] found] eqn:Hc.
  destruct found, comment; simpl; try (by intros [= <-]).
  case_match; [by intros [= <-]|]. case_match; [done|].
  repeat match goal with H : _ || _ = false |- _ => apply orb_false_iff in H; destruct H end.
  b2p. intros _ _. split_and!; [done..|].
  apply cut_found in Hc as [Hc _]. destruct (Hc eq_refl) as [-> _].
  destruct (trim_right_spec blank d) as (t & Hd & Ht).
  match goal with H : String.eqb _ _ = true |- _ => apply String.eqb_eq in H; rewrite H in Hd end.
  apply lacks_app. split.
  - rewrite Hd. apply lacks_app. split; [done|]. by eapply all_bytes_lacks; [|exact Ht].
  - apply lacks_cons. split; [done|]. 
    eapply any_byte_impl; [|eassumption]. intros c <-%Ascii.eqb_eq. done.
Qed.

(** ** Parsing a rendered unit *)

(** An assignment a unit can carry literally: no white space, quote, backslash
    or specifier. *)
Definition plain (f : string) : Prop :=
  assignment f /\ any_byte is_space f = false /\ any_byte special f = false.

Definition render_line (f : string) : string := "Environment=" +:+ f +:+ nls.

Definition render (env : list string) : string :=
  "[Service]" +:+ nls +:+ concat_all (map render_line env).

Lemma blank_cr_space c : blank_cr c = true -> is_space c = true.
Proof.
  unfold blank_cr, in_set. simpl. rewrite !orb_true_iff.
  intros [E|[E|[E|E]]]; try done; apply Ascii.eqb_eq in E as ->; done.
Qed.

Lemma lacks_impl c f s : f c = true -> any_byte f s = false -> lacks c s.
Proof. intros Hf. apply any_byte_impl. intros d <-%Ascii.eqb_eq. done. Qed.

Lemma plain_nonempty f : plain f -> f <> "".
Proof. intros [(k & v & -> & Hk) _]. by destruct k. Qed.

Lemma environmentFields_plain f :
  plain f -> environmentFields ("Environment=" +:+ f) false true = Ok [f].
Proof.
  intros Hf. pose proof (plain_nonempty f Hf) as Hn. destruct Hf as (_ & Hs & Hq).
  unfold environmentFields. simpl cut. cbv iota. simpl.
  rewrite Hq. unfold trim_space.
  rewrite (trim_left_none is_space), (trim_right_none is_space) by done.
  destruct (String.eqb_spec f ""); [done|]. simpl. f_equal.
  apply fields_func_single. split; [done|]. eapply any_byte_impl; [exact blank_cr_space|done].
Qed.

Lemma parse_environment_line f lines env :
  plain f ->
  parse_lines (("Environment=" +:+ f) :: lines) env true false =
    (let? env := addAssignment env f in parse_lines lines env true false).
Proof.
  intros Hf. cbn [parse_lines].
  change (trim_left_func blank ("Environment=" +:+ f)) with ("Environment=" +:+ f).
  change (isComment ("Environment=" +:+ f)) with false.
  change (has_prefix "[" ("Environment=" +:+ f)) with false.
  rewrite environmentFields_plain by done.
  rewrite lacks_backslash_not_continued.
  - simpl. by destruct (addAssignment env f).
  - apply lacks_app. split; [done|]. by eapply (lacks_impl backslash special); [|apply Hf].
Qed.

Lemma split_rendered env : Forall plain env ->
  split nl (concat_all (map render_line env)) = map (fun f => "Environment=" +:+ f) env ++ [""].
Proof.
  induction 1 as [|f env Hf _ IH]; [done|].
  change (concat_all (map render_line (f :: env)))
    with (("Environment=" +:+ f +:+ nls) +:+ concat_all (map render_line env)).
  replace (("Environment=" +:+ f +:+ nls) +:+ concat_all (map render_line env))
    with (("Environment=" +:+ f) +:+ String nl (concat_all (map render_line env)))
    by (by rewrite !str_app_assoc).
  rewrite split_lacks_app, IH; [done|].
  apply lacks_app. split; [done|]. by eapply (lacks_impl nl is_space); [|apply Hf].
Qed.

Lemma parse_rendered_lines env acc :
  Forall plain env -> env_ok (acc ++ env) ->
  parse_lines (map (fun f => "Environment=" +:+ f) env ++ [""]) acc true false = Ok (acc ++ env).
Proof.
  intros H; revert acc; induction H as [|f env Hf _ IH]; intros acc He.
  - by rewrite app_nil_r.
  - change (map (fun f => "Environment=" +:+ f) (f :: env) ++ [""])
      with (("Environment=" +:+ f) :: (map (fun f => "Environment=" +:+ f) env ++ [""])).
    rewrite parse_environment_line by done.
    replace (acc ++ f :: env) with ((acc ++ [f]) ++ env) in * by (by rewrite <- app_assoc).
    assert (addAssignment acc f = Ok (acc ++ [f])) as ->; [|simpl; by apply IH].
    apply addAssignment_spec. destruct He as [He Hn].
    apply Forall_app in He as [[He Hf1]%Forall_app _]. split_and!; [done|apply Hf|].
    apply no_prefix_no_key; [done|apply Hf|].
    rewrite map_app in Hn. apply NoDup_app in Hn as [Hn _].
    rewrite map_app in Hn. apply NoDup_app in Hn as (_ & Hn & _). set_solver.
Qed.

(** ** What Shipped passes on *)

Lemma shipped_go_filter unit env inherited :
  shipped_go unit env inherited = env ++ List.filter (fun kv => negb (dropped unit kv)) inherited.
Proof.
  revert env; induction inherited as [|kv inherited IH]; intros env; simpl; [by rewrite app_nil_r|].
  destruct (dropped unit kv); simpl; rewrite IH; [done|]. by rewrite <- app_assoc.
Qed.

(** The value a process sees for a key set more than once: the last, as
    os/exec keeps it. *)
Fixpoint getenv (env : list string) (key : string) : option string :=
  match env with
  | [] => None
  | kv :: env' =>
      match getenv env' key with
      | Some v => Some v
      | None => if has_prefix (key +:+ "=") kv
                then Some (str_drop (S (String.length key)) kv) else None
      end
  end.

Lemma getenv_app env1 env2 key :
  getenv (env1 ++ env2) key =
    match getenv env2 key with Some v => Some v | None => getenv env1 key end.
Proof.
  induction env1 as [|kv env1 IH]; simpl; [by case_match|]. rewrite IH. by destruct (getenv env2 key).
Qed.

Lemma getenv_sets unit key :
  match getenv unit key with Some _ => true | None => false end = sets unit key.
Proof.
  unfold sets. induction unit as [|kv unit IH]; [done|]. simpl. rewrite <- IH.
  destruct (getenv unit key); [by rewrite orb_true_r|].
  by destruct (has_prefix (key +:+ "=") kv).
Qed.

(** Keys that configure the allocator. *)
Definition allocator_key (key : string) : bool :=
  has_prefix "MALLOC_" key || String.eqb key "GLIBC_TUNABLES" || String.eqb key "LD_PRELOAD".

Lemma has_prefix_before p k v : lacks "="%char p -> has_prefix p (k +:+ "=" +:+ v) = has_prefix p k.
Proof.
  revert k; induction p as [|a p IH]; intros k; [done|]. intros [Ha Hp]%lacks_cons.
  destruct k as [|b k]; simpl; [by apply Ascii.eqb_neq in Ha as ->|]. f_equal. by apply IH.
Qed.

Lemma has_prefix_key p k v :
  lacks "="%char p -> lacks "="%char k -> has_prefix (p +:+ "=") (k +:+ "=" +:+ v) = String.eqb k p.
Proof.
  revert k; induction p as [|a p IH]; intros k.
  - intros _. destruct k as [|b k]; [done|]. intros [Hb _]%lacks_cons. simpl.
    by destruct (Ascii.eqb_spec "=" b); [congruence|].
  - intros [Ha Hp]%lacks_cons Hk. destruct k as [|b k]; simpl.
    + by apply Ascii.eqb_neq in Ha as ->.
    + apply lacks_cons in Hk as [_ Hk]. rewrite (Ascii.eqb_sym b).
      destruct (Ascii.eqb a b); [simpl; by apply IH|done].
Qed.

Lemma dropped_key unit key v :
  lacks "="%char key ->
  dropped unit (key +:+ "=" +:+ v) = allocator_key key || sets unit key.
Proof.
  intros Hk. unfold dropped, allocator_key. simpl ("=" +:+ v). rewrite cut_lacks_app by done.
  change (String "=" v) with ("=" +:+ v). rewrite has_prefix_before by done.
  change "GLIBC_TUNABLES=" with ("GLIBC_TUNABLES" +:+ "="). change "LD_PRELOAD=" with ("LD_PRELOAD" +:+ "=").
  by rewrite !has_prefix_key.
Qed.

Lemma getenv_filter unit inherited key :
  lacks "="%char key ->
  getenv (List.filter (fun kv => negb (dropped unit kv)) inherited) key =
    if allocator_key key || sets unit key then None else getenv inherited key.
Proof.
  intros Hk. induction inherited as [|kv inherited IH]; [by case_match|].
  cbn [getenv List.filter].
  destruct (has_prefix (key +:+ "=") kv) eqn:Ep.
  - apply has_prefix_spec in Ep as [v ->]. rewrite str_app_assoc, dropped_key by done.
    destruct (allocator_key key || sets unit key); simpl negb; cbn iota; [done|].
    cbn [getenv]. rewrite IH. destruct (getenv inherited key); [done|].
    by rewrite <- str_app_assoc, has_prefix_app.
  - destruct (negb (dropped unit kv)); [cbn [getenv]; rewrite Ep|]; rewrite IH;
      repeat case_match; done.
Qed.

Lemma check_all_spec have want :
  check_all have want = Ok tt <-> Forall (fun kv => kv ∈ have) want.
Proof.
  induction want as [|kv want IH]; simpl; [done|]. rewrite Forall_cons, <- IH.
  assert (existsb (String.eqb kv) have = true <-> kv ∈ have) as <-.
  { rewrite existsb_exists, list_elem_of_In. split; [|exists kv; split; [done|apply String.eqb_refl]].
    by intros (x & Hx & ->%String.eqb_eq). }
  case_match; naive_solver.
Qed.

Lemma split_environ env : Forall (lacks nul) env ->
  split nul (concat_all (map (fun kv => kv +:+ String nul "") env)) = env ++ [""].
Proof.
  induction 1 as [|kv env Hkv _ IH]; [done|]. simpl. rewrite str_app_assoc. simpl.
  by rewrite split_lacks_app, IH.
Qed.

(** ** Properties *)

(** Whatever [Parse] accepts is a list of assignments: every entry is
    [KEY=VALUE] with a name systemd takes, and no key is set twice. *)
Theorem Parse_env_ok text env : Parse text = Ok env -> env_ok env.
Proof. apply parse_lines_env_ok. split; constructor. Qed.

Lemma Parse_env_ok_witness : env_ok ["A=1"; "B_2=x"].
Proof.
  apply (Parse_env_ok ("[Service]" +:+ nls +:+ "Environment=A=1 B_2=x")). reflexivity.
Defined.

(** C35. A unit written with one [Environment=] line per assignment, for any
    assignments with distinct keys that need no quoting, is read back as
    exactly those assignments in their order. *)
Theorem Parse_render env : Forall plain env -> env_ok env -> Parse (render env) = Ok env.
Proof.
  intros Hp He. unfold Parse, render.
  change ("[Service]" +:+ nls +:+ ?s) with ("[Service]" +:+ String nl s).
  rewrite split_lacks_app, split_rendered by done. cbn [parse_lines].
  by apply (parse_rendered_lines env []).
Qed.

Lemma Parse_render_witness :
  Parse (render ["MALLOC_MMAP_THRESHOLD_=131072"; "HOME=/var"]) =
    Ok ["MALLOC_MMAP_THRESHOLD_=131072"; "HOME=/var"].
Proof.
  apply (Parse_render ["MALLOC_MMAP_THRESHOLD_=131072"; "HOME=/var"]).
  - repeat constructor; [exists "MALLOC_MMAP_THRESHOLD_", "131072"|exists "HOME", "/var"]; done.
  - split; [repeat constructor; [exists "MALLOC_MMAP_THRESHOLD_", "131072"|exists "HOME", "/var"]; done|].
    apply (bool_decide_unpack _). vm_compute. exact I.
Defined.

(** An [Environment=] line that yields fields is never continued onto the
    next: the value would hold the backslash, which is refused.  So the lines a
    backslash joins are never read as assignments of their own. *)
Theorem environment_line_not_continued line comment inService fs :
  environmentFields line comment inService = Ok fs -> fs <> [] -> continues line = false.
Proof.
  intros H Hn. apply lacks_backslash_not_continued.
  by destruct (environmentFields_nonempty _ _ _ _ H Hn) as (_ & _ & ?).
Qed.

Lemma environment_line_not_continued_witness : continues "Environment=A=1" = false.
Proof.
  apply (environment_line_not_continued "Environment=A=1" false true ["A=1"]); [reflexivity|done].
Defined.

(** C27. The environment a process gets: for every key, the unit's value where
    the unit sets it; otherwise nothing for a key that configures the
    allocator (MALLOC_*, GLIBC_TUNABLES, LD_PRELOAD), and the inherited value
    for any other. *)
Theorem Shipped_getenv unit inherited key :
  lacks "="%char key ->
  getenv (Shipped unit inherited) key =
    match getenv unit key with
    | Some v => Some v
    | None => if allocator_key key then None else getenv inherited key
    end.
Proof.
  intros Hk. unfold Shipped. rewrite shipped_go_filter, getenv_app, getenv_filter by done.
  pose proof (getenv_sets unit key) as Hs.
  destruct (getenv unit key); rewrite <- Hs, ?orb_true_r, ?orb_false_r; [done|].
  destruct (allocator_key key); [done|]. by destruct (getenv inherited key).
Qed.

Lemma Shipped_getenv_witness :
  getenv (Shipped ["MALLOC_X=1"] ["MALLOC_X=2"; "HOME=/r"; "MALLOC_Y=3"]) "MALLOC_X" = Some "1".
Proof.
  exact (Shipped_getenv ["MALLOC_X=1"] ["MALLOC_X=2"; "HOME=/r"; "MALLOC_Y=3"] "MALLOC_X" eq_refl).
Defined.

(** A process started with the shipped environment passes [Check]: the
    environment the kernel shows for it (each entry and a NUL) holds every one
    of the unit's assignments; and [Check] on any environment passes only when
    it does. *)
Theorem Check_shipped unit inherited :
  Forall (lacks nul) (Shipped unit inherited) ->
  Check (Ok (concat_all (map (fun kv => kv +:+ String nul "") (Shipped unit inherited)))) unit = Ok tt /\
  (forall data, Check (Ok data) unit = Ok tt <-> Forall (fun kv => kv ∈ split nul data) unit).
Proof.
  intros H. split; [|intros data; apply check_all_spec].
  simpl. apply check_all_spec. rewrite split_environ by done.
  apply Forall_forall. intros kv Hkv. apply elem_of_app. left.
  unfold Shipped. rewrite shipped_go_filter. apply elem_of_app. by left.
Qed.

Lemma Check_shipped_witness :
  Check (Ok (concat_all (map (fun kv => kv +:+ String nul "") (Shipped ["A=1"] ["A=2"; "B=2"])))) ["A=1"] = Ok tt.
Proof. refine (proj1 (Check_shipped ["A=1"] ["A=2"; "B=2"] _)). vm_compute. repeat constructor.
Defined.
