(* ===== verification/Hist.v ===== *)
(** * [bench/internal/hist]: the latency recorder

    The recorder keeps every sample.  Its operations hold the mutex for their
    whole length, so they are atomic and a run is a sequence of them in the
    order the lock was taken; [Percentiles] sorts the samples in place. *)

From stdpp Require Import sorting.
From S2P Require Import Prelude GoStrings GoFloat.

Record Recorder : Type := mkRecorder { samples : list duration }.

Definition New (expected : Z) : Recorder := {| samples := [] |}.

Definition AddBatch (r : Recorder) (s : list duration) : Recorder :=
  {| samples := samples r ++ s |}.

Definition Len (r : Recorder) : Z := zlen (samples r).

(** [slices.Sort] on durations. *)
Definition sort (l : list duration) : list duration := merge_sort Z.le l.

(** The index of one quantile, clamped to the last sample. *)
Definition quantile_index (q : float64) (n : Z) : Z :=
  let idx := trunc64 (fmul q (f_of_Z n)) in
  if n <=? idx then n - 1 else idx.

Fixpoint pick (sorted : list duration) (qs : list float64) : option (list duration) :=
  match qs with
  | [] => Some []
  | q :: qs' =>
      match index sorted (quantile_index q (zlen sorted)) with
      | None => None
      | Some v => cons v <$> pick sorted qs'
      end
  end.

(** The quantiles and the recorder as the call leaves it; [None] is an index
    out of range. *)
Definition Percentiles (r : Recorder) (qs : list float64) : option (list duration) * Recorder :=
  match samples r with
  | [] => (Some (repeat 0 (length qs)), r)
  | _ => let sorted := sort (samples r) in (pick sorted qs, {| samples := sorted |})
  end.

Example percentiles_ex :
  fst (Percentiles (AddBatch (AddBatch (New 4) [30; 10]) [20; 40]) [fconst 50 100; fconst 99 100]) =
    Some [30; 40].
Proof. vm_compute. reflexivity. Qed.

(** ** Sorting *)

Lemma sort_perm l : sort l ≡ₚ l.
Proof. apply merge_sort_Permutation. Qed.

Lemma sort_sorted l : StronglySorted Z.le (sort l).
Proof. apply StronglySorted_merge_sort; apply _. Qed.

Lemma sort_unique l k : l ≡ₚ k -> sort l = sort k.
Proof.
  intros H. apply (StronglySorted_unique Z.le); [apply sort_sorted..|].
  by rewrite !sort_perm.
Qed.

Lemma zlen_sort l : zlen (sort l) = zlen l.
Proof. unfold zlen. by rewrite sort_perm. Qed.

Lemma quantile_index_range q n :
  within 1 q -> 0 < n < 2 ^ 53 -> 0 <= quantile_index q n < n.
Proof.
  intros Hq Hn. unfold quantile_index.
  pose proof (fmul_unit_bound q n Hq ltac:(lia)). case_match; b2p; lia.
Qed.

(** How many elements satisfy a test. *)
Definition count (f : Z -> bool) (l : list Z) : Z := zlen (List.filter f l).

Lemma count_perm f l k : l ≡ₚ k -> count f l = count f k.
Proof. intros H. unfold count, zlen. f_equal. induction H; simpl; repeat case_match; simpl; lia. Qed.

Lemma count_all f l : Forall (fun x => f x = true) l -> count f l = zlen l.
Proof.
  unfold count. induction 1 as [|x l Hx _ IH]; [done|]. simpl. by rewrite Hx, !zlen_cons, IH.
Qed.

Lemma count_app f l k : count f (l ++ k) = count f l + count f k.
Proof. unfold count. by rewrite List.filter_app, zlen_app. Qed.

Lemma count_nonneg f l : 0 <= count f l.
Proof. apply zlen_nonneg. Qed.

(** In a sorted list, the element at rank [i] has [i + 1] elements at or below
    it and [n - i] at or above it. *)
Lemma sorted_rank l i v :
  StronglySorted Z.le l -> index l i = Some v ->
  i + 1 <= count (fun x => x <=? v) l /\ zlen l - i <= count (fun x => v <=? x) l.
Proof.
  unfold index. case_match eqn:E; [|done]. intros Hs Hv. b2p.
  pose proof (take_drop_middle l (Z.to_nat i) v Hv) as Hl.
  assert (zlen (take (Z.to_nat i) l) = i) as Ht by (unfold zlen in *; rewrite length_take; lia).
  rewrite <- Hl in Hs.
  apply StronglySorted_app in Hs as (Hlr & _ & Hr). apply StronglySorted_cons in Hr as [Hr _].
  rewrite <- Hl at 1 2 3. rewrite !count_app, zlen_app, zlen_cons, Ht.
  change (?v :: ?k) with ([v] ++ k). rewrite !count_app.
  assert (count (fun x => x <=? v) [v] = 1 /\ count (fun x => v <=? x) [v] = 1) as [-> ->]
    by (unfold count; simpl; by rewrite Z.leb_refl).
  rewrite (count_all (fun x => x <=? v) (take _ _)).
  2:{ apply Forall_forall. intros x Hx. apply Z.leb_le. apply Hlr; [done|]. by left. }
  rewrite (count_all (fun x => v <=? x) (drop _ _)).
  2:{ eapply Forall_impl; [exact Hr|]. intros x Hx. by apply Z.leb_le. }
  pose proof (count_nonneg (fun x => x <=? v) (drop (S (Z.to_nat i)) l)).
  pose proof (count_nonneg (fun x => v <=? x) (take (Z.to_nat i) l)). lia.
Qed.

(** ** Recorders that hold the same samples in another order

    Batches arrive in the order the clients take the lock, so the recorder
    after a run is known up to a permutation of its samples. *)

Definition same_samples (r1 r2 : Recorder) : Prop := samples r1 ≡ₚ samples r2.

#[export] Instance same_samples_equiv : Equivalence same_samples.
Proof.
  split; unfold same_samples.
  - by intros r.
  - by intros r1 r2 ->.
  - by intros r1 r2 r3 -> ->.
Qed.

#[export] Instance AddBatch_proper :
  Proper (same_samples ==> Permutation ==> same_samples) AddBatch.
Proof. intros r1 r2 H k1 k2 Hk. unfold same_samples, AddBatch in *. simpl. by rewrite H, Hk. Qed.

#[export] Instance Len_proper : Proper (same_samples ==> eq) Len.
Proof. intros r1 r2 H. unfold same_samples in H. unfold Len, zlen. by rewrite H. Qed.

#[export] Instance fst_Percentiles_proper :
  Proper (same_samples ==> eq ==> eq) (fun r qs => fst (Percentiles r qs)).
Proof.
  intros r1 r2 H qs _ <-. unfold same_samples in H. unfold Percentiles.
  destruct (samples r1) eqn:E1, (samples r2) eqn:E2; simpl; [done|..].
  - apply Permutation_nil_l in H. done.
  - symmetry in H. apply Permutation_nil_l in H. done.
  - by rewrite (sort_unique _ _ H).
Qed.

(** One client's batches, in order. *)
Definition add_all (r : Recorder) (batches : list (list duration)) : Recorder :=
  fold_left AddBatch batches r.

Lemma add_all_samples batches r : samples (add_all r batches) = samples r ++ concat batches.
Proof.
  revert r. induction batches as [|b bs IH]; intros r; simpl; [by rewrite app_nil_r|].
  rewrite IH. unfold AddBatch. simpl. by rewrite <- app_assoc.
Qed.

Lemma concat_perm {A} (ls ks : list (list A)) : ls ≡ₚ ks -> concat ls ≡ₚ concat ks.
Proof.
  induction 1; simpl; [done|by f_equiv|apply Permutation_app_swap_app|by etrans].
Qed.

Lemma pick_Some sorted qs :
  sorted <> [] -> zlen sorted < 2 ^ 53 -> Forall (within 1) qs ->
  exists out, pick sorted qs = Some out /\
    Forall2 (fun q v => index sorted (quantile_index q (zlen sorted)) = Some v) qs out.
Proof.
  intros Hne Hn. assert (0 < zlen sorted).
  { destruct sorted; [done|]. rewrite zlen_cons. pose proof (zlen_nonneg sorted). lia. }
  induction 1 as [|q qs Hq _ [out [Ho Hf]]]; simpl; [by exists []|].
  destruct (index_Some sorted (quantile_index q (zlen sorted))) as (v & Hv & _).
  { apply quantile_index_range; [done|lia]. }
  rewrite Hv, Ho. exists (v :: out). by split; [|constructor].
Qed.

(** The percentiles of a run do not depend on the order in which the
    clients' batches reached the recorder. *)
Theorem percentiles_batch_order (bs bs' : list (list duration)) n n' qs :
  bs ≡ₚ bs' ->
  fst (Percentiles (add_all (New n) bs) qs) = fst (Percentiles (add_all (New n') bs') qs).
Proof.
  intros H. apply (fst_Percentiles_proper _ _); [|done]. unfold same_samples.
  rewrite !add_all_samples. simpl. by apply concat_perm.
Qed.

Lemma percentiles_batch_order_witness :
  fst (Percentiles (add_all (New 4) [[30; 10]; [20]]) [fconst 50 100]) =
  fst (Percentiles (add_all (New 0) [[20]; [30; 10]]) [fconst 50 100]).
Proof. apply percentiles_batch_order. apply Permutation_swap. Defined.

(** C33. Asked for quantiles in [0, 1] of fewer than 2^53 samples, [Percentiles]
    never indexes out of range, keeps the samples, and each value it reports is
    a sample that has at least [idx + 1] samples at or below it and at least
    [n - idx] at or above it, [idx] being the clamped rank the quantile asks
    for; the reported values ascend with their ranks. *)
Theorem percentiles_rank (r : Recorder) qs :
  samples r <> [] -> Len r < 2 ^ 53 -> Forall (within 1) qs ->
  exists out, fst (Percentiles r qs) = Some out /\
    same_samples (snd (Percentiles r qs)) r /\
    StronglySorted Z.le (samples (snd (Percentiles r qs))) /\
    Forall2 (fun q v => v ∈ samples r /\
        0 <= quantile_index q (Len r) < Len r /\
        quantile_index q (Len r) + 1 <= count (fun x => x <=? v) (samples r) /\
        Len r - quantile_index q (Len r) <= count (fun x => v <=? x) (samples r)) qs out.
Proof.
  intros Hne Hn Hq. unfold Percentiles, Len in *.
  assert (0 < zlen (samples r)).
  { destruct (samples r) as [|x l]; [done|]. rewrite zlen_cons. pose proof (zlen_nonneg l). lia. }
  destruct (samples r) as [|x l] eqn:E; [done|]. rewrite <- E in *. clear E Hne.
  set (s := samples r) in *.
  destruct (pick_Some (sort s) qs) as (out & Ho & Hf); [|by rewrite zlen_sort|done|].
  { intros E0. pose proof (zlen_sort s) as E1. rewrite E0, zlen_nil in E1. lia. }
  exists out. simpl. split_and!; [done|apply sort_perm|apply sort_sorted|].
  rewrite zlen_sort in Hf. clear Ho. revert Hq.
  induction Hf as [|q v qs' out' Hv _ IH]; intros Hq; constructor.
  - apply Forall_cons in Hq as [Hq _].
    destruct (sorted_rank _ _ _ (sort_sorted s) Hv) as [H1 H2].
    rewrite (count_perm _ _ _ (sort_perm s)) in H1.
    rewrite (count_perm _ _ _ (sort_perm s)), zlen_sort in H2.
    split_and!; try done; try by apply quantile_index_range.
    unfold index in Hv. case_match; [|done]. apply list_elem_of_lookup_2 in Hv.
    by rewrite sort_perm in Hv.
  - apply Forall_cons in Hq as [_ Hq]. by apply IH.
Qed.

Lemma within_fconst_50 : within 1 (fconst 50 100).
Proof. vm_compute. split; [done|]. intros ?; congruence. Qed.

Lemma percentiles_rank_witness :
  let r := AddBatch (New 4) [30; 10; 40; 20] in
  exists out, fst (Percentiles r [fconst 50 100]) = Some out /\
    same_samples (snd (Percentiles r [fconst 50 100])) r /\
    StronglySorted Z.le (samples (snd (Percentiles r [fconst 50 100]))) /\
    Forall2 (fun q v => v ∈ samples r /\
        0 <= quantile_index q (Len r) < Len r /\
        quantile_index q (Len r) + 1 <= count (fun x => x <=? v) (samples r) /\
        Len r - quantile_index q (Len r) <= count (fun x => v <=? x) (samples r))
      [fconst 50 100] out.
Proof.
  apply (percentiles_rank (AddBatch (New 4) [30; 10; 40; 20])).
  - simpl. congruence.
  - reflexivity.
  - constructor; [exact within_fconst_50|constructor].
Defined.
