(* ===== verification/ProcStat.v ===== *)
(** * [bench/internal/procstat]: memory, CPU time and threads of a process

    The two [/proc] files are read through [fs], the contents of a path or
    [None] when it cannot be read.  The sampler's goroutine is a step relation:
    one step per tick that found the files in a given state. *)

From S2P Require Import Prelude GoStrings GoFloat.

Definition ClockTicks : Z := 100.

Inductive procErr : Type :=
  | EReadFile
  | ECannotParse
  | ENumber
  | EMissing.

(** A file system: what [os.ReadFile] gives for a path. *)
Definition files : Type := string -> option string.

Definition status_path (pid : Z) : string := "/proc/" +:+ itoa pid +:+ "/status".
Definition stat_path (pid : Z) : string := "/proc/" +:+ itoa pid +:+ "/stat".

(** [strconv.ParseInt(s, 10, 64)] and [strconv.Atoi]. *)
Definition ParseInt (s : string) : result procErr Z :=
  match parse_int s with Some z => Ok z | None => Err ENumber end.

(** The loop over the lines of [/proc/pid/status]: the number in the second
    field of the first line that starts with the key. *)
Fixpoint status_number (key : string) (lines : list string) : result procErr Z :=
  match lines with
  | [] => Err EMissing
  | line :: rest =>
      if negb (has_prefix key line) then status_number key rest
      else
        match fields line with
        | _ :: f1 :: _ => ParseInt f1
        | _ => Err ECannotParse
        end
  end.

Definition RSSBytes (fs : files) (pid : Z) : result procErr Z :=
  match fs (status_path pid) with
  | None => Err EReadFile
  | Some data => let? kb := status_number "VmRSS:" (split nl data) in Ok (wrap64 (kb * 1024))
  end.

Definition ThreadCount (fs : files) (pid : Z) : result procErr Z :=
  match fs (status_path pid) with
  | None => Err EReadFile
  | Some data => status_number "Threads:" (split nl data)
  end.

Definition CPUTime (fs : files) (pid : Z) : result procErr duration :=
  match fs (stat_path pid) with
  | None => Err EReadFile
  | Some data =>
      match last_index_byte ")" data with
      | None => Err ECannotParse
      | Some i =>
          let fs := fields (str_drop (i + 1) data) in
          if zlen fs <? 13 then Err ECannotParse
          else
            let? utime := ParseInt (nth 11 fs "") in
            let? stime := ParseInt (nth 12 fs "") in
            let ticks := wrap64 (utime + stime) in
            Ok (Z.quot (wrap64 (ticks * second)) ClockTicks)
      end
  end.

(** ** The sampler *)

Record Sampler : Type := mkSampler {
  PeakRSS : Z;
  CPUStart : duration;
  CPUEnd : duration;
  MaxThreads : Z
}.

Definition NewSampler : Sampler := {| PeakRSS := 0; CPUStart := 0; CPUEnd := 0; MaxThreads := 0 |}.

(** The value of a call whose error is discarded: zero on the error path. *)
Definition or_zero (r : result procErr Z) : Z := match r with Ok z => z | Err _ => 0 end.

(** [if n, err := read(); err == nil && n > best { best = n }]. *)
Definition keep_max (best : Z) (r : result procErr Z) : Z :=
  match r with Ok n => if best <? n then n else best | Err _ => best end.

(** What [Start] does before the goroutine runs, one tick, what [Stop] does
    once the goroutine is done. *)
Definition Start (fs : files) (pid : Z) (s : Sampler) : Sampler :=
  {| PeakRSS := PeakRSS s; CPUStart := or_zero (CPUTime fs pid);
     CPUEnd := CPUEnd s; MaxThreads := MaxThreads s |}.

Definition tick (fs : files) (pid : Z) (s : Sampler) : Sampler :=
  {| PeakRSS := keep_max (PeakRSS s) (RSSBytes fs pid);
     CPUStart := CPUStart s; CPUEnd := CPUEnd s;
     MaxThreads := keep_max (MaxThreads s) (ThreadCount fs pid) |}.

Definition Stop (fs : files) (pid : Z) (s : Sampler) : Sampler :=
  {| PeakRSS := PeakRSS s; CPUStart := CPUStart s;
     CPUEnd := or_zero (CPUTime fs pid); MaxThreads := MaxThreads s |}.

Definition CPUUsed (s : Sampler) : duration := wrap64 (CPUEnd s - CPUStart s).

(** The goroutine may take a last tick after the stop channel is closed, for
    [select] picks any ready case; [Stop] reads the CPU time after the
    goroutine closed [done]. *)
Inductive phase : Type := Idle | Running | Stopping | Finished | Stopped.

Inductive sampler_step (pid : Z) : phase * Sampler -> option files -> phase * Sampler -> Prop :=
  | step_start fs s : sampler_step pid (Idle, s) None (Running, Start fs pid s)
  | step_tick fs p s : p = Running \/ p = Stopping ->
      sampler_step pid (p, s) (Some fs) (p, tick fs pid s)
  | step_close s : sampler_step pid (Running, s) None (Stopping, s)
  | step_done s : sampler_step pid (Stopping, s) None (Finished, s)
  | step_stop fs s : sampler_step pid (Finished, s) None (Stopped, Stop fs pid s).

(** Runs, with the file systems the ticks saw. *)
Inductive sampler_run (pid : Z) : phase * Sampler -> list files -> phase * Sampler -> Prop :=
  | run_nil c : sampler_run pid c [] c
  | run_step c1 c2 c3 o seen :
      sampler_run pid c1 seen c2 -> sampler_step pid c2 o c3 ->
      sampler_run pid c1 (seen ++ option_list o) c3.

Example stat_ex :
  CPUTime (fun p => if String.eqb p "/proc/7/stat" then
    Some ("7 (a) b) S 1 2 3 4 5 6 7 8 9 10 150 25 0" +:+ nls) else None) 7 = Ok (1750 * millisecond).
Proof. reflexivity. Qed.

(** ** The readers on the files the kernel writes *)

Lemma status_number_at key pre line rest f0 f1 fs :
  Forall (fun l => has_prefix key l = false) pre ->
  has_prefix key line = true -> fields line = f0 :: f1 :: fs ->
  status_number key (pre ++ line :: rest) = ParseInt f1.
Proof.
  intros Hpre Hl Hf. induction Hpre as [|l pre Hp _ IH]; simpl; [by rewrite Hl, Hf|].
  by rewrite Hp.
Qed.

Lemma ParseInt_itoa z : int64_range z -> ParseInt (itoa z) = Ok z.
Proof. intros Hz. unfold ParseInt. by rewrite parse_int_itoa. Qed.

(** A line of [/proc/pid/status] that carries a size: the key, a tab, the
    number padded with blanks, the unit. *)
Definition size_line (key : string) (pad : nat) (kb : Z) : string :=
  key +:+ String tab (spaces pad +:+ itoa kb +:+ " kB").

Lemma fields_size_line key pad kb :
  field_ok is_space key -> fields (size_line key pad kb) = [key; itoa kb; "kB"].
Proof.
  intros Hk. unfold size_line, fields. rewrite fields_func_word by done. f_equal.
  fold (fields (spaces pad +:+ itoa kb +:+ " kB")). rewrite fields_spaces. unfold fields.
  rewrite fields_func_word by (apply itoa_field || done). done.
Qed.

(** On a status file of any preceding lines that do not start with
    [VmRSS:] and a [VmRSS:] line in the kernel's format, [RSSBytes] is the
    number of kilobytes times 1024, without overflow for any size below 2^53
    kilobytes. *)
Theorem RSSBytes_status (fs : files) pid pre pad kb post :
  fs (status_path pid) = Some (join nls (pre ++ size_line "VmRSS:" pad kb :: post)) ->
  Forall (lacks nl) (pre ++ size_line "VmRSS:" pad kb :: post) ->
  Forall (fun l => has_prefix "VmRSS:" l = false) pre ->
  0 <= kb < 2 ^ 53 ->
  RSSBytes fs pid = Ok (kb * 1024).
Proof.
  intros Hf Hl Hp Hk. unfold RSSBytes. rewrite Hf. change nls with (String nl "").
  rewrite split_join by (done || by destruct pre).
  rewrite (status_number_at _ _ _ _ "VmRSS:" (itoa kb) ["kB"]); [|done|apply has_prefix_app|].
  - rewrite ParseInt_itoa by (unfold int64_range; lia). cbn [rbind].
    rewrite wrap64_id by (unfold int64_range; lia). done.
  - apply fields_size_line. done.
Qed.

Lemma RSSBytes_status_witness :
  RSSBytes (fun p => Some (join nls ["Name:	x"; size_line "VmRSS:" 3 4096; "Threads:	2"])) 7 = Ok (4096 * 1024).
Proof.
  apply (RSSBytes_status _ 7 ["Name:	x"] 3 4096 ["Threads:	2"]);
    [reflexivity|forall_eval|forall_eval|lia].
Defined.

(** C40. Whatever the executable is called -- blanks and closing parentheses in
    it included -- [CPUTime] reads the user and system ticks, the eleventh and
    twelfth numbers after the state, and reports a hundredth of a second for
    each. *)
Theorem CPUTime_any_comm (fs : files) pid comm st nums post utime stime :
  fs (stat_path pid) =
    Some (itoa pid +:+ " (" +:+ comm +:+ ") " +:+
          join " " (st :: (itoa <$> nums) ++ itoa utime :: itoa stime :: post)) ->
  length nums = 10%nat ->
  Forall (field_ok is_space) (st :: post) ->
  Forall (lacks ")") (st :: post) ->
  0 <= utime -> 0 <= stime -> utime + stime < 2 ^ 33 ->
  CPUTime fs pid = Ok ((utime + stime) * (second / 100)).
Proof.
  intros Hf Hn Hok Hlk Hu Hs Hb. unfold CPUTime. rewrite Hf.
  set (ws := st :: (itoa <$> nums) ++ itoa utime :: itoa stime :: post).
  assert (Forall (field_ok is_space) ws /\ Forall (lacks ")") ws) as [Hok' Hlk'].
  { apply Forall_cons in Hok as [??], Hlk as [??]. unfold ws.
    rewrite !Forall_cons, !Forall_app, !Forall_cons, !Forall_fmap.
    split_and!; try done; try (by apply Forall_true; intros; apply itoa_field);
      try apply itoa_field; try (by apply Forall_true; intros; apply itoa_lacks);
      by apply itoa_lacks. }
  replace (itoa pid +:+ " (" +:+ comm +:+ ") " +:+ join " " ws)
    with ((itoa pid +:+ " (" +:+ comm) +:+ String ")" (" " +:+ join " " ws))
    by (rewrite !str_app_assoc; done).
  rewrite last_index_byte_app by (apply lacks_app; split; [done|by apply lacks_join]).
  rewrite <- str_drop_drop, str_drop_app. cbn [str_drop String.append].
  unfold fields. rewrite fields_func_blank by done. fold (fields (join " " ws)).
  rewrite fields_join by done.
  assert (zlen ws <? 13 = false) as ->.
  { apply Z.ltb_ge. unfold ws, zlen. simpl. rewrite length_app, length_fmap, Hn. simpl. lia. }
  assert (nth 11 ws "" = itoa utime /\ nth 12 ws "" = itoa stime) as [-> ->].
  { unfold ws. do 10 (destruct nums as [|? nums]; [done|]). by destruct nums. }
  rewrite !ParseInt_itoa by (unfold int64_range; lia). cbn [rbind].
  unfold second, millisecond, microsecond, ClockTicks.
  rewrite (wrap64_id (utime + stime)), wrap64_id by (unfold int64_range; lia). f_equal.
  replace ((utime + stime) * (1000 * (1000 * 1000))) with ((utime + stime) * 10000000 * 100) by lia.
  rewrite Z.quot_mul by lia. reflexivity.
Qed.

Lemma CPUTime_any_comm_witness :
  CPUTime (fun _ => Some (itoa 7 +:+ " (" +:+ "a) (b" +:+ ") " +:+
    join " " ("S" :: (itoa <$> [1; 2; 3; 4; 5; 6; 7; 8; 9; 10]) ++ itoa 150 :: itoa 25 :: ["0"]))) 7
  = Ok ((150 + 25) * (second / 100)).
Proof.
  apply (CPUTime_any_comm _ 7 "a) (b" "S" [1; 2; 3; 4; 5; 6; 7; 8; 9; 10] ["0"] 150 25);
    [reflexivity|reflexivity| |forall_eval|lia..].
  repeat (apply Forall_cons; split; [by split|]). by apply Forall_nil.
Defined.

(** ** What a run of the sampler keeps *)

Definition best_of (read : files -> result procErr Z) (seen : list files) (init : Z) : Z :=
  fold_left (fun b fs => keep_max b (read fs)) seen init.

Lemma keep_max_spec b r :
  b <= keep_max b r /\ (forall n, r = Ok n -> n <= keep_max b r) /\
  (keep_max b r = b \/ r = Ok (keep_max b r)).
Proof.
  unfold keep_max. destruct r as [n|e]; [|split_and!; [lia|done|by left]].
  case_match; b2p; split_and!; try (by left); try (by right); try lia; try (intros ? [= <-]; lia).
Qed.

Lemma best_of_spec read seen init :
  init <= best_of read seen init /\
  (forall fs n, fs ∈ seen -> read fs = Ok n -> n <= best_of read seen init) /\
  (best_of read seen init = init \/ exists fs, fs ∈ seen /\ read fs = Ok (best_of read seen init)).
Proof.
  revert init. induction seen as [|fs seen IH]; intros init; cbn.
  - split_and!; [lia|by intros ?? ?%not_elem_of_nil|by left].
  - destruct (keep_max_spec init (read fs)) as (H1 & H2 & H3).
    destruct (IH (keep_max init (read fs))) as (G1 & G2 & G3). split_and!.
    + unfold best_of in *. lia.
    + intros fs' n [->|Hin]%elem_of_cons Hr; [|by eapply G2].
      specialize (H2 _ Hr). unfold best_of in *. lia.
    + destruct G3 as [G3|(fs' & Hin & G3)]; [|right; exists fs'; split; [by right|done]].
      unfold best_of in *. destruct H3 as [H3|H3]; [left; congruence|].
      right. exists fs. split; [by left|]. by rewrite G3.
Qed.

Definition started (p : phase) : bool := match p with Idle => false | _ => true end.

(** The invariant of a run from a fresh sampler. *)
Lemma sampler_run_inv pid seen c :
  sampler_run pid (Idle, NewSampler) seen c ->
  PeakRSS (snd c) = best_of (fun fs => RSSBytes fs pid) seen 0 /\
  MaxThreads (snd c) = best_of (fun fs => ThreadCount fs pid) seen 0.
Proof.
  remember (Idle, NewSampler) as c0 eqn:E0. induction 1 as [|c1 c2 c3 o seen Hr IH Hs]; subst; [done|].
  specialize (IH eq_refl) as [IH1 IH2].
  destruct Hs; simpl in *; rewrite ?app_nil_r; try done.
  unfold best_of in *. rewrite !fold_left_app. simpl. by rewrite IH1, IH2.
Qed.

(** Over every interleaving of a sampler's life -- ticks that fail, ticks
    after [Stop] closed the channel -- the peak RSS is an upper bound of every
    successful reading, is one of them (or zero when there was none), and the
    same holds of the thread count. *)
Theorem sampler_peak pid seen p s :
  sampler_run pid (Idle, NewSampler) seen (p, s) ->
  (forall fs n, fs ∈ seen -> RSSBytes fs pid = Ok n -> n <= PeakRSS s) /\
  (PeakRSS s = 0 \/ exists fs, fs ∈ seen /\ RSSBytes fs pid = Ok (PeakRSS s)) /\
  (forall fs n, fs ∈ seen -> ThreadCount fs pid = Ok n -> n <= MaxThreads s) /\
  (MaxThreads s = 0 \/ exists fs, fs ∈ seen /\ ThreadCount fs pid = Ok (MaxThreads s)).
Proof.
  intros [H1 H2]%sampler_run_inv. simpl in *. rewrite H1, H2.
  destruct (best_of_spec (fun fs => RSSBytes fs pid) seen 0) as (_ & ? & ?).
  destruct (best_of_spec (fun fs => ThreadCount fs pid) seen 0) as (_ & ? & ?). done.
Qed.

Definition ex_files (kb : Z) : files :=
  fun p => if String.eqb p (status_path 7) then Some (size_line "VmRSS:" 1 kb) else None.

Lemma ex_run :
  sampler_run 7 (Idle, NewSampler) [ex_files 5; ex_files 3]
    (Stopping, tick (ex_files 3) 7 (tick (ex_files 5) 7 (Start (ex_files 5) 7 NewSampler))).
Proof.
  apply (run_step _ _ (Stopping, tick (ex_files 5) 7 (Start (ex_files 5) 7 NewSampler)) _
    (Some (ex_files 3)) [ex_files 5]); [|by constructor; right].
  apply (run_step _ _ (Running, tick (ex_files 5) 7 (Start (ex_files 5) 7 NewSampler)) _
    None [ex_files 5]); [|by constructor].
  apply (run_step _ _ (Running, Start (ex_files 5) 7 NewSampler) _ (Some (ex_files 5)) []);
    [|by constructor; left].
  apply (run_step _ _ (Idle, NewSampler) _ None []); constructor.
Qed.

Lemma sampler_peak_witness :
  5 * 1024 <= PeakRSS (tick (ex_files 3) 7 (tick (ex_files 5) 7 (Start (ex_files 5) 7 NewSampler))).
Proof.
  refine (proj1 (sampler_peak 7 _ _ _ ex_run) (ex_files 5) (5 * 1024) _ _); [by left|reflexivity].
Defined.
