(* ===== verification/Framing.v ===== *)
(** * DNS messages on a stream

    [frame] of [cmd/rrlexp/client.go] and the reading side both stream servers
    and clients share: [readFull] of [cmd/mockdns] (the loop [io.ReadFull] runs
    as well) over a connection, which delivers its bytes in segments of any
    size.  The lemmas of the end of the file are what the components use: what
    is read does not depend on the segmentation. *)

From S2P Require Import Prelude GoStrings DnsWire.

(** What is left to read on a connection: the segments in order, then EOF. *)
Notation conn := (list bytes).

(** [c.Read] returns at most what is asked and at most one segment; the loop
    asks again for the rest.  [None] is the error, the stream having ended. *)
Fixpoint readFull (c : conn) (want : nat) : option (bytes * conn) :=
  match want with
  | O => Some ([], c)
  | S _ =>
      match c with
      | [] => None
      | seg :: rest =>
          if decide (length seg <= want)%nat then
            match readFull rest (want - length seg) with
            | None => None
            | Some (b, c') => Some (seg ++ b, c')
            end
          else Some (take want seg, drop want seg :: rest)
      end
  end.

(** Two length bytes, then the message. *)
Definition frame (msg : bytes) : bytes := be16 (u16 (zlen msg)) ++ msg.

(** [binary.BigEndian.Uint16(hdr[:])], and [int(hdr[0])<<8 | int(hdr[1])]. *)
Definition hdr_size (hdr : bytes) : Z := get16 hdr 0.

(** One framed message, as [serveTCP], [serveConn] and [tcpReader] read it. *)
Inductive frame_read : Type :=
  | HeaderFailed
  | BodyFailed
  | Message (msg : bytes) (rest : conn).

Definition read_frame (c : conn) : frame_read :=
  match readFull c 2 with
  | None => HeaderFailed
  | Some (hdr, c) =>
      match readFull c (Z.to_nat (hdr_size hdr)) with
      | None => BodyFailed
      | Some (msg, c) => Message msg c
      end
  end.

Example read_frame_ex :
  read_frame [[0]; [3; 7]; []; [8; 9; 0]; [1]] = Message [7; 8; 9] [[0]; [1]].
Proof. reflexivity. Qed.

(** ** Segmentation *)

Lemma readFull_Some c n b c' :
  readFull c n = Some (b, c') -> concat c = b ++ concat c' /\ length b = n.
Proof.
  revert n b c'. induction c as [|seg c IH]; intros [|n] b c'; simpl; try (by intros [= <- <-]).
  case_decide as Hd.
  - destruct (readFull c _) as [[b0 c0]|] eqn:E; [|done]. intros [= <- <-].
    apply IH in E as [-> El]. rewrite <- app_assoc, length_app, El. split; [done|lia].
  - intros [= <- <-]. split.
    2:{ apply length_take_le. lia. }
    change (seg ++ concat c = take (S n) seg ++ (drop (S n) seg ++ concat c)).
    by rewrite app_assoc, take_drop.
Qed.

Lemma readFull_None c n : readFull c n = None <-> (length (concat c) < n)%nat.
Proof.
  revert n. induction c as [|seg c IH]; intros [|n]; simpl; try (split; [done|lia]).
  - split; [lia|done].
  - rewrite length_app. case_decide.
    + specialize (IH (S n - length seg)%nat).
      destruct (readFull c _) as [[]|]; split; try done; try lia; intros.
      * exfalso. assert (length (concat c) < S n - length seg)%nat as Hx by lia.
        by apply IH in Hx.
      * assert (length (concat c) < S n - length seg)%nat by (by apply IH). lia.
    + split; [done|lia].
Qed.

Lemma readFull_app c b s n :
  concat c = b ++ s -> length b = n -> exists c', readFull c n = Some (b, c') /\ concat c' = s.
Proof.
  intros Hc Hn. destruct (readFull c n) as [[b0 c0]|] eqn:E.
  - apply readFull_Some in E as [E El]. rewrite Hc in E. apply app_inj_1 in E as [-> ->]; [|lia].
    by exists c0.
  - apply readFull_None in E. rewrite Hc, length_app in E. lia.
Qed.

Lemma hdr_size_be16 n : 0 <= n < 65536 -> hdr_size (be16 n) = n.
Proof.
  intros H. unfold hdr_size. pose proof (get16_be16 [] n [] H) as E.
  rewrite app_nil_r in E. exact E.
Qed.

(** Reading a whole frame, however it is cut into segments. *)
Lemma read_frame_app c msg s :
  zlen msg < 65536 -> concat c = frame msg ++ s ->
  exists c', read_frame c = Message msg c' /\ concat c' = s.
Proof.
  intros Hm Hc. pose proof (zlen_nonneg msg). unfold frame in Hc. rewrite u16_id in Hc by lia.
  rewrite <- app_assoc in Hc. unfold read_frame.
  destruct (readFull_app c _ _ 2 Hc eq_refl) as (c1 & -> & Hc1).
  rewrite hdr_size_be16 by lia.
  destruct (readFull_app c1 msg s (Z.to_nat (zlen msg)) Hc1) as (c2 & -> & Hc2);
    [unfold zlen; lia|]. by exists c2.
Qed.

(** A frame cut short, or no frame at all, fails to read. *)
Lemma read_frame_short c msg k :
  zlen msg < 65536 -> (k < length (frame msg))%nat -> concat c = take k (frame msg) ->
  read_frame c = HeaderFailed \/ read_frame c = BodyFailed.
Proof.
  intros Hm Hk Hc. unfold read_frame.
  destruct (readFull c 2) as [[h c1]|] eqn:E; [|by left]. right.
  apply readFull_Some in E as [E El]. rewrite Hc in E. pose proof (zlen_nonneg msg).
  unfold frame in *. rewrite u16_id in * by lia.
  assert (2 <= k)%nat as H2.
  { apply (f_equal length) in E. rewrite length_take, !length_app in E. lia. }
  rewrite take_app_ge in E by (simpl; lia). apply app_inj_1 in E as [<- E]; [|done].
  rewrite hdr_size_be16 by lia.
  destruct (readFull c1 _) as [[m c2]|] eqn:E2; [exfalso|done].
  apply readFull_Some in E2 as [E2 El2]. rewrite <- E in E2. apply (f_equal length) in E2.
  rewrite length_take, !length_app in E2. rewrite length_app in Hk. simpl in *. unfold zlen in *. lia.
Qed.

Lemma read_frame_shrinks c msg c' :
  read_frame c = Message msg c' -> (length (concat c') < length (concat c))%nat.
Proof.
  unfold read_frame. destruct (readFull c 2) as [[h c1]|] eqn:E1; [|done].
  destruct (readFull c1 _) as [[m c2]|] eqn:E2; [|done]. intros [= <- <-].
  apply readFull_Some in E1 as [-> E1], E2 as [E2 _]. rewrite E2, !length_app. lia.
Qed.

Lemma read_frame_nil c : concat c = [] -> read_frame c = HeaderFailed.
Proof.
  intros H. unfold read_frame.
  destruct (readFull c 2) as [[h c1]|] eqn:E; [|done].
  apply readFull_Some in E as [E El]. rewrite H in E. by destruct h.
Qed.

(** The bytes of a stream of framed messages. *)
Definition frames (msgs : list bytes) : bytes := concat (map frame msgs).

Lemma frames_cons m ms : frames (m :: ms) = frame m ++ frames ms.
Proof. done. Qed.
