(* ===== verification/MockDns.v ===== *)
(** * [bench/cmd/mockdns]: the upstream of the speed benchmarks

    [answer], the connection loop of [serveTCP], [serveUDP] and [main], given
    what resolving and binding its address met.  The delay before an answer is
    not part of what is answered and is left out. *)

From S2P Require Import Prelude GoStrings DnsWire Framing.

Definition mock_ip : Z * Z * Z * Z := (93, 184, 216, 34).

Definition answer (query : bytes) (ttl : Z) : result wire_error bytes :=
  let? (_, qtype) := Question query in
  if negb (qtype =? TypeA) then AnswerEmpty query
  else AnswerA query mock_ip ttl.

(** The loop over one connection: what is written, and how many queries were
    counted in [served].  [serve_fuel] is enough, every round reading two bytes
    at least: see [serve_conn_fuel]. *)
Fixpoint serve_conn (fuel : nat) (ttl : Z) (c : conn) : bytes * Z :=
  match fuel with
  | O => ([], 0)
  | S fuel' =>
      match read_frame c with
      | HeaderFailed | BodyFailed => ([], 0)
      | Message query c =>
          match answer query ttl with
          | Err _ => ([], 0)
          | Ok resp =>
              let out := [u8 (zlen resp / 256); u8 (zlen resp)] ++ resp in
              let '(w, served) := serve_conn fuel' ttl c in (out ++ w, 1 + served)
          end
      end
  end.

Definition serve_fuel (c : conn) : nat := S (length (concat c)).

Definition serveTCP_conn (ttl : Z) (c : conn) : bytes * Z := serve_conn (serve_fuel c) ttl c.

(** One datagram, one goroutine: the reply sent to its peer, if any. *)
Definition serveUDP_datagram (ttl : Z) (query : bytes) : option bytes :=
  match answer query ttl with
  | Err _ => None
  | Ok resp => Some resp
  end.

(** [serveUDP]: what the reads of the socket returned, up to the first that
    failed; the replies with their peers, in the order their goroutines write
    them when none overtakes another, and how many queries were counted. *)
Fixpoint serveUDP (ttl : Z) (reads : list (option (bytes * string))) : list (bytes * string) * Z :=
  match reads with
  | Some (query, peer) :: reads =>
      let '(out, served) := serveUDP ttl reads in
      match serveUDP_datagram ttl query with
      | Some resp => ((resp, peer) :: out, 1 + served)
      | None => (out, served)
      end
  | _ => ([], 0)
  end.

(** [main], up to its listeners: the message it dies with, or the TTL it serves. *)
Definition mockdns_main (ttl : Z) (resolved udp tcp : option string) : result string Z :=
  match resolved, udp, tcp with
  | Some e, _, _ | None, Some e, _ | None, None, Some e => Err ("mockdns: " +:+ e)
  | None, None, None => Ok (u32 ttl)
  end.

(** ** Properties *)

#[export] Instance answer_responder ttl : Responder (fun q => answer q ttl).
Proof.
  split; intros q r Hq ([n t] & _ & Hr)%rbind_ok; destruct (negb (t =? TypeA)).
  - by eapply (responder_reply (Responder := AnswerEmpty_responder)).
  - eapply (responder_reply (Responder := AnswerA_responder mock_ip ttl ltac:(repeat constructor; lia))); done.
  - by eapply (responder_question (Responder := AnswerEmpty_responder)).
  - eapply (responder_question (Responder := AnswerA_responder mock_ip ttl ltac:(repeat constructor; lia))); done.
Qed.

Lemma serve_conn_fuel ttl c n m :
  (length (concat c) < n)%nat -> (length (concat c) < m)%nat ->
  serve_conn n ttl c = serve_conn m ttl c.
Proof.
  revert m c. induction n as [|n IH]; intros [|m] c Hn Hm; try lia. simpl.
  destruct (read_frame c) as [| |q c'] eqn:E; [done..|].
  apply read_frame_shrinks in E. destruct (answer q ttl); [|done].
  by rewrite (IH m c') by lia.
Qed.

Lemma serve_step ttl c q c' resp :
  read_frame c = Message q c' -> answer q ttl = Ok resp ->
  serveTCP_conn ttl c =
    let '(w, served) := serveTCP_conn ttl c' in
    ([u8 (zlen resp / 256); u8 (zlen resp)] ++ resp ++ w, 1 + served).
Proof.
  intros Hr Ha. pose proof (read_frame_shrinks _ _ _ Hr).
  unfold serveTCP_conn at 1. unfold serve_fuel. cbn [serve_conn]. rewrite Hr, Ha.
  rewrite (serve_conn_fuel ttl c' _ (serve_fuel c')) by (unfold serve_fuel; lia).
  unfold serveTCP_conn. by destruct (serve_conn _ ttl c').
Qed.

Lemma frame_bytes resp : frame resp = [u8 (zlen resp / 256); u8 (zlen resp)] ++ resp.
Proof.
  unfold frame, be16, u16, u8. f_equal. f_equal; [|f_equal].
  - replace 65536 with (256 * 256) by lia. pose proof (zlen_nonneg resp).
    rewrite Z.rem_mul_r by lia.
    rewrite (Z.mul_comm 256 (_ mod 256)), Z.div_add by lia.
    rewrite (Z.div_small (zlen resp mod 256)) by (apply Z.mod_pos_bound; lia).
    rewrite Z.add_0_l, Z.mod_mod by lia. done.
  - replace 65536 with (256 * 256) by lia.
    rewrite Z.rem_mul_r by lia.
    rewrite Z.add_comm, (Z.mul_comm 256), Z.add_comm.
    rewrite Z.mod_add, Z.mod_mod by lia. done.
Qed.

(** The mock answers exactly the messages [Question] reads a question from:
    an A question with one A record, any other with no record; the answer is a
    NOERROR response carrying the query's ID and question. *)
Theorem mockdns_answers q ttl :
  bytes_ok q ->
  match Question q with
  | Err _ => is_ok (answer q ttl) = false
  | Ok (name, qtype) =>
      exists r, answer q ttl = Ok r /\ Question r = Ok (name, qtype) /\
        ParseReply r = Ok {| rID := get16 q 0; rRcode := 0;
                             rAnCount := if qtype =? TypeA then 1 else 0;
                             rTruncated := false; rAD := false |}
  end.
Proof.
  intros Hq. unfold answer. destruct (Question q) as [[name t]|e] eqn:HQ; [|done]. cbn [rbind].
  apply question_end_of_Question in HQ as Ho. destruct Ho as [o Ho].
  destruct (t =? TypeA); cbn [negb].
  - exists (answer_header (take (Z.to_nat o) q) 1 ++ a_record ttl (ip_bytes mock_ip)).
    assert (bytes_ok (ip_bytes mock_ip)) as Hip by (repeat constructor; lia).
    destruct (answer_header_reply q o 1 (a_record ttl (ip_bytes mock_ip)) Hq Ho) as (Hp & HQ' & _); [lia|].
    split_and!; [by apply AnswerA_layout; exists o|by rewrite HQ' by auto using bytes_ok_a_record|done].
  - exists (answer_header (take (Z.to_nat o) q) 0).
    destruct (answer_header_reply q o 0 [] Hq Ho) as (Hp & HQ' & _); [lia|].
    rewrite app_nil_r in *.
    split_and!; [by apply AnswerEmpty_layout; exists o|by rewrite HQ' by constructor|done].
Qed.

Lemma mockdns_answers_witness :
  exists r, answer (Query 7 "a.bc" TypeAAAA 1232) 300 = Ok r /\ Question r = Ok ("a.bc.", 28) /\
    ParseReply r = Ok {| rID := 7; rRcode := 0; rAnCount := 0; rTruncated := false; rAD := false |}.
Proof.
  apply (mockdns_answers (Query 7 "a.bc" TypeAAAA 1232) 300). apply bytes_ok_small. reflexivity.
Defined.

Lemma serve_stream ttl qs rs c k tail :
  Forall2 (fun q r => answer q ttl = Ok r) qs rs ->
  Forall (fun q => zlen q < 65536) qs -> zlen tail < 65536 ->
  (k < length (frame tail))%nat ->
  concat c = frames qs ++ take k (frame tail) ->
  serveTCP_conn ttl c = (frames rs, zlen qs).
Proof.
  intros H. revert c. induction H as [|q r qs rs Hr _ IH]; intros c Hq Ht Hk Hc.
  - unfold serveTCP_conn, serve_fuel. cbn [serve_conn].
    by destruct (read_frame_short c tail k Ht Hk Hc) as [-> | ->].
  - apply Forall_cons in Hq as [Hq1 Hq]. rewrite frames_cons, <- app_assoc in Hc.
    destruct (read_frame_app c q _ Hq1 Hc) as (c' & Hf & Hc').
    rewrite (serve_step _ _ _ _ _ Hf Hr), (IH c') by done.
    by rewrite frames_cons, frame_bytes, zlen_cons.
Qed.

(** C30. A client that pipelines queries on a connection gets one framed answer
    per query, in order, however the stream is cut into segments and whether or
    not it ends in the middle of a frame; the counter counts them. *)
Theorem mockdns_pipeline ttl qs rs c k tail :
  Forall2 (fun q r => answer q ttl = Ok r) qs rs ->
  Forall (fun q => zlen q < 65536) qs -> zlen tail < 65536 ->
  (k < length (frame tail))%nat ->
  concat c = frames qs ++ take k (frame tail) ->
  serveTCP_conn ttl c = (frames rs, zlen qs).
Proof. apply serve_stream. Qed.

(** Over UDP each datagram is on its own: the replies are those to the datagrams
    [Question] reads a question from, each to the peer that asked. *)
Theorem mockdns_datagrams ttl ds rest :
  let asked := List.filter (fun '(q, _) => is_ok (answer q ttl)) ds in
  exists rs, serveUDP ttl (map Some ds ++ None :: rest) = (rs, zlen asked) /\
    Forall2 (fun '(q, peer) '(r, peer') => answer q ttl = Ok r /\ peer' = peer) asked rs.
Proof.
  cbv zeta. induction ds as [|[q peer] ds (rs & E & H)]; [by exists []; split; [|constructor]|].
  cbn [map app serveUDP List.filter]. rewrite E. unfold serveUDP_datagram.
  destruct (answer q ttl) as [r|e] eqn:Ea; cbn [is_ok]; [|by exists rs].
  exists ((r, peer) :: rs). split; [by rewrite zlen_cons|by constructor].
Qed.

Definition ex_query (id : Z) : bytes := Query id "a.bc" TypeA 0.

Lemma mockdns_pipeline_witness :
  exists rs, zlen rs = 2 /\
  serveTCP_conn 300 [[0]; 22 :: ex_query 1 ++ [0; 22]; ex_query 2; [0; 22; 0]] = (frames rs, 2).
Proof.
  eexists [_; _]. split; [reflexivity|].
  eapply (mockdns_pipeline 300 [ex_query 1; ex_query 2] _ _ 3 (ex_query 3));
    [constructor; [|constructor; [|constructor]]; reflexivity
    |repeat (constructor; [reflexivity|]); constructor|reflexivity|vm_compute; lia|reflexivity].
Defined.
