(* ===== verification/RrlMock.v ===== *)
(** * [bench/cmd/rrlexp/mock.go]: the upstream the experiments fail and restore

    [answer] and [reply] build the responses; [Mock] is the state the methods
    share under [mu] and the two atomics; [listen], [fail], [restore], [stop]
    are its operations, each given what the operating system decided about the
    binds it asks for.  A listener is identified by a number never used again,
    as a Go interface value is by its pointer; [serveConn] compares it.
    [mock_step] is the mock under any sequence of these operations. *)

From S2P Require Import Prelude GoStrings DnsWire Framing.

(** ** The answers *)

Definition answer_ip : Z * Z * Z * Z := (203, 0, 113, 1).

Definition extra_record (ttl i : Z) : bytes :=
  [0xC0; 0x0C] ++ be16 TypeA ++ be16 ClassIN ++ be32 ttl ++ be16 4 ++
  [203; 0; 113; u8 (1 + Z.rem i 250)].

(** [for i := 1; i < records; i++]: [n] rounds from [i]. *)
Fixpoint extra_records (n : nat) (ttl i : Z) (out : bytes) : bytes :=
  match n with
  | O => out
  | S n' => extra_records n' ttl (i + 1) (out ++ extra_record ttl i)
  end.

Definition answer (query : bytes) (records ttl : Z) : result wire_error bytes :=
  let? out := AnswerA query answer_ip ttl in
  let out := extra_records (Z.to_nat (records - 1)) ttl 1 out in
  Ok (put16 out 6 (u16 records)).

(** ** The state *)

Inductive mock_mode : Type := mockUp | mockBlackhole | mockRefused.

#[export] Instance mock_mode_eq_dec : EqDecision mock_mode.
Proof. solve_decision. Defined.

Record Mock : Type := mkMock {
  pc : bool;            (** the UDP socket is open *)
  ln : option nat;      (** the TCP listener *)
  next_ln : nat;        (** the identity of the next listener *)
  hold : bool;
  tcpHold : bool;
  records : Z;
  ttl : Z;
  served : Z;
  mode : mock_mode
}.

Definition set_mode (m : Mock) (md : mock_mode) : Mock :=
  mkMock (pc m) (ln m) (next_ln m) (hold m) (tcpHold m) (records m) (ttl m) (served m) md.

Inductive mockErr : Type := EListenUDP | EListenTCP | EHoldUDP | EHoldTCP | EAnswer (e : wire_error).

(** A method that can fail half-way: what it returned and the mock it left. *)
Definition outcome : Type := option mockErr * Mock.

(** [listen] binds both sockets; the flags say which binds succeed. *)
Definition listen (udp tcp : bool) (m : Mock) : outcome :=
  if negb udp then (Some EListenUDP, m)
  else if negb tcp then (Some EListenTCP, m)
  else (None, mkMock true (Some (next_ln m)) (S (next_ln m)) (hold m) (tcpHold m)
                (records m) (ttl m) (served m) (mode m)).

Definition releaseHolds (m : Mock) : Mock :=
  mkMock (pc m) (ln m) (next_ln m) false false (records m) (ttl m) (served m) (mode m).

Definition closeSockets (m : Mock) : Mock :=
  releaseHolds
    (mkMock false None (next_ln m) (hold m) (tcpHold m) (records m) (ttl m) (served m) (mode m)).

Definition stop (m : Mock) : Mock := closeSockets m.

Definition fail (md : mock_mode) (udp tcp : bool) (m : Mock) : outcome :=
  let m := set_mode m md in
  if negb (bool_decide (md = mockRefused)) then (None, m)
  else
    let m := closeSockets m in
    if negb udp then (Some EHoldUDP, m)
    else
      let m := mkMock (pc m) (ln m) (next_ln m) true (tcpHold m) (records m) (ttl m) (served m) (mode m) in
      if negb tcp then (Some EHoldTCP, m)
      else (None, mkMock (pc m) (ln m) (next_ln m) (hold m) true (records m) (ttl m) (served m) (mode m)).

Definition restore (udp tcp : bool) (m : Mock) : outcome :=
  let refused := bool_decide (mode m = mockRefused) in
  let m := set_mode m mockUp in
  if negb refused then (None, m)
  else listen udp tcp (releaseHolds m).

Definition reply (q : bytes) (m : Mock) : result mockErr bytes * Mock :=
  match answer q (records m) (ttl m) with
  | Err e => (Err (EAnswer e), m)
  | Ok r => (Ok r, mkMock (pc m) (ln m) (next_ln m) (hold m) (tcpHold m) (records m) (ttl m)
                     (wrap64 (served m + 1)) (mode m))
  end.

(** [startMock]: up to twenty tries at a port both transports can have; only
    [EADDRINUSE] is tried again. *)
Inductive bind_result : Type := Bound | InUse | BindFailed.

Fixpoint start_tries (tries : list bind_result) : bind_result :=
  match tries with
  | [] => InUse
  | InUse :: ts => start_tries ts
  | r :: _ => r
  end.

Definition startMock (tries : list bind_result) (recs ttl0 : Z) : option (Mock * Z) :=
  match start_tries (take 20 tries) with
  | Bound =>
      let m := mkMock false None 0 false false recs ttl0 0 mockUp in
      let probe := match answer (Query 1 "size.rrl.test" TypeA 0) recs ttl0 with
                   | Ok r => r | Err _ => [] end in
      Some (snd (listen true true m), zlen probe)
  | _ => None
  end.

(** ** Serving *)

(** A datagram read in the state [m] and answered, a delay later, in [m']. *)
Definition udp_answers (m m' : Mock) : bool :=
  bool_decide (mode m = mockUp) && bool_decide (mode m' = mockUp).

(** What [serveConn] does with a query on a connection that [l] accepted. *)
Inductive conn_action : Type := Reset | Silent | Reply.

Definition serveConn_action (l : nat) (m : Mock) : conn_action :=
  let gone := negb (bool_decide (ln m = Some l)) in
  if gone || bool_decide (mode m = mockRefused) then Reset
  else if bool_decide (mode m = mockBlackhole) then Silent
  else Reply.

Example answer_ex :
  answer (Query 1 "a.b" TypeA 0) 3 60 =
    Ok ([0; 1; 129; 128; 0; 1; 0; 3; 0; 0; 0; 0; 1; 97; 1; 98; 0; 0; 1; 0; 1] ++
        [192; 12; 0; 1; 0; 1; 0; 0; 0; 60; 0; 4; 203; 0; 113; 1] ++
        [192; 12; 0; 1; 0; 1; 0; 0; 0; 60; 0; 4; 203; 0; 113; 2] ++
        [192; 12; 0; 1; 0; 1; 0; 0; 0; 60; 0; 4; 203; 0; 113; 3]).
Proof. reflexivity. Qed.

(** ** Steps

    Every operation, with every answer the operating system may give. *)
Inductive mock_step : Mock -> Mock -> Prop :=
  | step_fail md udp tcp m : mock_step m (snd (fail md udp tcp m))
  | step_restore udp tcp m : mock_step m (snd (restore udp tcp m))
  | step_reply q m : mock_step m (snd (reply q m))
  | step_stop m : mock_step m (stop m).

Inductive mock_reach : Mock -> Mock -> Prop :=
  | reach_refl m : mock_reach m m
  | reach_step m1 m2 m3 : mock_reach m1 m2 -> mock_step m2 m3 -> mock_reach m1 m3.

(** Sockets are open together, a refused mock has none, only a mock without
    sockets holds the ports, and listeners are numbered below [next_ln]. *)
Record mock_inv (m : Mock) : Prop := {
  inv_together : pc m = true <-> ln m <> None;
  inv_refused : mode m = mockRefused -> ln m = None;
  inv_holds : hold m = true \/ tcpHold m = true -> ln m = None;
  inv_fresh : forall l, ln m = Some l -> (l < next_ln m)%nat
}.

Lemma step_inv m m' : mock_inv m -> mock_step m m' -> mock_inv m'.
Proof.
  intros [H1 H2 H3 H4] Hs. destruct Hs as [md udp tcp m|udp tcp m|q m|m].
  - unfold fail. case_bool_decide as Hm; simpl.
    + destruct udp, tcp; split; simpl; naive_solver.
    + split; simpl; naive_solver.
  - unfold restore, listen. case_bool_decide as Hm; simpl.
    + destruct udp, tcp; split; simpl; naive_solver lia.
    + split; simpl; naive_solver.
  - unfold reply. destruct (answer _ _ _); split; simpl; naive_solver.
  - split; simpl; naive_solver.
Qed.

Lemma reach_inv m m' : mock_inv m -> mock_reach m m' -> mock_inv m'.
Proof. intros H. induction 1; eauto using step_inv. Qed.

(** A step never gives the mock a listener number below [next_ln]. *)
Lemma step_next m m' : mock_step m m' -> (next_ln m <= next_ln m')%nat.
Proof.
  intros Hs. destruct Hs as [md udp tcp m|udp tcp m|q m|m]; simpl; [..|lia].
  - unfold fail. case_bool_decide; simpl; [|lia]. by destruct udp, tcp.
  - unfold restore, listen. case_bool_decide; simpl; [|lia]. destruct udp, tcp; simpl; lia.
  - unfold reply. by destruct (answer _ _ _).
Qed.

Lemma step_listener m m' l :
  mock_step m m' -> (l < next_ln m)%nat -> ln m <> Some l -> ln m' <> Some l.
Proof.
  intros Hs. destruct Hs as [md udp tcp m|udp tcp m|q m|m]; simpl; intros Hl Hn; [..|done].
  - unfold fail. case_bool_decide; simpl; [|done]. by destruct udp, tcp.
  - unfold restore, listen. case_bool_decide; simpl; [|done].
    destruct udp, tcp; simpl; try done. intros [= E]. lia.
  - unfold reply. by destruct (answer _ _ _).
Qed.

Lemma reach_next m m' : mock_reach m m' -> (next_ln m <= next_ln m')%nat.
Proof. induction 1 as [|m1 m2 m3 _ IH Hs%step_next]; lia. Qed.

Lemma reach_listener m m' l :
  mock_reach m m' -> (l < next_ln m)%nat -> ln m <> Some l -> ln m' <> Some l.
Proof.
  induction 1 as [|m1 m2 m3 Hr IH Hs]; intros Hl Hn; [done|].
  apply reach_next in Hr. eapply step_listener; [done|lia|auto].
Qed.

(** ** The records of an answer *)

Definition record_blocks (n : nat) (ttl i : Z) : bytes := concat (map (extra_record ttl) (seqZ i (Z.of_nat n))).

Lemma record_blocks_S n ttl i : record_blocks (S n) ttl i = extra_record ttl i ++ record_blocks n ttl (i + 1).
Proof.
  unfold record_blocks. rewrite seqZ_cons by lia.
  replace (Z.pred (Z.of_nat (S n))) with (Z.of_nat n) by lia. done.
Qed.

Lemma extra_records_blocks n ttl i out : extra_records n ttl i out = out ++ record_blocks n ttl i.
Proof.
  revert i out. induction n as [|n IH]; intros i out; simpl.
  - change (record_blocks 0 ttl i) with (@nil Z). by rewrite app_nil_r.
  - by rewrite IH, record_blocks_S, <- app_assoc.
Qed.

Lemma bytes_ok_extra_record ttl i : bytes_ok (extra_record ttl i).
Proof.
  unfold extra_record. repeat apply bytes_ok_app; auto with elodin.
  - by apply bytes_ok_small.
  - repeat constructor; try lia; apply u8_range.
Qed.

Lemma bytes_ok_blocks n ttl i : bytes_ok (record_blocks n ttl i).
Proof.
  revert i. induction n as [|n IH]; intros i; [constructor|].
  rewrite record_blocks_S. apply bytes_ok_app; [apply bytes_ok_extra_record|apply IH].
Qed.

Lemma zlen_extra_record ttl i : zlen (extra_record ttl i) = 16.
Proof. done. Qed.

Lemma zlen_blocks n ttl i : zlen (record_blocks n ttl i) = 16 * Z.of_nat n.
Proof.
  revert i. induction n as [|n IH]; intros i; [done|].
  rewrite record_blocks_S, zlen_app, zlen_extra_record, IH. lia.
Qed.

Lemma slice_blocks pre n ttl i k :
  0 <= k < Z.of_nat n ->
  slice (pre ++ record_blocks n ttl i) (zlen pre + 16 * k) (zlen pre + 16 * (k + 1)) = extra_record ttl (i + k).
Proof.
  revert pre i k. induction n as [|n IH]; intros pre i k Hk; [lia|]. rewrite record_blocks_S.
  destruct (decide (k = 0)) as [->|Hn].
  - replace (zlen pre + 16 * 0) with (zlen pre) by lia.
    change (16 * (0 + 1)) with (zlen (extra_record ttl i)). rewrite slice_app. f_equal. lia.
  - rewrite app_assoc. specialize (IH (pre ++ extra_record ttl i) (i + 1) (k - 1)).
    rewrite zlen_app, zlen_extra_record in IH.
    replace (zlen pre + 16 * k) with (zlen pre + 16 + 16 * (k - 1)) by lia.
    replace (zlen pre + 16 * (k + 1)) with (zlen pre + 16 + 16 * (k - 1 + 1)) by lia.
    rewrite IH by lia. f_equal. lia.
Qed.

Lemma put16_header x a b body :
  12 <= zlen x -> put16 (answer_header x a ++ body) 6 b = answer_header x b ++ body.
Proof.
  intros H. destruct (split_at x 12) as (h & t & -> & Hh); [lia|].
  rewrite !answer_header_layout by done. by destruct (head_12 _ Hh) as (?&?&?&?&?&?&?&?&?&?&?&?&->).
Qed.

Lemma question_end_12 q o : bytes_ok q -> questionEnd q = Ok o -> 12 <= zlen (take (Z.to_nat o) q).
Proof.
  intros Hb Ho. destruct (questionEnd_spec _ _ Hb Ho) as (h & rs & qs & rest & Hh & _ & _ & -> & -> & _).
  rewrite take_app. pose proof (zlen_nonneg (encode_raw rs)). pose proof (zlen_nonneg qs).
  rewrite take_ge by (unfold zlen in *; rewrite length_app; simpl; rewrite length_app in *; lia).
  autorewrite with zlen. 
  match goal with |- context [zlen (take ?a ?b)] => pose proof (zlen_nonneg (take a b)) end. lia.
Qed.

Lemma answer_layout q recs ttl0 r :
  bytes_ok q ->
  answer q recs ttl0 = Ok r <->
  exists o, questionEnd q = Ok o /\
    r = answer_header (take (Z.to_nat o) q) (u16 recs) ++
        record_blocks (S (Z.to_nat (recs - 1))) ttl0 0.
Proof.
  intros Hq. unfold answer. rewrite rbind_ok. setoid_rewrite AnswerA_layout.
  assert (forall o, questionEnd q = Ok o ->
    put16 (extra_records (Z.to_nat (recs - 1)) ttl0 1
      (answer_header (take (Z.to_nat o) q) 1 ++ a_record ttl0 (ip_bytes answer_ip))) 6 (u16 recs) =
    answer_header (take (Z.to_nat o) q) (u16 recs) ++
        record_blocks (S (Z.to_nat (recs - 1))) ttl0 0) as E.
  { intros o Ho. rewrite extra_records_blocks, <- app_assoc, put16_header by by apply question_end_12.
    by rewrite record_blocks_S. }
  split.
  - intros (a & (o & Ho & ->) & Hr). exists o. split; [done|]. rewrite E in Hr by done. congruence.
  - intros (o & Ho & ->). eexists. split; [by exists o|]. by rewrite E.
Qed.

#[export] Instance answer_responder recs ttl0 : Responder (fun q => answer q recs ttl0).
Proof.
  split; intros q r Hq (o & Ho & ->)%answer_layout; try done;
    destruct (answer_header_reply q o (u16 recs) (record_blocks (S (Z.to_nat (recs - 1))) ttl0 0) Hq Ho (u16_range recs))
      as (Hp & HQ & _); [by exists (u16 recs)|auto using bytes_ok_blocks].
Qed.

(** ** Properties *)

(** For any query with a readable question and any count from 1 to 65535
    the answer announces exactly the records it carries: the reply parses with
    that answer count, keeps the query's ID and question, and the [i]-th record
    sits at its offset behind the question, 16 bytes each, so that the size is
    the question's end plus 16 times the count. *)
Theorem rrl_answer_records q recs ttl0 o :
  bytes_ok q -> questionEnd q = Ok o -> 1 <= recs < 65536 ->
  exists r, answer q recs ttl0 = Ok r /\
    ParseReply r = Ok {| rID := get16 q 0; rRcode := 0; rAnCount := recs;
                         rTruncated := false; rAD := false |} /\
    Question r = Question q /\ zlen r = o + 16 * recs /\
    forall i, 0 <= i < recs -> slice r (o + 16 * i) (o + 16 * (i + 1)) = extra_record ttl0 i.
Proof.
  intros Hq Ho Hr. set (n := S (Z.to_nat (recs - 1))).
  exists (answer_header (take (Z.to_nat o) q) (u16 recs) ++ record_blocks n ttl0 0).
  destruct (answer_header_reply q o (u16 recs) (record_blocks n ttl0 0) Hq Ho (u16_range recs)) as (Hp & HQ & Hz).
  split_and!.
  - apply answer_layout; [done|]. by exists o.
  - by rewrite u16_id in Hp |- * by lia.
  - by apply HQ, bytes_ok_blocks.
  - rewrite zlen_app, Hz, zlen_blocks. lia.
  - intros i Hi.
    pose proof (slice_blocks (answer_header (take (Z.to_nat o) q) (u16 recs)) n ttl0 0 i) as Hs.
    rewrite Hz in Hs. apply Hs. lia.
Qed.

Lemma rrl_answer_records_witness :
  exists r, answer (Query 9 "a.rrl.test" TypeA 1232) 70 300 = Ok r /\ zlen r = 28 + 16 * 70.
Proof.
  destruct (rrl_answer_records (Query 9 "a.rrl.test" TypeA 1232) 70 300 28) as (r & H1 & _ & _ & H2 & _);
    [apply bytes_ok_small; reflexivity|reflexivity|lia|]. by exists r.
Defined.

(** C18. Once a listener is gone, whatever happens next -- failures, restores on
    the same port, binds that fail, more queries -- a connection that listener
    accepted is reset at its next query and never answered. *)
Theorem gone_connection_reset l m0 m1 m2 :
  mock_inv m0 -> ln m0 = Some l -> mock_reach m0 m1 -> ln m1 <> Some l ->
  mock_reach m1 m2 -> serveConn_action l m2 = Reset.
Proof.
  intros Hi Hl H01 Hn H12. pose proof (inv_fresh _ Hi _ Hl). apply reach_next in H01.
  unfold serveConn_action. rewrite bool_decide_false; [done|].
  eapply reach_listener; [done|lia|done].
Qed.

Definition ex_mock : Mock := snd (listen true true (mkMock false None 0 false false 1 300 0 mockUp)).

Lemma ex_mock_inv : mock_inv ex_mock.
Proof. split; simpl; naive_solver lia. Qed.

Lemma gone_connection_reset_witness :
  serveConn_action 0 (snd (restore true true (snd (fail mockRefused true true ex_mock)))) = Reset.
Proof.
  apply (gone_connection_reset 0 ex_mock (snd (fail mockRefused true true ex_mock))).
  - exact ex_mock_inv.
  - reflexivity.
  - eapply reach_step; [apply reach_refl|apply step_fail].
  - discriminate.
  - eapply reach_step; [apply reach_refl|apply step_restore].
Defined.

(** What the mock does to its clients, over both transports: a datagram read
    and answered in the same state, and a query on a connection [l] accepted. *)
Definition serves (l : nat) (m : Mock) : bool :=
  udp_answers m m && pc m && match serveConn_action l m with Reply => true | _ => false end.

(** C15. A failure that could be staged and its restoration make one clean
    outage. During it no datagram is answered; a black hole keeps the sockets
    and the connections, silent; a refusal leaves no socket, both ports held,
    and resets every connection. A restoration that reports no error is serving
    again with no port held: on the same listener after a black hole, on a new
    one after a refusal. *)
Theorem outage_cycle md udp tcp udp' tcp' m m1 m2 l :
  mock_inv m -> mode m = mockUp -> ln m = Some l -> md <> mockUp ->
  fail md udp tcp m = (None, m1) -> restore udp' tcp' m1 = (None, m2) ->
  (forall m', udp_answers m1 m' = false /\ udp_answers m' m1 = false) /\
  match md with
  | mockBlackhole => pc m1 = true /\ ln m1 = Some l /\ serveConn_action l m1 = Silent
  | _ => pc m1 = false /\ hold m1 = true /\ tcpHold m1 = true /\
         forall l', serveConn_action l' m1 = Reset
  end /\
  hold m2 = false /\ tcpHold m2 = false /\
  exists l2, ln m2 = Some l2 /\ serves l2 m2 = true /\
    (md = mockBlackhole <-> l2 = l).
Proof.
  intros [H1 H2 H3 H4] Hm Hl Hmd. pose proof (H4 l Hl) as Hlt.
  assert (hold m = false /\ tcpHold m = false) as [Hh1 Hh2].
  { destruct (hold m), (tcpHold m); rewrite Hl in H3; split; try done; exfalso;
      (assert (Some l = None) by auto; done). }
  assert (pc m = true) as Hpc by (apply H1; congruence).
  destruct md; [done| |]; unfold fail, restore, serves, udp_answers, serveConn_action; simpl.
  - intros [= <-]. simpl. intros [= <-]. simpl. rewrite Hh1, Hh2, Hl, Hpc.
    split_and!; try done; [intros m'; by rewrite andb_false_r|by rewrite bool_decide_true|].
    exists l. rewrite bool_decide_true by done. done.
  - destruct udp, tcp; simpl; try done. intros [= <-]. simpl. unfold listen. simpl.
    destruct udp', tcp'; simpl; try done. intros [= <-]. simpl.
    split_and!; try done; [intros m'; by rewrite andb_false_r|].
    exists (next_ln m). rewrite bool_decide_true by done. split_and!; [done..|]. split; [done|lia].
Qed.

Lemma outage_cycle_witness :
  exists l2, ln (snd (restore true true (snd (fail mockRefused true true ex_mock)))) = Some l2 /\ l2 <> 0%nat.
Proof.
  destruct (outage_cycle mockRefused true true true true ex_mock _ _ 0 ex_mock_inv eq_refl eq_refl
    ltac:(discriminate) eq_refl eq_refl) as (_ & _ & _ & _ & l2 & H & _ & Hn).
  exists l2. split; [exact H|]. intros E. apply Hn in E. discriminate.
Defined.

(** Under any sequence of failures, restorations, queries and stops, with
    any binds failing, the UDP socket and the listener are open together, a
    refused mock has neither, and the ports are held only without sockets. *)
Theorem mock_sockets_invariant tries recs ttl0 m0 size m :
  startMock tries recs ttl0 = Some (m0, size) -> mock_reach m0 m ->
  (pc m = true <-> ln m <> None) /\
  (mode m = mockRefused -> pc m = false /\ ln m = None) /\
  (hold m = true \/ tcpHold m = true -> pc m = false /\ ln m = None).
Proof.
  unfold startMock. intros Hs Hr. destruct (start_tries _); [|done..].
  assert (mock_inv m0) as Hi by (injection Hs as <- _; split; simpl; naive_solver lia).
  destruct (reach_inv _ _ Hi Hr) as [H1 H2 H3 _].
  assert (ln m = None -> pc m = false) as Hp by (destruct (pc m); naive_solver).
  naive_solver.
Qed.

Lemma mock_sockets_invariant_witness :
  pc (snd (fail mockRefused false true ex_mock)) = false /\
  ln (snd (fail mockRefused false true ex_mock)) = None.
Proof.
  refine (proj1 (proj2 (mock_sockets_invariant [InUse; Bound] 1 300 ex_mock 47 (snd (fail mockRefused false true ex_mock)) eq_refl _)) eq_refl).
  eapply reach_step; [apply reach_refl|apply step_fail].
Defined.
