(* ===== verification/NetAddr.v ===== *)
(** * Go's [net] address literals, as the harness uses them

    [net.ParseIP] (IPv4 dotted quads and IPv6 with one ellipsis and an embedded
    IPv4 tail), [To4], [JoinHostPort] and [SplitHostPort]; on top of them
    [isV6] and [joinPort] of [cmd/rrlexp/server.go], and the prefix a client's
    budget is kept under, a /24 or a /64. *)

From S2P Require Import Prelude GoStrings.

(** ** IPv4 *)

(** One field of a dotted quad: one to three digits, no leading zero, at most
    255. *)
Definition v4_field (s : string) : option Z :=
  match s with
  | EmptyString => None
  | String c rest =>
      if Ascii.eqb c "0" && negb (String.eqb rest "") then None
      else
        match parse_digits 0 s with
        | Some v => if (v <=? 255) && (slen s <=? 3) then Some v else None
        | None => None
        end
  end.

Definition parse_v4 (s : string) : option (list Z) :=
  match split "." s with
  | [a; b; c; d] => mapM v4_field [a; b; c; d]
  | _ => None
  end.

(** ** IPv6 *)

Definition hex_val (c : ascii) : option Z :=
  let n := Z.of_nat (nat_of_ascii c) in
  if (48 <=? n) && (n <=? 57) then Some (n - 48)
  else if (97 <=? n) && (n <=? 102) then Some (n - 87)
  else if (65 <=? n) && (n <=? 70) then Some (n - 55)
  else None.

(** The hex digits in front of [s]: how many, their value, what follows. *)
Fixpoint hex_prefix (s : string) (n acc : Z) : Z * Z * string :=
  match s with
  | EmptyString => (n, acc, s)
  | String c s' =>
      match hex_val c with
      | Some d => hex_prefix s' (n + 1) (acc * 16 + d)
      | None => (n, acc, s)
      end
  end.

(** The loop over the fields, with the bytes read so far and where the ellipsis
    stood; eight fields fill the address. *)
Fixpoint v6_loop (fuel : nat) (s : string) (ip : list Z) (ellipsis : option nat)
  : option (list Z * option nat * string) :=
  match fuel with
  | O => Some (ip, ellipsis, s)
  | S fuel' =>
      let '(n, acc, rest) := hex_prefix s 0 0 in
      if (n =? 0) || (4 <? n) then None
      else
        match rest with
        | EmptyString => Some (ip ++ [acc / 256; acc mod 256], ellipsis, "")
        | String "." _ =>
            if (match ellipsis with None => negb (length ip =? 12)%nat | Some _ => false end)
               || (12 <? zlen ip) then None
            else
              match parse_v4 s with
              | Some quad => Some (ip ++ quad, ellipsis, "")
              | None => None
              end
        | String ":" EmptyString => None
        | String ":" (String ":" rest') =>
            match ellipsis with
            | Some _ => None
            | None =>
                let ip := ip ++ [acc / 256; acc mod 256] in
                if String.eqb rest' "" then Some (ip, Some (length ip), "")
                else v6_loop fuel' rest' ip (Some (length ip))
            end
        | String ":" rest' => v6_loop fuel' rest' (ip ++ [acc / 256; acc mod 256]) ellipsis
        | _ => None
        end
  end.

(** The zeroes the ellipsis stands for. *)
Definition v6_expand (ip : list Z) (ellipsis : option nat) : option (list Z) :=
  let n := length ip in
  if (n <? 16)%nat then
    match ellipsis with
    | None => None
    | Some at_ => Some (take at_ ip ++ repeat 0 (16 - n) ++ drop at_ ip)
    end
  else match ellipsis with None => Some ip | Some _ => None end.

Definition parse_v6 (s : string) : option (list Z) :=
  let start :=
    match s with
    | String ":" (String ":" rest) =>
        if String.eqb rest "" then Some ([], Some 0%nat, "")
        else v6_loop 8 rest [] (Some 0%nat)
    | _ => v6_loop 8 s [] None
    end in
  match start with
  | Some (ip, ellipsis, "") => v6_expand ip ellipsis
  | _ => None
  end.

(** [net.ParseIP]: the form is decided by the first dot or colon; an address
    with a zone is refused.  Sixteen bytes, an IPv4 address mapped. *)
Fixpoint ParseIP_from (s whole : string) : option (list Z) :=
  match s with
  | EmptyString => None
  | String "." _ => app [0; 0; 0; 0; 0; 0; 0; 0; 0; 0; 255; 255] <$> parse_v4 whole
  | String ":" _ => if any_byte (Ascii.eqb "%") whole then None else parse_v6 whole
  | String "%" _ => None
  | String _ s' => ParseIP_from s' whole
  end.

Definition ParseIP (s : string) : option (list Z) := ParseIP_from s s.

Definition To4 (ip : list Z) : option (list Z) :=
  if bool_decide (take 12 ip = [0; 0; 0; 0; 0; 0; 0; 0; 0; 0; 255; 255])
  then Some (drop 12 ip) else None.

(** ** [cmd/rrlexp/server.go] *)

Definition isV6 (addr : string) : bool :=
  match ParseIP addr with
  | None => false
  | Some ip => match To4 ip with None => true | Some _ => false end
  end.

(** [net.JoinHostPort]: brackets around a host that contains a colon. *)
Definition JoinHostPort (host port : string) : string :=
  if any_byte (Ascii.eqb ":") host
  then "[" +:+ host +:+ "]:" +:+ port
  else host +:+ ":" +:+ port.

Definition joinPort (host : string) (port : Z) : string := JoinHostPort host (itoa port).

(** [net.SplitHostPort], for an address in either of those forms. *)
Definition SplitHostPort (hostport : string) : option (string * string) :=
  match last_index_byte ":" hostport with
  | None => None
  | Some i =>
      let port := str_drop (i + 1) hostport in
      match hostport with
      | String "[" rest =>
          match index_byte "]" rest with
          | None => None
          | Some e =>
              if negb (i =? e + 2)%nat then None
              else
                let host := str_take e rest in
                if any_byte (in_set ["["; "]"]%char) host || any_byte (in_set ["["; "]"]%char) port
                then None else Some (host, port)
          end
      | _ =>
          let host := str_take i hostport in
          if any_byte (Ascii.eqb ":") host
             || any_byte (in_set ["["; "]"]%char) hostport then None
          else Some (host, port)
      end
  end.

(** ** The prefix a budget is kept under: a /24, or a /64 *)

Inductive prefix : Type := V4prefix (b : list Z) | V6prefix (b : list Z).

#[export] Instance prefix_eq_dec : EqDecision prefix.
Proof. solve_decision. Defined.

Definition prefix_of (addr : string) : option prefix :=
  match ParseIP addr with
  | None => None
  | Some ip =>
      match To4 ip with
      | Some q => Some (V4prefix (take 3 q))
      | None => Some (V6prefix (take 8 ip))
      end
  end.

Example parse_ex1 : ParseIP "fd00:1::2" = Some [253; 0; 0; 1; 0; 0; 0; 0; 0; 0; 0; 0; 0; 0; 0; 2].
Proof. reflexivity. Qed.
Example parse_ex2 : ParseIP "127.0.0.01" = None.
Proof. reflexivity. Qed.
Example parse_ex3 : isV6 "::ffff:127.0.0.1" = false /\ isV6 "::1" = true /\ isV6 "" = false.
Proof. repeat split. Qed.
Example parse_ex4 : ParseIP "1:2:3:4:5:6:7:8" <> None /\ ParseIP "1:2:3:4:5:6:7::" <> None /\
  ParseIP "1:2:3:4:5:6:7:8:9" = None /\ ParseIP "1::2::3" = None.
Proof. repeat split; discriminate. Qed.

(** ** Lemmas *)

Lemma in_set_lacks cs s : Forall (fun c => lacks c s) cs -> any_byte (in_set cs) s = false.
Proof.
  intros H. induction s as [|a s IH]; [done|]. simpl. apply orb_false_iff. split.
  - apply not_true_is_false. unfold in_set. intros (c & Hc & E)%existsb_exists.
    apply list_elem_of_In in Hc. rewrite Forall_forall in H. apply H in Hc.
    apply lacks_cons in Hc as [Hc _]. apply Ascii.eqb_eq in E. congruence.
  - apply IH. eapply Forall_impl; [exact H|]. intros c Hc%lacks_cons. tauto.
Qed.

Lemma index_byte_app c s t : lacks c s -> index_byte c (s +:+ String c t) = Some (String.length s).
Proof.
  induction s as [|a s IH]; intros Hl; simpl; [by rewrite Ascii.eqb_refl|].
  apply lacks_cons in Hl as [Ha Hs]. rewrite IH by done. by apply Ascii.eqb_neq in Ha as ->.
Qed.

Lemma split_join_host host port :
  host <> "" -> lacks "["%char host -> lacks "]"%char host ->
  lacks ":"%char port -> lacks "["%char port -> lacks "]"%char port ->
  SplitHostPort (JoinHostPort host port) = Some (host, port).
Proof.
  intros Hh H1 H2 H3 H4 H5. unfold JoinHostPort.
  destruct (any_byte (Ascii.eqb ":") host) eqn:E; unfold SplitHostPort.
  - change ("[" +:+ host +:+ "]:" +:+ port) with (String "[" (host +:+ String "]" (String ":" port))).
    replace (String "[" (host +:+ String "]" (String ":" port)))
      with ((String "[" host +:+ "]") +:+ String ":" port) by (by rewrite str_app_assoc).
    rewrite last_index_byte_app, str_drop_past by done. rewrite str_app_assoc. simpl.
    rewrite index_byte_app by done. rewrite (str_length_app host).
    replace (String.length host + 2)%nat with (S (String.length host + String.length "]"))
      by (simpl; lia).
    rewrite Nat.eqb_refl. simpl.
    rewrite str_take_app.
    rewrite !in_set_lacks by (repeat constructor; done). done.
  - change (host +:+ ":" +:+ port) with (host +:+ String ":" port).
    rewrite last_index_byte_app, str_drop_past by done.
    rewrite str_take_app, E.
    rewrite in_set_lacks by (repeat constructor; apply lacks_app; by split).
    destruct host as [|a host]; [done|]. simpl.
    apply lacks_cons in H1 as [H1 _]. destruct a as [[] [] [] [] [] [] [] []]; try done.
Qed.
