(* ===== verification/RrlArms.v ===== *)
(** * [bench/cmd/rrlexp]: the arms of the experiment

    What one arm is -- a server setting and two clients -- and every arm the
    harness runs, from [main.go], [arms_readers.go] and [arms_upstream.go].  A
    Go composite literal is the list of the fields it sets over the zero value
    ([client], [arm_lit]).  The flags the arms read are the record [flags].
    [unusable] and [runMatrix] take what the machine answers as arguments: which
    addresses can be bound, and what running an arm gives. *)

From S2P Require Import Prelude GoStrings GoFloat NetAddr DnsWire RrlMock.

(** ** Clients *)

Record clientSpec : Type := mkClient {
  src : string;
  transport : string;
  rate : Z;
  sockets : Z;
  inflight : Z;
  qmode : string;
  idle : bool;
  redial : bool;
  handshake : bool
}.

#[export] Instance clientSpec_eq_dec : EqDecision clientSpec.
Proof. solve_decision. Defined.

Inductive clientField : Type :=
  | Src (s : string) | Transport (s : string) | Rate (n : Z) | Sockets (n : Z) | Inflight (n : Z)
  | Qmode (s : string) | Idle (b : bool) | Redial (b : bool) | Handshake (b : bool).

Definition client0 : clientSpec := mkClient "" "" 0 0 0 "" false false false.

Definition set_client (c : clientSpec) (x : clientField) : clientSpec :=
  let '(mkClient a t r n i q id re h) := c in
  match x with
  | Src v => mkClient v t r n i q id re h
  | Transport v => mkClient a v r n i q id re h
  | Rate v => mkClient a t v n i q id re h
  | Sockets v => mkClient a t r v i q id re h
  | Inflight v => mkClient a t r n v q id re h
  | Qmode v => mkClient a t r n i v id re h
  | Idle v => mkClient a t r n i q v re h
  | Redial v => mkClient a t r n i q id v h
  | Handshake v => mkClient a t r n i q id re v
  end.

Definition client (fs : list clientField) : clientSpec := fold_left set_client fs client0.

(** [clientSpec.name]. *)
Definition name (c : clientSpec) (idx seq : Z) (tag : string) : string :=
  if String.eqb (qmode c) "fixed" then "cached." +:+ tag +:+ ".rrl.test"
  else "q" +:+ itoa idx +:+ "-" +:+ itoa seq +:+ "." +:+ tag +:+ ".rrl.test".

(** [withSrc] and [withSrcP]: a copy from another address. *)
Definition withSrc (c : clientSpec) (a : string) : clientSpec := set_client c (Src a).

Definition isDoH (c : clientSpec) : bool :=
  String.eqb (transport c) "doh1" || String.eqb (transport c) "doh2".

Definition onOff (b : bool) : string := if b then "on" else "off".

(** ** Arms *)

Record failSpec : Type := mkFail {
  f_mode : mock_mode;
  f_strategy : string;
  f_alone : bool;
  f_stale : bool;
  f_ttl : Z
}.

Record arm : Type := mkArm {
  arm_name : string;
  question : string;
  limiter : bool;
  rps : Z;
  slip : Z;
  maxConns : Z;
  perPrefix : Z;
  clientTimeout : duration;
  maxPending : Z;
  listen_addr : string;
  arm_dur : duration;
  arm_sample : duration;
  readers : Z;
  cacheEntries : Z;
  fail_spec : option failSpec;
  attacker : option clientSpec;
  victim : clientSpec
}.

Inductive armField : Type :=
  | Name (s : string) | Asks (s : string) | Limiter (b : bool) | Rps (n : Z) | Slip (n : Z)
  | MaxConns (n : Z) | PerPrefix (n : Z) | ClientTimeout (d : duration) | MaxPending (n : Z)
  | Listen (s : string) | Dur (d : duration) | SampleEvery (d : duration) | Readers (n : Z)
  | CacheEntries (n : Z) | FailBy (x : failSpec) | Attacker (c : clientSpec) | Victim (c : clientSpec).

Definition arm0 : arm := mkArm "" "" false 0 0 0 0 0 0 "" 0 0 0 0 None None client0.

Definition set_arm (a : arm) (x : armField) : arm :=
  let '(mkArm n q l rp sl mc pp ct mp li du sa re ca fa at_ vi) := a in
  match x with
  | Name v => mkArm v q l rp sl mc pp ct mp li du sa re ca fa at_ vi
  | Asks v => mkArm n v l rp sl mc pp ct mp li du sa re ca fa at_ vi
  | Limiter v => mkArm n q v rp sl mc pp ct mp li du sa re ca fa at_ vi
  | Rps v => mkArm n q l v sl mc pp ct mp li du sa re ca fa at_ vi
  | Slip v => mkArm n q l rp v mc pp ct mp li du sa re ca fa at_ vi
  | MaxConns v => mkArm n q l rp sl v pp ct mp li du sa re ca fa at_ vi
  | PerPrefix v => mkArm n q l rp sl mc v ct mp li du sa re ca fa at_ vi
  | ClientTimeout v => mkArm n q l rp sl mc pp v mp li du sa re ca fa at_ vi
  | MaxPending v => mkArm n q l rp sl mc pp ct v li du sa re ca fa at_ vi
  | Listen v => mkArm n q l rp sl mc pp ct mp v du sa re ca fa at_ vi
  | Dur v => mkArm n q l rp sl mc pp ct mp li v sa re ca fa at_ vi
  | SampleEvery v => mkArm n q l rp sl mc pp ct mp li du v re ca fa at_ vi
  | Readers v => mkArm n q l rp sl mc pp ct mp li du sa v ca fa at_ vi
  | CacheEntries v => mkArm n q l rp sl mc pp ct mp li du sa re v fa at_ vi
  | FailBy v => mkArm n q l rp sl mc pp ct mp li du sa re ca (Some v) at_ vi
  | Attacker v => mkArm n q l rp sl mc pp ct mp li du sa re ca fa (Some v) vi
  | Victim v => mkArm n q l rp sl mc pp ct mp li du sa re ca fa at_ v
  end.

Definition arm_lit (fs : list armField) : arm := fold_left set_arm fs arm0.

(** ** The flags the arms and the configuration read *)

Record flags : Type := mkFlags {
  duration_ : duration;
  warmup : duration;
  floodRate : Z;
  victimRate : Z;
  rps_ : Z;
  slip_ : Z;
  answerRecords : Z;
  upDelay : duration;
  workers : Z;
  only : string;
  serverCPUs : string;
  logLevel : string;
  logQueries : bool;
  soak : duration;
  soakSample : duration
}.

Definition default_flags : flags := {|
  duration_ := 8 * second; warmup := 1 * second; floodRate := 20000; victimRate := 50;
  rps_ := 500; slip_ := 2; answerRecords := 70; upDelay := 20 * millisecond; workers := 64;
  only := ""; serverCPUs := ""; logLevel := "info"; logQueries := false;
  soak := 0; soakSample := 30 * second |}.

(** ** The arms *)

Definition baselineArms (f : flags) : list arm :=
  let victimUDP := client [Transport "udp"; Rate (victimRate f); Sockets 1] in
  [arm_lit [Name "quiet-baseline";
     Asks "what a victim's queries cost when nobody else is here"; Limiter true; Rps (rps_ f);
     Slip (slip_ f);
     Victim (withSrc victimUDP "127.9.0.1")];
   arm_lit [Name "quiet-baseline/tcp";
     Asks "what a victim's queries cost over TCP with nobody else here, which is what the TCP arms below compare against";
     Limiter true; Rps (rps_ f); Slip (slip_ f);
     Victim (client [Src "127.9.0.1"; Transport "tcp"; Rate (victimRate f); Sockets 1])]].

Definition prefixArms (f : flags) : list arm :=
  let flood := client [Transport "udp"; Rate (floodRate f); Sockets 4] in
  let victimUDP := client [Transport "udp"; Rate (victimRate f); Sockets 1] in
  [arm_lit [Name "other-prefix/limiter-on";
     Asks "does a flood from another /24 reach a victim's answers"; Limiter true; Rps (rps_ f);
     Slip (slip_ f);
     Attacker (withSrc flood "127.0.0.1");
     Victim (withSrc victimUDP "127.1.0.1")];
   arm_lit [Name "other-prefix/limiter-off";
     Asks "the same flood with no limiter, which is the control"; Limiter false;
     Attacker (withSrc flood "127.0.0.1");
     Victim (withSrc victimUDP "127.1.0.1")];
   arm_lit [Name "same-prefix/limiter-on";
     Asks "a victim inside the flooded /24, where the budget is shared by design"; Limiter true;
     Rps (rps_ f); Slip (slip_ f);
     Attacker (withSrc flood "127.0.0.2");
     Victim (withSrc victimUDP "127.0.0.3")];
   arm_lit [Name "same-prefix/limiter-off";
     Asks "the same, with no limiter"; Limiter false;
     Attacker (withSrc flood "127.0.0.2");
     Victim (withSrc victimUDP "127.0.0.3")]].

Definition transportArms (f : flags) : list arm :=
  let flood := client [Transport "udp"; Rate (floodRate f); Sockets 4] in
  let victimUDP := client [Transport "udp"; Rate (victimRate f); Sockets 1] in
  [arm_lit [Name "same-prefix/victim-on-tcp";
     Asks "the slip's invitation: the victim retries over TCP, which is the other pool";
     Limiter true; Rps (rps_ f); Slip (slip_ f);
     Attacker (withSrc flood "127.0.0.2");
     Victim (client [Src "127.0.0.3"; Transport "tcp"; Rate (victimRate f); Sockets 1])];
   arm_lit [Name "same-prefix/victim-on-tcp/limiter-off";
     Asks "the same victim on TCP with no limiter, which is what makes the row above the limiter's doing";
     Limiter false;
     Attacker (withSrc flood "127.0.0.2");
     Victim (client [Src "127.0.0.3"; Transport "tcp"; Rate (victimRate f); Sockets 1])];
   arm_lit [Name "same-prefix/tcp-flood-udp-victim";
     Asks "the separation the other way round: a pipelined TCP flood against a UDP victim";
     Limiter true; Rps (rps_ f); Slip (slip_ f);
     Attacker (client [Src "127.0.0.2"; Transport "tcp"; Rate (floodRate f); Sockets 8]);
     Victim (withSrc victimUDP "127.0.0.3")];
   arm_lit [Name "same-prefix/tcp-flood-64-conns";
     Asks "a TCP flood with enough connections to actually reach the stream budget";
     Limiter true; Rps (rps_ f); Slip (slip_ f);
     Attacker (client [Src "127.0.0.2"; Transport "tcp"; Rate 0; Sockets 64]);
     Victim (withSrc victimUDP "127.0.0.3")]].

Definition dohArms (f : flags) : list arm :=
  let victimUDP := client [Transport "udp"; Rate (victimRate f); Sockets 1] in
  let h2flood := client [Transport "doh2"; Rate 0; Sockets 1; Inflight 64] in
  [arm_lit [Name "doh2/one-connection-flood";
     Asks "can one multiplexed connection reach the stream budget, where eight pipelined TCP ones could not";
     Limiter true; Rps (rps_ f); Slip (slip_ f);
     Attacker (withSrc h2flood "127.0.0.2");
     Victim (withSrc victimUDP "127.0.0.3")];
   arm_lit [Name "doh2/flood-vs-doh-victim";
     Asks "a DoH victim inside the flooded /24, where both clients spend the same stream budget";
     Limiter true; Rps (rps_ f); Slip (slip_ f);
     Attacker (withSrc h2flood "127.0.0.2");
     Victim (client [Src "127.0.0.3"; Transport "doh2"; Rate (victimRate f); Sockets 1; Inflight 4])];
   arm_lit [Name "doh2/flood-vs-doh-victim-other-prefix";
     Asks "and a DoH victim outside it, which is whether the stream budget's prefix is a boundary too";
     Limiter true; Rps (rps_ f); Slip (slip_ f);
     Attacker (withSrc h2flood "127.0.0.2");
     Victim (client [Src "127.1.0.1"; Transport "doh2"; Rate (victimRate f); Sockets 1; Inflight 4])];
   arm_lit [Name "doh2/flood-vs-other-prefix";
     Asks "what the 429-and-stay-open refusal costs a client in another /24"; Limiter true;
     Rps (rps_ f); Slip (slip_ f);
     Attacker (withSrc h2flood "127.0.0.1");
     Victim (withSrc victimUDP "127.1.0.1")];
   arm_lit [Name "doh2/flood-vs-other-prefix/limiter-off";
     Asks "the same flood with no limiter, which is what makes the row above the limiter's doing";
     Limiter false;
     Attacker (withSrc h2flood "127.0.0.1");
     Victim (withSrc victimUDP "127.1.0.1")];
   arm_lit [Name "doh1/flood-reconnects";
     Asks "what an over-budget HTTP/1.1 client costs, and whether a refusal still costs a handshake";
     Limiter true; Rps (rps_ f); Slip (slip_ f);
     Attacker (client [Src "127.0.0.2"; Transport "doh1"; Rate 0; Sockets 64; Inflight 64]);
     Victim (withSrc victimUDP "127.0.0.3")]].

Definition connectionArms (f : flags) : list arm :=
  let table := 64 in
  let share := 32 in
  let slowloris := client [Transport "tcp"; Sockets (table + 32); Idle true] in
  let victim := client [Src "127.1.0.1"; Transport "tcp"; Rate (victimRate f); Sockets 1; Redial true] in
  [arm_lit [Name "slowloris/no-share";
     Asks "what one client holding idle connections does to a client in another /24 when nothing bounds its share";
     Limiter true; Rps (rps_ f); Slip (slip_ f); MaxConns table; PerPrefix table;
     ClientTimeout minute;
     Attacker (withSrc slowloris "127.0.0.2");
     Victim victim];
   arm_lit [Name "slowloris/share";
     Asks "the same load with a share of half the table, which is the shipped default in miniature";
     Limiter true; Rps (rps_ f); Slip (slip_ f); MaxConns table; PerPrefix share;
     ClientTimeout minute;
     Attacker (withSrc slowloris "127.0.0.2");
     Victim victim];
   arm_lit [Name "slowloris/share-costs-a-normal-client-nothing";
     Asks "whether a share that bounds a holder is felt by a client holding one connection";
     Limiter true; Rps (rps_ f); Slip (slip_ f); MaxConns table; PerPrefix share;
     ClientTimeout minute;
     Attacker (client [Src "127.0.0.2"; Transport "udp"; Rate (floodRate f); Sockets 4]);
     Victim victim]].

Definition volumeArms (f : flags) : list arm :=
  let flood := client [Transport "udp"; Rate (floodRate f); Sockets 4] in
  let victimUDP := client [Transport "udp"; Rate (victimRate f); Sockets 1] in
  [arm_lit [Name "cached-flood/limiter-off";
     Asks "the reflection an unlimited resolver delivers when the flood asks a name it already has";
     Limiter false;
     Attacker (client [Src "127.0.0.1"; Transport "udp"; Rate 0; Sockets 4; Qmode "fixed"]);
     Victim (withSrc victimUDP "127.1.0.1")];
   arm_lit [Name "cached-flood/limiter-on";
     Asks "the same flood against the shipped default, which is the bound the feature exists to put on it";
     Limiter true; Rps (rps_ f); Slip (slip_ f);
     Attacker (client [Src "127.0.0.1"; Transport "udp"; Rate 0; Sockets 4; Qmode "fixed"]);
     Victim (withSrc victimUDP "127.1.0.1")];
   arm_lit [Name "cached-flood/slip-0";
     Asks "what the reflected volume becomes with the slip turned off"; Limiter true;
     Rps (rps_ f); Slip 0;
     Attacker (client [Src "127.0.0.1"; Transport "udp"; Rate 0; Sockets 4; Qmode "fixed"]);
     Victim (withSrc victimUDP "127.1.0.1")];
   arm_lit [Name "same-prefix/slip-0";
     Asks "what a bystander in the flooded /24 loses when the slip is off"; Limiter true;
     Rps (rps_ f); Slip 0;
     Attacker (withSrc flood "127.0.0.2");
     Victim (withSrc victimUDP "127.0.0.3")];
   arm_lit [Name "other-prefix/flat-out";
     Asks "the same isolation when the flood is not throttled at all"; Limiter true;
     Rps (rps_ f); Slip (slip_ f);
     Attacker (client [Src "127.0.0.1"; Transport "udp"; Rate 0; Sockets 4]);
     Victim (withSrc victimUDP "127.1.0.1")]].

(** The handshake floods. *)
Definition hsDialers : Z := 32.
Definition hsTable : Z := 64.
Definition hsShare : Z := 32.

Definition handshakeVictim (f : flags) : clientSpec :=
  client [Src "127.1.0.1"; Transport "dot"; Rate (victimRate f); Sockets 1].

Definition arrivingVictim (f : flags) : clientSpec :=
  client [Src "127.1.0.1"; Transport "tcp"; Rate (victimRate f); Sockets 1; Redial true].

Definition handshakeFlood (a t : string) (n : Z) : clientSpec :=
  client [Src a; Transport t; Sockets n; Handshake true].

Definition handshakeDefaultArms (f : flags) : list arm :=
  let victimDoT := handshakeVictim f in
  [arm_lit [Name "handshake-flood/quiet-baseline-dot";
     Asks "what a DoT victim's queries cost with the server to itself, which is what the handshake arms compare against";
     Limiter true; Rps (rps_ f); Slip (slip_ f);
     Victim victimDoT];
   arm_lit [Name "handshake-flood/dot";
     Asks "what a client doing only DoT handshakes does to a DoT client in another /24";
     Limiter true; Rps (rps_ f); Slip (slip_ f);
     Attacker (handshakeFlood "127.0.0.2" "dot" hsDialers);
     Victim victimDoT];
   arm_lit [Name "handshake-flood/dot/same-prefix";
     Asks "the same flood with the victim inside its /24, where they share a connection share as well as a budget";
     Limiter true; Rps (rps_ f); Slip (slip_ f);
     Attacker (handshakeFlood "127.0.0.2" "dot" hsDialers);
     Victim (withSrc victimDoT "127.0.0.3")];
   arm_lit [Name "handshake-flood/doh";
     Asks "the same load against the DoH listener, which accepts a connection by its own code - the flood closes before any h2 frame, so this is the handshake alone";
     Limiter true; Rps (rps_ f); Slip (slip_ f);
     Attacker (handshakeFlood "127.0.0.2" "doh2" hsDialers);
     Victim victimDoT];
   arm_lit [Name "handshake-flood/arriving-client";
     Asks "whether a client turning up mid-flood can get a connection and an answer";
     Limiter true; Rps (rps_ f); Slip (slip_ f);
     Attacker (handshakeFlood "127.0.0.2" "dot" hsDialers);
     Victim (arrivingVictim f)];
   arm_lit [Name "handshake-flood/udp-bystander";
     Asks "what a flood held to its arrival budget - and therefore dialling far faster - does to a UDP client in another /24";
     Limiter true; Rps (rps_ f); Slip (slip_ f);
     Attacker (handshakeFlood "127.0.0.2" "dot" hsDialers);
     Victim (client [Src "127.1.0.1"; Transport "udp"; Rate (victimRate f); Sockets 1])];
   arm_lit [Name "handshake-flood/quiet-baseline-udp";
     Asks "what that UDP client's queries cost with nobody else here"; Limiter true;
     Rps (rps_ f); Slip (slip_ f);
     Victim (client [Src "127.1.0.1"; Transport "udp"; Rate (victimRate f); Sockets 1])]].

Definition handshakeShareArms (f : flags) : list arm :=
  [arm_lit [Name "handshake-flood/no-share";
     Asks "a flood with as many workers as the table has slots, and nothing bounding its share of them";
     Limiter true; Rps (rps_ f); Slip (slip_ f); MaxConns hsTable; PerPrefix hsTable;
     ClientTimeout minute;
     Attacker (handshakeFlood "127.0.0.2" "dot" hsTable);
     Victim (arrivingVictim f)];
   arm_lit [Name "handshake-flood/share";
     Asks "the same load held to half the table, which is what the share does and does not do about handshakes";
     Limiter true; Rps (rps_ f); Slip (slip_ f); MaxConns hsTable; PerPrefix hsShare;
     ClientTimeout minute;
     Attacker (handshakeFlood "127.0.0.2" "dot" hsTable);
     Victim (arrivingVictim f)]].

Definition handshakeArms (f : flags) : list arm :=
  handshakeDefaultArms f ++ handshakeShareArms f.

Definition v6Listen : string := "::1".
Definition v6FloodSrc : string := "fd00:1::2".
Definition v6SameSrc : string := "fd00:1::3".
Definition v6OtherSrc : string := "fd00:2::1".

Definition v6Arms (f : flags) : list arm :=
  let flood := client [Transport "udp"; Rate (floodRate f); Sockets 4] in
  let victim := client [Transport "udp"; Rate (victimRate f); Sockets 1] in
  [arm_lit [Name "v6/other-prefix/limiter-on";
     Asks "does a flood from another /64 reach a victim's answers"; Limiter true; Rps (rps_ f);
     Slip (slip_ f); Listen v6Listen;
     Attacker (withSrc flood v6FloodSrc);
     Victim (withSrc victim v6OtherSrc)];
   arm_lit [Name "v6/other-prefix/limiter-off";
     Asks "the same flood with no limiter, which is the control"; Limiter false;
     Listen v6Listen;
     Attacker (withSrc flood v6FloodSrc);
     Victim (withSrc victim v6OtherSrc)];
   arm_lit [Name "v6/same-prefix/limiter-on";
     Asks "a victim inside the flooded /64, where the budget is shared by design"; Limiter true;
     Rps (rps_ f); Slip (slip_ f); Listen v6Listen;
     Attacker (withSrc flood v6FloodSrc);
     Victim (withSrc victim v6SameSrc)]].

Definition soakArms (f : flags) : list arm :=
  [arm_lit [Name "soak/other-prefix";
     Asks "what an hour of flooding does to the memory, the cache and the connection table around a limiter that is holding";
     Limiter true; Rps (rps_ f); Slip (slip_ f); Dur (soak f); SampleEvery (soakSample f);
     CacheEntries 10000; MaxConns 512; PerPrefix 256; ClientTimeout (10 * second);
     Attacker (client [Src "127.0.0.2"; Transport "udp"; Rate (floodRate f); Sockets 4]);
     Victim (client [Src "127.1.0.1"; Transport "tcp"; Rate (victimRate f); Sockets 1; Redial true])]].

Definition readerArms (f : flags) : list arm :=
  let flood := client [Src "127.0.0.1"; Transport "udp"; Rate 0; Sockets 4] in
  let victim := client [Src "127.1.0.1"; Transport "udp"; Rate (victimRate f); Sockets 1] in
  [arm_lit [Name "readers/one";
     Asks "what a bystander loses when one thread has to read every datagram"; Limiter true;
     Rps (rps_ f); Slip (slip_ f); Readers 1;
     Attacker flood;
     Victim victim];
   arm_lit [Name "readers/two";
     Asks "the same flood with a second reader, on a server pinned to two CPUs"; Limiter true;
     Rps (rps_ f); Slip (slip_ f); Readers 2;
     Attacker flood;
     Victim victim];
   arm_lit [Name "readers/four";
     Asks "and with more readers than the server has CPUs, which is where they contend";
     Limiter true; Rps (rps_ f); Slip (slip_ f); Readers 4;
     Attacker flood;
     Victim victim]].

(** [arms_upstream.go]. *)
Definition failBefore : duration := 3 * second.
Definition failFor : duration := 15 * second.
Definition failArm : duration := failBefore + failFor + 12 * second.
Definition failMissRate : Z := 200.

Definition fail_modes : list (string * mock_mode) :=
  [("blackhole", mockBlackhole); ("refused", mockRefused)].

Definition upstreamFailArms (f : flags) : list arm :=
  let misses := client [Src "127.0.0.2"; Transport "udp"; Rate failMissRate; Sockets 1] in
  let victim := client [Src "127.1.0.1"; Transport "udp"; Rate (victimRate f); Sockets 1; Qmode "fixed"] in
  (m ← fail_modes;
   strategy ← ["failover"; "round-robin"; "race"];
   [arm_lit [Name ("upstream-fail/" +:+ fst m +:+ "/" +:+ strategy);
     Asks ("what clients see while the first of two upstreams is " +:+ fst m +:+ ", under " +:+ strategy);
     Dur failArm; SampleEvery second;
     FailBy {| f_mode := snd m; f_strategy := strategy; f_alone := false; f_stale := false; f_ttl := 300 |};
     Attacker misses; Victim victim]]) ++
  (m ← fail_modes;
   stale ← [false; true];
   [arm_lit [Name ("upstream-fail/" +:+ fst m +:+ "/only-upstream/stale-" +:+ onOff stale);
     Asks ("the only upstream " +:+ fst m +:+ ", with answers expiring during it and serve_stale " +:+ onOff stale);
     Dur failArm; SampleEvery second;
     FailBy {| f_mode := snd m; f_strategy := "failover"; f_alone := true; f_stale := stale; f_ttl := 2 |};
     Attacker misses; Victim victim]]) ++
  [arm_lit [Name "upstream-fail/blackhole/only-upstream/pending-full";
     Asks "whether cache hits are turned away once misses held by a blackhole fill server.max_pending (pinned to 256)";
     Dur failArm; SampleEvery second; MaxPending 256;
     FailBy {| f_mode := mockBlackhole; f_strategy := "failover"; f_alone := true; f_stale := false; f_ttl := 300 |};
     Attacker misses; Victim victim]].

(** The arms in the order they run, and the soak in their place. *)
Definition matrix_arms (f : flags) : list arm :=
  baselineArms f ++ prefixArms f ++ transportArms f ++ volumeArms f ++ dohArms f ++
  connectionArms f ++ handshakeArms f ++ readerArms f ++ v6Arms f ++ upstreamFailArms f.

Definition matrix (f : flags) : list arm :=
  if 0 <? soak f then soakArms f else matrix_arms f.

(** ** Running them *)

Definition armDuration (f : flags) (a : arm) : duration :=
  if 0 <? arm_dur a then arm_dur a else duration_ f.

Definition armListen (a : arm) : string :=
  if String.eqb (listen_addr a) "" then "127.0.0.1" else listen_addr a.

Definition probeSrcFor (l : string) : string := if isV6 l then "::1" else "127.8.0.1".

Definition bindHint (addr : string) : string :=
  if negb (isV6 addr) then "no local address"
  else "sudo ip -6 addr add " +:+ addr +:+ "/128 dev lo".

Definition needed (a : arm) : list string :=
  [armListen a; src (victim a)] ++
  match attacker a with Some c => [src c] | None => [] end.

Section machine.
(** Whether a socket can be opened on an address. *)
Variable bindable : string -> bool.

Fixpoint unusable_in (addrs : list string) : string :=
  match addrs with
  | [] => ""
  | addr :: rest =>
      if String.eqb addr "" || bindable addr then unusable_in rest
      else "this machine cannot send from " +:+ addr +:+ " (" +:+ bindHint addr +:+ ")"
  end.

Definition unusable (a : arm) : string := unusable_in (needed a).

Record skip : Type := mkSkip { skip_name : string; why : string }.

(** What running one arm gives; an error ends the run. *)
Context {row : Type} (runArm : arm -> result string row).

Fixpoint runMatrix (f : flags) (arms : list arm) : result string (list row * list skip) :=
  match arms with
  | [] => Ok ([], [])
  | a :: rest =>
      if negb (String.eqb (only f) "") && negb (contains (only f) (arm_name a)) then
        runMatrix f rest
      else
        let w := unusable a in
        if negb (String.eqb w "") then
          let? (rows, skips) := runMatrix f rest in
          Ok (rows, {| skip_name := arm_name a; why := w |} :: skips)
        else
          match runArm a with
          | Err e => Err (arm_name a +:+ ": " +:+ e)
          | Ok r => let? (rows, skips) := runMatrix f rest in Ok (r :: rows, skips)
          end
  end.
End machine.

(** ** The matrix as a whole *)

(** The name of an arm's log and configuration files: [startServer]'s
    [strings.NewReplacer("/", "-")]. *)
Definition file_stem (a : arm) : string := replace_byte "/" "-" (arm_name a).

Example matrix_size : length (matrix_arms default_flags) = 50%nat.
Proof. reflexivity. Qed.

Lemma stems_nodup f : NoDup (map file_stem (matrix_arms f)).
Proof.
  assert (bool_decide (NoDup (map file_stem (matrix_arms f))) = true) as H by (vm_compute; reflexivity).
  by apply bool_decide_eq_true in H.
Qed.

(** Whatever the flags, no two arms of a run share a name, nor the log and
    configuration file named after it. *)
Theorem matrix_files_distinct (f : flags) :
  NoDup (map file_stem (matrix f)) /\ NoDup (map arm_name (matrix f)).
Proof.
  assert (NoDup (map file_stem (matrix f))) as H.
  { unfold matrix. case_match; [|apply stems_nodup].
    apply NoDup_singleton. }
  split; [done|]. apply (NoDup_fmap_1 (replace_byte "/" "-")).
  change (NoDup (map (replace_byte "/" "-") (map arm_name (matrix f)))).
  rewrite map_map. exact H.
Qed.

(** The same load: everything but the limiter's own settings and the words. *)
Definition same_load (a b : arm) : Prop :=
  attacker a = attacker b /\ victim a = victim b /\ listen_addr a = listen_addr b /\
  maxConns a = maxConns b /\ perPrefix a = perPrefix b /\ clientTimeout a = clientTimeout b /\
  maxPending a = maxPending b /\ readers a = readers b /\ cacheEntries a = cacheEntries b /\
  fail_spec a = fail_spec b /\ arm_dur a = arm_dur b /\ arm_sample a = arm_sample b.

(** The arms of an outage all run with the limiter off. *)
Definition outage_unlimited (a : arm) : bool :=
  match fail_spec a with Some _ => negb (limiter a) | None => true end.

Lemma outage_arms_unlimited f b s : b ∈ matrix_arms f -> fail_spec b = Some s -> limiter b = false.
Proof.
  intros Hb Hs. assert (forallb outage_unlimited (matrix_arms f) = true) as H by (vm_compute; reflexivity).
  rewrite forallb_forall in H. apply list_elem_of_In, H in Hb. unfold outage_unlimited in Hb. rewrite Hs in Hb.
  by apply negb_true_iff in Hb.
Qed.

(** C25. Every arm with the limiter off that has no failing upstream stands next
    to an arm with the limiter on, at the flags' budget, under exactly the same
    load: the pair differs in the limiter alone.  The other limiter-off arms, those
    of an upstream outage, have no such neighbour: no arm with an outage runs with
    the limiter on, so none under their load does. *)
Theorem control_pairs (f : flags) i a :
  matrix_arms f !! i = Some a -> limiter a = false ->
  match fail_spec a with
  | None => exists j b, (j = S i \/ i = S j) /\ matrix_arms f !! j = Some b /\
      limiter b = true /\ rps b = rps_ f /\ slip b = slip_ f /\ same_load a b
  | Some _ => forall b, b ∈ matrix_arms f -> same_load a b -> limiter b = false
  end.
Proof.
  intros Ha Hl. destruct (fail_spec a) as [s|] eqn:Hf.
  { intros b Hb (_ & _ & _ & _ & _ & _ & _ & _ & _ & Hs & _). apply (outage_arms_unlimited f b s Hb). congruence. }
  do 50 (destruct i as [|i]; [vm_compute in Ha; injection Ha as <-; first [discriminate Hl | discriminate Hf |
    match goal with |- exists j b, (j = S ?i \/ ?i = S j) /\ _ =>
      first [exists (S i); eexists; split; [by left|]; split; [vm_compute; reflexivity|];
             split_and!; try done; split_and!; done
            |exists (pred i); eexists; split; [by right|]; split; [vm_compute; reflexivity|];
             split_and!; try done; split_and!; done] end]|]).
  vm_compute in Ha. discriminate.
Qed.

Lemma control_pairs_witness :
  (exists a j b, matrix_arms default_flags !! 3%nat = Some a /\ limiter a = false /\
     matrix_arms default_flags !! j = Some b /\ limiter b = true /\ same_load a b) /\
  (exists a, matrix_arms default_flags !! 49%nat = Some a /\ is_Some (fail_spec a) /\
     forall b, b ∈ matrix_arms default_flags -> same_load a b -> limiter b = false).
Proof.
  split.
  - eexists. destruct (control_pairs default_flags 3 _ ltac:(vm_compute; reflexivity) eq_refl)
      as (j & b & _ & Hb & Hl & _ & _ & Hs).
    exists j, b. split_and!; [vm_compute; reflexivity|reflexivity|exact Hb|exact Hl|exact Hs].
  - eexists. split; [vm_compute; reflexivity|]. split; [by eexists|].
    exact (control_pairs default_flags 49 _ ltac:(vm_compute; reflexivity) eq_refl).
Defined.

(** Not every arm has such a control: the pipelined TCP flood against a UDP
    victim runs with the limiter on, and no arm of the matrix runs the same
    load with it off. *)
Theorem arm_without_control (f : flags) :
  exists a, a ∈ matrix_arms f /\ limiter a = true /\ attacker a <> None /\
    forall b, b ∈ matrix_arms f -> same_load a b -> limiter b = true.
Proof.
  set (c := client [Src "127.0.0.2"; Transport "tcp"; Rate (floodRate f); Sockets 8]).
  exists (nth 8 (matrix_arms f) arm0). split_and!.
  - apply list_elem_of_lookup. exists 8%nat. reflexivity.
  - reflexivity.
  - discriminate.
  - assert (Forall (fun b => attacker b = Some c -> limiter b = true) (matrix_arms f)) as H.
    { vm_compute. repeat (apply Forall_cons; split; [intros H; first [reflexivity|discriminate H]|]).
      by apply Forall_nil. }
    intros b Hb (Ha & _). rewrite Forall_forall in H. by apply H.
Qed.

(** ** Addresses *)

(** The listener and the clients of an arm are of one family, and the readiness
    probe asks from a prefix neither client is in. *)
Definition addresses_ok (a : arm) : bool :=
  let l := armListen a in
  let p := prefix_of (probeSrcFor l) in
  bool_decide (prefix_of l <> None) && bool_decide (p <> None) &&
  Bool.eqb (isV6 (probeSrcFor l)) (isV6 l) &&
  forallb (fun c => Bool.eqb (isV6 (src c)) (isV6 l) &&
                    bool_decide (prefix_of (src c) <> None) &&
                    bool_decide (prefix_of (src c) <> p))
    (victim a :: match attacker a with Some c => [c] | None => [] end).

(** What the name of an arm promises about its two clients. *)
Definition prefix_promise (a : arm) : bool :=
  match attacker a with
  | None => true
  | Some c =>
      let same := bool_decide (prefix_of (src c) = prefix_of (src (victim a))) in
      implb (contains "same-prefix" (arm_name a)) (same && negb (String.eqb (src c) (src (victim a)))) &&
      implb (contains "other-prefix" (arm_name a)) (negb same)
  end.

(** In every arm, the soak included, the listener, the victim and the
    attacker are of one address family, the readiness probes spend the budget
    of neither client's prefix, and an arm named [same-prefix] has its two
    clients at two addresses of one /24 (or /64), one named [other-prefix] in
    different ones. *)
Theorem arms_addresses (f : flags) a :
  a ∈ matrix_arms f ++ soakArms f -> addresses_ok a = true /\ prefix_promise a = true.
Proof.
  intros Ha.
  assert (forallb (fun a => addresses_ok a && prefix_promise a) (matrix_arms f ++ soakArms f) = true) as H
    by (vm_compute; reflexivity).
  rewrite forallb_forall in H. apply list_elem_of_In, H in Ha. by apply andb_true_iff in Ha.
Qed.

Lemma arms_addresses_witness :
  exists a, arm_name a = "v6/same-prefix/limiter-on" /\ addresses_ok a = true /\ prefix_promise a = true.
Proof.
  exists (nth 38 (matrix_arms default_flags) arm0). split; [vm_compute; reflexivity|].
  apply (arms_addresses default_flags). apply list_elem_of_lookup. exists 38%nat. reflexivity.
Defined.

(** ** The names the clients ask *)

Lemma cut_inj c s t s' t' :
  lacks c s -> lacks c s' -> s +:+ String c t = s' +:+ String c t' -> s = s' /\ t = t'.
Proof.
  intros Hs Hs' E. apply (f_equal (cut c)) in E. rewrite !cut_lacks_app in E by done. by simplify_eq.
Qed.

(** A client in unique mode never asks the same name twice: its names
    differ for any two sockets or sequence numbers (sockets are numbered from
    zero, so the count is never read out of a sign), whatever the tag. *)
Theorem unique_names (c : clientSpec) idx seq idx' seq' tag :
  qmode c <> "fixed" -> 0 <= idx < 2 ^ 63 -> 0 <= idx' < 2 ^ 63 ->
  int64_range seq -> int64_range seq' ->
  name c idx seq tag = name c idx' seq' tag -> idx = idx' /\ seq = seq'.
Proof.
  intros Hq Hi Hi' Hs Hs' E. unfold name in E. apply String.eqb_neq in Hq. rewrite Hq in E.
  injection E as E.
  change (?a +:+ "-" +:+ ?b) with (a +:+ String "-" b) in E.
  apply cut_inj in E as [E1 E2]; [|by apply itoa_no_dash; lia..].
  change (?a +:+ "." +:+ ?b) with (a +:+ String "." b) in E2.
  apply cut_inj in E2 as [E2 _]; [|by apply itoa_lacks..].
  by apply itoa_inj in E1, E2.
Qed.

Lemma unique_names_witness :
  name client0 1 23 "vic" = name client0 1 23 "vic" /\ 23 = 23.
Proof.
  split; [reflexivity|].
  refine (proj2 (unique_names client0 1 23 1 23 "vic" _ _ _ _ _ _));
    [discriminate|lia|lia|unfold int64_range; lia|unfold int64_range; lia|reflexivity].
Defined.

(** ** What a run of the matrix reports *)

Definition selected (f : flags) (a : arm) : bool :=
  String.eqb (only f) "" || contains (only f) (arm_name a).

Section run_spec.
Variable bindable : string -> bool.
Context {row : Type} (runArm : arm -> result string row).

Lemma unusable_in_nil addrs :
  unusable_in bindable addrs = "" <-> Forall (fun a => a = "" \/ bindable a = true) addrs.
Proof.
  induction addrs as [|a addrs IH]; simpl; [by split|]. rewrite Forall_cons, <- IH.
  destruct (String.eqb_spec a "") as [->|Ha]; simpl; [naive_solver|].
  destruct (bindable a); [naive_solver|]. split; [discriminate|]. intros [[]]; done.
Qed.

Definition runs (a : arm) : bool := String.eqb (unusable bindable a) "".

Lemma runMatrix_cons f a rest :
  runMatrix bindable runArm f (a :: rest) =
    if selected f a then
      if runs a then
        match runArm a with
        | Err e => Err (arm_name a +:+ ": " +:+ e)
        | Ok r => let? (rows, skips) := runMatrix bindable runArm f rest in Ok (r :: rows, skips)
        end
      else
        let? (rows, skips) := runMatrix bindable runArm f rest in
        Ok (rows, {| skip_name := arm_name a; why := unusable bindable a |} :: skips)
    else runMatrix bindable runArm f rest.
Proof.
  cbn [runMatrix]. unfold selected, runs. destruct (String.eqb (only f) ""); simpl.
  - by destruct (String.eqb (unusable _ _) "").
  - destruct (contains _ _); simpl; [|done]. by destruct (String.eqb (unusable _ _) "").
Qed.

Lemma runMatrix_ok f arms rows skips :
  runMatrix bindable runArm f arms = Ok (rows, skips) ->
  Forall2 (fun a r => runArm a = Ok r) (List.filter runs (List.filter (selected f) arms)) rows /\
  skips = map (fun a => {| skip_name := arm_name a; why := unusable bindable a |})
            (List.filter (fun a => negb (runs a)) (List.filter (selected f) arms)).
Proof.
  revert rows skips. induction arms as [|a arms IH]; intros rows skips.
  - intros [= <- <-]. by split; [constructor|].
  - rewrite runMatrix_cons. simpl List.filter at 2 4. destruct (selected f a); [|apply IH]. simpl.
    destruct (runs a); simpl.
    + destruct (runArm a) eqn:Er; [|done].
      intros ([rs ss] & H & [= <- <-])%rbind_ok. destruct (IH _ _ H) as [H1 ->].
      split; [by constructor|done].
    + intros ([rs ss] & H & [= <- <-])%rbind_ok. destruct (IH _ _ H) as [H1 ->]. done.
Qed.

Lemma runMatrix_err f arms e :
  runMatrix bindable runArm f arms = Err e ->
  exists pre a post e', List.filter (selected f) arms = pre ++ a :: post /\
    unusable bindable a = "" /\ runArm a = Err e' /\ e = arm_name a +:+ ": " +:+ e' /\
    Forall (fun b => runs b = true -> is_ok (runArm b) = true) pre.
Proof.
  induction arms as [|a arms IH]; [done|].
  rewrite runMatrix_cons. simpl List.filter. destruct (selected f a); [|apply IH]. simpl.
  destruct (runs a) eqn:Eu.
  - destruct (runArm a) eqn:Er.
    + destruct (runMatrix _ _ _ _) as [[]|e0] eqn:Em; [done|]. intros [= ->].
      destruct IH as (pre & b & post & e' & -> & ? & ? & ? & ?); [done|].
      exists (a :: pre), b, post, e'. split_and!; try done. constructor; [by rewrite Er|done].
    + intros [= <-]. exists [], a, (List.filter (selected f) arms), e0. split_and!; try done.
      by apply String.eqb_eq.
  - destruct (runMatrix _ _ _ _) as [[]|e0] eqn:Em; [done|]. intros [= ->].
    destruct IH as (pre & b & post & e' & -> & ? & ? & ? & ?); [done|].
    exists (a :: pre), b, post, e'. split_and!; try done. constructor; [by rewrite Eu|done].
Qed.
End run_spec.

(** A run reports every selected arm exactly once and in order: a row, from
    running it, when every address it needs can be bound, and a skip that says
    which one cannot otherwise. A run ends in an error exactly when an arm that
    could run failed, named in the error, every runnable arm before it having
    run. *)
Theorem runMatrix_partition bindable {row : Type} (runArm : arm -> result string row) f arms :
  (forall a, unusable bindable a = "" <-> Forall (fun x => x = "" \/ bindable x = true) (needed a)) /\
  match runMatrix bindable runArm f arms with
  | Ok (rows, skips) =>
      Forall2 (fun a r => runArm a = Ok r)
        (List.filter (runs bindable) (List.filter (selected f) arms)) rows /\
      skips = map (fun a => {| skip_name := arm_name a; why := unusable bindable a |})
                (List.filter (fun a => negb (runs bindable a)) (List.filter (selected f) arms))
  | Err e =>
      exists pre a post e', List.filter (selected f) arms = pre ++ a :: post /\
        unusable bindable a = "" /\ runArm a = Err e' /\ e = arm_name a +:+ ": " +:+ e' /\
        Forall (fun b => runs bindable b = true -> is_ok (runArm b) = true) pre
  end.
Proof.
  split; [intros a; apply unusable_in_nil|].
  destruct (runMatrix _ _ _ _) as [[rows skips]|e] eqn:E.
  - by apply runMatrix_ok.
  - by apply runMatrix_err.
Qed.

(** ** The outage of an upstream-fail arm *)

Definition fail_arm_ok (a : arm) : bool :=
  match fail_spec a with
  | None => true
  | Some s =>
      negb (limiter a) && (arm_dur a =? 30 * second) && (arm_sample a =? second) &&
      bool_decide (f_mode s <> mockUp) && String.eqb (qmode (victim a)) "fixed" &&
      match attacker a with
      | None => false
      | Some c =>
          negb (String.eqb (qmode c) "fixed") && (rate c =? failMissRate) &&
          bool_decide (prefix_of (src c) <> prefix_of (src (victim a)))
      end
  end.

(** Every arm with a failing upstream runs with the limiter off for thirty
    seconds sampled every second, whatever [-duration] says; its outage starts
    after the window opens and leaves more than the ten-second cooldown between
    the return and the end; it fails by a black hole or a refusal; and its
    misses and its victim ask from different prefixes, the victim one cached
    name and the misses a new one each time. *)
Theorem fail_arms_schedule (f : flags) a s :
  a ∈ matrix_arms f -> fail_spec a = Some s ->
  limiter a = false /\ armDuration f a = 30 * second /\ arm_sample a = second /\
  0 < failBefore /\ armDuration f a - (failBefore + failFor) > 10 * second /\
  f_mode s <> mockUp /\ qmode (victim a) = "fixed" /\
  exists c, attacker a = Some c /\ qmode c <> "fixed" /\ rate c = failMissRate /\
    prefix_of (src c) <> prefix_of (src (victim a)).
Proof.
  intros Ha Hs.
  assert (forallb fail_arm_ok (matrix_arms f) = true) as H by (vm_compute; reflexivity).
  rewrite forallb_forall in H. apply list_elem_of_In, H in Ha. unfold fail_arm_ok in Ha.
  rewrite Hs in Ha. destruct (attacker a) as [c|]; [|by rewrite andb_false_r in Ha]. b2p.
  repeat match goal with
  | H : bool_decide _ = true |- _ => apply bool_decide_eq_true in H
  | H : String.eqb _ _ = true |- _ => apply String.eqb_eq in H
  | H : String.eqb _ _ = false |- _ => apply String.eqb_neq in H
  end.
  assert (armDuration f a = 30 * second) as Hd.
  { unfold armDuration. replace (0 <? arm_dur a) with true; [done|].
    symmetry. apply Z.ltb_lt. unfold second, millisecond, microsecond in *. lia. }
  rewrite Hd. split_and!; try done. by exists c.
Qed.

Lemma fail_arms_schedule_witness :
  exists a s, a ∈ matrix_arms default_flags /\ fail_spec a = Some s /\ limiter a = false.
Proof.
  assert (nth 49 (matrix_arms default_flags) arm0 ∈ matrix_arms default_flags) as H
    by (apply list_elem_of_lookup; exists 49%nat; reflexivity).
  eexists _, _. split; [exact H|]. split; [reflexivity|].
  refine (proj1 (fail_arms_schedule default_flags _ _ H _)). reflexivity.
Defined.
