(* ===== verification/RrlStats.v ===== *)
(** * [bench/cmd/rrlexp]: what a client counts

    [stats] and its methods from [main.go], [tracker] and [record] from
    [client.go].  Each counter is an atomic and each list or map is under the
    mutex, so a run of several readers is some order of the [record] calls;
    [record_all] folds one order, and the lemmas say which results do not depend
    on it.  The counters are mathematical integers: an [int64] that counts
    messages cannot reach its bound in a run. *)

From stdpp Require Import sorting.
From S2P Require Import Prelude GoStrings GoFloat DnsWire Hist.

Record stats : Type := mkStats {
  offered : Z;
  replies : Z;
  full : Z;
  truncated : Z;
  badRcode : Z;
  bytesIn : Z;
  bytesOut : Z;
  closed : Z;
  refused : Z;
  failed : Z;
  dials : Z;
  lat : list duration;
  rcodes : gmap Z Z;
  statuses : gmap Z Z
}.

Definition stats0 : stats := mkStats 0 0 0 0 0 0 0 0 0 0 0 [] ∅ ∅.

(** [x.Add(n)] on each counter, and the three locked updates. *)
Inductive update : Type :=
  | Offered (n : Z) | Replies (n : Z) | Full (n : Z) | Truncated (n : Z) | BadRcode (n : Z)
  | BytesIn (n : Z) | BytesOut (n : Z) | Closed (n : Z) | Refused (n : Z) | Failed (n : Z)
  | Dials (n : Z) | Latency (d : duration) | Rcode (c : Z) | Status (c : Z).

Definition bump (c : Z) (m : gmap Z Z) : gmap Z Z := <[c := default 0 (m !! c) + 1]> m.

Definition upd (s : stats) (u : update) : stats :=
  let '(mkStats o r f t b bi bo c re fa di la rc st) := s in
  match u with
  | Offered n => mkStats (o + n) r f t b bi bo c re fa di la rc st
  | Replies n => mkStats o (r + n) f t b bi bo c re fa di la rc st
  | Full n => mkStats o r (f + n) t b bi bo c re fa di la rc st
  | Truncated n => mkStats o r f (t + n) b bi bo c re fa di la rc st
  | BadRcode n => mkStats o r f t (b + n) bi bo c re fa di la rc st
  | BytesIn n => mkStats o r f t b (bi + n) bo c re fa di la rc st
  | BytesOut n => mkStats o r f t b bi (bo + n) c re fa di la rc st
  | Closed n => mkStats o r f t b bi bo (c + n) re fa di la rc st
  | Refused n => mkStats o r f t b bi bo c (re + n) fa di la rc st
  | Failed n => mkStats o r f t b bi bo c re (fa + n) di la rc st
  | Dials n => mkStats o r f t b bi bo c re fa (di + n) la rc st
  | Latency d => mkStats o r f t b bi bo c re fa di (la ++ [d]) rc st
  | Rcode k => mkStats o r f t b bi bo c re fa di la (bump k rc) st
  | Status k => mkStats o r f t b bi bo c re fa di la rc (bump k st)
  end.

Definition addStatus (s : stats) (code : Z) : stats := upd s (Status code).
Definition addRcode (s : stats) (c : Z) : stats := upd s (Rcode c).
Definition addLatency (s : stats) (d : duration) : stats := upd s (Latency d).

(** ** Summaries: the keys in ascending order *)

Definition sorted_counts (m : gmap Z Z) : list (Z * Z) :=
  map (fun k => (k, default 0 (m !! k))) (merge_sort Z.le (map fst (map_to_list m))).

Definition statusSummary (s : stats) : string :=
  if bool_decide (statuses s = ∅) then "—"
  else join ", " (map (fun '(k, n) => itoa n +:+ "×" +:+ itoa k) (sorted_counts (statuses s))).

Definition rcode_name (k : Z) : string :=
  match k with
  | 0 => "NOERROR" | 1 => "FORMERR" | 2 => "SERVFAIL" | 3 => "NXDOMAIN"
  | 4 => "NOTIMP" | 5 => "REFUSED"
  | _ => "rcode" +:+ itoa k
  end.

Definition rcodeSummary (s : stats) : string :=
  if bool_decide (rcodes s = ∅) then "—"
  else join ", " (map (fun '(k, n) => rcode_name k +:+ " " +:+ itoa n) (sorted_counts (rcodes s))).

(** ** Percentiles of a window *)

Definition latLen (s : stats) : Z := zlen (lat s).

(** [s.lat[from:to]] sorted, and the value at the quantile; [None] is a window
    outside the recorded latencies. *)
Definition pctOf (s : stats) (from to : Z) (q : float64) : option duration :=
  if to <=? from then Some 0
  else if negb ((0 <=? from) && (to <=? zlen (lat s))) then None
  else
    let sorted := sort (slice (lat s) from to) in
    index sorted (trunc64 (fmul q (f_of_Z (zlen sorted - 1)))).

Definition pct (s : stats) (q : float64) : option duration := pctOf s 0 (latLen s) q.

(** ** Matching replies to queries *)

Notation time := Z (only parsing).

Record tracker : Type := mkTracker { sent : gmap Z time; tr_on : bool }.

Definition newTracker (on : bool) : tracker := {| sent := ∅; tr_on := on |}.

Definition put (t : tracker) (id : Z) (now : time) : tracker :=
  if negb (tr_on t) then t else {| sent := <[id := now]> (sent t); tr_on := tr_on t |}.

Definition took (t : tracker) (id : Z) (now : time) : option duration * tracker :=
  if negb (tr_on t) then (None, t)
  else
    let t' := {| sent := delete id (sent t); tr_on := tr_on t |} in
    match sent t !! id with
    | None => (None, t')
    | Some at_ => (Some (now - at_), t')
    end.

(** One reply of [size] bytes that arrived at [now]. *)
Definition record (s : stats) (size : Z) (rep : Reply) (t : tracker) (now : time) : stats * tracker :=
  let s := upd s (Replies 1) in
  let s := upd s (BytesIn size) in
  let s := addRcode s (rRcode rep) in
  let s :=
    if rTruncated rep then upd s (Truncated 1)
    else if negb (rRcode rep =? 0) then upd s (BadRcode 1)
    else upd s (Full 1) in
  let '(d, t) := took t (rID rep) now in
  match d with
  | Some d => if negb (rTruncated rep) && (rRcode rep =? 0) then (addLatency s d, t) else (s, t)
  | None => (s, t)
  end.

Example rcode_summary_ex :
  rcodeSummary (addRcode (addRcode (addRcode stats0 2) 0) 2) = "NOERROR 1, SERVFAIL 2".
Proof. vm_compute. reflexivity. Qed.

(** ** A run of readers *)

Record arrival : Type := mkArrival { a_size : Z; a_reply : Reply; a_now : time }.

Definition record_all (s : stats) (t : tracker) (l : list arrival) : stats * tracker :=
  fold_left (fun st a => record (fst st) (a_size a) (a_reply a) (snd st) (a_now a)) l (s, t).

(** The part of the statistics that is a sum over what arrived. *)
Record sums : Type := mkSums {
  sm_replies : Z; sm_full : Z; sm_truncated : Z; sm_bad : Z; sm_bytes : Z
}.

Definition sums_of (s : stats) : sums :=
  mkSums (replies s) (full s) (truncated s) (badRcode s) (bytesIn s).

Definition is_full (r : Reply) : bool := negb (rTruncated r) && (rRcode r =? 0).
Definition is_bad (r : Reply) : bool := negb (rTruncated r) && negb (rRcode r =? 0).

Lemma bump_lookup c d m : default 0 (bump c m !! d) = default 0 (m !! d) + (if decide (c = d) then 1 else 0).
Proof.
  unfold bump. destruct (decide (c = d)) as [->|Hn].
  - by rewrite lookup_insert_eq.
  - rewrite lookup_insert_ne by done. lia.
Qed.

(** One [record], field by field. *)
Lemma record_fields s size rep t now s' t' :
  record s size rep t now = (s', t') ->
  replies s' = replies s + 1 /\
  full s' = full s + (if is_full rep then 1 else 0) /\
  truncated s' = truncated s + (if rTruncated rep then 1 else 0) /\
  badRcode s' = badRcode s + (if is_bad rep then 1 else 0) /\
  bytesIn s' = bytesIn s + size /\
  rcodes s' = bump (rRcode rep) (rcodes s) /\
  lat s' = lat s ++ (if is_full rep then option_list (fst (took t (rID rep) now)) else []) /\
  t' = snd (took t (rID rep) now) /\
  offered s' = offered s /\ bytesOut s' = bytesOut s /\ closed s' = closed s /\
  refused s' = refused s /\ failed s' = failed s /\ dials s' = dials s /\ statuses s' = statuses s.
Proof.
  destruct s as [o r f tr b bi bo c re fa di la rc st].
  unfold record, is_full, is_bad, addRcode, addLatency. destruct (took t _ _) as [[d|] t1]; simpl.
  all: destruct (rTruncated rep), (rRcode rep =? 0); simpl; intros [= <- <-]; simpl;
    rewrite ?app_nil_r, ?Z.add_0_r; done.
Qed.

Lemma record_all_cons s t a l :
  record_all s t (a :: l) =
    record_all (fst (record s (a_size a) (a_reply a) t (a_now a)))
               (snd (record s (a_size a) (a_reply a) t (a_now a))) l.
Proof. unfold record_all. simpl. by destruct (record s _ _ _ _). Qed.

Lemma record_all_counts s t l :
  let s' := fst (record_all s t l) in
  replies s' = replies s + zlen l /\
  full s' = full s + zcount is_full (map a_reply l) /\
  truncated s' = truncated s + zcount rTruncated (map a_reply l) /\
  badRcode s' = badRcode s + zcount is_bad (map a_reply l) /\
  bytesIn s' = bytesIn s + zsum (map a_size l) /\
  (forall c, default 0 (rcodes s' !! c) =
     default 0 (rcodes s !! c) + zcount (fun r => rRcode r =? c) (map a_reply l)) /\
  latLen s' - full s' <= latLen s - full s.
Proof.
  revert s t. induction l as [|a l IH]; intros s t.
  - simpl. unfold zcount. simpl. split_and!; intros; rewrite ?zlen_nil; try lia.
    by rewrite Z.add_0_r.
  - rewrite record_all_cons.
    destruct (record s (a_size a) (a_reply a) t (a_now a)) as [s1 t1] eqn:E.
    apply record_fields in E as (E1 & E2 & E3 & E4 & E5 & E6 & E7 & E8 & _).
    cbn [fst snd]. destruct (IH s1 t1) as (H1 & H2 & H3 & H4 & H5 & H6 & H7).
    set (s' := fst (record_all s1 t1 l)) in *. cbn [map zsum fold_right].
    rewrite !zcount_cons, zlen_cons. fold (zsum (map a_size l)).
    split_and!; try lia.
    + intros c. rewrite H6, E6, bump_lookup, zcount_cons.
      destruct (decide (rRcode (a_reply a) = c)) as [->|Hc].
      * rewrite Z.eqb_refl. lia.
      * apply Z.eqb_neq in Hc. rewrite Hc. lia.
    + unfold latLen in *. rewrite E7, E2, zlen_app in H7.
      enough (zlen (if is_full (a_reply a) then option_list (fst (took t (rID (a_reply a)) (a_now a))) else [])
                <= (if is_full (a_reply a) then 1 else 0)) by lia.
      destruct (is_full (a_reply a)); [|done]. by destruct (fst (took t _ _)).
Qed.

Lemma outcome_partition l :
  zcount is_full l + zcount rTruncated l + zcount is_bad l = zlen l.
Proof.
  induction l as [|r l IH]; [done|]. rewrite !zcount_cons, zlen_cons. unfold is_full, is_bad in *.
  destruct (rTruncated r), (rRcode r =? 0); simpl in *; lia.
Qed.

(** Whatever readers filed and in whatever order, each reply is counted
    under exactly one of answered, truncated and bad rcode; the rcode table
    holds one count per rcode seen; the bytes are the sum of the sizes; and no
    more latencies were kept than replies answered. *)
Theorem record_accounting t l :
  let s := fst (record_all stats0 t l) in
  replies s = zlen l /\ full s + truncated s + badRcode s = replies s /\
  truncated s = zcount rTruncated (map a_reply l) /\ full s = zcount is_full (map a_reply l) /\
  bytesIn s = zsum (map a_size l) /\
  (forall c, default 0 (rcodes s !! c) = zcount (fun r => rRcode r =? c) (map a_reply l)) /\
  latLen s <= full s.
Proof.
  pose proof (record_all_counts stats0 t l) as H. cbv zeta in *.
  destruct H as (H1 & H2 & H3 & H4 & H5 & H6 & H7). simpl in *.
  pose proof (outcome_partition (map a_reply l)) as Hp.
  assert (zlen (map a_reply l) = zlen l) as Hl by (unfold zlen; by rewrite length_map).
  split_and!; try lia.
  - intros c. by rewrite H6, lookup_empty.
  - change (latLen stats0) with 0 in H7. lia.
Qed.

(** ** Percentiles *)

(** A percentile of a window of recorded latencies never indexes out of
    range for a quantile in [0, 1]: an empty window gives zero, any other a
    latency of that window, with at least the quantile's share of the window at
    or below it and the rest at or above it. *)
Theorem pctOf_window s from to q :
  0 <= from -> to <= latLen s -> latLen s < 2 ^ 53 -> within 1 q ->
  exists v, pctOf s from to q = Some v /\
    (to <= from -> v = 0) /\
    (from < to ->
      let w := slice (lat s) from to in
      let i := trunc64 (fmul q (f_of_Z (to - from - 1))) in
      v ∈ w /\ 0 <= i < to - from /\
      i + 1 <= count (fun x => x <=? v) w /\ to - from - i <= count (fun x => v <=? x) w).
Proof.
  intros Hf Ht Hn Hq. unfold pctOf, latLen in *.
  destruct (Z.leb_spec to from) as [Hle|Hlt]; [exists 0; split_and!; [done|done|lia]|].
  replace (0 <=? from) with true by (symmetry; lia).
  replace (to <=? zlen (lat s)) with true by (symmetry; lia). cbn [negb andb].
  set (w := slice (lat s) from to).
  assert (zlen w = to - from) as Hw.
  { unfold w, slice, zlen in *. rewrite length_take, length_drop. lia. }
  rewrite zlen_sort, Hw.
  pose proof (fmul_unit_bound q (to - from - 1) Hq ltac:(lia)) as Hi.
  set (i := trunc64 _) in *.
  destruct (index_Some (sort w) i) as (v & Hv & Hin); [rewrite zlen_sort; lia|].
  exists v. split; [done|]. split; [lia|]. intros _.
  destruct (sorted_rank _ _ _ (sort_sorted w) Hv) as [H1 H2].
  rewrite (count_perm _ _ _ (sort_perm w)) in H1.
  rewrite (count_perm _ _ _ (sort_perm w)), zlen_sort, Hw in H2.
  rewrite sort_perm in Hin. split_and!; try done; lia.
Qed.

Lemma pctOf_window_witness :
  exists v, pctOf (addLatency (addLatency (addLatency stats0 30) 10) 20) 1 3 (fconst 50 100) = Some v /\ v = 10.
Proof.
  destruct (pctOf_window (addLatency (addLatency (addLatency stats0 30) 10) 20) 1 3 (fconst 50 100))
    as (v & Hv & _); [lia|reflexivity|reflexivity|exact within_fconst_50|].
  exists v. split; [exact Hv|]. vm_compute in Hv. congruence.
Defined.
