(* ===== verification/RrlClient.v ===== *)
(** * [bench/cmd/rrlexp]: the clients

    [client.go], [doh.go] and [tls.go]: what each client sends, what it does with
    what comes back, and what it counts.  A client's goroutine is a fold of its
    step over what the network did: a datagram that arrived, a write that
    failed, a dial that was refused.  The clock is an argument of each step.
    The socket calls themselves are left out; [paceAt] is in [RrlPace], the sockets
    of a client together in [RrlConns], the interleaving of a DoH client's
    goroutines in [RrlDoh], and the starts of the clients in [RrlRun]. *)

From S2P Require Import Prelude GoStrings GoFloat DnsWire Framing RrlMock NetAddr RrlArms RrlStats.

(** ** Which client *)

(** The addresses of a [server]; see [RrlServer] for how it is started. *)
Record server : Type := mkServer {
  udpAddr : string;
  tcpAddr : string;
  dotAddr : string;
  dohAddr : string;
  probeSrc : string;
  certPath : string;
  metricsAddr : string;
  logPath : string
}.

Inductive clientKind : Type :=
  | HandshakeFlood (addr : string)
  | IdleHolder (addr : string)
  | TCPRedial (addr : string)
  | StreamTCP (addr : string)
  | StreamDoT (addr : string)
  | DoHClient (addr : string)
  | DatagramUDP (addr : string).

Definition handshakeAddr (s : server) (c : clientSpec) : string :=
  if isDoH c then dohAddr s else dotAddr s.

Definition runClient (s : server) (c : clientSpec) : clientKind :=
  if handshake c then HandshakeFlood (handshakeAddr s c)
  else if idle c then IdleHolder (tcpAddr s)
  else if redial c then TCPRedial (tcpAddr s)
  else if String.eqb (transport c) "tcp" then StreamTCP (tcpAddr s)
  else if String.eqb (transport c) "dot" then StreamDoT (dotAddr s)
  else if String.eqb (transport c) "doh1" || String.eqb (transport c) "doh2" then DoHClient (dohAddr s)
  else DatagramUDP (udpAddr s).

Definition alpnFor (t : string) : string :=
  if String.eqb t "doh1" then "http/1.1" else if String.eqb t "doh2" then "h2" else "dot".

(** The ALPN of [newDoHClient]. *)
Definition doh_alpn (c : clientSpec) : string :=
  if String.eqb (transport c) "doh1" then "http/1.1" else "h2".

(** ** Datagram and stream clients *)

Definition ednsSize : Z := 1232.

(** What the goroutines of one socket share: the writer's sequence number, the
    client's counters and the socket's tracker. *)
Record sock : Type := mkSock { seq_ : Z; st : stats; tr : tracker }.

Definition sock0 (track : bool) : sock := mkSock 0 stats0 (newTracker track).

Definition client_query (c : clientSpec) (idx : Z) (tag : string) (seq : Z) : bytes :=
  Query (u16 seq) (name c idx seq tag) TypeA ednsSize.

(** [udpWriter]'s send: [written] is what [conn.Write] returned. *)
Definition udp_send (c : clientSpec) (idx : Z) (tag : string) (now : time) (written : option Z) (s : sock)
  : bool * sock :=
  let seq := seq_ s + 1 in
  let t := put (tr s) (u16 seq) now in
  match written with
  | None => (false, mkSock seq (st s) t)
  | Some n => (true, mkSock seq (upd (upd (st s) (Offered 1)) (BytesOut n)) t)
  end.

(** [tcpWriter]'s send. *)
Definition tcp_send (c : clientSpec) (idx : Z) (tag : string) (now : time) (ok : bool) (s : sock)
  : bool * sock :=
  let seq := seq_ s + 1 in
  let q := frame (client_query c idx tag seq) in
  let t := put (tr s) (u16 seq) now in
  if negb ok then (false, mkSock seq (st s) t)
  else (true, mkSock seq (upd (upd (st s) (Offered 1)) (BytesOut (zlen q))) t).

(** [udpReader] on one datagram. *)
Definition udp_read (msg : bytes) (now : time) (s : sock) : sock :=
  match ParseReply msg with
  | Err _ => s
  | Ok rep =>
      let '(st', t') := record (st s) (zlen msg) rep (tr s) now in mkSock (seq_ s) st' t'
  end.

(** [udpReader], until its socket is closed. *)
Definition udpReader (datagrams : list (bytes * time)) (s : sock) : sock :=
  fold_left (fun s '(msg, now) => udp_read msg now s) datagrams s.

(** [tcpReader] on one message, which counts its length prefix. *)
Definition tcp_read (msg : bytes) (now : time) (s : sock) : sock :=
  match ParseReply msg with
  | Err _ => s
  | Ok rep =>
      let '(st', t') := record (st s) (zlen msg + 2) rep (tr s) now in mkSock (seq_ s) st' t'
  end.

(** How a stream ended, and whether the harness had asked it to. *)
Inductive stream_end : Type := CleanEOF | Reset_by_peer | OtherError.

Definition isClose (e : stream_end) : bool :=
  match e with CleanEOF | Reset_by_peer => true | OtherError => false end.

(** [tcpReader] over a whole connection; [now i] is the clock at the [i]-th
    message. *)
Fixpoint tcp_reader (fuel : nat) (c : conn) (e : stream_end) (stopped : bool)
  (now : nat -> time) (i : nat) (s : sock) : sock :=
  match fuel with
  | O => s
  | S fuel' =>
      match read_frame c with
      | HeaderFailed =>
          if isClose e && negb stopped then mkSock (seq_ s) (upd (st s) (Closed 1)) (tr s) else s
      | BodyFailed => s
      | Message msg c => tcp_reader fuel' c e stopped now (S i) (tcp_read msg (now i) s)
      end
  end.

Definition tcpReader (c : conn) (e : stream_end) (stopped : bool) (now : nat -> time) (s : sock) : sock :=
  tcp_reader (S (length (concat c))) c e stopped now 0 s.

(** [runStream]'s dials: the connections it got, a failure counted for each it
    did not; [None] is the fatal error of a client that got none. *)
Fixpoint stream_dials (dials : list bool) (s : stats) : Z * stats :=
  match dials with
  | [] => (0, s)
  | ok :: rest =>
      if negb ok then stream_dials rest (upd s (Failed 1))
      else let '(n, s) := stream_dials rest s in (n + 1, s)
  end.

Definition runStream (dials : list bool) (s : stats) : option (Z * stats) :=
  let '(n, s) := stream_dials dials s in
  if n =? 0 then None else Some (n, s).

(** [runIdle] on one socket: whether it was dialled, and, once it was, whether
    its read failed before the harness stopped the client. *)
Inductive idle_outcome : Type := IdleDialFailed | IdleHeld | IdleRefused | IdleEndedByStop.

Definition idle_socket (s : stats) (o : idle_outcome) : stats :=
  match o with
  | IdleDialFailed => upd s (Failed 1)
  | IdleHeld | IdleEndedByStop => upd s (Dials 1)
  | IdleRefused => upd (upd s (Dials 1)) (Closed 1)
  end.

(** [runTCPRedial]: one query on a connection of its own. *)
Inductive redial_outcome : Type :=
  | RedialDialFailed
  | RedialWriteFailed
  | RedialHeaderFailed
  | RedialBodyFailed
  | RedialReply (msg : bytes) (now : time).

Definition redial_query (c : clientSpec) (tag : string) (asked : time) (s : sock) (o : redial_outcome) : sock :=
  let seq := seq_ s + 1 in
  let id := u16 seq in
  let a := upd (st s) (Offered 1) in
  match o with
  | RedialDialFailed => mkSock seq (upd a (Failed 1)) (tr s)
  | _ =>
      let a := upd a (Dials 1) in
      let q := frame (client_query c 0 tag seq) in
      let t := put (tr s) id asked in
      match o with
      | RedialDialFailed | RedialWriteFailed => mkSock seq (upd a (Closed 1)) t
      | _ =>
          let a := upd a (BytesOut (zlen q)) in
          match o with
          | RedialReply msg now => tcp_read msg now (mkSock seq a t)
          | RedialBodyFailed => mkSock seq a t
          | _ => mkSock seq (upd a (Closed 1)) t
          end
      end
  end.

(** ** DoH *)

Inductive doh_outcome : Type :=
  | DohNoStatus
  | DohStatus (code : Z) (body : bytes) (body_ok : bool).

(** [dohClient.query], from the request being sent to its answer being filed. *)
Definition doh_query (c : clientSpec) (idx : Z) (tag : string) (track : bool) (took_ : duration)
  (seq : Z) (s : stats) (o : doh_outcome) : stats :=
  let q := client_query c idx tag seq in
  let s := upd s (Offered 1) in
  let s := upd s (BytesOut (zlen q)) in
  match o with
  | DohNoStatus => upd s (Failed 1)
  | DohStatus code body body_ok =>
      let s := addStatus s code in
      let s := upd s (BytesIn (zlen body)) in
      if negb body_ok then upd s (Failed 1)
      else if negb (code =? 200) then upd s (Refused 1)
      else
        match ParseReply body with
        | Err _ => upd s (Failed 1)
        | Ok rep =>
            let s := upd s (Replies 1) in
            let s := addRcode s (rRcode rep) in
            if negb (rRcode rep =? 0) then upd s (BadRcode 1)
            else
              let s := upd s (Full 1) in
              if track then addLatency s took_ else s
        end
  end.

(** ** The handshake flood *)

Inductive handshake_outcome : Type :=
  | HsDialFailed
  | HsAbandoned   (** the arm ended, or the client's own deadline passed *)
  | HsRefused
  | HsDone (took_ : duration).

Definition handshake_round (s : stats) (o : handshake_outcome) : stats :=
  let s := upd s (Offered 1) in
  match o with
  | HsDialFailed | HsAbandoned => upd s (Failed 1)
  | HsRefused => upd s (Closed 1)
  | HsDone d => addLatency (upd s (Full 1)) d
  end.

(** What a round met: the dial, the handshake's error, if any, as a deadline or
    another, and whether the client had been stopped when it failed. *)
Definition handshake_met (dialled : bool) (error : option bool) (cancelled : bool) (took_ : duration)
  : handshake_outcome :=
  if negb dialled then HsDialFailed
  else
    match error with
    | None => HsDone took_
    | Some deadline => if cancelled || deadline then HsAbandoned else HsRefused
    end.

(** [handshakeWorker]: rounds, each with the clock and the context as its loop
    condition read them. *)
Fixpoint handshakeWorker (rounds : list (time * bool * handshake_outcome)) (until : time) (s : stats) : stats :=
  match rounds with
  | [] => s
  | (now, cancelled, o) :: rest =>
      if (now <? until) && negb cancelled then handshakeWorker rest until (handshake_round s o) else s
  end.

(** ** [paceFlatOut]

    [send i] is the [i]-th send; [nows] are the clock readings of the loop's
    condition, one per round of sixty-four. *)
Section pacing.
Context {S_ : Type} (send : nat -> S_ -> bool * S_).

Fixpoint burst (n : nat) (i : nat) (s : S_) : bool * nat * S_ :=
  match n with
  | O => (true, i, s)
  | S n' =>
      let '(ok, s') := send i s in
      if negb ok then (false, S i, s') else burst n' (S i) s'
  end.

Fixpoint paceFlatOut (nows : list time) (until : time) (i : nat) (s : S_) : nat * S_ :=
  match nows with
  | [] => (i, s)
  | now :: rest =>
      if now <? until then
        let '(ok, i, s) := burst 64 i s in
        if ok then paceFlatOut rest until i s else (i, s)
      else (i, s)
  end.
End pacing.

Example tcp_reader_ex :
  closed (st (tcpReader [frame (repeat 0 12)] CleanEOF false (fun _ => 0) (sock0 true))) = 1.
Proof. reflexivity. Qed.

(** ** A run against a server that answers everything

    The events of one socket in the order they happened: a query written, or
    the reply to query [seq] read. *)
Inductive event : Type :=
  | Sent (now : time)
  | Got (seq : Z) (now : time).

Section run.
Variables (c : clientSpec) (idx : Z) (tag : string) (reply : Z -> bytes).

Definition step_event (s : sock) (e : event) : sock :=
  match e with
  | Sent now => snd (udp_send c idx tag now (Some (zlen (client_query c idx tag (seq_ s + 1)))) s)
  | Got seq now => udp_read (reply seq) now s
  end.

Definition run_events (s : sock) (es : list event) : sock := fold_left step_event es s.

(** Replies come after their queries, once each; ids do not wrap. *)
Fixpoint valid (k : Z) (got : list Z) (es : list event) : Prop :=
  match es with
  | [] => True
  | Sent _ :: rest => k + 1 < 65536 /\ valid (k + 1) got rest
  | Got s _ :: rest => 1 <= s <= k /\ s ∉ got /\ valid k (got ++ [s]) rest
  end.

Definition sends (es : list event) : list time :=
  omap (fun e => match e with Sent now => Some now | _ => None end) es.

Definition gots (es : list event) : list (Z * time) :=
  omap (fun e => match e with Got s now => Some (s, now) | _ => None end) es.

(** What each reply was measured at: arrival minus the time its query was
    written. *)
Definition measured (ts : list time) (gs : list (Z * time)) : list duration :=
  map (fun '(s, now) => now - nth (Z.to_nat (s - 1)) ts 0) gs.

(** The invariant: [k] queries written at [ts], [got] answered. *)
Record run_inv (ts : list time) (gs : list (Z * time)) (s : sock) : Prop := {
  ri_seq : seq_ s = zlen ts;
  ri_on : tr_on (tr s) = true;
  ri_sent : forall q, 1 <= q <= zlen ts -> q ∉ map fst gs ->
              sent (tr s) !! q = Some (nth (Z.to_nat (q - 1)) ts 0);
  ri_offered : offered (st s) = zlen ts;
  ri_full : full (st s) = zlen gs;
  ri_replies : replies (st s) = zlen gs;
  ri_other : truncated (st s) = 0 /\ badRcode (st s) = 0;
  ri_lat : lat (st s) = measured ts gs
}.

Lemma measured_snoc ts now gs :
  Forall (fun g => 1 <= fst g <= zlen ts) gs -> measured (ts ++ [now]) gs = measured ts gs.
Proof.
  unfold measured. induction 1 as [|[s n] gs Hs _ IH]; [done|]. simpl in *. rewrite IH. f_equal.
  rewrite app_nth1; [done|]. unfold zlen in *. lia.
Qed.

Lemma send_inv ts gs s now :
  Forall (fun g => 1 <= fst g <= zlen ts) gs -> zlen ts + 1 < 65536 ->
  run_inv ts gs s -> run_inv (ts ++ [now]) gs (step_event s (Sent now)).
Proof.
  intros Hg Hk [H1 H2 H3 H4 H5 H6 H7 H8]. destruct s as [k a t]. simpl in *. subst k.
  destruct a as [o r f tr_ b bi bo cl re fa di la rc ss]. pose proof (zlen_nonneg ts).
  unfold put. rewrite H2. simpl in *.
  split; simpl; rewrite ?zlen_app; try (unfold zlen in *; simpl in *; lia); try done.
  - intros q Hq Hn. rewrite u16_id by lia. destruct (decide (q = zlen ts + 1)) as [->|Hne].
    + rewrite lookup_insert_eq. f_equal. rewrite app_nth2 by (unfold zlen; lia).
      replace (_ - _)%nat with 0%nat by (unfold zlen; lia). done.
    + change (zlen [now]) with 1 in Hq. rewrite lookup_insert_ne by lia. rewrite H3 by (done || lia).
      f_equal. rewrite app_nth1; [done|]. unfold zlen in *. lia.
  - by rewrite measured_snoc.
Qed.

Context (f : bytes -> result wire_error bytes) `{Responder f}.

(** The server answers every query up to the [n]-th. *)
Definition answers (n : Z) : Prop :=
  forall q, 1 <= q <= n -> f (client_query c idx tag q) = Ok (reply q).

Lemma reply_parses n q :
  answers n -> 1 <= q <= n -> q < 65536 ->
  exists an, ParseReply (reply q) =
    Ok {| rID := q; rRcode := 0; rAnCount := an; rTruncated := false; rAD := false |}.
Proof.
  intros Ha Hq Hw.
  destruct (responder_reply _ _ (Query_bytes_ok _ _ _ _) (Ha q Hq)) as (an & E).
  exists an. rewrite E. unfold client_query. rewrite Query_id by apply u16_range.
  by rewrite u16_id by lia.
Qed.

Lemma got_inv n ts gs s q now :
  answers n -> zlen ts <= n -> zlen ts < 65536 -> 1 <= q <= zlen ts -> q ∉ map fst gs ->
  run_inv ts gs s -> run_inv ts (gs ++ [(q, now)]) (step_event s (Got q now)).
Proof.
  intros Ha Hn Hw Hq Hg [H1 H2 H3 H4 H5 H6 [H7a H7b] H8].
  destruct (reply_parses n q Ha ltac:(lia) ltac:(lia)) as (an & E).
  destruct s as [k a t]. simpl in *. unfold udp_read. rewrite E. simpl.
  destruct (record a (zlen (reply q)) _ t now) as [a' t'] eqn:Er.
  apply record_fields in Er as (E1 & E2 & E3 & E4 & _ & _ & E7 & E8 & E9 & _). simpl in *.
  unfold took in *. rewrite H2 in *. simpl in *. rewrite (H3 q Hq Hg) in *. simpl in *.
  split; simpl; rewrite ?zlen_app; try (unfold zlen in *; simpl in *; lia).
  - by subst t'.
  - intros q' Hq' Hn'. rewrite map_app, elem_of_app in Hn'. subst t'. simpl in *.
    rewrite lookup_delete_ne; [apply H3; tauto|]. intros ->. apply Hn'. right. by left.
  - rewrite E7, H8. unfold measured. by rewrite map_app.
Qed.

Lemma valid_run n k es ts gs s :
  answers n -> zlen ts = k -> zlen (ts ++ sends es) <= n -> zlen ts < 65536 ->
  Forall (fun g => 1 <= fst g <= zlen ts) gs ->
  valid k (map fst gs) es -> run_inv ts gs s ->
  run_inv (ts ++ sends es) (gs ++ gots es) (run_events s es).
Proof.
  intros Ha. revert k ts gs s. induction es as [|e es IH]; intros k ts gs s Hk Hn Hw Hg Hv Hi.
  - by rewrite !app_nil_r.
  - destruct e as [now|q now].
    + change (sends (Sent now :: es)) with (now :: sends es) in *.
      change (gots (Sent now :: es)) with (gots es).
      destruct Hv as [Hb Hv]. replace (ts ++ now :: sends es) with ((ts ++ [now]) ++ sends es) in *
        by (by rewrite <- app_assoc).
      assert (zlen (ts ++ [now]) = k + 1) as Hz by (rewrite zlen_app; unfold zlen in *; simpl; lia).
      apply (IH (k + 1)); try done; [lia| |by apply send_inv; [|lia|]].
      eapply Forall_impl; [exact Hg|]. intros g ?. simpl in *. lia.
    + change (sends (Got q now :: es)) with (sends es) in *.
      change (gots (Got q now :: es)) with ((q, now) :: gots es).
      destruct Hv as (Hq & Hnew & Hv).
      replace (gs ++ (q, now) :: gots es) with ((gs ++ [(q, now)]) ++ gots es) by (by rewrite <- app_assoc).
      assert (zlen ts <= n) by (rewrite zlen_app in Hn; pose proof (zlen_nonneg (sends es)); lia).
      apply (IH k); try done.
      * apply Forall_app. split; [done|]. constructor; [simpl; lia|constructor].
      * by rewrite map_app.
      * by apply (got_inv n); try lia.
Qed.
End run.

(** C2. A client whose queries all reach a server that answers them -- any
    [Responder], the mocks among them -- and whose replies come back once each,
    in any order and at any time after their queries, counts exactly what
    happened: every query offered, every reply answered in full, none truncated
    or in error, and for each reply the time since its own query was written.
    Up to 65535 queries the sixteen-bit ids identify the query. *)
Theorem clean_run_accounting c idx tag reply (f : bytes -> result wire_error bytes) es :
  Responder f -> answers c idx tag reply f (zlen (sends es)) -> valid 0 [] es ->
  let s := st (run_events c idx tag reply (sock0 true) es) in
  offered s = zlen (sends es) /\ replies s = zlen (gots es) /\ full s = zlen (gots es) /\
  truncated s = 0 /\ badRcode s = 0 /\ lat s = measured (sends es) (gots es).
Proof.
  intros Hf Ha Hv.
  destruct (valid_run c idx tag reply f (zlen (sends es)) 0 es [] [] (sock0 true)) as [_ _ _ ? ? ? [? ?] ?];
    try done.
  split; try done. simpl. intros q Hq. change (zlen []) with 0 in Hq. lia.
Qed.

Definition ex_responder (q : bytes) : result wire_error bytes := answer q 70 300.

Definition ex_reply (c : clientSpec) (seq : Z) : bytes :=
  match ex_responder (client_query c 0 "vic" seq) with Ok r => r | Err _ => [] end.

Definition ex_client : clientSpec := client [Src "127.1.0.1"; Transport "udp"; Rate 50; Sockets 1].

Lemma clean_run_accounting_witness :
  let es := [Sent 100; Sent 300; Got 2 350; Got 1 500] in
  let s := st (run_events ex_client 0 "vic" (ex_reply ex_client) (sock0 true) es) in
  offered s = 2 /\ full s = 2 /\ lat s = [50; 400].
Proof.
  destruct (clean_run_accounting ex_client 0 "vic" (ex_reply ex_client) ex_responder
    [Sent 100; Sent 300; Got 2 350; Got 1 500]) as (H1 & _ & H2 & _ & _ & H3).
  - apply answer_responder.
  - intros q Hq. change (zlen (sends _)) with 2 in Hq.
    assert (q = 1 \/ q = 2) as [-> | ->] by lia; vm_compute; reflexivity.
  - simpl. split_and!; try lia; try done; apply (bool_decide_eq_true_1 _); reflexivity.
  - exact (conj H1 (conj H2 H3)).
Defined.

(** ** Every query is accounted for once *)

Definition doh_outcome_step (c : clientSpec) (idx : Z) (tag : string) (track : bool) (s : stats)
  (x : Z * duration * doh_outcome) : stats :=
  let '(seq, d, o) := x in doh_query c idx tag track d seq s o.

Lemma doh_step_sums c idx tag track s x :
  let s' := doh_outcome_step c idx tag track s x in
  offered s' = offered s + 1 /\
  failed s' + refused s' + badRcode s' + full s' = failed s + refused s + badRcode s + full s + 1 /\
  replies s' - badRcode s' - full s' = replies s - badRcode s - full s /\
  latLen s' - full s' <= latLen s - full s /\ failed s <= failed s' /\ refused s <= refused s'.
Proof.
  destruct x as [[seq d] o], s as [o1 r fu t b bi bo cl re fa di la rc ss].
  unfold doh_outcome_step, doh_query, addStatus, addRcode, addLatency, latLen.
  destruct o as [|code body bok]; simpl; [lia|]. destruct bok; simpl; [|lia].
  destruct (code =? 200); simpl; [|lia].
  destruct (ParseReply body) as [rep|]; simpl; [|lia].
  destruct (rRcode rep =? 0); simpl; [|lia].
  destruct track; simpl; rewrite ?zlen_app; unfold zlen; simpl; lia.
Qed.

Lemma redial_step_sums c tag asked s o :
  let s' := st (redial_query c tag asked s o) in
  offered s' = offered (st s) + 1 /\
  dials s' + failed s' = dials (st s) + failed (st s) + 1 /\
  closed s' + replies s' - dials s' <= closed (st s) + replies (st s) - dials (st s) /\
  full s' + truncated s' + badRcode s' - replies s' =
    full (st s) + truncated (st s) + badRcode (st s) - replies (st s).
Proof.
  destruct s as [k [o1 r fu t b bi bo cl re fa di la rc ss] tr_].
  unfold redial_query. destruct o as [| | | |msg now]; simpl; try lia.
  unfold tcp_read. destruct (ParseReply msg) as [rep|]; simpl; [|lia].
  destruct (record _ _ rep _ now) as [s' t'] eqn:E.
  apply record_fields in E as (E1 & E2 & E3 & E4 & _ & _ & _ & _ & E9 & _ & E11 & _ & E13 & E14 & _).
  simpl in *. rewrite E1, E2, E3, E4, E9, E11, E13, E14. unfold is_full, is_bad.
  destruct (rTruncated rep), (rRcode rep =? 0); simpl; lia.
Qed.

Lemma handshake_step_sums s o :
  let s' := handshake_round s o in
  offered s' = offered s + 1 /\ full s' + closed s' + failed s' = full s + closed s + failed s + 1 /\
  latLen s' - full s' = latLen s - full s.
Proof.
  destruct s as [o1 r fu t b bi bo cl re fa di la rc ss].
  destruct o; unfold latLen, addLatency; simpl; rewrite ?zlen_app; unfold zlen; simpl; lia.
Qed.

(** Sums along a fold: what every step adds, the whole adds. *)
Lemma fold_gain {A B} (f : A -> B -> A) (m : A -> Z) g :
  (forall a b, m (f a b) = m a + g) -> forall l a, m (fold_left f l a) = m a + g * zlen l.
Proof.
  intros Hf l. induction l as [|b l IH]; intros a; simpl; [rewrite zlen_nil; lia|].
  rewrite IH, Hf, zlen_cons. lia.
Qed.

Lemma fold_bound {A B} (f : A -> B -> A) (m : A -> Z) :
  (forall a b, m (f a b) <= m a) -> forall l a, m (fold_left f l a) <= m a.
Proof. intros Hf l. induction l as [|b l IH]; intros a; simpl; [lia|]. specialize (IH (f a b)). specialize (Hf a b). lia. Qed.

(** The clients that open connections lose no query: over any outcomes,
    a DoH client's requests are each answered, refused, failed or in error,
    once; a redialling client's queries each had a connection or a failed dial,
    no more of them being closed or answered than had one; and a handshake
    flood's attempts each completed, were refused or failed, one latency kept
    for each that completed. *)
Theorem outcomes_partition c idx tag track ds asked rs hs :
  (let s := fold_left (doh_outcome_step c idx tag track) ds stats0 in
   offered s = zlen ds /\ offered s = failed s + refused s + badRcode s + full s /\
   replies s = badRcode s + full s /\ latLen s <= full s) /\
  (let s := st (fold_left (redial_query c tag asked) rs (sock0 track)) in
   offered s = zlen rs /\ offered s = dials s + failed s /\ closed s + replies s <= dials s /\
   replies s = full s + truncated s + badRcode s) /\
  (let s := fold_left handshake_round hs stats0 in
   offered s = zlen hs /\ offered s = full s + closed s + failed s /\ latLen s = full s).
Proof.
  cbv zeta. split_and!.
  - rewrite (fold_gain _ offered 1); [rewrite Z.mul_1_l; simpl; lia|]. intros a b. by apply doh_step_sums.
  - pose proof (fold_gain (doh_outcome_step c idx tag track) (fun s => offered s - failed s - refused s - badRcode s - full s) 0
      ltac:(intros a b; pose proof (doh_step_sums c idx tag track a b); cbv beta zeta in *; lia) ds stats0) as H.
    simpl in H. lia.
  - pose proof (fold_gain (doh_outcome_step c idx tag track) (fun s => replies s - badRcode s - full s) 0
      ltac:(intros a b; pose proof (doh_step_sums c idx tag track a b); cbv beta zeta in *; lia) ds stats0) as H.
    simpl in H. lia.
  - pose proof (fold_bound (doh_outcome_step c idx tag track) (fun s => latLen s - full s)
      ltac:(intros a b; pose proof (doh_step_sums c idx tag track a b); cbv beta zeta in *; lia) ds stats0) as H.
    cbv beta in H. change (latLen stats0 - full stats0) with 0 in H. lia.
  - pose proof (fold_gain (redial_query c tag asked) (fun s => offered (st s)) 1
      ltac:(intros a b; pose proof (redial_step_sums c tag asked a b); cbv beta zeta in *; lia) rs (sock0 track)) as H.
    rewrite ?Z.mul_1_l in H. simpl in H. lia.
  - pose proof (fold_gain (redial_query c tag asked) (fun s => offered (st s) - dials (st s) - failed (st s)) 0
      ltac:(intros a b; pose proof (redial_step_sums c tag asked a b); cbv beta zeta in *; lia) rs (sock0 track)) as H.
    rewrite ?Z.mul_1_l in H. simpl in H. lia.
  - pose proof (fold_bound (redial_query c tag asked) (fun s => closed (st s) + replies (st s) - dials (st s))
      ltac:(intros a b; pose proof (redial_step_sums c tag asked a b); cbv beta zeta in *; lia) rs (sock0 track)) as H.
    rewrite ?Z.mul_1_l in H. simpl in H. lia.
  - pose proof (fold_gain (redial_query c tag asked) (fun s => full (st s) + truncated (st s) + badRcode (st s) - replies (st s)) 0
      ltac:(intros a b; pose proof (redial_step_sums c tag asked a b); cbv beta zeta in *; lia) rs (sock0 track)) as H.
    rewrite ?Z.mul_1_l in H. simpl in H. lia.
  - rewrite (fold_gain _ offered 1); [rewrite Z.mul_1_l; simpl; lia|]. intros a b. by apply handshake_step_sums.
  - pose proof (fold_gain handshake_round (fun s => offered s - full s - closed s - failed s) 0
      ltac:(intros a b; pose proof (handshake_step_sums a b); cbv beta zeta in *; lia) hs stats0) as H.
    simpl in H. lia.
  - pose proof (fold_gain handshake_round (fun s => latLen s - full s) 0
      ltac:(intros a b; pose proof (handshake_step_sums a b); cbv beta zeta in *; lia) hs stats0) as H.
    cbv beta in H. change (latLen stats0 - full stats0) with 0 in H. lia.
Qed.

(** ** The stream reader *)

Fixpoint read_msgs (now : nat -> time) (i : nat) (msgs : list bytes) (s : sock) : sock :=
  match msgs with
  | [] => s
  | m :: rest => read_msgs now (S i) rest (tcp_read m (now i) s)
  end.

Lemma tcp_reader_frames msgs fuel c e stopped now i s :
  Forall (fun m => zlen m < 65536) msgs -> concat c = frames msgs ->
  (length (concat c) < fuel)%nat ->
  tcp_reader fuel c e stopped now i s =
    let s' := read_msgs now i msgs s in
    if isClose e && negb stopped then mkSock (seq_ s') (upd (st s') (Closed 1)) (tr s') else s'.
Proof.
  intros H. revert fuel c i s. induction H as [|m msgs Hm _ IH]; intros [|fuel] c i s Hc Hf; try lia.
  - cbn [tcp_reader]. rewrite read_frame_nil by done. done.
  - rewrite frames_cons in Hc. destruct (read_frame_app c m _ Hm Hc) as (c' & E & Hc').
    cbn [tcp_reader]. rewrite E. rewrite IH; [done|done|].
    apply read_frame_shrinks in E. lia.
Qed.

(** Whatever segments a stream of framed messages arrives in, the reader
    files each message once, in order, and counts the connection as closed by
    the server exactly when it ended by an end of file or a reset before the
    harness had asked the client to stop. *)
Theorem tcp_reader_stream msgs c e stopped now s :
  Forall (fun m => zlen m < 65536) msgs -> concat c = frames msgs ->
  let s' := read_msgs now 0 msgs s in
  let r := tcpReader c e stopped now s in
  closed (st r) = closed (st s') + (if isClose e && negb stopped then 1 else 0) /\
  replies (st r) = replies (st s') /\ full (st r) = full (st s') /\
  lat (st r) = lat (st s') /\ bytesIn (st r) = bytesIn (st s') /\ tr r = tr s'.
Proof.
  intros Hm Hc. cbv zeta. unfold tcpReader. rewrite (tcp_reader_frames msgs) by (done || lia). cbv zeta.
  destruct (st (read_msgs now 0 msgs s)) eqn:E.
  destruct (isClose e && negb stopped); simpl; rewrite ?E; simpl; split_and!; lia || done.
Qed.

Lemma tcp_reader_stream_witness :
  closed (st (tcpReader [[0]; 12 :: repeat 128 11; [128]] Reset_by_peer false (fun _ => 5) (sock0 true))) = 1 /\
  closed (st (tcpReader [[0]; 12 :: repeat 128 11; [128]] Reset_by_peer true (fun _ => 5) (sock0 true))) = 0.
Proof.
  split.
  - refine (proj1 (tcp_reader_stream [repeat 128 12] _ Reset_by_peer false (fun _ => 5) (sock0 true) _ _));
      [constructor; [reflexivity|constructor]|reflexivity].
  - refine (proj1 (tcp_reader_stream [repeat 128 12] _ Reset_by_peer true (fun _ => 5) (sock0 true) _ _));
      [constructor; [reflexivity|constructor]|reflexivity].
Defined.

(** ** Flat-out pacing *)

Section flat_out.
Context {S_ : Type} (send : nat -> S_ -> bool * S_) (ok_at : nat -> bool).
Hypothesis send_ok : forall i s, fst (send i s) = ok_at i.

Lemma burst_count n i s :
  let '(ok, i', _) := burst send n i s in
  (i <= i' <= i + n)%nat /\ (forall k, i <= k < i' -> ok = true \/ k <> pred i' -> ok_at k = true)%nat /\
  (ok = true -> i' = i + n)%nat /\ (ok = false -> i < i' /\ ok_at (pred i') = false)%nat.
Proof.
  revert i s. induction n as [|n IH]; intros i s; [simpl; split_and!; try lia; done|].
  cbn [burst]. pose proof (send_ok i s) as Hi. destruct (send i s) as [o s1]. simpl in Hi. subst o.
  destruct (ok_at i) eqn:E; cbn [negb].
  - specialize (IH (S i) s1). destruct (burst send n (S i) s1) as [[o i'] s2].
    destruct IH as (H1 & H2 & H3 & H4). split_and!; try lia.
    + intros k Hk Ho. destruct (decide (k = i)) as [->|]; [done|]. apply H2; [lia|done].
    + intros Ho. specialize (H3 Ho). lia.
    + intros Ho. destruct (H4 Ho). split; [lia|done].
  - split; [lia|]. split; [|split; [done|]].
    + intros k Hk [?|Hn]; [done|simpl in Hn; lia].
    + intros _. simpl. split; [lia|done].
Qed.

(** Rounds whose clock reading was before the end. *)
Fixpoint leading (until : time) (nows : list time) : nat :=
  match nows with
  | [] => 0
  | now :: rest => if now <? until then S (leading until rest) else 0
  end.

Lemma flat_out_count nows until i s :
  let n := fst (paceFlatOut send nows until i s) in
  (i <= n <= i + 64 * leading until nows)%nat /\
  (forall k, i <= k < pred n -> ok_at k = true)%nat /\
  (n = i + 64 * leading until nows \/ i < n /\ ok_at (pred n) = false)%nat.
Proof.
  revert i s. induction nows as [|now nows IH]; intros i s; cbn [paceFlatOut leading]; [simpl; split_and!; try lia; by left|].
  destruct (now <? until); [|simpl; split_and!; try lia; by left].
  pose proof (burst_count 64 i s) as Hb. destruct (burst send 64 i s) as [[o i'] s'].
  destruct Hb as (H1 & H2 & H3 & H4). destruct o.
  - specialize (H3 eq_refl). destruct (IH i' s') as (G1 & G2 & G3).
    cbv zeta. set (n := fst (paceFlatOut send nows until i' s')) in *. split; [lia|split].
    + intros k Hk. destruct (decide (k < i')%nat); [apply H2; [lia|by left]|]. apply G2. lia.
    + destruct G3 as [G3|[G3 G4]]; [left; lia|right; split; [lia|done]].
  - destruct (H4 eq_refl) as [G1 G2]. cbn [fst]. cbv zeta. split; [lia|split].
    + intros k Hk. apply H2; [lia|]. right. lia.
    + by right.
Qed.
End flat_out.

(** A flat-out client sends sixty-four times per clock reading before the
    end and no more, unless a send fails: then that send is its last, and every
    one before it had succeeded. *)
Theorem paceFlatOut_sends {S_ : Type} (send : nat -> S_ -> bool * S_) ok_at nows until s :
  (forall i s, fst (send i s) = ok_at i) ->
  let n := fst (paceFlatOut send nows until 0 s) in
  (n <= 64 * leading until nows)%nat /\
  (forall k, (k < pred n)%nat -> ok_at k = true) /\
  (n = 64 * leading until nows \/ 0 < n /\ ok_at (pred n) = false)%nat.
Proof.
  intros H. destruct (flat_out_count send ok_at H nows until 0 s) as (H1 & H2 & H3).
  cbv zeta. split_and!; [lia| |].
  - intros k Hk. apply H2. lia.
  - destruct H3 as [H3|H3]; [left; lia|by right].
Qed.

Lemma paceFlatOut_sends_witness :
  let n := fst (paceFlatOut (fun i (s : nat) => (negb (Nat.eqb i 70), S s)) [1; 2; 9; 3] 8 0 0%nat) in
  (n <= 128)%nat /\ n = 71%nat.
Proof.
  split; [|reflexivity].
  exact (proj1 (paceFlatOut_sends (fun i (s : nat) => (negb (Nat.eqb i 70), S s)) (fun i => negb (Nat.eqb i 70))
    [1; 2; 9; 3] 8 0%nat ltac:(done))).
Defined.
