(* ===== verification/RrlPace.v ===== *)
(** * [bench/cmd/rrlexp]: pacing, and the DoH client's requests

    [pace] and [paceAt] of [client.go] and, of [doh.go], the pacer, the tokens
    and the workers' shared sequence number, over any interleaving of their
    goroutines.  The credit of [paceAt] is Go's [float64]. *)

From S2P Require Import Prelude GoStrings GoFloat FloatFixed DnsWire RrlMock NetAddr RrlArms RrlStats RrlClient.

(** ** [paceAt]

    [send i] is the [i]-th send; a tick is a pass of the loop, with the two
    readings of the clock it takes: in its condition, and in [time.Until]. *)
Section pacing.
Context {S_ : Type} (send : nat -> S_ -> bool * S_).

Definition perTick (rate : Z) : float64 := fdiv (f_of_Z rate) (f_of_Z 1000).

(** [for credit >= 1]: a credit holds as many sends as its whole part, which is
    the fuel. *)
Fixpoint drain_go (fuel : nat) (credit : float64) (i : nat) (s : S_) : bool * float64 * nat * S_ :=
  match fuel with
  | O => (true, credit, i, s)
  | S fuel' =>
      if fle one credit then
        let '(ok, s') := send i s in
        if negb ok then (false, credit, S i, s') else drain_go fuel' (fsub credit one) (S i) s'
      else (true, credit, i, s)
  end.

Definition drain (credit : float64) : nat -> S_ -> bool * float64 * nat * S_ :=
  drain_go (S (Z.to_nat (trunc64 credit))) credit.

(** The loop: the sends made, the sleeps, and what the sends left. *)
Fixpoint pace_at (tick_credit : float64) (until : time) (ticks : list (time * time)) (next : time)
  (credit : float64) (i : nat) (s : S_) : nat * list duration * S_ :=
  match ticks with
  | [] => (i, [], s)
  | (now, mid) :: rest =>
      if now <? until then
        let '(ok, credit, i, s) := drain (fadd credit tick_credit) i s in
        if ok then
          let next := next + millisecond in
          let d := next - mid in
          let '(n, sleeps, s) := pace_at tick_credit until rest next credit i s in
          (n, (if 0 <? d then d :: sleeps else sleeps), s)
        else (i, [], s)
      else (i, [], s)
  end.

Definition paceAt (rate : Z) (until start : time) (ticks : list (time * time)) (s : S_)
  : nat * list duration * S_ :=
  pace_at (perTick rate) until ticks start (f_of_Z 0) 0 s.

(** [pace]: flat out at no rate, reading only the clock of its rounds. *)
Definition pace (rate : Z) (until start : time) (ticks : list (time * time)) (s : S_) : nat * S_ :=
  if rate <=? 0 then paceFlatOut send (map fst ticks) until 0 s
  else let '(n, _, s) := paceAt rate until start ticks s in (n, s).
End pacing.

Example paceAt_ex :
  let ticks := map (fun i => (Z.of_nat i * millisecond, Z.of_nat i * millisecond + 5)) (seq 0 60) in
  paceAt (fun i (s : nat) => (true, S s)) 50 (50 * millisecond) 0 ticks 0%nat =
    (2%nat, repeat (millisecond - 5) 50, 2%nat).
Proof. vm_compute. reflexivity. Qed.

(** ** How many sends *)

Section rate.
Context {S_ : Type} (send : nat -> S_ -> bool * S_) (ok_at : nat -> bool).
Hypothesis send_ok : forall i s, fst (send i s) = ok_at i.

Let unit_ : Z := 2 ^ fixed_point.

Lemma unit_pos : 0 < unit_.
Proof. done. Qed.

(** The sends one credit allows: all of its whole part, or up to the first that
    fails. *)
Lemma drain_go_spec fuel c i s :
  regular c -> fixed c < fixed_max -> (Z.to_nat (fixed c / unit_) < fuel)%nat ->
  let k := Z.to_nat (fixed c / unit_) in
  let '(ok, c', n, _) := drain_go send fuel c i s in
  (i <= n <= i + k)%nat /\ (forall j, i <= j < (if ok then n else pred n) -> ok_at j = true)%nat /\
  if ok then n = (i + k)%nat /\ regular c' /\ fixed c' = fixed c mod unit_
  else (i < n)%nat /\ ok_at (pred n) = false.
Proof.
  revert c i s. induction fuel as [|fuel IH]; intros c i s Hc Hm Hf; [lia|]. cbv zeta. cbn [drain_go].
  pose proof (regular_nonneg c Hc). rewrite fle_one by done. fold unit_.
  destruct (Z.leb_spec unit_ (fixed c)) as [Hge|Hlt].
  - destruct (fsub_one c Hc) as [Hr Hd]; [done|]. fold unit_ in Hd.
    assert (fixed c / unit_ = fixed (fsub c one) / unit_ + 1) as Eq.
    { rewrite Hd. replace (fixed c) with (fixed c - unit_ + 1 * unit_) at 1 by lia. by rewrite Z.div_add. }
    assert (0 <= fixed (fsub c one) / unit_) by (apply Z.div_pos; [lia|done]).
    pose proof (send_ok i s) as Hi. destruct (send i s) as [o s1]. cbn [fst] in Hi. subst o.
    destruct (ok_at i) eqn:Ei; cbn [negb].
    + specialize (IH (fsub c one) (S i) s1 Hr ltac:(rewrite Hd; pose proof unit_pos; lia) ltac:(lia)).
      cbv zeta in IH. destruct (drain_go send fuel (fsub c one) (S i) s1) as [[[ok c'] n] s'].
      destruct IH as (H1 & H2 & H3). split; [lia|]. split.
      * intros j Hj. destruct (decide (j = i)) as [->|]; [done|]. apply H2. destruct ok; lia.
      * destruct ok; [|destruct H3; split; [lia|done]]. destruct H3 as (-> & H4 & H5).
        split; [lia|]. split; [done|]. rewrite H5, Hd.
        replace (fixed c) with (fixed c - unit_ + 1 * unit_) at 2 by lia. by rewrite Z.mod_add.
    + split; [lia|]. split; [intros j Hj; simpl in Hj; lia|]. split; [lia|done].
  - rewrite (Z.div_small (fixed c)) by lia. split; [lia|]. split; [lia|].
    split; [lia|]. split; [done|]. by rewrite Z.mod_small.
Qed.

(** After [t] ticks of [P] units, [n] sends and a credit [c]: nothing lost but
    what the additions rounded. *)
Definition carry_inv (P : Z) (t n : Z) (c : Z) : Prop :=
  Z.abs (n * unit_ + c - t * P) * 2 ^ 52 <= t * (unit_ + P).

Lemma carried_tick P t n c c' :
  0 <= P -> 0 <= c < unit_ -> carry_inv P t n c -> near c' (c + P) -> carry_inv P (t + 1) n c'.
Proof. unfold carry_inv, near. intros. lia. Qed.

Section loop.
Context (p : float64) (Hp : regular p) (HP : 0 < fixed p) (Hm : fixed p < 2 ^ 160) (until : time).

Lemma tick_spec c i s :
  regular c -> fixed c < unit_ ->
  let '(ok, c', n, _) := drain send (fadd c p) i s in
  let f := fixed (fadd c p) in
  near f (fixed c + fixed p) /\ (i <= n)%nat /\ (Z.of_nat n - Z.of_nat i) * unit_ <= f /\
  (forall j, i <= j < (if ok then n else pred n) -> ok_at j = true)%nat /\
  if ok then regular c' /\ fixed c' < unit_ /\ fixed c' = f - (Z.of_nat n - Z.of_nat i) * unit_
  else (i < n)%nat /\ ok_at (pred n) = false.
Proof.
  intros Hc Hlt. pose proof (regular_nonneg c Hc).
  destruct (fadd_fixed c p Hc Hp HP) as [Hr Hn].
  { apply Z.lt_le_trans with (2 ^ 160 + unit_); [lia|vm_compute; done]. }
  pose proof (regular_nonneg _ Hr).
  assert (fixed (fadd c p) < fixed_max) as Hf.
  { apply Z.le_lt_trans with (2 * (unit_ + 2 ^ 160)); [unfold near in Hn; lia|vm_compute; done]. }
  unfold drain. rewrite trunc_fixed; [|done|apply Z.lt_trans with fixed_max; [done|vm_compute; done]].
  pose proof (drain_go_spec (S (Z.to_nat (fixed (fadd c p) / unit_))) (fadd c p) i s Hr Hf ltac:(lia)) as H2.
  cbv zeta in H2. destruct (drain_go _ _ _ _ _) as [[[ok c'] n] s']. destruct H2 as (H2 & H3 & H4).
  assert (0 <= fixed (fadd c p) / unit_) by (apply Z.div_pos; [lia|done]).
  pose proof (Z.div_mod (fixed (fadd c p)) unit_ ltac:(done)) as Hdm.
  pose proof (Z.mod_pos_bound (fixed (fadd c p)) unit_ ltac:(done)) as Hmod.
  pose proof unit_pos as Hu. cbv zeta. split; [done|]. split; [lia|]. split; [|split; [done|]].
  - apply Z.le_trans with (fixed (fadd c p) / unit_ * unit_); [apply Z.mul_le_mono_nonneg_r|]; lia.
  - destruct ok; [|done]. destruct H4 as (-> & H5 & ->). split; [done|]. split; [lia|].
    replace (Z.of_nat (i + _) - Z.of_nat i) with (fixed (fadd c p) / unit_) by lia. lia.
Qed.

(** What a run has sent when its clock has been read [T] times before the end,
    and whether it is short of that by a failed send. *)
Definition loop_result (T : Z) (i n : nat) : Prop :=
  (i <= n)%nat /\ (forall j, i <= j < pred n -> ok_at j = true)%nat /\
  exists t, 0 <= t <= T /\ (Z.of_nat n * unit_ - t * fixed p) * 2 ^ 52 <= t * (unit_ + fixed p) /\
    (t = T /\ (t * fixed p - Z.of_nat n * unit_ - unit_) * 2 ^ 52 <= t * (unit_ + fixed p) \/
     (i < n)%nat /\ ok_at (pred n) = false).

Lemma pace_at_result ticks next c i s t :
  0 <= t -> regular c -> fixed c < unit_ -> carry_inv (fixed p) t (Z.of_nat i) (fixed c) ->
  let '(n, _, _) := pace_at send p until ticks next c i s in
  loop_result (t + Z.of_nat (leading until (map fst ticks))) i n.
Proof.
  revert next c i s t. induction ticks as [|[now mid] rest IH]; intros next c i s t Ht Hc Hlt Hcar.
  all: pose proof (regular_nonneg c Hc); pose proof unit_pos as Hu.
  - cbn [pace_at map leading]. split; [lia|]. split; [lia|]. exists t. split; [lia|]. unfold carry_inv in Hcar.
    split; [lia|]. left. split; [lia|lia].
  - cbn [pace_at map leading fst]. destruct (now <? until).
    2: { split; [lia|]. split; [lia|]. exists t. split; [lia|]. unfold carry_inv in Hcar.
         split; [lia|]. left. split; lia. }
    pose proof (tick_spec c i s Hc Hlt) as Htick.
    destruct (drain send (fadd c p) i s) as [[[ok c'] n] s']. cbv zeta in Htick.
    destruct Htick as (Hn & Hi & Hk & Hok & Hend).
    pose proof (carried_tick _ _ _ _ _ (Z.lt_le_incl _ _ HP) (conj H Hlt) Hcar Hn) as Hcar'.
    destruct ok.
    + destruct Hend as (Hc' & Hlt' & Hf').
      assert (carry_inv (fixed p) (t + 1) (Z.of_nat n) (fixed c')) as Hcar2 by (unfold carry_inv in *; rewrite Hf'; lia).
      specialize (IH (next + millisecond) c' n s' (t + 1) ltac:(lia) Hc' Hlt' Hcar2).
      destruct (pace_at send p until rest _ c' n s') as [[n' sleeps] s2].
      destruct IH as (H1 & H2 & t' & H3 & H4 & H5). split; [lia|]. split.
      * intros j Hj. destruct (decide (j < n)%nat); [apply Hok|apply H2]; lia.
      * exists t'. split; [lia|]. split; [done|]. destruct H5 as [[-> H5]|[H5 H6]]; [left; split; [lia|done]|right; split; [lia|done]].
    + destruct Hend as [H1 H2]. split; [lia|]. split; [done|]. exists (t + 1). split; [lia|].
      split; [unfold carry_inv in Hcar'; lia|]. by right.
Qed.
End loop.
End rate.

(** The clock of a run that sleeps as [paceAt] asks: the reading after a sleep is
    no earlier than the tick that was slept for. *)
Fixpoint sleeps_kept (next earliest : time) (ticks : list (time * time)) : Prop :=
  match ticks with
  | [] => True
  | (now, mid) :: rest =>
      earliest <= now <= mid /\
      let next := next + millisecond in sleeps_kept next (if 0 <? next - mid then next else mid) rest
  end.

Lemma ticks_in_time ticks next earliest until :
  next <= earliest -> sleeps_kept next earliest ticks ->
  (leading until (map fst ticks) > 0)%nat ->
  next + (Z.of_nat (leading until (map fst ticks)) - 1) * millisecond < until.
Proof.
  revert next earliest. induction ticks as [|[now mid] rest IH]; intros next earliest Hle Hk Hn; [simpl in Hn; lia|].
  cbn [map leading fst] in *. destruct (Z.ltb_spec now until); [|lia]. destruct Hk as [Hm Hk].
  destruct (decide (leading until (map fst rest) = 0)%nat) as [E|E]; [rewrite E; lia|].
  cbv zeta in Hk. destruct (Z.ltb_spec 0 (next + millisecond - mid));
    specialize IH with (2 := Hk); specialize (IH ltac:(lia) ltac:(lia)); lia.
Qed.

(** The bounds in units, read as bounds on the sends. *)
Lemma rate_bounds N rate P t n :
  0 <= t <= N -> 0 < rate -> N * (rate + 1000) < 2 ^ 50 ->
  near (1000 * P) (rate * 2 ^ fixed_point) ->
  ((n * 2 ^ fixed_point - t * P) * 2 ^ 52 <= t * (2 ^ fixed_point + P) -> 1000 * n <= t * rate) /\
  ((t * P - n * 2 ^ fixed_point - 2 ^ fixed_point) * 2 ^ 52 <= t * (2 ^ fixed_point + P) ->
     t * rate - 1000 <= 1000 * n).
Proof.
  intros Ht Hr HN Hnear. unfold near in Hnear. set (U := 2 ^ fixed_point) in *.
  assert (HU : U = 1298074214633706907132624082305024) by done.
  assert (t * (rate + 1000) < 2 ^ 50) as Hs.
  { apply Z.le_lt_trans with (N * (rate + 1000)); [apply Z.mul_le_mono_nonneg_r; lia|done]. }
  assert (Z.abs (1000 * (t * P) - t * rate * U) * 2 ^ 52 <= t * rate * U) as Hx.
  { replace (1000 * (t * P) - t * rate * U) with (t * (1000 * P - rate * U)) by lia.
    rewrite Z.abs_mul, (Z.abs_eq t), <- !Z.mul_assoc by lia. apply Z.mul_le_mono_nonneg_l; lia. }
  assert (0 <= t * rate) by (apply Z.mul_nonneg_nonneg; lia).
  assert (t * (U + P) = t * U + t * P) as -> by lia. assert (t * (rate + 1000) = t * rate + 1000 * t) as E by lia.
  rewrite E in Hs. set (X := t * P) in *. set (Y := t * rate) in *. clearbody X Y. rewrite HU in *. clear HU U E HN.
  split; lia.
Qed.

(** A paced client holds its rate.  In [N] ticks it makes at most [rate] times
    [N] thousandths of a send, and no more than one send fewer -- whatever the
    rate, however the [float64] credit rounds, up to [2^50] thousandths -- unless
    a send fails, which is then its last.  When the clock is read as the sleeps
    leave it, the ticks are no more than the milliseconds of the window begun. *)
Theorem paceAt_rate {S_ : Type} (send : nat -> S_ -> bool * S_) ok_at rate until start ticks s :
  (forall i s, fst (send i s) = ok_at i) ->
  let N := Z.of_nat (leading until (map fst ticks)) in
  0 < rate -> N * (rate + 1000) < 2 ^ 50 -> sleeps_kept start start ticks ->
  let n := Z.of_nat (fst (fst (paceAt send rate until start ticks s))) in
  1000 * n <= N * rate /\
  (N * rate - 1000 <= 1000 * n \/ 0 < n /\ ok_at (pred (Z.to_nat n)) = false) /\
  (forall j, (j < pred (Z.to_nat n))%nat -> ok_at j = true) /\
  (0 < N -> (N - 1) * millisecond < until - start).
Proof.
  intros Hs N Hrate HN Hk. cbv zeta. assert (0 < N -> (N - 1) * millisecond < until - start) as HT.
  { intros Hp. pose proof (ticks_in_time ticks start start until ltac:(lia) Hk ltac:(lia)). lia. }
  destruct (Z.eq_dec N 0) as [Hz|Hnz].
  { assert (fst (fst (paceAt send rate until start ticks s)) = 0%nat) as ->; [|rewrite Hz; split_and!; [lia|left; lia|simpl; lia|lia]].
    destruct ticks as [|[now mid] rest]; [done|]. unfold paceAt. cbn [pace_at]. unfold N in Hz.
    cbn [map leading fst] in Hz. destruct (now <? until); [lia|done]. }
  assert (rate < 2 ^ 50) as Hhi by nia.
  destruct (fdiv_1000 rate ltac:(lia)) as [Hp Hnear]. fold (perTick rate) in Hp, Hnear.
  pose proof (regular_nonneg _ Hp) as HP.
  assert (0 < fixed (perTick rate) < 2 ^ 160) as [HP1 HP2].
  { unfold near in Hnear. change (2 ^ fixed_point) with 1298074214633706907132624082305024 in Hnear. lia. }
  pose proof (pace_at_result send ok_at Hs (perTick rate) Hp HP1 HP2 until ticks start (f_of_Z 0) 0 s 0
    ltac:(lia) eq_refl ltac:(done) ltac:(done)) as H.
  unfold paceAt. destruct (pace_at _ _ _ _ _ _ _ _) as [[n sleeps] s']. cbn [fst].
  destruct H as (_ & Hok & t & Ht & Hup & Hlow). rewrite Z.add_0_l in *. fold N in Ht, Hlow.
  rewrite Nat2Z.id.
  destruct (rate_bounds N rate (fixed (perTick rate)) t (Z.of_nat n) Ht Hrate HN Hnear) as [R1 R2].
  split; [apply Z.le_trans with (t * rate); [by apply R1|apply Z.mul_le_mono_nonneg_r; lia]|].
  split; [|split; [intros j Hj; apply Hok; lia|done]].
  destruct Hlow as [[-> Hlow]|[Hlow1 Hlow2]]; [left; by apply R2|right; split; [lia|done]].
Qed.

Definition ex_ticks : list (time * time) :=
  [(0, 100); (millisecond, millisecond + 200); (2 * millisecond, 4 * millisecond); (4 * millisecond, 4 * millisecond + 5)].

(** Two and a half sends a tick, three ticks, the last of them late. *)
Lemma paceAt_rate_witness :
  let n := Z.of_nat (fst (fst (paceAt (fun _ (s : nat) => (true, S s)) 2500 (3 * millisecond) 0 ex_ticks 0%nat))) in
  n = 7 /\ 1000 * n <= 3 * 2500 /\ (3 * 2500 - 1000 <= 1000 * n \/ 0 < n /\ true = false).
Proof.
  split; [vm_compute; reflexivity|].
  destruct (paceAt_rate (fun _ (s : nat) => (true, S s)) (fun _ => true) 2500 (3 * millisecond) 0 ex_ticks 0%nat
    ltac:(done) ltac:(lia) ltac:(vm_compute; done) ltac:(vm_compute; intuition congruence)) as (H1 & H2 & _).
  exact (conj H1 H2).
Defined.
