(* ===== verification/RrlConns.v ===== *)
(** * [bench/cmd/rrlexp]: a UDP, TCP or DoT client with all its sockets

    [runUDP] and [runStream] of [client.go] once their sockets are open: a writer
    and a reader for each, all counting in one [stats], in any interleaving of
    their turns.  What one turn does is [udp_send], [tcp_send], [udp_read] or
    [tcp_read] of [RrlClient]; here are the goroutines' ends, the client's and
    what the sockets share. *)

From S2P Require Import Prelude GoStrings GoFloat DnsWire Framing RrlMock NetAddr RrlArms RrlStats RrlClient RrlPace.

(** ** The machine *)

(** A socket: the index its writer names queries with, the number the writer has
    reached, the tracker both goroutines use, and whether each still runs. *)
Record socket : Type := mkSocket {
  k_idx : Z; k_seq : Z; k_tr : tracker; k_writing : bool; k_reading : bool
}.

(** A client: its counters, its sockets, whether it was told to stop, and the
    queries it has written, by index and number. *)
Record conns : Type := mkConns {
  cs_st : stats; cs_socks : list socket; cs_stopped : bool; cs_asked : list (Z * Z)
}.

Inductive conns_event : Type :=
  | Sends (i : nat) (now : time) (written : option Z)    (** one call of the writer's send *)
  | PaceEnds (i : nat)
  | Receives (i : nat) (msg : bytes) (now : time)
  | ReadEnds (i : nat) (how : option stream_end)         (** [None]: in the body of a message *)
  | Stops.

(** A socket's two goroutines as they start. *)
Definition new_socket (track : bool) (idx : Z) : socket := mkSocket idx 0 (newTracker track) true true.

(** [runUDP], all its sockets open. *)
Definition udp_start (c : clientSpec) (track : bool) : conns :=
  mkConns stats0 (map (fun i => new_socket track (Z.of_nat i)) (seq 0 (Z.to_nat (sockets c)))) false [].

(** [runStream]'s loop over its dials, the next of them the [i]-th. *)
Fixpoint opened (track : bool) (i : Z) (dials : list bool) : list socket :=
  match dials with
  | [] => []
  | ok :: rest => (if ok then [new_socket track i] else []) ++ opened track (i + 1) rest
  end.

(** [runStream]: [None] where no connection could be had. *)
Definition stream_start (track : bool) (dials : list bool) : option conns :=
  match runStream dials stats0 with
  | None => None
  | Some (_, s) => Some (mkConns s (opened track 0 dials) false [])
  end.

(** A client of [c] as its goroutines start, over what its dials met. *)
Definition conns_start (stream : bool) (c : clientSpec) (track : bool) (dials : list bool) : option conns :=
  if stream then stream_start track dials else Some (udp_start c track).

Section client.
Context (stream : bool) (c : clientSpec) (tag : string).

(** What a goroutine of the socket works on. *)
Definition sock_of (s : conns) (k : socket) : sock := mkSock (k_seq k) (cs_st s) (k_tr k).

Definition put_socket (s : conns) (i : nat) (st' : stats) (k : socket) (asked : list (Z * Z)) : conns :=
  mkConns st' (<[i := k]> (cs_socks s)) (cs_stopped s) (cs_asked s ++ asked).

(** The writer's send, which ends the writer when it fails. *)
Definition sends (s : conns) (i : nat) (k : socket) (now : time) (written : option Z) : conns :=
  let '(ok, s') :=
    if stream then tcp_send c (k_idx k) tag now (bool_decide (is_Some written)) (sock_of s k)
    else udp_send c (k_idx k) tag now written (sock_of s k) in
  put_socket s i (st s') (mkSocket (k_idx k) (seq_ s') (tr s') ok (k_reading k))
    (if ok then [(k_idx k, seq_ s')] else []).

Definition receives (s : conns) (i : nat) (k : socket) (msg : bytes) (now : time) : conns :=
  let s' := if stream then tcp_read msg now (sock_of s k) else udp_read msg now (sock_of s k) in
  put_socket s i (st s') (mkSocket (k_idx k) (k_seq k) (tr s') (k_writing k) (k_reading k)) [].

(** The end of a reader: a stream that ended by itself in front of a message is
    counted, a socket that was closed is not. *)
Definition read_ends (s : conns) (i : nat) (k : socket) (how : option stream_end) : conns :=
  let st' := match how with
             | Some e => if stream && isClose e && negb (cs_stopped s) then upd (cs_st s) (Closed 1) else cs_st s
             | None => cs_st s
             end in
  put_socket s i st' (mkSocket (k_idx k) (k_seq k) (k_tr k) (k_writing k) false) [].

Definition on_socket (s : conns) (i : nat) (running : socket -> bool) (f : socket -> conns) : option conns :=
  match cs_socks s !! i with
  | Some k => if running k then Some (f k) else None
  | None => None
  end.

Definition conns_step (s : conns) (e : conns_event) : option conns :=
  match e with
  | Sends i now written => on_socket s i k_writing (fun k => sends s i k now written)
  | PaceEnds i =>
      on_socket s i k_writing (fun k =>
        put_socket s i (cs_st s) (mkSocket (k_idx k) (k_seq k) (k_tr k) false (k_reading k)) [])
  | Receives i msg now => on_socket s i k_reading (fun k => receives s i k msg now)
  | ReadEnds i how => on_socket s i k_reading (fun k => read_ends s i k how)
  | Stops => Some (mkConns (cs_st s) (cs_socks s) true (cs_asked s))
  end.

Fixpoint conns_run (s : conns) (es : list conns_event) : option conns :=
  match es with
  | [] => Some s
  | e :: es => match conns_step s e with Some s => conns_run s es | None => None end
  end.
End client.

(** What the function the client returns waits for: it closes the sockets, which
    ends the readers, and waits for every goroutine. *)
Definition conns_done (s : conns) : Prop :=
  cs_stopped s = true /\ Forall (fun k => k_writing k = false /\ k_reading k = false) (cs_socks s).

Example conns_ex :
  let c := client [Transport "tcp"; Sockets 3] in
  let run es := option_map (fun s => (cs_st s, cs_asked s))
    (match stream_start true [true; false; true] with Some s => conns_run true c "vic" s es | None => None end) in
  run [Sends 1 5 (Some 0); Sends 0 6 (Some 0); Sends 1 7 None; ReadEnds 1 (Some CleanEOF); Stops; ReadEnds 0 (Some CleanEOF)]
    = Some (upd (upd (upd (upd (upd (upd stats0 (Failed 1)) (Offered 1)) (BytesOut 48)) (Offered 1)) (BytesOut 48)) (Closed 1),
            [(2, 1); (0, 1)]) /\
  run [Sends 1 7 None; Sends 1 8 (Some 0)] = None.
Proof. vm_compute. done. Qed.

(** ** What the counters come to *)

(** The replies filed by a client that tracks, or does not, what it asks. *)
Record reply_sums (track : bool) (s : stats) : Prop := {
  rs_parts : replies s = full s + truncated s + badRcode s;
  rs_rcodes : msum (rcodes s) = replies s;
  rs_lat : latLen s <= full s;
  rs_untracked : track = false -> lat s = []
}.

(** A client of sockets counts nothing else. *)
Definition socket_sums (track : bool) (s : stats) : Prop :=
  reply_sums track s /\ refused s = 0 /\ dials s = 0 /\ statuses s = ∅.

(** Queries a tracker still waits for. *)
Definition pending (t : tracker) : Z := Z.of_nat (size (sent t)).

Lemma put_pending t q now : tr_on (put t q now) = tr_on t /\ pending (put t q now) <= pending t + 1.
Proof.
  unfold put, pending. destruct (tr_on t) eqn:E; simpl; [|split; [done|lia]]. split; [done|].
  rewrite map_size_insert. destruct (sent t !! q); unfold id; lia.
Qed.

Lemma took_pending t q now :
  let '(d, t') := took t q now in
  tr_on t' = tr_on t /\ zlen (option_list d) + pending t' <= pending t /\ (tr_on t = false -> d = None).
Proof.
  unfold took, pending, zlen. destruct (tr_on t) eqn:E; cbn [negb]; [|split_and!; [done|simpl; lia|done]].
  destruct (sent t !! q) as [x|] eqn:Ex; cbn [tr_on sent option_list length]; (split_and!; [done| |done]).
  - assert (size (sent t) <> 0)%nat by (intros H%map_size_empty_inv; rewrite H, lookup_empty in Ex; done).
    rewrite map_size_delete_Some by done. simpl. lia.
  - rewrite map_size_delete_None by done. simpl. lia.
Qed.

(** Filing a reply. *)
Lemma record_sums track s size rep t now :
  tr_on t = track -> reply_sums track s ->
  let '(s', t') := record s size rep t now in
  reply_sums track s' /\ tr_on t' = track /\ latLen s' + pending t' <= latLen s + pending t /\
  offered s' = offered s /\ failed s' = failed s /\ closed s' = closed s /\
  refused s' = refused s /\ dials s' = dials s /\ statuses s' = statuses s.
Proof.
  intros Ht [H1 H2 H3 H4]. destruct (record s size rep t now) as [s' t'] eqn:E.
  apply record_fields in E as (E1 & E2 & E3 & E4 & _ & E6 & E7 & E8 & E9 & _ & E11 & E12 & E13 & E14 & E15).
  pose proof (took_pending t (rID rep) now) as Hp. destruct (took t (rID rep) now) as [d t1].
  cbn [fst snd] in *. destruct Hp as (Ho & Hp & Hd).
  assert (Hl : zlen (if is_full rep then option_list d else []) <= zlen (option_list d))
    by (destruct (is_full rep); [done|unfold zlen; simpl; lia]).
  assert (Hone : zlen (if is_full rep then option_list d else []) <= (if is_full rep then 1 else 0))
    by (destruct (is_full rep); [by destruct d|done]).
  split; [split|split_and!]; try congruence; unfold latLen in *; rewrite ?E7, ?zlen_app; subst t'; try lia.
  - unfold is_full, is_bad in *. destruct (rTruncated rep), (rRcode rep =? 0); simpl in *; lia.
  - rewrite E6. unfold bump. rewrite msum_count. lia.
  - intros ->. rewrite H4 by done. rewrite Hd by done. by destruct (is_full rep).
Qed.

(** ** The invariant of a client *)

Definition quit (k : socket) : Z := if k_writing k then 0 else 1.
Definition over (k : socket) : Z := if k_reading k then 0 else 1.
Definition waiting (k : socket) : Z := pending (k_tr k).

(** [fails]: the dials that gave no connection. *)
Record conns_inv (stream track : bool) (fails : Z) (idxs : list Z) (s : conns) : Prop := {
  ci_idx : map k_idx (cs_socks s) = idxs;
  ci_seq : Forall (fun k => 0 <= k_seq k) (cs_socks s);
  ci_track : Forall (fun k => tr_on (k_tr k) = track) (cs_socks s);
  ci_asked : forall i q, (i, q) ∈ cs_asked s -> exists k, k ∈ cs_socks s /\ k_idx k = i /\ 1 <= q <= k_seq k;
  ci_once : NoDup (cs_asked s);
  ci_sent : zsum (map k_seq (cs_socks s)) <= zlen (cs_asked s) + zsum (map quit (cs_socks s));
  ci_lat : latLen (cs_st s) + zsum (map waiting (cs_socks s)) <= zsum (map k_seq (cs_socks s));
  ci_closed : 0 <= closed (cs_st s) <= if stream then zsum (map over (cs_socks s)) else 0;
  ci_counts : offered (cs_st s) = zlen (cs_asked s) /\ failed (cs_st s) = fails;
  ci_sums : socket_sums track (cs_st s)
}.

(** What a turn of a goroutine of socket [k] may make of it and of the
    counters. *)
Record turn (stream track : bool) (s : conns) (k k' : socket) (st' : stats) (asked : list (Z * Z)) : Prop := {
  tu_idx : k_idx k' = k_idx k;
  tu_track : tr_on (k_tr k') = tr_on (k_tr k);
  tu_asked : asked = [] \/ asked = [(k_idx k, k_seq k')] /\ k_seq k' = k_seq k + 1;
  tu_seq : 0 <= k_seq k' - k_seq k <= zlen asked + (quit k' - quit k);
  tu_lat : latLen st' - latLen (cs_st s) + (waiting k' - waiting k) <= k_seq k' - k_seq k;
  tu_closed : 0 <= closed st' - closed (cs_st s) <= if stream then over k' - over k else 0;
  tu_counts : offered st' = offered (cs_st s) + zlen asked /\ failed st' = failed (cs_st s);
  tu_sums : socket_sums track (cs_st s) -> socket_sums track st'
}.

Section turns.
Context (stream track : bool) (fails : Z) (idxs : list Z) (Hidxs : NoDup idxs).

Lemma inv_turn s i k k' st' asked :
  conns_inv stream track fails idxs s -> cs_socks s !! i = Some k -> turn stream track s k k' st' asked ->
  conns_inv stream track fails idxs (put_socket s i st' k' asked).
Proof.
  intros [H1 H2 H3 H4 H5 H6 H7 H8 [H9 H10] H11] Hi [T1 T2 T3 T4 T5 T6 [T7 T8] T9].
  pose proof (Forall_lookup_1 _ _ _ _ H2 Hi) as Hk. cbv beta in Hk.
  assert (forall x, x ∈ cs_socks s -> k_idx x = k_idx k -> x = k) as Huniq.
  { intros x [j Hj]%list_elem_of_lookup Hx.
    assert (j = i) as ->; [|congruence]. rewrite <- H1 in Hidxs.
    eapply (NoDup_lookup _ _ _ (k_idx k) Hidxs); rewrite list_lookup_fmap; [rewrite Hj|rewrite Hi]; simpl; congruence. }
  assert (forall x, x ∈ cs_socks s -> exists y, y ∈ <[i := k']> (cs_socks s) /\ k_idx y = k_idx x /\ k_seq x <= k_seq y) as Hin.
  { intros x [j Hj]%list_elem_of_lookup. destruct (decide (j = i)) as [->|Hne].
    - rewrite Hi in Hj. injection Hj as <-. exists k'. split; [|split; [done|lia]].
      eapply list_elem_of_lookup_2, list_lookup_insert_eq, lookup_lt_Some, Hi.
    - exists x. split; [|done]. eapply (list_elem_of_lookup_2 _ j). by rewrite list_lookup_insert_ne. }
  split; cbn [put_socket cs_st cs_socks cs_asked];
    rewrite ?zlen_app, ?(zsum_map_insert k_seq _ _ _ k' Hi), ?(zsum_map_insert quit _ _ _ k' Hi),
      ?(zsum_map_insert over _ _ _ k' Hi), ?(zsum_map_insert waiting _ _ _ k' Hi); try lia.
  - rewrite list_fmap_insert, list_insert_id; [done|]. by rewrite list_lookup_fmap, Hi, T1.
  - apply Forall_insert; [done|lia].
  - apply Forall_insert; [done|]. rewrite T2. exact (Forall_lookup_1 _ _ _ _ H3 Hi).
  - intros j q [Hq|Hq]%elem_of_app.
    + destruct (H4 _ _ Hq) as (x & Hx & <- & Hr). destruct (Hin x Hx) as (y & Hy & Ey & Hle). exists y. split_and!; [done|done|lia..].
    + destruct T3 as [->|[-> E]]; [by apply elem_of_nil in Hq|]. apply list_elem_of_singleton in Hq as [= -> ->].
      exists k'. split_and!; [|done|lia|lia]. eapply list_elem_of_lookup_2, list_lookup_insert_eq, lookup_lt_Some, Hi.
  - destruct T3 as [->|[-> E]]; [by rewrite app_nil_r|]. apply NoDup_app. split; [done|]. split; [|apply NoDup_singleton].
    intros [j q] Hq [= -> ->]%list_elem_of_singleton. destruct (H4 _ _ Hq) as (x & Hx & Ex & Hr).
    apply Huniq in Hx as ->; [lia|done].
  - destruct stream; lia.
  - by apply T9.
Qed.

(** A turn that files nothing. *)
Lemma turn_idle s k k' st' :
  k_idx k' = k_idx k -> k_tr k' = k_tr k -> k_seq k' = k_seq k ->
  quit k <= quit k' -> over k <= over k' ->
  st' = cs_st s \/ st' = upd (cs_st s) (Closed 1) /\ stream = true /\ over k' = over k + 1 ->
  turn stream track s k k' st' [].
Proof.
  intros E1 E2 E3 Hq Ho Hst.
  assert (latLen st' = latLen (cs_st s) /\ offered st' = offered (cs_st s) /\ failed st' = failed (cs_st s) /\
    (socket_sums track (cs_st s) -> socket_sums track st') /\
    0 <= closed st' - closed (cs_st s) <= if stream then over k' - over k else 0) as (G1 & G2 & G3 & G4 & G5).
  { destruct Hst as [->|(-> & -> & Eo)]; [split_and!; try done; try lia; destruct stream; lia|].
    rewrite Eo. destruct (cs_st s). unfold latLen. simpl. split_and!; try done; try lia. by intros [[] ?]; split; [split|]. }
  split; unfold waiting; rewrite ?E1, ?E2, ?E3, ?G1; try done; try by left.
  all: change (zlen (@nil (Z * Z))) with 0; lia.
Qed.

Lemma sends_turn c tag s i k now written :
  k_writing k = true ->
  exists k' st' asked, sends stream c tag s i k now written = put_socket s i st' k' asked /\ turn stream track s k k' st' asked.
Proof.
  intros Hw. unfold sends.
  enough (forall (ok : bool) (st' : stats) (w : Z),
      (if ok then exists b, st' = upd (upd (cs_st s) (Offered 1)) (BytesOut b) else st' = cs_st s) ->
      turn stream track s k (mkSocket (k_idx k) (k_seq k + 1) (put (k_tr k) w now) ok (k_reading k)) st'
        (if ok then [(k_idx k, k_seq k + 1)] else [])) as H.
  { unfold tcp_send, udp_send, sock_of. cbn [seq_ st tr].
    destruct stream, written as [n|]; cbn [negb bool_decide decide is_Some_dec decide_rel]; eexists _, _, _;
      (split; [reflexivity|]); apply H; eauto. }
  clear written. intros ok st' w Hst. pose proof (put_pending (k_tr k) w now) as [Hp1 Hp2].
  assert (latLen st' = latLen (cs_st s) /\ offered st' = offered (cs_st s) + (if ok then 1 else 0) /\
    failed st' = failed (cs_st s) /\ closed st' = closed (cs_st s) /\ (socket_sums track (cs_st s) -> socket_sums track st'))
    as (G1 & G2 & G3 & G4 & G5).
  { destruct ok; [destruct Hst as [b ->]|subst st'; split_and!; try done; lia].
    destruct (cs_st s). unfold latLen. simpl. split_and!; try done. by intros [[] ?]; split; [split|]. }
  split; unfold waiting, quit, over; cbn [k_idx k_seq k_tr k_writing k_reading]; rewrite ?Hw; try done; try lia.
  - destruct ok; [right|left]; done.
  - destruct ok; unfold zlen; simpl; lia.
  - rewrite G4. destruct stream; lia.
  - destruct ok; unfold zlen; simpl; lia.
Qed.

Lemma receives_turn s i k msg now :
  tr_on (k_tr k) = track -> socket_sums track (cs_st s) ->
  exists k' st', receives stream s i k msg now = put_socket s i st' k' [] /\ turn stream track s k k' st' [].
Proof.
  intros Ht Hs. unfold receives.
  enough (forall sz, let s' := match ParseReply msg with
                             | Err _ => sock_of s k
                             | Ok rep => let '(st', t') := record (cs_st s) sz rep (k_tr k) now in mkSock (k_seq k) st' t'
                             end in
    turn stream track s k (mkSocket (k_idx k) (k_seq k) (tr s') (k_writing k) (k_reading k)) (st s') []) as H.
  { eexists _, _. split; [reflexivity|]. unfold tcp_read, udp_read. cbn [sock_of seq_ st tr]. destruct stream; apply H. }
  intros sz. destruct (ParseReply msg) as [rep|]; cbn [sock_of st tr].
  - destruct Hs as (Hs & Hs1 & Hs2 & Hs3). pose proof (record_sums track (cs_st s) sz rep (k_tr k) now Ht Hs) as Hr.
    destruct (record _ _ rep _ now) as [st' t']. destruct Hr as (R1 & R2 & R3 & R4 & R5 & R6 & R7 & R8 & R9). cbn [st tr].
    split; unfold waiting, quit, over; cbn [k_idx k_seq k_tr k_writing k_reading];
      change (zlen (@nil (Z * Z))) with 0; try done; try lia.
    + congruence.
    + by left.
    + rewrite R6. destruct stream; lia.
    + intros _. split; [done|]. by rewrite R7, R8, R9.
  - apply turn_idle; try done. by left.
Qed.
End turns.

Lemma conns_step_inv stream track fails idxs c tag s e s' :
  NoDup idxs -> conns_inv stream track fails idxs s -> conns_step stream c tag s e = Some s' ->
  conns_inv stream track fails idxs s'.
Proof.
  intros Hn Hi.
  assert (forall i running f, on_socket s i running f = Some s' ->
    exists k, cs_socks s !! i = Some k /\ running k = true /\ f k = s') as Hon.
  { intros i running f. unfold on_socket. destruct (cs_socks s !! i) as [k|]; [|done].
    destruct (running k) eqn:E; [|done]. intros [= <-]. by exists k. }
  destruct e as [i now w|i|i msg now|i how|]; cbn [conns_step]; [intros (k & Hk & Hr & <-)%Hon..|].
  - destruct (sends_turn stream track c tag s i k now w Hr) as (k' & st' & asked & -> & Ht).
    by eapply inv_turn.
  - eapply inv_turn; [done|done|exact Hk|]. apply turn_idle; unfold quit, over; rewrite ?Hr; simpl; try done. by left.
  - destruct (receives_turn stream track s i k msg now) as (k' & st' & -> & Ht);
      [exact (Forall_lookup_1 _ _ _ _ (ci_track _ _ _ _ _ Hi) Hk)|by destruct Hi|]. by eapply inv_turn.
  - eapply inv_turn; [done|done|exact Hk|]. apply turn_idle; unfold quit, over; rewrite ?Hr; simpl; try done.
    destruct how as [e|]; [|by left]. destruct (stream && isClose e && negb (cs_stopped s)) eqn:E; [|by left].
    b2p. right. split_and!; done.
  - intros [= <-]. by destruct Hi.
Qed.

Lemma conns_run_inv stream track fails idxs c tag s es s' :
  NoDup idxs -> conns_inv stream track fails idxs s -> conns_run stream c tag s es = Some s' ->
  conns_inv stream track fails idxs s'.
Proof.
  intros Hn. revert s. induction es as [|e es IH]; intros s Hi; cbn [conns_run]; [by intros [= <-]|].
  destruct (conns_step stream c tag s e) as [s1|] eqn:E; [|done]. apply IH. by eapply conns_step_inv.
Qed.

(** ** From the start *)

Lemma opened_idx track i dials :
  Forall (fun k => i <= k_idx k < i + zlen dials) (opened track i dials) /\ NoDup (map k_idx (opened track i dials)) /\
  Forall (fun k => exists j, k = new_socket track j) (opened track i dials).
Proof.
  revert i. induction dials as [|ok dials IH]; intros i; cbn [opened]; [repeat constructor|].
  destruct (IH (i + 1)) as (H1 & H2 & H3). rewrite zlen_cons. pose proof (zlen_nonneg dials).
  assert (Forall (fun k => i <= k_idx k < i + (1 + zlen dials)) (opened track (i + 1) dials)) as H1'
    by (eapply Forall_impl; [exact H1|]; simpl; intros; lia).
  destruct ok; cbn [app map]; [|done]. split_and!.
  - constructor; [simpl; lia|done].
  - constructor; [|done]. intros (k & Ek & Hk)%list_elem_of_fmap. rewrite Forall_forall in H1. apply H1 in Hk.
    simpl in Ek. lia.
  - constructor; [by exists i|done].
Qed.

Lemma stream_dials_opened track i dials s :
  let '(n, s') := stream_dials dials s in
  n = zlen (opened track i dials) /\ s' = upd s (Failed (zlen dials - n)).
Proof.
  revert i s. induction dials as [|ok dials IH]; intros i s; cbn [stream_dials opened].
  { split; [done|]. destruct s. simpl. by rewrite Z.add_0_r. }
  destruct ok; cbn [negb app].
  - specialize (IH (i + 1) s). destruct (stream_dials dials s) as [n s']. destruct IH as [-> ->].
    rewrite !zlen_cons. split; [lia|]. f_equal. f_equal. lia.
  - specialize (IH (i + 1) (upd s (Failed 1))). destruct (stream_dials dials _) as [n s']. destruct IH as [-> ->].
    split; [done|]. rewrite zlen_cons. destruct s. simpl. f_equal. lia.
Qed.

(** Sockets that have done nothing yet. *)
Lemma inv_fresh stream track socks fails :
  NoDup (map k_idx socks) -> Forall (fun k => exists j, k = new_socket track j) socks ->
  conns_inv stream track fails (map k_idx socks) (mkConns (upd stats0 (Failed fails)) socks false []).
Proof.
  intros Hn Hf.
  assert (forall f, (forall j, f (new_socket track j) = 0) -> zsum (map f socks) = 0) as Hz.
  { intros f H. apply zsum_map_zero. eapply Forall_impl; [exact Hf|]. intros k [j ->]. apply H. }
  split; cbn [cs_st cs_socks cs_asked]; rewrite ?(Hz k_seq), ?(Hz quit), ?(Hz over), ?(Hz waiting) by done; try done.
  - eapply Forall_impl; [exact Hf|]. by intros k [j ->].
  - eapply Forall_impl; [exact Hf|]. by intros k [j ->].
  - intros i q H. by apply elem_of_nil in H.
  - constructor.
  - simpl. destruct stream; lia.
Qed.

Lemma start_inv stream c track dials s0 :
  conns_start stream c track dials = Some s0 -> length dials = Z.to_nat (sockets c) ->
  exists fails, conns_inv stream track fails (map k_idx (cs_socks s0)) s0 /\ NoDup (map k_idx (cs_socks s0)) /\
    zlen (cs_socks s0) + fails = Z.max 0 (sockets c) /\ Forall (fun k => 0 <= k_idx k < sockets c) (cs_socks s0) /\
    0 <= fails /\ (stream = false -> fails = 0) /\ (stream = true -> cs_socks s0 <> []).
Proof.
  unfold conns_start, stream_start, runStream. destruct stream; intros Hs Hl.
  - pose proof (stream_dials_opened track 0 dials stats0) as Hd. destruct (stream_dials dials stats0) as [n s'].
    destruct Hd as [-> ->]. destruct (zlen (opened track 0 dials) =? 0) eqn:En; [done|]. injection Hs as <-.
    destruct (opened_idx track 0 dials) as (H1 & H2 & H3). exists (zlen dials - zlen (opened track 0 dials)).
    cbn [cs_socks]. b2p. split; [by apply inv_fresh|]. split; [done|]. unfold zlen in *. split_and!; try done; try lia.
    + eapply Forall_impl; [exact H1|]. simpl. unfold zlen. lia.
    + clear -dials. enough (forall i, (length (opened track i dials) <= length dials)%nat) as H by (specialize (H 0); lia).
      induction dials as [|[] dials IH]; intros i; cbn [opened app length]; [lia|specialize (IH (i + 1)); lia..].
    + intros _ E. by rewrite E in En.
  - injection Hs as <-. exists 0. unfold udp_start. cbn [cs_socks].
    set (socks := map (fun i : nat => new_socket track (Z.of_nat i)) _).
    assert (map k_idx socks = map Z.of_nat (seq 0 (Z.to_nat (sockets c)))) as E
      by (unfold socks; rewrite map_map; by apply map_ext).
    assert (NoDup (map k_idx socks)) as Hn by (rewrite E; apply NoDup_fmap_2; [apply _|apply NoDup_seq]).
    split; [|split; [done|]].
    + apply (inv_fresh false track socks 0); [done|]. apply Forall_forall. unfold socks.
      intros k (j & -> & _)%list_elem_of_fmap. by eexists.
    + unfold zlen, socks. rewrite length_map, length_seq. split_and!; try done; try lia.
      apply Forall_forall. intros k (j & -> & Hj)%list_elem_of_fmap. apply list_elem_of_In, in_seq in Hj. simpl. lia.
Qed.

(** What the counters of such a client say of its [n] sockets. *)
Record socket_figures (stream track : bool) (n : Z) (a : stats) : Prop := {
  sf_sums : socket_sums track a;
  sf_failed : 0 <= failed a <= n /\ (stream = false -> failed a = 0) /\ (stream = true -> failed a < n);
  sf_closed : 0 <= closed a <= if stream then n - failed a else 0;
  sf_lat : latLen a <= offered a + (n - failed a)
}.

Lemma conns_run_length stream c tag s es s' :
  conns_run stream c tag s es = Some s' -> length (cs_socks s') = length (cs_socks s).
Proof.
  revert s. induction es as [|e es IH]; intros s; cbn [conns_run]; [by intros [= <-]|].
  destruct (conns_step stream c tag s e) as [s1|] eqn:E; [|done]. intros ->%IH.
  assert (forall i running f, on_socket s i running f = Some s1 ->
    (forall k, length (cs_socks (f k)) = length (cs_socks s)) -> length (cs_socks s1) = length (cs_socks s)) as Hon.
  { intros i running f. unfold on_socket. destruct (cs_socks s !! i); [|done]. destruct (running _); [|done]. by intros [= <-]. }
  destruct e as [i now w|i|i msg now|i how|]; cbn [conns_step] in E; [apply Hon in E; [exact E|intros k]..|by injection E as <-].
  all: unfold sends, receives, read_ends; try destruct (if stream then _ else _); cbn [put_socket cs_socks];
    by rewrite length_insert.
Qed.

Lemma conns_figures stream c tag track dials s0 es s :
  conns_start stream c track dials = Some s0 -> length dials = Z.to_nat (sockets c) ->
  conns_run stream c tag s0 es = Some s -> socket_figures stream track (Z.max 0 (sockets c)) (cs_st s).
Proof.
  intros Hs Hl Hr. destruct (start_inv _ _ _ _ _ Hs Hl) as (fails & Hi & Hn & Hsum & _ & Hf0 & Hf & Hne).
  pose proof (conns_run_length _ _ _ _ _ _ Hr) as Hlen.
  pose proof (conns_run_inv _ _ _ _ _ _ _ _ _ Hn Hi Hr) as [_ _ _ _ _ H6 H7 H8 [H9 H10] H11].
  pose proof (zsum_map_le quit (cs_socks s) 1 ltac:(intros x; unfold quit; destruct (k_writing x); lia)) as Hq.
  pose proof (zsum_map_le over (cs_socks s) 1 ltac:(intros x; unfold over; destruct (k_reading x); lia)) as Ho.
  assert (0 <= zsum (map waiting (cs_socks s))) as Hw.
  { apply zsum_nonneg, Forall_map, Forall_forall. intros k _. unfold waiting, pending. simpl. lia. }
  assert (zlen (cs_socks s) = zlen (cs_socks s0)) as E by (unfold zlen; by rewrite Hlen).
  split; [done| | |].
  - rewrite H10. pose proof (zlen_nonneg (cs_socks s0)). split_and!; [lia..|done|]. intros Hst.
    specialize (Hne Hst). destruct (cs_socks s0); [done|]. rewrite zlen_cons in Hsum. pose proof (zlen_nonneg l). lia.
  - destruct stream; lia.
  - lia.
Qed.

(** C13. Whatever way the writers and readers of a UDP, TCP or DoT client's sockets
    take their turns, and whatever comes back to them: each query written is
    counted once as offered; a client in [fixed] mode asks its one cached name
    every time, and any other gives each query a name of its own (while its
    sockets, and the queries and sockets together, are fewer than an int64
    counts); a reply is counted as answered, truncated or in error, once and under
    its code; no latency is kept of what was not tracked, nor more of them than
    queries written (but for one a socket, whose write failed); and every
    connection the arm asked for was opened or counted as failed, and those opened
    were ended by the server at most once each. *)
Theorem conns_queries stream c tag track dials s0 es s :
  conns_start stream c track dials = Some s0 -> length dials = Z.to_nat (sockets c) ->
  conns_run stream c tag s0 es = Some s ->
  (qmode c <> "fixed" -> sockets c < 2 ^ 63 -> zlen (cs_asked s) + zlen (cs_socks s) < 2 ^ 63 ->
   NoDup (map (fun '(i, q) => name c i q tag) (cs_asked s))) /\
  (qmode c = "fixed" ->
   map (fun '(i, q) => name c i q tag) (cs_asked s) = map (fun _ => "cached." +:+ tag +:+ ".rrl.test") (cs_asked s)) /\
  offered (cs_st s) = zlen (cs_asked s) /\
  zlen (cs_socks s) + failed (cs_st s) = Z.max 0 (sockets c) /\
  socket_figures stream track (Z.max 0 (sockets c)) (cs_st s).
Proof.
  intros Hs Hl Hr. pose proof (conns_figures _ _ _ _ _ _ _ _ Hs Hl Hr) as Hfig.
  destruct (start_inv _ _ _ _ _ Hs Hl) as (fails & Hi & Hn & Hsum & Hrange & _).
  pose proof (conns_run_length _ _ _ _ _ _ Hr) as Hlen.
  pose proof (conns_run_inv _ _ _ _ _ _ _ _ _ Hn Hi Hr) as [H1 H2 _ H4 H5 H6 _ _ [H9 H10] _].
  split; [|split_and!; try done; [|rewrite H10, <- Hsum; unfold zlen; by rewrite Hlen]].
  2: { intros Hq. apply map_ext. intros [i q]. unfold name. by rewrite Hq. }
  intros Hq Hc Hw. apply NoDup_fmap_2_strong; [|done].
  pose proof (zsum_map_le quit (cs_socks s) 1 ltac:(intros x; unfold quit; destruct (k_writing x); lia)) as Hquit.
  assert (forall k, k ∈ cs_socks s -> 0 <= k_idx k < sockets c /\ k_seq k < 2 ^ 63) as Hk.
  { intros k Hin. split.
    - assert (k_idx k ∈ map k_idx (cs_socks s)) as Hx by (apply list_elem_of_fmap; by exists k). rewrite H1 in Hx.
      apply list_elem_of_fmap in Hx as (k0 & -> & H0). rewrite Forall_forall in Hrange. by apply Hrange.
    - enough (k_seq k <= zsum (map k_seq (cs_socks s))) by lia. apply zsum_member; [by apply Forall_map|].
      apply list_elem_of_fmap. by exists k. }
  intros [i q] [j p] (k & Hk1 & <- & Hq1)%H4 (k' & Hk2 & <- & Hq2)%H4 E.
  apply Hk in Hk1, Hk2. apply unique_names in E as [-> ->]; try done; unfold int64_range; lia.
Qed.

(** Two connections of three opened, one of them ended by the server and one
    query answered. *)
Definition three_sockets : clientSpec := client [Src "127.1.0.1"; Transport "tcp"; Rate 30; Sockets 3].

Definition ex_turns : list conns_event :=
  [Sends 1 5 (Some 0); Sends 0 6 (Some 0); Receives 1 (ex_reply three_sockets 1) 9; Sends 1 10 (Some 0);
   ReadEnds 0 (Some Reset_by_peer); Sends 0 11 None; PaceEnds 1; Stops; ReadEnds 1 (Some CleanEOF)].

Lemma conns_queries_witness :
  exists s0 s, conns_start true three_sockets true [true; false; true] = Some s0 /\
    conns_run true three_sockets "vic" s0 ex_turns = Some s /\ cs_asked s = [(2, 1); (0, 1); (2, 2)] /\
    (full (cs_st s), closed (cs_st s), failed (cs_st s), lat (cs_st s)) = (1, 1, 1, [4]) /\
    NoDup (map (fun '(i, q) => name three_sockets i q "vic") (cs_asked s)) /\
    socket_figures true true (Z.max 0 (sockets three_sockets)) (cs_st s).
Proof.
  eexists _, _. split; [reflexivity|]. split; [vm_compute; reflexivity|]. do 2 (split; [reflexivity|]).
  destruct (conns_queries true three_sockets "vic" true [true; false; true] _ ex_turns _ eq_refl eq_refl
    ltac:(vm_compute; reflexivity)) as (H1 & _ & _ & _ & H3).
  split; [apply H1; [discriminate|reflexivity|reflexivity]|exact H3].
Defined.

(** ** What such a client offers *)

(** The rate of one writer. *)
Definition writer_rate (c : clientSpec) : Z := Z.quot (rate c) (Z.max (sockets c) 1).

(** How the sends of one writer went, in their order. *)
Definition sends_of (i : nat) (es : list conns_event) : list bool :=
  omap (fun e => match e with
                 | Sends j _ w => if Nat.eqb i j then Some (bool_decide (is_Some w)) else None
                 | _ => None
                 end) es.

(** A writer's sends are those [pace] makes at its rate for [dur], its clock read
    before the end [N] times. *)
Definition writer_paced (c : clientSpec) (dur : duration) (oks : list bool) (N : Z) : Prop :=
  exists until start ticks,
    until - start <= dur /\ (0 < writer_rate c -> sleeps_kept start start ticks) /\
    N = Z.of_nat (leading until (map fst ticks)) /\
    fst (pace (fun j (_ : unit) => (nth j oks true, tt)) (writer_rate c) until start ticks tt) = length oks.

Definition sent_ok (e : conns_event) : bool :=
  match e with Sends _ _ w => bool_decide (is_Some w) | _ => false end.

Lemma conns_run_sent stream c tag s es s' :
  conns_run stream c tag s es = Some s' -> zlen (cs_asked s') = zlen (cs_asked s) + zcount sent_ok es.
Proof.
  revert s. induction es as [|e es IH]; intros s; cbn [conns_run]; [intros [= <-]; unfold zcount, zlen; simpl; lia|].
  destruct (conns_step stream c tag s e) as [s1|] eqn:E; [|done]. intros ->%IH. rewrite zcount_cons.
  enough (zlen (cs_asked s1) = zlen (cs_asked s) + (if sent_ok e then 1 else 0)) by lia.
  assert (forall i running f d, on_socket s i running f = Some s1 ->
    (forall k, zlen (cs_asked (f k)) = zlen (cs_asked s) + d) -> zlen (cs_asked s1) = zlen (cs_asked s) + d) as Hon.
  { intros i running f d. unfold on_socket. destruct (cs_socks s !! i); [|done]. destruct (running _); [|done]. by intros [= <-]. }
  destruct e as [i now w|i|i msg now|i how|]; cbn [conns_step sent_ok] in *;
    [eapply Hon; [exact E|intros k]..|injection E as <-; simpl; lia].
  all: unfold sends, receives, read_ends, tcp_send, udp_send; repeat case_match; cbn [put_socket cs_asked] in *;
    rewrite zlen_app; simplify_eq; unfold zlen; simpl; try lia.
Qed.

(** Sends are of the client's sockets. *)
Definition of_socket (n : nat) (e : conns_event) : Prop := match e with Sends i _ _ => (i < n)%nat | _ => True end.

Lemma conns_run_sockets stream c tag s es s' :
  conns_run stream c tag s es = Some s' -> Forall (of_socket (length (cs_socks s))) es.
Proof.
  revert s. induction es as [|e es IH]; intros s; cbn [conns_run]; [constructor|].
  destruct (conns_step stream c tag s e) as [s1|] eqn:E; [|done]. intros H. constructor.
  - destruct e as [i now w|i|i msg now|i how|]; try done. cbn [conns_step of_socket] in *. unfold on_socket in E.
    destruct (cs_socks s !! i) as [k|] eqn:Ek; [|done]. by eapply lookup_lt_Some.
  - rewrite <- (conns_run_length stream c tag s [e] s1); [by apply IH|]. cbn [conns_run]. by rewrite E.
Qed.

Lemma sum_by_socket n es :
  Forall (of_socket n) es ->
  zcount sent_ok es = zsum (map (fun i => zcount (fun b => b) (sends_of i es)) (seq 0 n)).
Proof.
  induction 1 as [|e es He _ IH]; [unfold zcount, zlen; simpl; rewrite zsum_map_zero; [done|by apply Forall_forall]|].
  rewrite zcount_cons, IH.
  transitivity (zsum (map (fun i => (if sent_ok e && match e with Sends j _ _ => Nat.eqb i j | _ => false end then 1 else 0)
                                    + zcount (fun b => b) (sends_of i es)) (seq 0 n))).
  - rewrite zsum_map_add. f_equal. destruct e as [j now w|i|i msg now|i how|]; cbn [sent_ok andb];
      try (rewrite zsum_map_zero; [done|by apply Forall_forall]).
    destruct (bool_decide (is_Some w)); cbn [andb]; [|rewrite zsum_map_zero; [done|by apply Forall_forall]].
    cbn [of_socket] in He. by rewrite zsum_indicator.
  - f_equal. apply map_ext. intros i. destruct e as [j now w| | | |]; try done. cbn [sends_of omap list_omap sent_ok].
    fold (sends_of i es). destruct (Nat.eqb i j); [by rewrite zcount_cons, andb_true_r|by rewrite andb_false_r].
Qed.

(** *** One writer *)

Lemma nth_false (oks : list bool) n : nth n oks true = false -> false ∈ oks.
Proof.
  intros H. destruct (decide (n < length oks)%nat) as [Hn|Hn]; [|rewrite nth_overflow in H; [done|lia]].
  rewrite <- H. apply list_elem_of_In, nth_In. lia.
Qed.

(** A writer at a rate makes its sends to less than one, of the milliseconds
    begun; one whose share of the rate is nothing is not paced: it makes
    sixty-four for each reading of its clock. *)
Lemma writer_sends c dur oks N :
  writer_paced c dur oks N -> 0 <= dur ->
  (0 < writer_rate c -> 0 <= N <= dur / millisecond + 1 /\
   (N * (writer_rate c + 1000) < 2 ^ 50 -> 1000 * zlen oks <= N * writer_rate c /\
    (false ∉ oks -> N * writer_rate c - 1000 <= 1000 * zlen oks))) /\
  (writer_rate c <= 0 -> false ∉ oks -> zlen oks = 64 * N).
Proof.
  intros (until & start & ticks & Hd & Hk & -> & Hp) Hdur.
  set (send := fun j (_ : unit) => (nth j oks true, tt)) in Hp.
  assert (forall i (s : unit), fst (send i s) = nth i oks true) as Hs by done.
  unfold pace in Hp. destruct (writer_rate c <=? 0) eqn:Er; b2p; (split; intros Hr; [|try lia]); try lia.
  - intros Hok. destruct (paceFlatOut_sends send (fun j => nth j oks true) (map fst ticks) until tt Hs) as (_ & _ & [H|[_ H]]).
    + rewrite Hp in H. unfold zlen. lia.
    + by apply nth_false in H.
  - specialize (Hk Hr). split.
    + pose proof (ticks_in_time ticks start start until ltac:(lia) Hk) as Ht. split; [lia|].
      destruct (decide (leading until (map fst ticks) = 0)%nat) as [->|Hz].
      { assert (0 <= dur / millisecond) by by apply Z.div_pos. lia. }
      enough (Z.of_nat (leading until (map fst ticks)) - 1 <= dur / millisecond) by lia.
      apply Z.div_le_lower_bound; [done|lia].
    + intros HN. pose proof (paceAt_rate send (fun j => nth j oks true) (writer_rate c) until start ticks tt Hs Hr HN Hk) as H.
      destruct (paceAt send (writer_rate c) until start ticks tt) as [[n sleeps] u]. cbn [fst] in *. subst n.
      rewrite Nat2Z.id in H. destruct H as (H1 & H2 & _ & _). fold (zlen oks) in H1, H2. split; [lia|].
      intros Hok. destruct H2 as [H2|[_ H2]]; [lia|]. by apply nth_false in H2.
Qed.

(** ** The rate of a client *)

Lemma writer_rate_total c n : 0 <= n <= Z.max 0 (sockets c) -> 0 < writer_rate c -> n * writer_rate c <= rate c.
Proof.
  unfold writer_rate. intros Hn Hr. assert (0 <= rate c) as H0.
  { destruct (Z.le_gt_cases 0 (rate c)); [done|]. pose proof (Z.quot_opp_l (- rate c) (Z.max (sockets c) 1) ltac:(lia)) as E.
    rewrite Z.opp_involutive in E. pose proof (Z.quot_pos (- rate c) (Z.max (sockets c) 1) ltac:(lia) ltac:(lia)). lia. }
  pose proof (Z.mul_quot_le (rate c) (Z.max (sockets c) 1) H0 ltac:(lia)). nia.
Qed.

Lemma zcount_id_le (l : list bool) : zcount (fun b => b) l <= zlen l.
Proof. induction l as [|b l IH]; [done|]. rewrite zcount_cons, zlen_cons. destruct b; lia. Qed.

Lemma zcount_id_all (l : list bool) : false ∉ l -> zcount (fun b => b) l = zlen l.
Proof.
  intros H. apply zcount_true, Forall_forall. intros [] Hb; [done|contradiction].
Qed.

(** No write of the client failed. *)
Definition all_written (es : list conns_event) : Prop :=
  Forall (fun e => match e with Sends _ _ None => False | _ => True end) es.

Lemma all_written_sends i es : all_written es -> false ∉ sends_of i es.
Proof.
  induction 1 as [|e es He _ IH]; [by intros ?%elem_of_nil|].
  destruct e as [j now w|i'|i' msg now|i' how|]; cbn [sends_of omap list_omap]; try exact IH.
  fold (sends_of i es). destruct (Nat.eqb i j); [|exact IH]. destruct w as [n|]; [|done].
  intros [H|H]%elem_of_cons; [done|by apply IH].
Qed.

(** Summing the writers. *)
Lemma writers_sum (f : nat -> Z) a b (R : nat -> Z -> Prop) is_ Ns :
  Forall2 R is_ Ns -> (forall i N, R i N -> a * N + b <= f i) ->
  a * zsum Ns + b * zlen Ns <= zsum (map f is_).
Proof.
  intros H HR. induction H as [|i N is_ Ns Hi _ IH]; [unfold zlen; simpl; lia|].
  cbn [map]. rewrite !zsum_cons, zlen_cons. specialize (HR _ _ Hi). lia.
Qed.

(** No writer is past its share of the window. *)
Lemma writers_within c dur es is_ Ns :
  let ms := dur / millisecond + 1 in
  Forall2 (fun i N => writer_paced c dur (sends_of i es) N) is_ Ns -> 0 <= dur -> 0 < writer_rate c ->
  ms * (writer_rate c + 1000) < 2 ^ 50 ->
  1000 * zsum (map (fun i => zcount (fun b => b) (sends_of i es)) is_) <= Z.of_nat (length is_) * (ms * writer_rate c).
Proof.
  intros ms Hp Hdur Hw Hms. induction Hp as [|i N is_ Ns Hi _ IH]; [done|].
  cbn [map length]. rewrite zsum_cons. apply writer_sends in Hi as [Hi _]; [|done].
  destruct (Hi Hw) as [HN Hz]. fold ms in HN. destruct Hz as [Hz _]; [nia|].
  pose proof (zcount_id_le (sends_of i es)). nia.
Qed.

(** C11. What a client of sockets offers is what the arm asks of it.  Each writer
    paces its share of the rate, the rate over the sockets rounded down, for the
    client's duration: over all of them no more is offered than the rate allows
    in the milliseconds begun, and, when no write fails, less than one query a
    socket fewer than the shares come to in the ticks the clock gave.  But a rate
    of fewer queries than the client has sockets leaves a share of nothing, which
    [pace] takes for no limit at all: each writer then offers sixty-four queries
    for every reading of its clock. *)
Theorem conns_rate stream c tag track dials s0 es s dur Ns :
  conns_start stream c track dials = Some s0 -> length dials = Z.to_nat (sockets c) ->
  conns_run stream c tag s0 es = Some s -> 0 <= dur ->
  Forall2 (fun i N => writer_paced c dur (sends_of i es) N) (seq 0 (length (cs_socks s))) Ns ->
  let ms := dur / millisecond + 1 in
  (0 < writer_rate c -> ms * (writer_rate c + 1000) < 2 ^ 50 ->
   1000 * offered (cs_st s) <= ms * rate c /\
   (all_written es -> writer_rate c * zsum Ns - 1000 * zlen (cs_socks s) <= 1000 * offered (cs_st s))) /\
  (0 <= rate c < sockets c -> all_written es -> offered (cs_st s) = 64 * zsum Ns).
Proof.
  intros Hs Hl Hr Hdur Hp ms. destruct (start_inv _ _ _ _ _ Hs Hl) as (fails & Hinv & Hn & Hsum & _ & Hf0 & _).
  assert (length (cs_socks s) = length (cs_socks s0)) as Hlen by by eapply conns_run_length.
  assert (offered (cs_st s) = zsum (map (fun i => zcount (fun b => b) (sends_of i es)) (seq 0 (length (cs_socks s))))) as Ho.
  { pose proof (conns_run_inv _ _ _ _ _ _ _ _ _ Hn Hinv Hr) as Hi. rewrite (proj1 (ci_counts _ _ _ _ _ Hi)).
    rewrite (conns_run_sent _ _ _ _ _ _ Hr), <- sum_by_socket by (rewrite Hlen; by eapply conns_run_sockets).
    enough (cs_asked s0 = []) as -> by done. revert Hs. unfold conns_start, stream_start.
    destruct stream; [|by intros [= <-]]. destruct (runStream dials stats0) as [[]|]; [|done]. by intros [= <-]. }
  assert (zlen Ns = zlen (cs_socks s)) as HN by (apply Forall2_length in Hp; unfold zlen; by rewrite <- Hp, length_seq).
  rewrite Ho. set (f := fun i => zcount (fun b => b) (sends_of i es)). split.
  - intros Hw Hms. split.
    + assert (0 <= zlen (cs_socks s) <= Z.max 0 (sockets c)) as Hn' by (unfold zlen in *; lia).
      pose proof (writer_rate_total c _ Hn' Hw) as Ht. pose proof (writers_within c dur es _ Ns Hp Hdur Hw Hms) as Hb.
      fold f ms in Hb. assert (0 <= ms) by (unfold ms; pose proof (Z.div_pos dur millisecond Hdur ltac:(done)); lia).
      rewrite length_seq in Hb. fold (zlen (cs_socks s)) in Hb. nia.
    + intros Ha. rewrite <- HN.
      enough (writer_rate c * zsum Ns + -1000 * zlen Ns <= zsum (map (fun i => 1000 * f i) (seq 0 (length (cs_socks s))))) as H.
      { rewrite zsum_map_mul in H. lia. }
      eapply (writers_sum (fun i => 1000 * f i)); [exact Hp|]. intros i N Hi. apply writer_sends in Hi as [Hi _]; [|done].
      destruct (Hi Hw) as [HN' Hz]. destruct Hz as [_ Hz]; [fold ms in HN'; nia|].
      unfold f. rewrite zcount_id_all by by apply all_written_sends. specialize (Hz (all_written_sends i es Ha)). lia.
  - intros Hc Ha. assert (writer_rate c = 0) as Hw by (unfold writer_rate; apply Z.quot_small; lia).
    clear -Hp Hw Ha Hdur. induction Hp as [|i N is_ Ns Hi _ IH]; [done|]. cbn [map]. rewrite !zsum_cons, IH.
    apply writer_sends in Hi as [_ Hi]; [|done]. unfold f. rewrite zcount_id_all, Hi by (lia || by apply all_written_sends). lia.
Qed.

(** Two sockets that share two thousand queries a second, over three milliseconds
    the second writer sleeps most of; and a rate of one query over the same two. *)
Definition two_sockets (r : Z) : clientSpec := client [Src "127.1.0.1"; Transport "udp"; Rate r; Sockets 2].

Definition ex_paced : list conns_event :=
  [Sends 0 5 (Some 50); Sends 1 6 (Some 50); PaceEnds 1; Sends 0 1000009 (Some 50); PaceEnds 0].

Definition ex_flat : list conns_event := repeat (Sends 1 3 (Some 50)) 64.

Lemma conns_rate_witness :
  (exists s, conns_run false (two_sockets 2000) "atk" (udp_start (two_sockets 2000) false) ex_paced = Some s /\
    offered (cs_st s) = 3 /\ 1000 * offered (cs_st s) <= 4 * 2000 /\ 1000 * 3 - 1000 * 2 <= 1000 * offered (cs_st s)) /\
  (exists s, conns_run false (two_sockets 1) "atk" (udp_start (two_sockets 1) false) ex_flat = Some s /\
    offered (cs_st s) = 64 * 1).
Proof.
  split.
  - eexists. split; [vm_compute; reflexivity|]. split; [reflexivity|].
    destruct (conns_rate false (two_sockets 2000) "atk" false [true; true] _ ex_paced _ (3 * millisecond) [2; 1]
      eq_refl eq_refl ltac:(vm_compute; reflexivity) ltac:(done)) as [H _].
    + repeat constructor.
      * exists (3 * millisecond), 0, [(0, 0); (millisecond, millisecond); (5 * millisecond, 5 * millisecond)].
        vm_compute. intuition congruence.
      * exists (3 * millisecond), 0, [(0, 4 * millisecond); (4 * millisecond, 4 * millisecond)]. vm_compute. intuition congruence.
    + destruct H as [H1 H2]; [done|done|]. split; [exact H1|]. apply H2. by repeat constructor.
  - eexists. split; [vm_compute; reflexivity|].
    destruct (conns_rate false (two_sockets 1) "atk" false [true; true] _ ex_flat _ (3 * millisecond) [0; 1]
      eq_refl eq_refl ltac:(vm_compute; reflexivity) ltac:(done)) as [_ H].
    + repeat constructor.
      * exists 0, 0, [(5, 5)]. vm_compute. intuition congruence.
      * exists (3 * millisecond), 0, [(0, 0); (5 * millisecond, 0)]. vm_compute. intuition congruence.
    + apply H; [vm_compute; intuition congruence|by repeat constructor].
Defined.
