(* ===== verification/RrlDoh.v ===== *)
(** * [bench/cmd/rrlexp/doh.go]: a DoH client's goroutines

    The pacer that puts a token in a channel for every query the arm offers, the
    workers that take one each and ask, and the sequence number they share, as a
    step function over any interleaving: what a worker does between two looks at
    something shared is one step.  What a request met is [doh_outcome], filed by
    [doh_query] of [RrlClient]. *)

From S2P Require Import Prelude GoStrings GoFloat DnsWire RrlMock NetAddr RrlArms RrlStats RrlClient.

(** What [newDoHClient] sets up: where it asks, from where, over which HTTP, and
    how many connections it may hold. *)
Record doh_conf : Type := mkDohConf {
  dh_url : string; dh_alpn : string; dh_src : string; dh_max_conns : Z; dh_http2 : bool;
  dh_dial_timeout : duration; dh_timeout : duration
}.

Definition newDoHClient (addr : string) (c : clientSpec) : doh_conf :=
  mkDohConf ("https://" +:+ addr +:+ "/dns-query") (doh_alpn c) (src c) (Z.max (sockets c) 1)
    (negb (String.eqb (transport c) "doh1")) (5 * second) (20 * second).

(** Where a worker is in [work]'s loop. *)
Inductive wphase : Type :=
  | Looking             (** at the clock *)
  | Waiting             (** for a token *)
  | Checking            (** whether the client was stopped *)
  | Adding              (** [d.seq.add()] *)
  | Loading             (** [d.seq.load()] *)
  | Asking (seq : Z)    (** the request is in the air *)
  | Gone.

(** The channel's capacity. *)
Definition tokens_cap : Z := 1024.

Record doh_client : Type := mkDoh {
  dc_seq : Z;
  dc_tokens : Z;
  dc_closed : bool;           (** the pacer has ended, or there is none *)
  dc_cancelled : bool;
  dc_workers : list wphase;
  dc_stats : stats;
  dc_asked : list (Z * Z);    (** the worker and number of each query filed *)
  dc_pushed : Z;
  dc_taken : Z
}.

Inductive doh_event : Type :=
  | Pushed
  | PacerEnds
  | Cancel
  | Looks (i : nat) (now : time)
  | Takes (i : nat)
  | GivesUp (i : nat)
  | Checks (i : nat)
  | Adds (i : nat)
  | Loads (i : nat)
  | Answers (i : nat) (took_ : duration) (o : doh_outcome).

(** [runDoH], up to its goroutines: one worker at least, and the channel closed
    at once for a client that offers flat out. *)
Definition runDoH (c : clientSpec) : doh_client :=
  mkDoh 0 0 (negb (0 <? rate c)) false (repeat Looking (Z.to_nat (Z.max (inflight c) 1))) stats0 [] 0 0.

Section run.
Context (c : clientSpec) (tag : string) (track : bool) (until : time).

Definition with_worker (s : doh_client) (i : nat) (p : wphase) : doh_client :=
  mkDoh (dc_seq s) (dc_tokens s) (dc_closed s) (dc_cancelled s) (<[i := p]> (dc_workers s)) (dc_stats s)
    (dc_asked s) (dc_pushed s) (dc_taken s).

(** [dohPacer]'s send puts a token when there is room and is not run once the
    client is stopped or the pacer has ended. *)
Definition push (s : doh_client) : option doh_client :=
  if negb (dc_closed s) && (dc_tokens s <? tokens_cap) then
    Some (mkDoh (dc_seq s) (dc_tokens s + 1) false (dc_cancelled s) (dc_workers s) (dc_stats s)
            (dc_asked s) (dc_pushed s + 1) (dc_taken s))
  else None.

(** One step of [work], by the worker at phase [p]. *)
Definition work (s : doh_client) (i : nat) (p : wphase) (e : doh_event) : option doh_client :=
  match p, e with
  | Looking, Looks _ now =>
      Some (with_worker s i (if now <? until then (if 0 <? rate c then Waiting else Checking) else Gone))
  | Waiting, Takes _ =>
      if 0 <? dc_tokens s then
        let s := with_worker s i Checking in
        Some (mkDoh (dc_seq s) (dc_tokens s - 1) (dc_closed s) (dc_cancelled s) (dc_workers s) (dc_stats s)
                (dc_asked s) (dc_pushed s) (dc_taken s + 1))
      else if dc_closed s then Some (with_worker s i Gone)
      else None
  | Waiting, GivesUp _ => if dc_cancelled s then Some (with_worker s i Gone) else None
  | Checking, Checks _ => Some (with_worker s i (if dc_cancelled s then Gone else Adding))
  | Adding, Adds _ =>
      let s := with_worker s i Loading in
      Some (mkDoh (dc_seq s + 1) (dc_tokens s) (dc_closed s) (dc_cancelled s) (dc_workers s) (dc_stats s)
              (dc_asked s) (dc_pushed s) (dc_taken s))
  | Loading, Loads _ => Some (with_worker s i (Asking (dc_seq s)))
  | Asking seq, Answers _ took_ o =>
      let s := with_worker s i Looking in
      Some (mkDoh (dc_seq s) (dc_tokens s) (dc_closed s) (dc_cancelled s) (dc_workers s)
              (doh_query c (Z.of_nat i) tag track took_ seq (dc_stats s) o)
              (dc_asked s ++ [(Z.of_nat i, seq)]) (dc_pushed s) (dc_taken s))
  | _, _ => None
  end.

Definition actor (e : doh_event) : option nat :=
  match e with
  | Looks i _ | Takes i | GivesUp i | Checks i | Adds i | Loads i | Answers i _ _ => Some i
  | _ => None
  end.

Definition doh_step (s : doh_client) (e : doh_event) : option doh_client :=
  match e with
  | Pushed => push s
  | PacerEnds =>
      Some (mkDoh (dc_seq s) (dc_tokens s) true (dc_cancelled s) (dc_workers s) (dc_stats s)
              (dc_asked s) (dc_pushed s) (dc_taken s))
  | Cancel =>
      Some (mkDoh (dc_seq s) (dc_tokens s) (dc_closed s) true (dc_workers s) (dc_stats s)
              (dc_asked s) (dc_pushed s) (dc_taken s))
  | _ =>
      match actor e with
      | Some i => match dc_workers s !! i with Some p => work s i p e | None => None end
      | None => None
      end
  end.

Fixpoint doh_run (s : doh_client) (es : list doh_event) : option doh_client :=
  match es with
  | [] => Some s
  | e :: es => match doh_step s e with Some s => doh_run s es | None => None end
  end.
End run.

(** What the function [runDoH] returns leaves: the connections dialled are
    counted once the workers are gone. *)
Definition doh_stop (s : doh_client) (dials_ : Z) : stats :=
  let '(mkStats o r fu t b bi bo cl re fa _ la rc ss) := dc_stats s in
  mkStats o r fu t b bi bo cl re fa dials_ la rc ss.

Example doh_race :
  let c := client [Src "127.1.0.1"; Transport "doh2"; Rate 0; Sockets 1; Inflight 2] in
  option_map dc_asked (doh_run c "atk" false 100 (runDoH c)
    [Looks 0 1; Looks 1 1; Checks 0; Checks 1; Adds 0; Adds 1; Loads 0; Loads 1;
     Answers 1 5 DohNoStatus; Answers 0 5 DohNoStatus]) = Some [(1, 2); (0, 2)].
Proof. vm_compute. reflexivity. Qed.

(** ** Counting workers by phase *)

Definition total (f : wphase -> Z) (ws : list wphase) : Z := foldr (fun p z => f p + z) 0 ws.

Lemma total_insert f ws i p q :
  ws !! i = Some p -> total f (<[i := q]> ws) = total f ws - f p + f q.
Proof.
  revert i. induction ws as [|w ws IH]; intros [|i] Hi; simpl in *; simplify_eq; [lia|].
  rewrite (IH i Hi). lia.
Qed.

Lemma total_nonneg f ws : (forall p, 0 <= f p) -> 0 <= total f ws.
Proof. intros H. induction ws as [|w ws IH]; simpl; [lia|]. specialize (H w). lia. Qed.

Lemma total_repeat f p n : f p = 0 -> total f (repeat p n) = 0.
Proof. intros H. induction n as [|n IH]; simpl; [done|]. lia. Qed.

(** A number added and not yet filed; a token taken and not yet spent. *)
Definition numbered (p : wphase) : Z := match p with Loading | Asking _ => 1 | _ => 0 end.
Definition tokened (p : wphase) : Z := match p with Checking | Adding | Loading | Asking _ => 1 | _ => 0 end.

(** The worker steps that are left to a stopped client. *)
Definition left_ (p : wphase) : Z :=
  match p with
  | Gone => 0 | Checking => 1 | Waiting => 2 | Looking => 3 | Asking _ => 4 | Loading => 5 | Adding => 6
  end.

(** The numbers a worker has asked under are below what it will ask under. *)
Definition below (seq : Z) (p : wphase) (k : Z) : Prop :=
  match p with Loading => k < seq | Asking k' => k < k' | _ => k <= seq end.

Section invariant.
Context (c : clientSpec) (tag : string) (track : bool) (until : time).

Record doh_inv (s : doh_client) : Prop := {
  di_tokens : dc_tokens s = dc_pushed s - dc_taken s;
  di_cap : 0 <= dc_tokens s <= tokens_cap;
  di_seq : dc_seq s = zlen (dc_asked s) + total numbered (dc_workers s);
  di_spent : 0 < rate c -> zlen (dc_asked s) + total tokened (dc_workers s) <= dc_taken s;
  di_asking : forall i k, dc_workers s !! i = Some (Asking k) -> 1 <= k <= dc_seq s;
  di_loading : forall i, dc_workers s !! i = Some Loading -> 1 <= dc_seq s;
  di_range : forall i k, (i, k) ∈ dc_asked s -> 0 <= i < zlen (dc_workers s) /\ 1 <= k <= dc_seq s;
  di_below : forall i p k, dc_workers s !! i = Some p -> (Z.of_nat i, k) ∈ dc_asked s -> below (dc_seq s) p k;
  di_nodup : NoDup (dc_asked s);
  di_stats : let a := dc_stats s in
    offered a = zlen (dc_asked s) /\ offered a = failed a + refused a + badRcode a + full a /\
    replies a = badRcode a + full a /\ latLen a <= full a
}.

Lemma inv_start : doh_inv (runDoH c).
Proof.
  unfold runDoH. set (n := Z.to_nat _).
  assert (forall f, f Looking = 0 -> total f (repeat Looking n) = 0) as Ht by (intros; by apply total_repeat).
  assert (forall i p, repeat Looking n !! i = Some p -> p = Looking) as Hw.
  { intros i p H. apply list_elem_of_lookup_2, list_elem_of_In, repeat_spec in H. done. }
  split; simpl; rewrite ?Ht by done; try (unfold tokens_cap; lia); try done.
  - intros i k H. by apply Hw in H.
  - intros i H. by apply Hw in H.
  - intros i k H. by apply not_elem_of_nil in H.
  - intros i p k _ H. by apply not_elem_of_nil in H.
  - constructor.
Qed.

(** Moving one worker, where nothing it is about to ask under is taken; [d]
    tokens go with it. *)
Lemma inv_move s i p q seq' d :
  doh_inv s -> dc_workers s !! i = Some p -> dc_seq s <= seq' -> 0 <= d <= dc_tokens s ->
  numbered q - numbered p = seq' - dc_seq s -> tokened q <= tokened p + (if 0 <? rate c then d else 1) ->
  (forall k, below (dc_seq s) p k -> below seq' q k) ->
  (forall k, q = Asking k -> 1 <= k <= seq') -> (q = Loading -> 1 <= seq') ->
  doh_inv (mkDoh seq' (dc_tokens s - d) (dc_closed s) (dc_cancelled s) (<[i := q]> (dc_workers s)) (dc_stats s)
             (dc_asked s) (dc_pushed s) (dc_taken s + d)).
Proof.
  intros [H1 H2 H3 H4 H5 H6 H7 H8 H9 H10] Hi Hs Hd Hn Ht Hb Ha Hl.
  assert (forall j x, <[i := q]> (dc_workers s) !! j = Some x ->
    j = i /\ x = q \/ j <> i /\ dc_workers s !! j = Some x) as Hw.
  { intros j x. destruct (decide (j = i)) as [->|Hne].
    - rewrite list_lookup_insert_eq by (by eapply lookup_lt_Some). intros [= ->]. by left.
    - rewrite list_lookup_insert_ne by done. by right. }
  split; simpl; rewrite ?(total_insert _ _ _ p) by done; try done; try lia.
  - intros Hr. specialize (H4 Hr). replace (0 <? rate c) with true in Ht by (symmetry; lia). lia.
  - intros j k Hj. apply Hw in Hj as [[-> <-]|[_ Hj]]; [by apply Ha|]. specialize (H5 _ _ Hj). lia.
  - intros j Hj. apply Hw in Hj as [[-> <-]|[_ Hj]]; [by apply Hl|]. specialize (H6 _ Hj). lia.
  - intros j k Hjk. destruct (H7 _ _ Hjk). unfold zlen in *. rewrite length_insert. lia.
  - intros j x k Hj Hk. apply Hw in Hj as [[-> ->]|[_ Hj]]; [by apply Hb, (H8 i)|]. specialize (H8 _ _ _ Hj Hk).
    destruct x; simpl in *; lia.
Qed.

Lemma inv_with s i p q :
  doh_inv s -> dc_workers s !! i = Some p -> numbered q = numbered p ->
  tokened q <= tokened p + (if 0 <? rate c then 0 else 1) ->
  (forall k, below (dc_seq s) p k -> below (dc_seq s) q k) ->
  (forall k, q = Asking k -> 1 <= k <= dc_seq s) -> q <> Loading -> doh_inv (with_worker s i q).
Proof.
  intros Hi Hp Hn Ht Hb Ha Hl. pose proof (di_cap _ Hi).
  pose proof (inv_move s i p q (dc_seq s) 0 Hi Hp ltac:(lia) ltac:(lia) ltac:(lia) Ht Hb Ha ltac:(done)) as H1.
  by rewrite Z.sub_0_r, Z.add_0_r in H1.
Qed.

(** Filing a query. *)
Lemma inv_answer s i k took_ o :
  doh_inv s -> dc_workers s !! i = Some (Asking k) ->
  doh_inv (mkDoh (dc_seq s) (dc_tokens s) (dc_closed s) (dc_cancelled s) (<[i := Looking]> (dc_workers s))
             (doh_query c (Z.of_nat i) tag track took_ k (dc_stats s) o)
             (dc_asked s ++ [(Z.of_nat i, k)]) (dc_pushed s) (dc_taken s)).
Proof.
  intros [H1 H2 H3 H4 H5 H6 H7 H8 H9 H10] Hi.
  pose proof (H5 _ _ Hi) as Hk. pose proof (lookup_lt_Some _ _ _ Hi) as Hlt.
  assert (forall j x, <[i := Looking]> (dc_workers s) !! j = Some x ->
    j = i /\ x = Looking \/ j <> i /\ dc_workers s !! j = Some x) as Hw.
  { intros j x. destruct (decide (j = i)) as [->|Hne].
    - rewrite list_lookup_insert_eq by done. intros [= ->]. by left.
    - rewrite list_lookup_insert_ne by done. by right. }
  assert (forall x, x ∈ dc_asked s ++ [(Z.of_nat i, k)] -> x ∈ dc_asked s \/ x = (Z.of_nat i, k)) as Hin.
  { intros x [?|?%list_elem_of_singleton]%elem_of_app; [by left|by right]. }
  split; simpl; rewrite ?zlen_app, ?(total_insert _ _ _ (Asking k)) by done;
    change (zlen [(Z.of_nat i, k)]) with 1; try done.
  - simpl. lia.
  - intros Hr. specialize (H4 Hr). simpl. lia.
  - intros j k' Hj. apply Hw in Hj as [[_ ?]|[_ Hj]]; [done|by eapply H5].
  - intros j Hj. apply Hw in Hj as [[_ ?]|[_ Hj]]; [done|by eapply H6].
  - intros j k' Hj. unfold zlen in *. rewrite length_insert. apply Hin in Hj as [Hj|[= -> ->]]; [by apply H7|lia].
  - intros j x k' Hj Hk'. apply Hw in Hj as [[-> ->]|[Hne Hj]].
    + apply Hin in Hk' as [Hk'|[= ->]]; [|simpl; lia]. destruct (H7 _ _ Hk'). simpl. lia.
    + apply Hin in Hk' as [Hk'|[= He _]]; [by eapply H8|lia].
  - apply NoDup_app. split; [done|]. split; [|apply NoDup_singleton].
    intros x Hx ->%list_elem_of_singleton. specialize (H8 _ _ _ Hi Hx). simpl in H8. lia.
  - pose proof (doh_step_sums c (Z.of_nat i) tag track (dc_stats s) (k, took_, o)) as Hq.
    unfold doh_outcome_step in Hq. simpl in *. lia.
Qed.

Lemma work_inv s i p e s' :
  doh_inv s -> dc_workers s !! i = Some p -> actor e = Some i ->
  work c tag track until s i p e = Some s' -> doh_inv s'.
Proof.
  intros Hi Ep Ha.
  destruct e as [| | |i' now|i'|i'|i'|i'|i'|i' took_ o]; try done; injection Ha as ->;
    destruct p as [| | | | |k|]; cbn [work]; try done.
  - intros [= <-]. apply (inv_with s i Looking); try done; destruct (now <? until), (0 <? rate c); simpl; done || lia.
  - destruct (0 <? dc_tokens s) eqn:Et; b2p.
    + intros [= <-]. apply (inv_move s i Waiting Checking (dc_seq s) 1); try done; try (simpl; lia).
      simpl. destruct (0 <? rate c); lia.
    + destruct (dc_closed s); [|done]. intros [= <-]. apply (inv_with s i Waiting); try done.
      simpl. destruct (0 <? rate c); lia.
  - destruct (dc_cancelled s); [|done]. intros [= <-]. apply (inv_with s i Waiting); try done.
    simpl. destruct (0 <? rate c); lia.
  - intros [= <-]. apply (inv_with s i Checking); try done; destruct (dc_cancelled s); try done;
      simpl; destruct (0 <? rate c); lia.
  - intros [= <-].
    assert (0 <= dc_seq s) as Hs by (rewrite (di_seq _ Hi); pose proof (zlen_nonneg (dc_asked s));
      pose proof (total_nonneg numbered (dc_workers s) ltac:(by intros [])); lia).
    pose proof (di_cap _ Hi).
    unfold with_worker. cbn [dc_seq dc_tokens dc_closed dc_cancelled dc_workers dc_stats dc_asked dc_pushed dc_taken].
    rewrite <- (Z.sub_0_r (dc_tokens s)), <- (Z.add_0_r (dc_taken s)).
    apply (inv_move s i Adding Loading (dc_seq s + 1) 0 Hi Ep); try done; simpl; try lia.
    destruct (0 <? rate c); lia.
  - intros [= <-]. apply (inv_with s i Loading); try done; [simpl; destruct (0 <? rate c); lia|].
    intros k [= <-]. pose proof (di_loading _ Hi _ Ep). lia.
  - intros [= <-]. by apply inv_answer.
Qed.

Lemma doh_step_inv s e s' : doh_inv s -> doh_step c tag track until s e = Some s' -> doh_inv s'.
Proof.
  intros Hi.
  assert (forall i, actor e = Some i ->
    match dc_workers s !! i with Some p => work c tag track until s i p e | None => None end = Some s' -> doh_inv s') as Hw.
  { intros i Ha. destruct (dc_workers s !! i) as [p|] eqn:Ep; [|done]. by apply work_inv. }
  destruct e as [| | |i now|i|i|i|i|i|i took_ o]; cbn [doh_step actor]; try by apply Hw.
  - unfold push. destruct Hi as [H1 H2 H3 H4 H5 H6 H7 H8 H9 H10].
    destruct (negb _ && _) eqn:E; [|done]. b2p. intros [= <-]. split; simpl; try done; lia.
  - intros [= <-]. by destruct Hi.
  - intros [= <-]. by destruct Hi.
Qed.

Lemma doh_run_inv es s s' : doh_inv s -> doh_run c tag track until s es = Some s' -> doh_inv s'.
Proof.
  revert s. induction es as [|e es IH]; intros s Hi; cbn [doh_run]; [by intros [= <-]|].
  destruct (doh_step c tag track until s e) as [s1|] eqn:E; [|done]. apply IH. by eapply doh_step_inv.
Qed.
End invariant.

(** C12. Whatever way the goroutines of a DoH client interleave -- two workers may
    read the same sequence number -- each query it asks has a name of its own;
    one that is paced asks no more queries than its pacer put tokens, which never
    queue past the channel's capacity; and every request is counted once, as
    answered, in error, refused or failed. *)
Theorem doh_requests (c : clientSpec) (tag : string) (track : bool) (until : time) es s :
  doh_run c tag track until (runDoH c) es = Some s ->
  qmode c <> "fixed" -> zlen (dc_workers s) < 2 ^ 63 -> dc_seq s < 2 ^ 63 ->
  NoDup (map (fun '(i, k) => name c i k tag) (dc_asked s)) /\
  (0 < rate c -> zlen (dc_asked s) <= dc_pushed s /\ dc_tokens s <= tokens_cap) /\
  let a := dc_stats s in
  offered a = zlen (dc_asked s) /\ offered a = failed a + refused a + badRcode a + full a /\
  replies a = badRcode a + full a /\ latLen a <= full a.
Proof.
  intros E Hq Hw Hs. pose proof (doh_run_inv c tag track until es _ _ (inv_start c) E) as Hi.
  split; [|split; [|by destruct Hi]].
  - apply NoDup_fmap_2_strong; [|apply (di_nodup _ _ Hi)].
    intros [i k] [j l] Hik Hjl En. apply (di_range _ _ Hi) in Hik as [Hi1 Hk], Hjl as [Hj1 Hl].
    apply unique_names in En as [-> ->]; try done; unfold int64_range; lia.
  - intros Hr. pose proof (di_spent _ _ Hi Hr). pose proof (di_tokens _ _ Hi). pose proof (di_cap _ _ Hi).
    pose proof (total_nonneg tokened (dc_workers s) ltac:(by intros [])). lia.
Qed.

Definition ex_doh : clientSpec := client [Src "127.1.0.1"; Transport "doh2"; Rate 100; Sockets 1; Inflight 2].

Definition ex_doh_events : list doh_event :=
  [Pushed; Pushed; Looks 0 1; Looks 1 1; Takes 1; Takes 0; Checks 0; Checks 1; Adds 0; Adds 1; Loads 0; Loads 1;
   Answers 1 5 DohNoStatus; Answers 0 5 DohNoStatus].

Definition ex_doh_end : doh_client :=
  Eval vm_compute in default (runDoH ex_doh) (doh_run ex_doh "atk" false 100 (runDoH ex_doh) ex_doh_events).

(** Both workers read the number two. *)
Lemma doh_requests_witness :
  doh_run ex_doh "atk" false 100 (runDoH ex_doh) ex_doh_events = Some ex_doh_end /\
  map (fun '(i, k) => name ex_doh i k "atk") (dc_asked ex_doh_end) = ["q1-2.atk.rrl.test"; "q0-2.atk.rrl.test"] /\
  NoDup (map (fun '(i, k) => name ex_doh i k "atk") (dc_asked ex_doh_end)) /\ offered (dc_stats ex_doh_end) = 2.
Proof.
  assert (E : doh_run ex_doh "atk" false 100 (runDoH ex_doh) ex_doh_events = Some ex_doh_end)
    by (vm_compute; reflexivity).
  destruct (doh_requests ex_doh "atk" false 100 ex_doh_events ex_doh_end E) as (H1 & _ & H2 & _);
    [discriminate|reflexivity|reflexivity|].
  split; [exact E|]. split; [vm_compute; reflexivity|]. split; [exact H1|exact H2].
Defined.

(** ** Stopping *)

Definition worker_steps (es : list doh_event) : Z :=
  zlen (List.filter (fun e => match actor e with Some _ => true | None => false end) es).

Section stopping.
Context (c : clientSpec) (tag : string) (track : bool) (until : time).

Lemma stopped_step s e s' :
  doh_step c tag track until s e = Some s' -> dc_cancelled s = true ->
  dc_cancelled s' = true /\
  worker_steps [e] + total left_ (dc_workers s') <= total left_ (dc_workers s) /\
  length (dc_workers s') = length (dc_workers s).
Proof.
  intros H Hc.
  assert (forall i p q, dc_workers s !! i = Some p -> left_ q + 1 <= left_ p ->
    1 + total left_ (<[i := q]> (dc_workers s)) <= total left_ (dc_workers s) /\
    length (<[i := q]> (dc_workers s)) = length (dc_workers s)) as Hw.
  { intros i p q Hp Hl. rewrite (total_insert _ _ _ _ _ Hp), length_insert. split; [lia|done]. }
  destruct e as [| | |i now|i|i|i|i|i|i took_ o]; cbn [doh_step actor] in H.
  1: unfold push in H; destruct (negb _ && _); [|done].
  1-3: injection H as <-; split; [done|]; split; [|done]; change (worker_steps _) with 0; simpl; lia.
  all: change (worker_steps _) with 1; destruct (dc_workers s !! i) as [p|] eqn:Ep; [|done].
  all: destruct p as [| | | | |k|]; cbn [work] in H; try done; rewrite ?Hc in H; try (injection H as <-);
    try (destruct (0 <? dc_tokens s); [injection H as <-|destruct (dc_closed s); [injection H as <-|done]]);
    split; try done; cbn [dc_workers with_worker]; eapply Hw; try exact Ep; repeat case_match; simpl; lia.
Qed.

(** A worker that has not gone can step. *)
Lemma stopped_progress s :
  dc_cancelled s = true -> 0 < total left_ (dc_workers s) ->
  exists e s', actor e <> None /\ doh_step c tag track until s e = Some s'.
Proof.
  intros Hc Hl. assert (exists i p, dc_workers s !! i = Some p /\ p <> Gone) as (i & p & Hp & Hg).
  { clear Hc. induction (dc_workers s) as [|w ws IH]; [simpl in Hl; lia|].
    destruct (decide (left_ w = 0)) as [E|E].
    - destruct IH as (i & p & ? & ?); [simpl in Hl; lia|]. by exists (S i), p.
    - exists 0%nat, w. split; [done|]. by intros ->. }
  destruct p as [| | | | |k|]; try done.
  - exists (Looks i 0). eexists. split; [done|]. cbn [doh_step actor]. rewrite Hp. done.
  - exists (GivesUp i). eexists. split; [done|]. cbn [doh_step actor]. rewrite Hp. cbn [work]. by rewrite Hc.
  - exists (Checks i). eexists. split; [done|]. cbn [doh_step actor]. rewrite Hp. done.
  - exists (Adds i). eexists. split; [done|]. cbn [doh_step actor]. rewrite Hp. done.
  - exists (Loads i). eexists. split; [done|]. cbn [doh_step actor]. rewrite Hp. done.
  - exists (Answers i 0 DohNoStatus). eexists. split; [done|]. cbn [doh_step actor]. rewrite Hp. done.
Qed.

Lemma total_bound ws : 0 <= total left_ ws <= 6 * zlen ws.
Proof.
  induction ws as [|w ws IH]; [simpl; unfold zlen; simpl; lia|].
  rewrite zlen_cons. simpl. destruct w; simpl; lia.
Qed.
End stopping.

(** C38. Stopping a DoH client ends: from the moment it is cancelled its workers
    take at most six steps each, whatever else happens, and as long as one is
    not gone one can step. *)
Theorem doh_stop_ends (c : clientSpec) (tag : string) (track : bool) (until : time) es s s' :
  dc_cancelled s = true -> doh_run c tag track until s es = Some s' ->
  worker_steps es <= 6 * zlen (dc_workers s) /\
  (Forall (eq Gone) (dc_workers s') \/
   exists e s2, actor e <> None /\ doh_step c tag track until s' e = Some s2).
Proof.
  intros Hc E.
  assert (dc_cancelled s' = true /\ worker_steps es + total left_ (dc_workers s') <= total left_ (dc_workers s)) as [Hc' Hl].
  { revert s Hc E. induction es as [|e es IH]; intros s Hc; cbn [doh_run]; [intros [= <-]; split; [done|]|].
    - change (worker_steps []) with 0. lia.
    - destruct (doh_step c tag track until s e) as [s1|] eqn:E1; [|done]. intros E.
      destruct (stopped_step _ _ _ _ _ _ _ E1 Hc) as (Hc1 & Hl1 & _). destruct (IH s1 Hc1 E) as [H1 H2].
      split; [done|]. change (e :: es) with ([e] ++ es). unfold worker_steps in *.
      rewrite List.filter_app, zlen_app. lia. }
  pose proof (total_bound (dc_workers s)). pose proof (total_bound (dc_workers s')). split; [lia|].
  destruct (Z.eq_dec (total left_ (dc_workers s')) 0) as [Hz|Hz]; [left|right; apply stopped_progress; [done|lia]].
  clear -Hz. induction (dc_workers s') as [|w ws IH]; [constructor|]. pose proof (total_bound ws).
  cbn [total foldr] in Hz. fold (total left_ ws) in Hz. constructor; [destruct w; simpl in *; done || lia|].
  apply IH. destruct w; simpl in Hz; lia.
Qed.

Lemma doh_stop_ends_witness :
  exists s', doh_run ex_doh "atk" false 100 (runDoH ex_doh) [Cancel; Looks 0 1; GivesUp 0; Looks 1 1; GivesUp 1] = Some s' /\
  worker_steps [Looks 0 1; GivesUp 0; Looks 1 1; GivesUp 1] <= 6 * 2.
Proof.
  eexists. split; [vm_compute; reflexivity|].
  refine (proj1 (doh_stop_ends ex_doh "atk" false 100 [Looks 0 1; GivesUp 0; Looks 1 1; GivesUp 1]
    (mkDoh 0 0 false true [Looking; Looking] stats0 [] 0 0) _ eq_refl _)).
  vm_compute. reflexivity.
Defined.
