(* ===== verification/RrlServer.v ===== *)
(** * [bench/cmd/rrlexp/server.go]: the server under test

    The configuration an arm runs against, the order in which [startServer]
    starts, waits for and checks the process, and the reading of its counters.
    What the operating system and the network answer -- ports, the certificate,
    whether a write, the start and each probe succeed -- is an argument; what is
    done to the process is the list of actions. *)

From S2P Require Import Prelude GoStrings GoFloat DnsWire UnitEnv NetAddr RrlMock RrlArms RrlStats RrlClient.

(** Text of whole lines. *)
Definition lines (l : list string) : string := concat_all (map (fun x => x +:+ nls) l).

(** ** The blocks of the configuration *)

Definition rateLimitBlock (a : arm) : string :=
  if negb (limiter a) then "    enabled: false"
  else "    enabled: true" +:+ nls +:+ "    responses_per_second: " +:+ itoa (rps a) +:+ nls +:+
       "    slip: " +:+ itoa (slip a).

Definition connectionBlock (a : arm) : string :=
  let b := "" in
  let b := if 0 <? maxConns a then b +:+ "  max_connections: " +:+ itoa (maxConns a) +:+ nls else b in
  let b := if 0 <? perPrefix a
           then b +:+ "  max_connections_per_prefix: " +:+ itoa (perPrefix a) +:+ nls else b in
  let b := if 0 <? clientTimeout a
           then b +:+ "  client_timeout: " +:+ dur_string (clientTimeout a) +:+ nls else b in
  if 0 <? maxPending a then b +:+ "  max_pending: " +:+ itoa (maxPending a) +:+ nls else b.

Definition readersLine (a : arm) : string :=
  if readers a <=? 0 then "" else "    readers: " +:+ itoa (readers a) +:+ nls.

Definition armCache (a : arm) : Z := if 0 <? cacheEntries a then cacheEntries a else 400000.

Record member : Type := mkMember { m_name : string; m_addr : string }.

Definition member_lines (m : member) : string :=
  let '(host, port) := default ("", "") (SplitHostPort (m_addr m)) in
  "    - name: " +:+ m_name m +:+ nls +:+ "      type: udp" +:+ nls +:+
  "      address: " +:+ host +:+ nls +:+ "      port: " +:+ port +:+ nls.

Definition upstreamBlock (strategy : string) (attempts : Z) (members : list member) : string :=
  "upstream:" +:+ nls +:+ "  strategy: " +:+ strategy +:+ nls +:+ "  timeout: 5s" +:+ nls +:+
  (if 0 <? attempts then "  attempts: " +:+ itoa attempts +:+ nls else "") +:+
  "  bootstrap: [127.0.0.1]" +:+ nls +:+ "  servers:" +:+ nls +:+
  concat_all (map member_lines members).

(** [outage.block] of [arms_upstream.go]: the failing mock, and the steady one
    where there is one. *)
Definition outage_block (s : failSpec) (failing : string) (steady : option string) : string :=
  upstreamBlock (f_strategy s) 0
    ({| m_name := "failing"; m_addr := failing |} ::
     match steady with Some a => [{| m_name := "steady"; m_addr := a |}] | None => [] end).

Record armServer : Type := mkArmServer {
  as_logPath : string;
  as_rateLimit : string;
  as_connections : string;
  as_cert : string;
  as_key : string;
  as_upstream : string;
  as_stale : bool;
  as_listen : string;
  as_port : Z;
  as_dotPort : Z;
  as_dohPort : Z;
  as_cacheEntries : Z;
  as_metrics : Z;
  as_readers : string
}.

Definition quoted (s : string) : string := dq +:+ s +:+ dq.

(** [configTemplate], a verb's argument by its index. *)
Definition configTemplate (level : string) (queries : bool) (file : string) (workers_ upstream_workers : Z)
  (connections_ rate_limit_ listen_ : string) (port_ dot_port doh_port : Z) (cert_file_ key_file_ upstream_ : string)
  (max_entries metrics_port : Z) (readers_line : string) (serve_stale : bool) : string :=
  lines ["log:";
    "  level: " +:+ level;
    "  queries: " +:+ fmt_bool queries;
    "  file: " +:+ file;
    "";
    "server:";
    "  workers: " +:+ itoa workers_;
    "  upstream_workers: " +:+ itoa upstream_workers] +:+
  connections_ +:+
  lines ["  rate_limit:";
    rate_limit_;
    "";
    "listeners:";
    "  udp:";
    "    enabled: true";
    "    address: " +:+ quoted listen_;
    "    port: " +:+ itoa port_] +:+
  readers_line +:+
  lines ["  tcp:";
    "    enabled: true";
    "    address: " +:+ quoted listen_;
    "    port: " +:+ itoa port_;
    "  # DoT and DoH are on in every arm rather than only the arms that use them, so";
    "  # a listener an arm does not use is still there to be sure it costs nothing: a";
    "  # bystander's result would mean less if the DoH arms ran against a differently";
    "  # configured server. The DoT one is also where a TLS handshake is reachable";
    "  # without HTTP on top of it, which is what the handshake-flood arms need.";
    "  dot:";
    "    enabled: true";
    "    address: " +:+ quoted listen_;
    "    port: " +:+ itoa dot_port;
    "    cert_file: " +:+ cert_file_;
    "    key_file: " +:+ key_file_;
    "  doh:";
    "    enabled: true";
    "    address: " +:+ quoted listen_;
    "    port: " +:+ itoa doh_port;
    "    path: /dns-query";
    "    cert_file: " +:+ cert_file_;
    "    key_file: " +:+ key_file_;
    "";
    upstream_;
    "cache:";
    "  enabled: true";
    "  # Every query in a run asks about a name of its own, so a run's worth of";
    "  # misses has to fit without evicting: a cache churning is a cost of the";
    "  # generator's making rather than of the load. The soak arm asks for the";
    "  # shipped figure instead - see armCache in server.go.";
    "  max_entries: " +:+ itoa max_entries;
    "  serve_stale: " +:+ fmt_bool serve_stale;
    "";
    "blocking:";
    "  enabled: false";
    "";
    "dnssec:";
    "  enabled: false";
    "";
    "# Off by default; on here because the limiter's own counters are the server's";
    "# side of the story, and reading them from the process beats inferring them";
    "# from what the clients saw. On 127.0.0.1 whatever the listeners bind - it is";
    "# the harness reading the server rather than part of the load, and loopback";
    "# IPv4 is on every machine that can run the IPv4 arms at all.";
    "metrics:";
    "  enabled: true";
    "  address: " +:+ quoted "127.0.0.1";
    "  port: " +:+ itoa metrics_port;
    "  path: /metrics"].

Definition serverConfig (f : flags) (a : armServer) : string :=
  configTemplate (logLevel f) (logQueries f) (as_logPath a) (workers f) (Z.quot (workers f) 2)
    (as_connections a) (as_rateLimit a) (as_listen a) (as_port a) (as_dotPort a) (as_dohPort a)
    (as_cert a) (as_key a) (as_upstream a) (as_cacheEntries a) (as_metrics a) (as_readers a) (as_stale a).

(** ** Starting it *)

(** [serverCommand]: the program and its arguments. *)
Definition serverCommand (f : flags) (bin cfgPath : string) : list string :=
  let args := ["--config"; cfgPath; "--no-fetch"] in
  if String.eqb (serverCPUs f) "" then bin :: args
  else "taskset" :: ["-c"; serverCPUs f; bin] ++ args.

(** One round of [waitReady], at the time its loop condition read the clock. *)
Inductive probe : Type :=
  | ProbeDialFailed (e : string)
  | ProbeWriteFailed (e : string)
  | ProbeReadFailed (e : string)
  | ProbeReply (msg : bytes).

Fixpoint wait_ready (rounds : list (time * probe)) (deadline : time) (last : option string)
  : result string unit :=
  let fail_ := Err (default "timed out" last) in
  match rounds with
  | [] => fail_
  | (now, p) :: rest =>
      if now <? deadline then
        match p with
        | ProbeDialFailed e | ProbeWriteFailed e | ProbeReadFailed e => wait_ready rest deadline (Some e)
        | ProbeReply msg =>
            match ParseReply msg with
            | Ok _ => Ok tt
            | Err _ => wait_ready rest deadline last
            end
        end
      else fail_
  end.

Definition waitReady (rounds : list (time * probe)) (start within_ : time) : result string unit :=
  wait_ready rounds (start + within_) None.

(** [armPorts]: four free ports, the first that cannot be had ending it. *)
Fixpoint free_ports (n : nat) (tries : list (result string Z)) : result string (list Z) :=
  match n, tries with
  | O, _ => Ok []
  | S n', Ok p :: tries => let? ps := free_ports n' tries in Ok (p :: ps)
  | S _, Err e :: _ => Err e
  | S _, [] => Err "no port"
  end.

Definition armPorts (tries : list (result string Z)) : result string (Z * Z * Z * Z) :=
  let? ps := free_ports 4 tries in
  match ps with
  | [dns; dot; doh; metrics] => Ok (dns, dot, doh, metrics)
  | _ => Err "no port"
  end.

Inductive action : Type :=
  | RunOpenssl (args : list string)
  | WriteFile (path text : string)
  | StartProcess (argv env : list string)
  | StopProcess.

(** [makeCert]: the certificate of an earlier arm of the same run, or a new
    one. *)
Definition openssl_args (certPath_ keyPath : string) : list string :=
  fields "req -x509 -newkey ec -pkeyopt ec_paramgen_curve:prime256v1 -nodes" ++
  ["-keyout"; keyPath; "-out"; certPath_; "-days"; "30"; "-subj"; "/CN=elodin.rrlexp";
   "-addext"; "subjectAltName=DNS:localhost,IP:127.0.0.1,IP:::1"].

Definition makeCert (dir : string) (there : bool) (openssl : option string)
  : list action * result string (string * string) :=
  let certPath_ := dir +:+ "/cert.pem" in
  let keyPath := dir +:+ "/key.pem" in
  if there then ([], Ok (certPath_, keyPath))
  else
    ([RunOpenssl (openssl_args certPath_ keyPath)],
     match openssl with
     | Some e => Err ("openssl: " +:+ e)
     | None => Ok (certPath_, keyPath)
     end).

(** What the machine answers while a server is started. *)
Record machine_answers : Type := mkMachine {
  mc_free : list (result string Z);
  mc_have_cert : bool;
  mc_openssl : option string;
  mc_write : result string unit;
  mc_start : result string Z;
  mc_rounds : list (time * probe);
  mc_now : time;
  mc_environ : result unit_error string
}.

Definition arm_server (f : flags) (dir upstream cert key : string) (a : arm)
  (port dotPort dohPort metrics : Z) : armServer :=
  {| as_logPath := dir +:+ "/" +:+ file_stem a +:+ ".log";
     as_rateLimit := rateLimitBlock a; as_connections := connectionBlock a;
     as_cert := cert; as_key := key; as_upstream := upstream;
     as_stale := match fail_spec a with Some s => f_stale s | None => false end;
     as_listen := armListen a; as_port := port; as_dotPort := dotPort; as_dohPort := dohPort;
     as_cacheEntries := armCache a; as_metrics := metrics; as_readers := readersLine a |}.

Definition startServer (f : flags) (unitEnv osEnviron : list string) (bin dir upstream : string) (a : arm)
  (mc : machine_answers) : list action * result string (server * Z) :=
  match armPorts (mc_free mc) with
  | Err e => ([], Err e)
  | Ok (port, dotPort, dohPort, metricsPort) =>
      match makeCert dir (mc_have_cert mc) (mc_openssl mc) with
      | (made, Err e) => (made, Err e)
      | (made, Ok (cert, key)) =>
          let sa := arm_server f dir upstream cert key a port dotPort dohPort metricsPort in
          let cfgPath := dir +:+ "/" +:+ file_stem a +:+ ".yaml" in
          let wrote := made ++ [WriteFile cfgPath (serverConfig f sa)] in
          match mc_write mc with
          | Err e => (wrote, Err e)
          | Ok _ =>
              let l := armListen a in
              let s := mkServer (joinPort l port) (joinPort l port) (joinPort l dotPort)
                         (joinPort l dohPort) (probeSrcFor l) cert
                         ("127.0.0.1:" +:+ itoa metricsPort) (as_logPath sa) in
              let env := Shipped unitEnv osEnviron in
              let ran := wrote ++ [StartProcess (serverCommand f bin cfgPath) env] in
              match mc_start mc with
              | Err e => (ran, Err e)
              | Ok pid =>
                  match waitReady (mc_rounds mc) (mc_now mc) (10 * second) with
                  | Err e => (ran ++ [StopProcess], Err ("did not come up: " +:+ e))
                  | Ok _ =>
                      match Check (mc_environ mc) unitEnv with
                      | Err e => (ran ++ [StopProcess], Err "environment")
                      | Ok _ => (ran, Ok (s, pid))
                      end
                  end
              end
          end
      end
  end.

(** ** Reading its counters *)

(** The digits at the front of a string, and whether there are any. *)
Fixpoint digit_run (s : string) : string :=
  match s with
  | String c s' => match digit_val c with Some _ => String c (digit_run s') | None => "" end
  | EmptyString => ""
  end.

(** [fmt.Sscanf(s, "%d", &v)]: a sign, the digits that follow it, converted;
    what is left of the token is not looked at. *)
Definition scan_d (s : string) : option Z :=
  match s with
  | String "-" s' => parse_int (String "-" (digit_run s'))
  | String "+" s' => parse_int (String "+" (digit_run s'))
  | _ => parse_int (digit_run s)
  end.

Fixpoint counter_lines (ls : list string) (got : gmap string Z) : gmap string Z :=
  match ls with
  | [] => got
  | line :: rest =>
      if has_prefix "#" line then counter_lines rest got
      else
        match fields line with
        | [k; v] =>
            match scan_d v with
            | Some n => counter_lines rest (<[k := n]> got)
            | None => counter_lines rest got
            end
        | _ => counter_lines rest got
        end
  end.

(** [counters], given what the connection delivered; [None] is a scrape that
    failed. *)
Definition counters (body : option string) : gmap string Z :=
  match body with
  | None => ∅
  | Some text => counter_lines (split nl text) ∅
  end.

Example counters_ex :
  counters (Some ("# TYPE elodin_queries_total counter" +:+ nls +:+ "elodin_queries_total 42" +:+ nls))
    !! "elodin_queries_total" = Some 42.
Proof. reflexivity. Qed.

Example connection_ex :
  connectionBlock (arm_lit [MaxConns 64; ClientTimeout minute]) =
    lines ["  max_connections: 64"; "  client_timeout: 1m0s"].
Proof. reflexivity. Qed.

(** ** Reading back what was written *)

Lemma lacks_nls_app c s t : lacks c s -> lacks c t -> lacks c (s +:+ t).
Proof. intros. by apply lacks_app. Qed.

Lemma any_byte_concat_repeat f w n : any_byte f w = false -> any_byte f (concat_all (repeat w n)) = false.
Proof. intros H. induction n as [|n IH]; simpl; [done|]. by rewrite any_byte_app, H. Qed.

Lemma any_byte_strip f s : any_byte f s = false -> any_byte f (strip_zeros_right s) = false.
Proof.
  induction s as [|a s IH]; [done|]. simpl. intros [Ha Hs]%orb_false_iff. specialize (IH Hs).
  destruct (strip_zeros_right s); [destruct (Ascii.eqb a "0"); simpl; by rewrite ?Ha|].
  simpl in *. by rewrite Ha.
Qed.

Lemma digits_lack_nl z : 0 <= z -> lacks nl (digits z).
Proof.
  intros Hz. apply any_byte_digits_go; [|done|done].
  intros d Hd. apply Ascii.eqb_neq. intros E. pose proof (digit_val_char d Hd) as Hv.
  rewrite <- E in Hv. discriminate Hv.
Qed.

Lemma fmt_frac_lacks_nl v p : 0 <= v -> lacks nl (fmt_frac v p).
Proof.
  intros Hv. unfold fmt_frac. assert (0 < 10 ^ Z.of_nat p) by lia.
  pose proof (Z.mod_pos_bound v (10 ^ Z.of_nat p) ltac:(lia)).
  apply lacks_app. split; [apply digits_lack_nl, Z.div_pos; lia|].
  destruct (String.eqb _ ""); [done|]. apply lacks_app. split; [done|].
  apply any_byte_strip. rewrite any_byte_app, any_byte_concat_repeat by done.
  apply digits_lack_nl. lia.
Qed.

Lemma dur_string_lacks_nl d : lacks nl (dur_string d).
Proof.
  unfold dur_string. pose proof (Z.abs_nonneg d). set (u := Z.abs d) in *.
  apply lacks_app. split; [by destruct (d <? 0)|].
  unfold minute, second, millisecond, microsecond in *.
  repeat case_match; rewrite ?lacks_app; repeat split; try done;
    try apply fmt_frac_lacks_nl; try apply digits_lack_nl;
    try apply Z.mod_pos_bound; repeat apply Z.div_pos; try lia;
    apply Z.mod_pos_bound; lia.
Qed.

Lemma split_lines l : Forall (lacks nl) l -> split nl (lines l) = l ++ [""].
Proof.
  induction 1 as [|x l Hx _ IH]; [done|].
  change (lines (x :: l)) with ((x +:+ nls) +:+ lines l). rewrite str_app_assoc.
  change (nls +:+ lines l) with (String nl (lines l)). by rewrite split_lacks_app, IH.
Qed.

Definition setting (on : bool) (key value : string) : list string :=
  if on then ["  " +:+ key +:+ ": " +:+ value] else [].

Definition connection_settings (a : arm) : list string :=
  setting (0 <? maxConns a) "max_connections" (itoa (maxConns a)) ++
  setting (0 <? perPrefix a) "max_connections_per_prefix" (itoa (perPrefix a)) ++
  setting (0 <? clientTimeout a) "client_timeout" (dur_string (clientTimeout a)) ++
  setting (0 <? maxPending a) "max_pending" (itoa (maxPending a)).

Lemma lines_app l k : lines (l ++ k) = lines l +:+ lines k.
Proof.
  induction l as [|x l IH]; [done|]. change (lines ((x :: l) ++ k)) with ((x +:+ nls) +:+ lines (l ++ k)).
  by rewrite IH, <- str_app_assoc.
Qed.

Lemma lines_setting on key value :
  lines (setting on key value) = if on then "  " +:+ key +:+ ": " +:+ value +:+ nls else "".
Proof.
  destruct on; [|done]. change (lines _) with ((("  " +:+ key +:+ ": " +:+ value) +:+ nls) +:+ "").
  by rewrite str_app_nil_r, !str_app_assoc.
Qed.

Lemma connectionBlock_lines a : connectionBlock a = lines (connection_settings a).
Proof.
  unfold connectionBlock, connection_settings. rewrite !lines_app, !lines_setting.
  destruct (0 <? maxConns a), (0 <? perPrefix a), (0 <? clientTimeout a), (0 <? maxPending a);
    rewrite ?str_app_nil_r, ?str_app_assoc; reflexivity.
Qed.

Lemma setting_lacks on key value :
  lacks nl key -> lacks nl value -> Forall (lacks nl) (setting on key value).
Proof.
  intros Hk Hv. unfold setting. destruct on; [|constructor].
  constructor; [|constructor]. rewrite !lacks_app. done.
Qed.

(** The connection-table block of an arm is, line for line, the figures the
    arm set and no others: a figure left at zero is not written at all, so the
    server's default for it stands. *)
Theorem connection_block_figures (a : arm) :
  split nl (connectionBlock a) = connection_settings a ++ [""].
Proof.
  rewrite connectionBlock_lines. apply split_lines. unfold connection_settings.
  repeat (apply Forall_app; split); apply setting_lacks; try done;
    try (by apply itoa_lacks); apply dur_string_lacks_nl.
Qed.

(** ** Starting and stopping *)

(** The processes left running by a list of actions. *)
Fixpoint running (l : list action) (n : Z) : Z :=
  match l with
  | [] => n
  | StartProcess _ _ :: rest => running rest (n + 1)
  | StopProcess :: rest => running rest (n - 1)
  | WriteFile _ _ :: rest | RunOpenssl _ :: rest => running rest n
  end.

Lemma check_ok_environ environ want :
  Check environ want = Ok tt -> exists data, environ = Ok data /\ check_all (split nul data) want = Ok tt.
Proof. unfold Check. by intros (data & ? & ?)%rbind_ok; exists data. Qed.

(** Some probe before the deadline was answered by a response. *)
Definition answered (rounds : list (time * probe)) (deadline : time) : Prop :=
  exists now msg, (now, ProbeReply msg) ∈ rounds /\ now < deadline /\ is_ok (ParseReply msg) = true.

Lemma wait_ready_ok rounds deadline last u :
  wait_ready rounds deadline last = Ok u -> answered rounds deadline.
Proof.
  revert last. induction rounds as [|[now p] rest IH]; intros last; simpl; [done|].
  assert (answered rest deadline -> answered ((now, p) :: rest) deadline) as Hc.
  { intros (n & m & Hin & ? & ?). exists n, m. split; [by right|done]. }
  destruct (Z.ltb_spec now deadline); [|done]. destruct p as [e|e|e|msg]; try (intros Hw; by eapply Hc, IH).
  destruct (ParseReply msg) eqn:E; [|intros Hw; by eapply Hc, IH].
  intros _. exists now, msg. split; [by left|]. by rewrite E.
Qed.

(** Making the certificate leaves no process. *)
Lemma makeCert_running dir there openssl l n : running (fst (makeCert dir there openssl) ++ l) n = running l n.
Proof. by destruct there. Qed.

(** C22. However it fails, [startServer] leaves no server running; and when it
    returns one, that one is running alone, with the arm's configuration
    written before it started, in the unit's environment (every assignment of
    the unit being found in the process's own), and it answered a probe within
    ten seconds. *)
Theorem startServer_outcome f unitEnv osEnviron bin dir ups a mc :
  let '(done_, r) := startServer f unitEnv osEnviron bin dir ups a mc in
  match r with
  | Err _ => running done_ 0 = 0 \/ (exists e, mc_start mc = Err e)
  | Ok (s, pid) =>
      running done_ 0 = 1 /\ mc_start mc = Ok pid /\
      answered (mc_rounds mc) (mc_now mc + 10 * second) /\
      Check (mc_environ mc) unitEnv = Ok tt /\
      exists cfg sa, done_ = fst (makeCert dir (mc_have_cert mc) (mc_openssl mc)) ++
                       [WriteFile cfg (serverConfig f sa);
                        StartProcess (serverCommand f bin cfg) (Shipped unitEnv osEnviron)] /\
        udpAddr s = joinPort (armListen a) (as_port sa) /\ tcpAddr s = udpAddr s /\
        dotAddr s = joinPort (armListen a) (as_dotPort sa) /\
        dohAddr s = joinPort (armListen a) (as_dohPort sa) /\ as_listen sa = armListen a /\
        certPath s = as_cert sa /\ as_upstream sa = ups
  end.
Proof.
  unfold startServer. destruct (armPorts (mc_free mc)) as [[[[p1 p2] p3] p4]|]; [|by left].
  pose proof (makeCert_running dir (mc_have_cert mc) (mc_openssl mc)) as Hm.
  destruct (makeCert dir (mc_have_cert mc) (mc_openssl mc)) as [made [[cert key]|]]; cbn [fst] in *;
    [|left; by rewrite <- (app_nil_r made), Hm].
  destruct (mc_write mc); [|left; apply Hm].
  destruct (mc_start mc) as [pid|e]; [|right; by exists e].
  destruct (waitReady _ _ _) as [u|] eqn:Ew; [|left; rewrite <- !app_assoc; apply Hm].
  destruct (Check _ _) as [[]|] eqn:Ec; [|left; rewrite <- !app_assoc; apply Hm].
  split_and!; [rewrite <- app_assoc; apply Hm|done|by apply wait_ready_ok in Ew|done|].
  eexists _, (arm_server f dir ups cert key a p1 p2 p3 p4). split_and!; try reflexivity. by rewrite <- app_assoc.
Qed.

(** ** Stopping it *)

Inductive stop_step : Type := Sigterm | Sigkill | Reaped.

(** [stop], once: [stopped] is the state of [stopOnce], [exits] how long after
    the signal the process exits by itself, if it does. *)
Definition server_stop (stopped started : bool) (exits : option duration) : list stop_step * bool :=
  if stopped then ([], true)
  else if negb started then ([], true)
  else
    match exits with
    | Some d => if d <? 15 * second then ([Sigterm; Reaped], true) else ([Sigterm; Sigkill; Reaped], true)
    | None => ([Sigterm; Sigkill; Reaped], true)
    end.

(** A stop leaves no process behind, by force if it has to, and the ones after
    it do nothing. *)
Lemma server_stop_once started exits exits' :
  (started = true -> List.last (fst (server_stop false started exits)) Sigterm = Reaped) /\
  server_stop (snd (server_stop false started exits)) started exits' = ([], true).
Proof.
  unfold server_stop. destruct started; simpl; [|done].
  destruct exits as [d|]; [destruct (d <? 15 * second)|]; done.
Qed.

(** ** The scrape *)

(** What a metrics page holds, apart from what is neither: lines of one or of
    three words and more, the status line among them. *)
Inductive page_line : Type :=
  | Comment (text : string)
  | Sample (name_ : string) (value : Z)
  | Other (words : list string).

Definition render_page_line (l : page_line) : string :=
  match l with
  | Comment t => "#" +:+ t
  | Sample k v => k +:+ " " +:+ itoa v
  | Other ws => join " " ws
  end.

Definition page_line_ok (l : page_line) : Prop :=
  lacks nl (render_page_line l) /\
  match l with
  | Comment _ => True
  | Sample k v => field_ok is_space k /\ has_prefix "#" k = false /\ int64_range v
  | Other ws => Forall (field_ok is_space) ws /\ has_prefix "#" (join " " ws) = false /\ length ws <> 2%nat
  end.

(** The last sample of a name on a page. *)
Fixpoint last_sample (k : string) (ls : list page_line) : option Z :=
  match ls with
  | [] => None
  | l :: rest =>
      match last_sample k rest, l with
      | Some v, _ => Some v
      | None, Sample k' v => if String.eqb k k' then Some v else None
      | None, _ => None
      end
  end.

Lemma digit_run_digits s : (exists z, parse_digits 0 s = Some z) -> digit_run s = s.
Proof.
  generalize 0 as acc. induction s as [|c s IH]; intros acc [z Hz]; [done|]. simpl in *.
  destruct (digit_val c); [|done]. f_equal. by eapply IH; eauto.
Qed.

Lemma scan_d_itoa v : int64_range v -> scan_d (itoa v) = Some v.
Proof.
  intros Hv. pose proof (parse_int_itoa v Hv) as Hp. unfold itoa in *.
  assert (forall n, 0 <= n -> digit_run (digits n) = digits n) as Hd.
  { intros n Hn. apply digit_run_digits. exists n. by apply parse_digits_digits. }
  destruct (v <? 0) eqn:E; b2p.
  - change ("-" +:+ digits (- v)) with (String "-" (digits (- v))) in *. unfold scan_d.
    rewrite Hd by lia. exact Hp.
  - assert (scan_d (digits v) = parse_int (digit_run (digits v))) as ->; [|by rewrite Hd].
    unfold scan_d.
    destruct (digits_go_cons (S (Z.to_nat (Z.log2 v))) v "" E) as (d & s & Es & Hr); [lia|].
    fold (digits v) in Es. rewrite Es.
    assert (d = 0 \/ d = 1 \/ d = 2 \/ d = 3 \/ d = 4 \/ d = 5 \/ d = 6 \/ d = 7 \/ d = 8 \/ d = 9) as H by lia.
    by repeat destruct H as [->|H]; [..|subst].
Qed.

Lemma counter_lines_lookup ls got k :
  Forall page_line_ok ls ->
  counter_lines (map render_page_line ls) got !! k =
    match last_sample k ls with Some v => Some v | None => got !! k end.
Proof.
  intros H. revert got. induction H as [|l ls [Hnl Hl] _ IH]; intros got; [done|].
  cbn [map counter_lines last_sample]. destruct l as [t|k' v|ws]; cbn [render_page_line].
  - rewrite (has_prefix_app "#" t), IH. by destruct (last_sample k ls).
  - destruct Hl as (Hk & Hp & Hv).
    assert (has_prefix "#" (k' +:+ " " +:+ itoa v) = false) as ->.
    { destruct Hk as [Hne _]. destruct k'; [done|]. simpl in *. by destruct (Ascii.eqb _ _). }
    replace (fields (k' +:+ " " +:+ itoa v)) with [k'; itoa v].
    2:{ symmetry. apply (fields_join [k'; itoa v]). repeat constructor; try apply Hk; apply itoa_field. }
    rewrite scan_d_itoa by done. rewrite IH. destruct (last_sample k ls); [done|].
    destruct (String.eqb_spec k k') as [->|Hne]; [by rewrite lookup_insert_eq|].
    by rewrite lookup_insert_ne.
  - destruct Hl as (Hws & Hp & Hn). rewrite Hp, fields_join by done.
    by destruct ws as [|w0 [|w1 [|w2 ws]]]; [..|destruct (Hn eq_refl)|];
      rewrite IH; destruct (last_sample k ls).
Qed.

(** Off a metrics page -- samples of one integer each, comments, and lines
    that are neither -- [counters] reads for every name the value of its last
    sample, and nothing for a name the page does not give. *)
Theorem counters_page ls k :
  Forall page_line_ok ls -> ls <> [] ->
  counters (Some (join nls (map render_page_line ls))) !! k = last_sample k ls.
Proof.
  intros H Hn. simpl. change nls with (String nl ""). rewrite split_join.
  - rewrite counter_lines_lookup by done. by destruct (last_sample k ls).
  - by destruct ls.
  - apply Forall_map. eapply Forall_impl; [exact H|]. by intros l [? _].
Qed.

Lemma counters_page_witness :
  counters (Some (join nls (map render_page_line
    [Other ["HTTP/1.0"; "200"; "OK"]; Other []; Comment " TYPE a counter"; Sample "a" 3; Sample "b" (-4); Sample "a" 5])))
    !! "a" = Some 5.
Proof.
  apply (counters_page [Other ["HTTP/1.0"; "200"; "OK"]; Other []; Comment " TYPE a counter"; Sample "a" 3; Sample "b" (-4); Sample "a" 5]);
    [|discriminate].
  assert (int64_range 3 /\ int64_range (-4) /\ int64_range 5) as (? & ? & ?) by (unfold int64_range; lia).
  repeat (apply Forall_cons; split; [split; [reflexivity|]|]);
    [| | | | | |apply Forall_nil; exact I].
  - split_and!; [repeat (apply Forall_cons; split; [split; [discriminate|reflexivity]|]); apply Forall_nil; exact I|reflexivity|discriminate].
  - split_and!; [apply Forall_nil; exact I|reflexivity|discriminate].
  - exact I.
  - split_and!; [split; [discriminate|reflexivity]|reflexivity|done].
  - split_and!; [split; [discriminate|reflexivity]|reflexivity|done].
  - split_and!; [split; [discriminate|reflexivity]|reflexivity|done].
Defined.

Definition crs : string := String cr "".

(** A scrape the server refused is not an empty map: the [Content-Length]
    header of any response, an error's included, is a line of two words of which
    the second is a number, so it reads as a counter of that name. *)
Theorem refused_scrape_not_empty (status : list string) (n : Z) :
  Forall (field_ok is_space) status -> has_prefix "#" (join " " status +:+ crs) = false ->
  lacks nl (join " " status) -> length status <> 2%nat -> 0 <= n < 2 ^ 63 ->
  counters (Some (join nls [join " " status +:+ crs; "Content-Length: " +:+ itoa n +:+ crs; crs; ""]))
    !! "Content-Length:" = Some n.
Proof.
  intros H1 H2 H3 H4 Hn. assert (int64_range n) as Hr by (unfold int64_range; lia).
  unfold counters. change nls with (String nl "").
  rewrite split_join; [|done|].
  2:{ repeat (apply Forall_cons; split); [by apply lacks_app| |done|done|by apply Forall_nil].
      rewrite !lacks_app. split_and!; try done. by apply itoa_lacks. }
  cbn [counter_lines]. rewrite H2. unfold crs. rewrite (fields_trailing cr), fields_join by done.
  replace (has_prefix "#" ("Content-Length: " +:+ itoa n +:+ String cr "")) with false by done.
  replace (fields ("Content-Length: " +:+ itoa n +:+ String cr "")) with ["Content-Length:"; itoa n].
  2:{ rewrite <- str_app_assoc, (fields_trailing cr) by done.
      symmetry. apply (fields_join ["Content-Length:"; itoa n]).
      repeat (apply Forall_cons; split); [by split|apply itoa_field|by apply Forall_nil]. }
  rewrite scan_d_itoa by done. change (has_prefix "#" (String cr "")) with false.
  change (fields (String cr "")) with (@nil string). change (fields "") with (@nil string).
  destruct status as [|w0 [|w1 [|w2 ws]]]; try done; by rewrite lookup_insert_eq.
Qed.

Lemma refused_scrape_not_empty_witness :
  counters (Some (join nls ["HTTP/1.1 404 Not Found" +:+ crs; "Content-Length: " +:+ itoa 10 +:+ crs; crs; ""]))
    !! "Content-Length:" = Some 10.
Proof.
  apply (refused_scrape_not_empty ["HTTP/1.1"; "404"; "Not"; "Found"] 10).
  - repeat (apply Forall_cons; split; [split; [discriminate|reflexivity]|]). apply Forall_nil. exact I.
  - reflexivity.
  - reflexivity.
  - discriminate.
  - lia.
Defined.

(** ** The upstream section *)

Definition port_ok (p : string) : Prop := lacks ":"%char p /\ lacks "["%char p /\ lacks "]"%char p.

(** The [upstream:] section names, for each member in order, the host and
    the port its address was made of -- IPv6 addresses out of their brackets --
    and an [attempts] line exactly when the arm pins one. *)
Theorem upstream_block_members strategy attempts (ms : list (string * string * Z)) :
  Forall (fun '(_, host, _) => host <> "" /\ lacks "["%char host /\ lacks "]"%char host) ms ->
  upstreamBlock strategy attempts (map (fun '(n, host, port) => {| m_name := n; m_addr := joinPort host port |}) ms) =
    lines (["upstream:"; "  strategy: " +:+ strategy; "  timeout: 5s"] ++
           (if 0 <? attempts then ["  attempts: " +:+ itoa attempts] else []) ++
           ["  bootstrap: [127.0.0.1]"; "  servers:"] ++
           concat (map (fun '(n, host, port) => ["    - name: " +:+ n; "      type: udp";
              "      address: " +:+ host; "      port: " +:+ itoa port]) ms)).
Proof.
  intros H. unfold upstreamBlock.
  assert (concat_all (map member_lines (map (fun '(n, host, port) => {| m_name := n; m_addr := joinPort host port |}) ms)) =
    lines (concat (map (fun '(n, host, port) => ["    - name: " +:+ n; "      type: udp";
              "      address: " +:+ host; "      port: " +:+ itoa port]) ms))) as ->.
  { induction H as [|[[n host] port] ms (Hh & H1 & H2) _ IH]; [done|].
    cbn [map concat]. rewrite lines_app, <- IH.
    change (concat_all (?x :: ?l)) with (x +:+ concat_all l). f_equal.
    unfold member_lines, joinPort. cbn [m_addr m_name].
    rewrite split_join_host by (done || by apply itoa_lacks). cbn [default].
    unfold lines. cbn [map concat_all]. rewrite str_app_nil_r, !str_app_assoc. reflexivity. }
  rewrite !lines_app. destruct (0 <? attempts); unfold lines at 1 2 3; cbn [map concat_all];
    rewrite ?str_app_nil_r, !str_app_assoc; reflexivity.
Qed.

Lemma upstream_block_members_witness :
  upstreamBlock "race" 0 [{| m_name := "a"; m_addr := joinPort "::1" 53 |}] =
    lines ["upstream:"; "  strategy: race"; "  timeout: 5s"; "  bootstrap: [127.0.0.1]"; "  servers:";
           "    - name: a"; "      type: udp"; "      address: ::1"; "      port: 53"].
Proof.
  apply (upstream_block_members "race" 0 [("a", "::1", 53)]).
  apply Forall_cons. split; [split_and!; [discriminate|reflexivity|reflexivity]|apply Forall_nil; exact I].
Defined.
