(* ===== verification/RrlSoak.v ===== *)
(** * [bench/cmd/rrlexp/soak.go]: readings taken while an arm runs

    [row] and [sample] (from [main.go] and [soak.go]), the sampler, and the soak
    table.  Both clients' counters and the scrape of one reading are arguments
    of [takeSample]: they are what the atomics and the server held at that
    moment. *)

From stdpp Require Import sorting.
From S2P Require Import Prelude GoStrings GoFloat Hist RrlMock RrlArms RrlStats RrlServer.

Record sample : Type := mkSample {
  at_ : duration;
  ok : bool;
  srv : gmap string Z;
  victimOffered : Z;
  victimFull : Z;
  victimClosed : Z;
  victimLat : Z;
  attackerOffered : Z;
  attackerFull : Z
}.

Definition sample0 : sample := mkSample 0 false ∅ 0 0 0 0 0 0.

Record row : Type := mkRow {
  r_arm : arm;
  r_victim : stats;
  r_attacker : option stats;
  elapsed : duration;
  r_cpu : duration;
  r_peakRSS : Z;
  r_srv : gmap string Z;
  r_samples : list sample;
  downAt : duration;
  upAt : duration
}.

(** A counter read out of a map that may not have it: Go gives zero. *)
Definition get (m : gmap string Z) (k : string) : Z := default 0 (m !! k).

(** The victim's and the flood's counters, and the scrape, at one moment. *)
Definition takeSample (victim_ : stats) (attacker_ : option stats) (scrape : gmap string Z) (at0 : duration)
  : sample :=
  {| at_ := at0;
     ok := 0 <? Z.of_nat (size scrape);
     srv := scrape;
     victimOffered := offered victim_;
     victimFull := full victim_;
     victimClosed := closed victim_;
     victimLat := latLen victim_;
     attackerOffered := match attacker_ with Some a => offered a | None => 0 end;
     attackerFull := match attacker_ with Some a => full a | None => 0 end |}.

(** What the sampling goroutine appends: the baseline before it starts, then
    one reading per tick. *)
Definition soak_samples (every : duration) (baseline : sample) (ticks : list sample) : list sample :=
  if every <=? 0 then [] else baseline :: ticks.

(** [main.go]'s [round]. *)
Definition round (d : duration) : duration :=
  if millisecond <=? d then round_dur d (100 * microsecond) else round_dur d microsecond.

Definition megabyte : Z := 1048576.

(** [100 * float64(n) / float64(of)]. *)
Definition percent (n total : Z) : float64 := fdiv (fmul (f_of_Z 100) (f_of_Z n)) (f_of_Z total).

(** [float64(n) / secs]. *)
Definition per (n : Z) (secs : float64) : float64 := fdiv (f_of_Z n) secs.

Definition missed_row (s : sample) : string :=
  "| " +:+ dur_string (round_dur (at_ s) second) +:+
  " | — | — | — | — | — | — | — | — | — | the server could not be read | — |" +:+ nls.

Definition soakRow (s prev : sample) : string :=
  if negb (ok s) then missed_row s
  else
    let window := seconds (at_ s - at_ prev) in
    let window := if fle window (f_of_Z 0) then f_of_Z 1 else window in
    let offered_ := victimOffered s - victimOffered prev in
    let answered := victimFull s - victimFull prev in
    let victim_ :=
      if 0 <? offered_
      then fmt_float 0 (percent answered offered_) +:+ "% (" +:+ itoa answered +:+ "/" +:+ itoa offered_ +:+ ")"
      else "—" in
    "| " +:+ dur_string (round_dur (at_ s) second) +:+
    " | " +:+ itoa (Z.quot (get (srv s) "process_resident_memory_bytes") megabyte) +:+ " MB" +:+
    " | " +:+ itoa (get (srv s) "process_threads") +:+
    " | " +:+ itoa (get (srv s) "process_open_fds") +:+
    " | " +:+ itoa (get (srv s) "elodin_cache_entries") +:+
    " | " +:+ itoa (Z.quot (get (srv s) "elodin_cache_bytes") megabyte) +:+ " MB" +:+
    " | " +:+ itoa (get (srv s) "elodin_connections_active") +:+
    " | " +:+ itoa (get (srv s) "elodin_connections_refused_total") +:+
    " | " +:+ fmt_float 0 (per (get (srv s) "elodin_queries_total" - get (srv prev) "elodin_queries_total") window) +:+
    " | " +:+ fmt_float 0 (per (get (srv s) "elodin_rate_limited_total" - get (srv prev) "elodin_rate_limited_total") window) +:+
    " | " +:+ victim_ +:+
    " | " +:+ itoa (victimClosed s - victimClosed prev) +:+ " |" +:+ nls.

(** The pairs the rows of a series are made from: each reading with the last
    reading before it that happened, and the one the series starts from. *)
Fixpoint windows_from (prev : sample) (l : list sample) : list (sample * sample) :=
  match l with
  | [] => []
  | s :: rest => (s, prev) :: windows_from (if ok s then s else prev) rest
  end.

Definition windows (l : list sample) : list (sample * sample) :=
  match l with
  | [] => []
  | s0 :: rest => windows_from s0 rest
  end.

Definition hasSamples (rows : list row) : bool :=
  existsb (fun r => (1 <? zlen (r_samples r)) && bool_decide (fail_spec (r_arm r) = None)) rows.

(** The first or the last reading the server answered. *)
Fixpoint first_good (l : list sample) : sample :=
  match l with
  | [] => sample0
  | s :: rest => if ok s then s else first_good rest
  end.

Definition goodSample (l : list sample) (last_ : bool) : sample :=
  first_good (if last_ then rev l else l).

Definition soakVerdict (r : row) : string :=
  let first_ := goodSample (r_samples r) false in
  let last_ := goodSample (r_samples r) true in
  if (at_ first_ =? at_ last_) || negb (ok first_) || negb (ok last_) then
    "Fewer than two readings the server answered, so there is no drift to report."
  else
    let drift k := itoa (get (srv first_) k) +:+ " → " +:+ itoa (get (srv last_) k) in
    "Resident memory went " +:+
      itoa (Z.quot (get (srv first_) "process_resident_memory_bytes") megabyte) +:+ " MB → " +:+
      itoa (Z.quot (get (srv last_) "process_resident_memory_bytes") megabyte) +:+ " MB, threads " +:+
    drift "process_threads" +:+ ", descriptors " +:+ drift "process_open_fds" +:+
    ", cache entries " +:+ drift "elodin_cache_entries" +:+ " over " +:+
    dur_string (round_dur (at_ last_ - at_ first_) second) +:+ " of load.".

Definition soak_series (f : flags) (r : row) : string :=
  if (zlen (r_samples r) <? 2) || bool_decide (fail_spec (r_arm r) <> None) then ""
  else
    "### " +:+ arm_name (r_arm r) +:+ " — " +:+ dur_string (armDuration f (r_arm r)) +:+
    ", sampled every " +:+ dur_string (arm_sample (r_arm r)) +:+ nls +:+ nls +:+
    "| at | RSS | threads | fds | cache entries | cache bytes | conns active | conns refused | answers/s | limited/s | victim answered | victim refused |" +:+ nls +:+
    "|---|---:|---:|---:|---:|---:|---:|---:|---:|---:|---:|---:|" +:+ nls +:+
    concat_all (map (fun '(s, prev) => soakRow s prev) (windows (r_samples r))) +:+
    nls +:+ "Read the gauges as of the sample and the rates over the window before it. " +:+
    soakVerdict r +:+ nls.

Definition soakTable (f : flags) (rows : list row) : string :=
  if negb (hasSamples rows) then ""
  else
    nls +:+ "## The soak: what changed while it ran" +:+ nls +:+ nls +:+
    concat_all (map (soak_series f) rows).

(** ** The windows of a series *)

Lemma last_nonempty_default {A} (x : A) k a b : List.last (x :: k) a = List.last (x :: k) b.
Proof. revert x. induction k as [|y k IH]; intros x; [done|]. apply (IH y). Qed.

Definition gain (field : sample -> Z) (w : sample * sample) : Z := field (fst w) - field (snd w).

Definition good_windows (l : list sample) : list (sample * sample) :=
  List.filter (fun w => ok (fst w)) (windows l).

Lemma windows_from_gain field prev l :
  zsum (map (gain field) (List.filter (fun w => ok (fst w)) (windows_from prev l))) =
    field (List.last (List.filter ok l) prev) - field prev.
Proof.
  revert prev. induction l as [|s l IH]; intros prev; cbn [windows_from List.filter]; [simpl; lia|].
  cbn [fst]. destruct (ok s).
  - cbn [map zsum fold_right]. fold (zsum (map (gain field) (List.filter (fun w => ok (fst w)) (windows_from s l)))).
    rewrite IH. unfold gain. simpl fst. simpl snd.
    destruct (List.filter ok l) as [|x k]; [simpl; lia|].
    change (List.last (s :: x :: k) prev) with (List.last (x :: k) prev).
    rewrite (last_nonempty_default x k prev s). lia.
  - apply IH.
Qed.

Lemma windows_from_fst prev l : map fst (windows_from prev l) = l.
Proof. revert prev. induction l as [|s l IH]; intros prev; simpl; [done|]. by rewrite IH. Qed.

(** The reading a row is a difference from: the last that happened before it,
    or the one the series starts with. *)
Lemma windows_from_prev prev l i s p :
  windows_from prev l !! i = Some (s, p) ->
  p = List.last (List.filter ok (take i l)) prev.
Proof.
  revert prev i. induction l as [|x l IH]; intros prev i; [done|].
  destruct i as [|i]; cbn [windows_from]; [by intros [= <- <-]|].
  intros H. change ((windows_from (if ok x then x else prev) l) !! i = Some (s, p)) in H.
  apply IH in H. simpl. destruct (ok x); [|done]. rewrite H.
  destruct (List.filter ok (take i l)) as [|y k]; [done|]. exact (last_nonempty_default y k x prev).
Qed.

(** The rows of a series lose nothing to the readings that failed: there is
    one row per reading after the baseline, in order; each is a difference from
    the last reading before it that happened (the baseline where none did); and
    what the rows of the readings that happened say was offered, answered or
    counted adds up to the last such reading minus the baseline. *)
Theorem soak_windows_account s0 rest field :
  map fst (windows (s0 :: rest)) = rest /\
  (forall i s p, windows (s0 :: rest) !! i = Some (s, p) ->
     p = List.last (List.filter ok (take i rest)) s0) /\
  zsum (map (gain field) (good_windows (s0 :: rest))) =
    field (List.last (List.filter ok rest) s0) - field s0.
Proof.
  split; [apply windows_from_fst|]. split; [apply windows_from_prev|]. apply windows_from_gain.
Qed.

(** A baseline that could not be read is still the baseline: when the
    scrape before the window failed, the first row that could be read reports,
    for every counter of the server, all it had counted since it started. *)
Theorem failed_baseline_counts_everything victim_ attacker_ s rest k :
  ok s = true ->
  let s0 := takeSample victim_ attacker_ (counters None) 0 in
  ok s0 = false /\ windows (s0 :: s :: rest) !! 0%nat = Some (s, s0) /\
  gain (fun x => get (srv x) k) (s, s0) = get (srv s) k.
Proof.
  intros Hs. cbv zeta. split_and!; [done|done|].
  unfold gain. simpl. unfold get at 2. rewrite lookup_empty. simpl. lia.
Qed.

Lemma failed_baseline_counts_everything_witness :
  gain (fun x => get (srv x) "elodin_queries_total")
    (takeSample stats0 None {["elodin_queries_total" := 900]} (30 * second), takeSample stats0 None (counters None) 0) = 900.
Proof.
  refine (proj2 (proj2 (failed_baseline_counts_everything stats0 None
    (takeSample stats0 None {["elodin_queries_total" := 900]} (30 * second)) [] "elodin_queries_total" _))).
  reflexivity.
Defined.

(** ** The verdict *)

Lemma first_good_hd l : first_good l = List.hd sample0 (List.filter ok l).
Proof. induction l as [|s l IH]; [done|]. simpl. by destruct (ok s). Qed.

Lemma filter_rev {A} (f : A -> bool) l : List.filter f (rev l) = rev (List.filter f l).
Proof.
  induction l as [|x l IH]; [done|]. simpl. rewrite List.filter_app, IH. simpl.
  destruct (f x); [done|]. by rewrite app_nil_r.
Qed.

Lemma good_ends l :
  goodSample l false = List.hd sample0 (List.filter ok l) /\
  goodSample l true = List.last (List.filter ok l) sample0.
Proof.
  unfold goodSample. rewrite !first_good_hd, filter_rev. split; [done|].
  destruct (List.filter ok l) as [|x k] using rev_ind; [done|]. by rewrite rev_app_distr, List.last_last.
Qed.

Definition clock_forward (l : list sample) : Prop := StronglySorted Z.lt (map at_ l).

Lemma sorted_filter (f : sample -> bool) l : clock_forward l -> clock_forward (List.filter f l).
Proof.
  unfold clock_forward. induction l as [|s l IH]; [done|]. simpl. intros [H1 H2]%StronglySorted_cons.
  specialize (IH H2). destruct (f s); [|done]. simpl. apply StronglySorted_cons. split; [|done].
  apply Forall_forall. intros x Hx. rewrite Forall_forall in H1. apply H1.
  apply list_elem_of_fmap in Hx as (y & -> & Hy). apply list_elem_of_fmap. exists y. split; [done|].
  apply list_elem_of_In, filter_In in Hy as [Hy _]. by apply list_elem_of_In.
Qed.

Definition no_drift : string :=
  "Fewer than two readings the server answered, so there is no drift to report.".

(** The verdict says there is no drift to report exactly when fewer than two
    readings of the series were answered, the clock of a series going forward;
    otherwise it compares the first answered reading with the last. *)
Theorem soak_verdict_readings (r : row) :
  clock_forward (r_samples r) ->
  (soakVerdict r = no_drift <-> zlen (List.filter ok (r_samples r)) < 2) /\
  goodSample (r_samples r) false = List.hd sample0 (List.filter ok (r_samples r)) /\
  goodSample (r_samples r) true = List.last (List.filter ok (r_samples r)) sample0.
Proof.
  intros Hc. destruct (good_ends (r_samples r)) as [E1 E2]. split; [|done].
  unfold soakVerdict. rewrite E1, E2. apply (sorted_filter ok) in Hc.
  assert (Forall (fun s => ok s = true) (List.filter ok (r_samples r))) as Hok.
  { apply Forall_forall. intros x Hx%list_elem_of_In. by apply filter_In in Hx as [_ ?]. }
  destruct (List.filter ok (r_samples r)) as [|x k]; [by simpl|].
  apply Forall_cons in Hok as [Hx Hk].
  destruct k as [|y k]; [simpl; rewrite Z.eqb_refl; by simpl|].
  assert (ok (List.last (x :: y :: k) sample0) = true /\ at_ x < at_ (List.last (x :: y :: k) sample0)) as [Hl Ha].
  { change (List.last (x :: y :: k) sample0) with (List.last (y :: k) sample0).
    assert (List.last (y :: k) sample0 ∈ y :: k) as Hin.
    { destruct (exists_last (l := y :: k)) as (k' & z & ->); [done|]. rewrite List.last_last.
      apply elem_of_app. right. by left. }
    split; [rewrite Forall_forall in Hk; by apply Hk|].
    unfold clock_forward in Hc. simpl in Hc. apply StronglySorted_cons in Hc as [Hc _].
    rewrite Forall_forall in Hc. apply Hc. change (at_ y :: map at_ k) with (map at_ (y :: k)).
    apply list_elem_of_fmap. by eexists. }
  set (z := List.last (x :: y :: k) sample0) in *. cbn [List.hd]. rewrite Hx, Hl.
  replace (at_ x =? at_ z) with false by (symmetry; lia). cbn [orb negb].
  split; [discriminate|]. rewrite !zlen_cons. pose proof (zlen_nonneg k). lia.
Qed.

Definition ex_row (l : list sample) : row := mkRow arm0 stats0 None 0 0 0 ∅ l 0 0.
Definition ex_sample (t : duration) (b : bool) : sample := mkSample t b ∅ 0 0 0 0 0 0.

Lemma soak_verdict_readings_witness :
  soakVerdict (ex_row [ex_sample 0 true; ex_sample 5 false]) = no_drift.
Proof.
  apply (soak_verdict_readings (ex_row [ex_sample 0 true; ex_sample 5 false])); [|reflexivity].
  unfold clock_forward. simpl. repeat constructor.
Defined.
