(* ===== verification/RrlUpstream.v ===== *)
(** * [bench/cmd/rrlexp/arms_upstream.go]: the outage and what is read of it

    The schedule that takes the first upstream away and gives it back, and the
    functions that read an arm's series: [sampleAt], [parked], [recovered], the
    summary row and the series table. *)

From stdpp Require Import sorting.
From S2P Require Import Prelude GoStrings GoFloat Hist RrlMock RrlArms RrlStats RrlServer RrlSoak.

(** ** The schedule *)

(** [outage.schedule]: the failure, the restoration, and the error [wait]
    returns -- the first of the two. *)
Definition schedule (md : mock_mode) (udp tcp udp' tcp' : bool) (m : Mock) : option string * Mock :=
  let '(e1, m1) := RrlMock.fail md udp tcp m in
  let err := match e1 with
             | Some _ => Some "the failing upstream could not hold its port"
             | None => None
             end in
  let '(e2, m2) := restore udp' tcp' m1 in
  match e2, err with
  | Some _, None => (Some "the failing upstream could not come back", m2)
  | _, _ => (err, m2)
  end.

(** ** Reading a series *)

Definition slack : duration := 200 * millisecond.

Fixpoint sample_from (l : list sample) (t : duration) : option sample :=
  match l with
  | [] => None
  | s :: rest => if ok s && (t - slack <=? at_ s) then Some s else sample_from rest t
  end.

Definition sampleAt (l : list sample) (t : duration) : sample :=
  default (goodSample l true) (sample_from l t).

Definition share (n total : Z) : string :=
  if total <=? 0 then "—" else fmt_float 0 (percent n total) +:+ "%".

Definition gauge_key (name_ : string) : string := "elodin_upstream_up{upstream=" +:+ quoted name_ +:+ "}".

Definition upGauge (s : sample) (name_ : string) : string :=
  match srv s !! gauge_key name_ with
  | None => "—"
  | Some v => itoa v
  end.

(** [windowPct]; the percentile itself cannot fail, the sample's counts being
    lengths of the same list. *)
Definition windowPct (st : stats) (from to : sample) (q : float64) : string :=
  if victimLat to <=? victimLat from then "—"
  else dur_string (round (default 0 (pctOf st (victimLat from) (victimLat to) q))).

Definition parkedText (down up : duration) : string :=
  if down =? 0 then "never parked"
  else if up =? 0 then "+" +:+ dur_string (round_dur down second) +:+ " → still 0"
  else "+" +:+ dur_string (round_dur down second) +:+ " → +" +:+ dur_string (round_dur up second).

Definition parked_step (st : duration * duration) (s : sample) : duration * duration :=
  let '(down, up) := st in
  match srv s !! gauge_key "failing" with
  | None => st
  | Some v =>
      if negb (ok s) then st
      else if (v =? 0) && (down =? 0) then (at_ s, up)
      else if (v =? 1) && negb (down =? 0) && (up =? 0) then (down, at_ s)
      else st
  end.

Definition parked_at (l : list sample) : duration * duration := fold_left parked_step l (0, 0).

Definition parked (r : row) : string := let '(down, up) := parked_at (r_samples r) in parkedText down up.

Definition healthy (w : sample * sample) : bool :=
  let '(s, prev) := w in
  fle (fmul (fconst 95 100) (f_of_Z (attackerOffered s - attackerOffered prev)))
      (f_of_Z (attackerFull s - attackerFull prev)).

(** The loop's variables: the recovery so far, whether anything was lost, and
    the last reading. *)
Record recovery : Type := mkRecovery { rc_at : duration; rc_lost : bool; rc_prev : sample }.

Definition recovered_step (down up : duration) (st : recovery) (s : sample) : recovery :=
  if negb (ok s) then st
  else
    let prev := rc_prev st in
    if attackerOffered s - attackerOffered prev <=? 0 then mkRecovery (rc_at st) (rc_lost st) s
    else
      let h := healthy (s, prev) in
      if down - slack <=? at_ prev then
        if negb h then mkRecovery 0 (rc_lost st || (at_ prev <? up - slack)) s
        else if rc_at st =? 0 then mkRecovery (at_ s) (rc_lost st) s
        else mkRecovery (rc_at st) (rc_lost st) s
      else mkRecovery (rc_at st) (rc_lost st) s.

Definition recovery_of (l : list sample) (down up : duration) : recovery :=
  match l with
  | [] => mkRecovery 0 false sample0
  | s0 :: rest => fold_left (recovered_step down up) rest (mkRecovery 0 false s0)
  end.

Definition recoveredText (up at0 : duration) (lost : bool) : string :=
  if negb lost then "never lost"
  else if at0 =? 0 then "not within the arm"
  else if at0 <=? up + slack then "before it returned (+" +:+ dur_string (round_dur at0 second) +:+ ")"
  else "within " +:+ dur_string (round_dur (at0 - up) second).

Definition recovered (r : row) : string :=
  let st := recovery_of (r_samples r) (downAt r) (upAt r) in
  recoveredText (upAt r) (rc_at st) (rc_lost st).

(** ** The tables *)

Definition delta (s prev : sample) (k : string) : Z := get (srv s) k - get (srv prev) k.

Definition peak_inflight (l : list sample) : Z :=
  fold_left (fun p s => Z.max p (get (srv s) "elodin_queries_inflight")) l 0.

Definition p50 : float64 := fconst 50 100.
Definition p99 : float64 := fconst 99 100.

Definition failSummary (r : row) : string :=
  let from := sampleAt (r_samples r) (downAt r) in
  let to := sampleAt (r_samples r) (upAt r) in
  "| " +:+ arm_name (r_arm r) +:+
  " | " +:+ share (victimFull to - victimFull from) (victimOffered to - victimOffered from) +:+
  " | " +:+ windowPct (r_victim r) from to p50 +:+ " / " +:+ windowPct (r_victim r) from to p99 +:+
  " | " +:+ share (attackerFull to - attackerFull from) (attackerOffered to - attackerOffered from) +:+
  " | " +:+ itoa (peak_inflight (r_samples r)) +:+ " / " +:+ itoa (get (r_srv r) "elodin_queries_inflight_max") +:+
  " | " +:+ itoa (delta to from "elodin_queries_dropped_total") +:+
  " | " +:+ itoa (delta to from "elodin_cache_stale_total") +:+
  " | " +:+ parked r +:+ " | " +:+ recovered r +:+ " |" +:+ nls.

Definition fail_row (r : row) (w : sample * sample) : string :=
  let '(s, prev) := w in
  if negb (ok s) then
    "| " +:+ dur_string (round_dur (at_ s) second) +:+ " | the server could not be read |||||||||" +:+ nls
  else
    let window := seconds (at_ s - at_ prev) in
    "| " +:+ dur_string (round_dur (at_ s) second) +:+
    " | " +:+ upGauge s "failing" +:+ " | " +:+ upGauge s "steady" +:+
    " | " +:+ itoa (get (srv s) "elodin_queries_inflight") +:+
    " | " +:+ fmt_float 0 (per (delta s prev "elodin_queries_dropped_total") window) +:+
    " | " +:+ fmt_float 0 (per (delta s prev "elodin_cache_stale_total") window) +:+
    " | " +:+ share (victimFull s - victimFull prev) (victimOffered s - victimOffered prev) +:+
    " | " +:+ windowPct (r_victim r) prev s p50 +:+
    " | " +:+ windowPct (r_victim r) prev s p99 +:+
    " | " +:+ share (attackerFull s - attackerFull prev) (attackerOffered s - attackerOffered prev) +:+
    " |" +:+ nls.

Definition failSeries (r : row) : string :=
  nls +:+ "### " +:+ arm_name (r_arm r) +:+ " — down at +" +:+ dur_string (round_dur (downAt r) (100 * millisecond)) +:+
  ", back at +" +:+ dur_string (round_dur (upAt r) (100 * millisecond)) +:+ nls +:+ nls +:+
  "| at | failing up | steady up | in flight | shed/s | stale/s | victim answered | victim p50 | victim p99 | misses answered |" +:+ nls +:+
  "|---|---:|---:|---:|---:|---:|---:|---:|---:|---:|" +:+ nls +:+
  concat_all (map (fail_row r) (windows (r_samples r))).

Definition has_series (r : row) : bool :=
  bool_decide (fail_spec (r_arm r) <> None) && (1 <? zlen (r_samples r)).

Definition upstreamTable (f : flags) (rows : list row) : string :=
  let fails := List.filter has_series rows in
  if zlen fails =? 0 then ""
  else
    nls +:+ "## Upstream failure: what clients see while one goes away" +:+ nls +:+ nls +:+
    "The first upstream fails " +:+ dur_string failBefore +:+ " into the window and returns " +:+ dur_string failFor +:+
    " later. The victim asks one cached name at " +:+ itoa (victimRate f) +:+ " q/s; the misses are " +:+
    itoa failMissRate +:+ " q/s of new names." +:+ nls +:+ nls +:+
    "| arm | victim answered during | victim answers' p50 / p99 during | misses answered during | peak in flight / max_pending | shed during | stale served during | `upstream_up` 0 → 1 | misses back |" +:+ nls +:+
    "|---|---:|---:|---:|---:|---:|---:|---|---|" +:+ nls +:+
    concat_all (map failSummary fails) +:+ concat_all (map failSeries fails).

(** ** What [sampleAt] reads *)

(** The reading taken for a moment is the first answered one at most 200 ms
    before it or later; without any, the last answered one; without that, the
    zero reading. *)
Theorem sampleAt_reading l t :
  (exists pre s post, l = pre ++ s :: post /\ sampleAt l t = s /\ ok s = true /\ t - slack <= at_ s /\
     Forall (fun x => ok x = true -> at_ x < t - slack) pre) \/
  (Forall (fun x => ok x = true -> at_ x < t - slack) l /\
   sampleAt l t = List.last (List.filter ok l) sample0).
Proof.
  unfold sampleAt. destruct (sample_from l t) as [s|] eqn:E.
  - left. simpl. induction l as [|x l IH]; [done|]. simpl in E.
    destruct (ok x && (t - slack <=? at_ x)) eqn:Ex.
    + injection E as ->. b2p. by exists [], s, l.
    + destruct (IH E) as (pre & y & post & -> & Hy & ? & ? & ?). subst y.
      exists (x :: pre), s, post. split_and!; try done. constructor; [|done].
      intros Ho. rewrite Ho in Ex. simpl in Ex. b2p. lia.
  - right. split; [|apply good_ends]. induction l as [|x l IH]; [constructor|]. simpl in E.
    destruct (ok x && (t - slack <=? at_ x)) eqn:Ex; [done|]. constructor; [|by apply IH].
    intros Ho. rewrite Ho in Ex. simpl in Ex. b2p. lia.
Qed.

(** ** When the failing upstream was out of service *)

(** The readings of its gauge that the server answered. *)
Definition gauge_readings (l : list sample) : list (duration * Z) :=
  omap (fun s => if ok s then (fun v => (at_ s, v)) <$> srv s !! gauge_key "failing" else None) l.

Definition parked_read (st : duration * duration) (g : duration * Z) : duration * duration :=
  let '(down, up) := st in
  if (snd g =? 0) && (down =? 0) then (fst g, up)
  else if (snd g =? 1) && negb (down =? 0) && (up =? 0) then (down, fst g)
  else st.

Lemma parked_readings l st : fold_left parked_step l st = fold_left parked_read (gauge_readings l) st.
Proof.
  revert st. induction l as [|s l IH]; intros st; [done|]. cbn [fold_left gauge_readings omap].
  rewrite IH. unfold gauge_readings. simpl.
  replace (parked_step st s) with (match (if ok s then (fun v => (at_ s, v)) <$> srv s !! gauge_key "failing" else None) with
    | Some g => parked_read st g | None => st end).
  - by destruct (if ok s then _ else None).
  - unfold parked_step, parked_read. destruct st as [down up], (srv s !! _) as [v|], (ok s); done.
Qed.

Definition value_is (v : Z) (g : duration * Z) : bool := snd g =? v.

(** The first time a value was read. *)
Definition first_time (v : Z) (l : list (duration * Z)) : duration :=
  match List.find (value_is v) l with Some g => fst g | None => 0 end.

Fixpoint after_first (v : Z) (l : list (duration * Z)) : list (duration * Z) :=
  match l with
  | [] => []
  | g :: rest => if value_is v g then rest else after_first v rest
  end.

Lemma parked_up_found l down up : down <> 0 -> up <> 0 -> fold_left parked_read l (down, up) = (down, up).
Proof.
  intros Hd Hu. induction l as [|g l IH]; [done|]. simpl.
  apply Z.eqb_neq in Hd, Hu. by rewrite Hd, Hu, !andb_false_r.
Qed.

Lemma parked_up l down :
  down <> 0 -> Forall (fun g => 0 < fst g) l ->
  fold_left parked_read l (down, 0) = (down, first_time 1 l).
Proof.
  intros Hd H. induction H as [|g l Hg _ IH]; [done|]. unfold first_time in *. simpl.
  pose proof Hd as Hd'. apply Z.eqb_neq in Hd. rewrite Hd, andb_false_r. unfold value_is in *. simpl.
  destruct (snd g =? 1); simpl; [|done]. apply parked_up_found; [done|lia].
Qed.

(** The times [parked] reports are those of the gauge: out of service at the
    first answered reading of 0, back at the first reading of 1 after it, and a
    time of zero, which the text turns into words, when there was none -- on a
    series whose clock goes forward and where the upstream is up before the
    window opens. *)
Theorem parked_times l :
  StronglySorted Z.lt (map fst (gauge_readings l)) ->
  Forall (fun g => snd g = 0 -> 0 < fst g) (gauge_readings l) ->
  parked_at l =
    (first_time 0 (gauge_readings l),
     if existsb (value_is 0) (gauge_readings l) then first_time 1 (after_first 0 (gauge_readings l)) else 0).
Proof.
  intros Hs H. unfold parked_at. rewrite parked_readings. revert Hs H.
  generalize (gauge_readings l) as gs. clear l. intros gs Hs H.
  induction H as [|g gs Hg H IH]; [done|]. simpl in Hs. apply StronglySorted_cons in Hs as [Hlt Hs].
  specialize (IH Hs). unfold first_time in *. simpl. unfold value_is in *. simpl.
  destruct (snd g =? 0) eqn:E; simpl.
  - b2p. specialize (Hg E). rewrite parked_up; [done|lia|].
    apply Forall_forall. intros x Hx. rewrite Forall_forall in Hlt.
    specialize (Hlt (fst x)). assert (fst g < fst x); [|lia]. apply Hlt. apply list_elem_of_fmap. by eexists.
  - rewrite andb_false_r. exact IH.
Qed.

Definition ex_gauge (t : duration) (v : Z) : sample :=
  mkSample t true {[gauge_key "failing" := v]} 0 0 0 0 0 0.

Lemma parked_times_witness :
  parked_at [ex_gauge 0 1; ex_gauge 5 0; ex_gauge 6 0; ex_gauge 9 1] = (5, 9).
Proof.
  apply (parked_times [ex_gauge 0 1; ex_gauge 5 0; ex_gauge 6 0; ex_gauge 9 1]).
  - change (map fst _) with [0; 5; 6; 9]. repeat constructor.
  - change (gauge_readings _) with [(0, 1); (5, 0); (6, 0); (9, 1)].
    repeat (apply Forall_cons; split; [intros E; first [discriminate E | reflexivity]|]). by apply Forall_nil.
Defined.

(** ** When the misses were answered again *)

(** The windows [recovered] judges: from each answered reading to the next, with
    queries offered in it, that began no earlier than the failure. *)
Fixpoint judged_from (down : duration) (prev : sample) (l : list sample) : list (sample * sample) :=
  match l with
  | [] => []
  | s :: rest =>
      if negb (ok s) then judged_from down prev rest
      else
        let more := judged_from down s rest in
        if (0 <? attackerOffered s - attackerOffered prev) && (down - slack <=? at_ prev)
        then (s, prev) :: more else more
  end.

Definition judged (down : duration) (l : list sample) : list (sample * sample) :=
  match l with [] => [] | s0 :: rest => judged_from down s0 rest end.

Definition judge (up : duration) (st : duration * bool) (w : sample * sample) : duration * bool :=
  if negb (healthy w) then (0, snd st || (at_ (snd w) <? up - slack))
  else (if fst st =? 0 then at_ (fst w) else fst st, snd st).

Lemma recovered_judged down up l st :
  let st' := fold_left (recovered_step down up) l st in
  (rc_at st', rc_lost st') = fold_left (judge up) (judged_from down (rc_prev st) l) (rc_at st, rc_lost st).
Proof.
  cbv zeta. revert st. induction l as [|s l IH]; intros st; [done|].
  cbn [fold_left]. rewrite IH. destruct st as [a b prev]. cbn [judged_from rc_at rc_lost rc_prev].
  unfold recovered_step. cbn [rc_at rc_lost rc_prev]. destruct (ok s); cbn [negb]; [|done].
  replace (0 <? attackerOffered s - attackerOffered prev)
    with (negb (attackerOffered s - attackerOffered prev <=? 0))
    by (destruct (Z.leb_spec (attackerOffered s - attackerOffered prev) 0),
          (Z.ltb_spec 0 (attackerOffered s - attackerOffered prev)); simpl; lia || done).
  destruct (attackerOffered s - attackerOffered prev <=? 0); cbn [negb andb]; [done|].
  destruct (down - slack <=? at_ prev); [|done]. cbn [fold_left].
  unfold judge at 3. cbn [fst snd]. destruct (healthy (s, prev)); cbn [negb]; [|done].
  by destruct (a =? 0).
Qed.

(** The longest run of healthy windows at the end. *)
Record last_healthy_run (ws bad good : list (sample * sample)) : Prop := {
  lh_split : ws = bad ++ good;
  lh_good : Forall (fun w => healthy w = true) good;
  lh_bad : bad = [] \/ exists bad' w, bad = bad' ++ [w] /\ healthy w = false
}.

Definition run_start (good : list (sample * sample)) : duration :=
  match good with [] => 0 | w :: _ => at_ (fst w) end.

Definition lost_any (up : duration) (ws : list (sample * sample)) : bool :=
  existsb (fun w => negb (healthy w) && (at_ (snd w) <? up - slack)) ws.

Lemma judge_spec up ws :
  Forall (fun w => at_ (fst w) <> 0) ws ->
  exists bad good, last_healthy_run ws bad good /\
    fold_left (judge up) ws (0, false) = (run_start good, lost_any up ws).
Proof.
  induction ws as [|w ws IH] using rev_ind; intros H.
  - exists [], []. split; [split; [done|constructor|by left]|done].
  - apply Forall_app in H as [H Hw]. apply Forall_cons in Hw as [Hw _].
    destruct (IH H) as (bad & good & [Es Hg Hb] & E). rewrite fold_left_app, E.
    unfold lost_any. rewrite existsb_app. cbn [fold_left existsb]. unfold judge. cbn [fst snd].
    destruct (healthy w) eqn:Eh; cbn [negb andb]; rewrite ?orb_false_r.
    + exists bad, (good ++ [w]). split.
      * split; [by rewrite Es, app_assoc|apply Forall_app; by split; [|constructor]|done].
      * f_equal. destruct good as [|g good]; [done|]. simpl.
        assert (at_ (fst g) <> 0) as Hn.
        { rewrite Es in H. apply Forall_app in H as [_ H]. by apply Forall_cons in H as [H _]. }
        by apply Z.eqb_neq in Hn as ->.
    + exists (ws ++ [w]), []. split; [|done].
      split; [by rewrite app_nil_r|constructor|right; by exists ws, w].
Qed.

(** C26. The misses' recovery is judged on the windows between answered readings
    that began after the failure and had queries offered: it is the end of the
    first window of the longest run of healthy ones at the end of the arm, zero
    when the last of them was not healthy; and something was lost exactly when
    an unhealthy one began before the return. *)
Theorem recovered_last_run (r : row) :
  Forall (fun w => at_ (fst w) <> 0) (judged (downAt r) (r_samples r)) ->
  exists bad good, last_healthy_run (judged (downAt r) (r_samples r)) bad good /\
    recovered r = recoveredText (upAt r) (run_start good) (lost_any (upAt r) (judged (downAt r) (r_samples r))).
Proof.
  intros H. destruct (judge_spec (upAt r) _ H) as (bad & good & Hr & E). exists bad, good. split; [done|].
  unfold recovered, recovery_of, judged in *. destruct (r_samples r) as [|s0 rest]; [by replace (run_start good) with 0 by (simpl in E; congruence)|].
  pose proof (recovered_judged (downAt r) (upAt r) rest (mkRecovery 0 false s0)) as Hj.
  cbv zeta in Hj. cbn [rc_at rc_lost rc_prev] in Hj.
  rewrite E in Hj. injection Hj as -> ->. done.
Qed.

Definition ex_misses (t : duration) (offered_ full_ : Z) : sample :=
  mkSample (t * second) true ∅ 0 0 0 0 offered_ full_.

Definition ex_outage : row :=
  mkRow arm0 stats0 None 0 0 0 ∅
    [ex_misses 0 0 0; ex_misses 1 200 200; ex_misses 2 400 210; ex_misses 3 600 400; ex_misses 4 800 600]
    (1 * second) (2 * second).

Example recovered_ex : recovered ex_outage = "within 1s".
Proof. vm_compute. reflexivity. Qed.

Lemma recovered_last_run_witness :
  exists bad good, last_healthy_run (judged (1 * second) (r_samples ex_outage)) bad good /\
    recovered ex_outage =
      recoveredText (2 * second) (run_start good) (lost_any (2 * second) (judged (1 * second) (r_samples ex_outage))).
Proof.
  apply (recovered_last_run ex_outage).
  vm_compute. repeat (apply Forall_cons; split; [discriminate|]). by apply Forall_nil.
Defined.
