(* ===== verification/RrlReport.v ===== *)
(** * [bench/cmd/rrlexp/report.go]: the report

    Every table of the report and the line printed as an arm lands
    ([row.line] of [main.go]).  A table is the text it writes: its header, and a
    line for each row it takes; a guard decides whether it is written at all. *)

From S2P Require Import Prelude GoStrings GoFloat Hist RrlMock NetAddr RrlArms RrlStats RrlServer RrlSoak RrlUpstream.

(** A percentile of a client's whole run; it cannot fail, see
    [RrlStats.pctOf_window]. *)
Definition pctd (s : stats) (q : float64) : duration := default 0 (pct s q).

Definition outcomes (c : clientSpec) (s : stats) : string :=
  if isDoH c then statusSummary s else rcodeSummary s.

Definition show_round (d : duration) : string := dur_string (round d).

Definition million : Z := 1000000.

(** [float64(n) / secs / 1e6]. *)
Definition per_million (n : Z) (secs : float64) : float64 := fdiv (per n secs) (f_of_Z million).

(** ** The line of an arm *)

Definition flood_extra (r : row) (c : clientSpec) (a : stats) : string :=
  let secs := seconds (elapsed r) in
  if handshake c then
    "   flood " +:+ fmt_float 0 (per (offered a) secs) +:+ " handshakes/s offered, " +:+
    fmt_float 0 (per (full a) secs) +:+ " completed/s, " +:+
    fmt_float 0 (per (closed a) secs) +:+ " refused/s"
  else
    "   flood " +:+ fmt_float 0 (per (offered a) secs) +:+ " q/s offered, " +:+
    fmt_float 0 (per (full a) secs) +:+ " answered/s + " +:+
    fmt_float 0 (per (truncated a) secs) +:+ " truncated/s, " +:+
    fmt_float 1 (per_million (bytesIn a) secs) +:+ " MB/s back".

Definition specOf (c : option clientSpec) : clientSpec := default client0 c.

Definition line (r : row) : string :=
  let v := r_victim r in
  let pct_ := if 0 <? offered v then percent (full v) (offered v) else f_of_Z 0 in
  let extra := match r_attacker r with
               | Some a => flood_extra r (specOf (attacker (r_arm r))) a
               | None => ""
               end in
  pad_right 34 (arm_name (r_arm r)) +:+ " victim " +:+ pad_left 3 (fmt_float 0 pct_) +:+ "% answered (" +:+
  itoa (full v) +:+ "/" +:+ itoa (offered v) +:+ ") [" +:+ outcomes (victim (r_arm r)) v +:+ "], p50 " +:+
  pad_left 6 (show_round (pctd v p50)) +:+ " p99 " +:+ pad_left 7 (show_round (pctd v p99)) +:+ extra.

(** ** The victim *)

Definition victim_row (r : row) : string :=
  let v := r_victim r in
  let noReply := Z.max (offered v - replies v) 0 in
  let pct_ := if 0 <? offered v then percent (full v) (offered v) else f_of_Z 0 in
  let closed_ := if 0 <? closed v then " (connection closed " +:+ itoa (closed v) +:+ "x)" else "" in
  "| " +:+ arm_name (r_arm r) +:+ " | " +:+ src (victim (r_arm r)) +:+ " | " +:+ transport (victim (r_arm r)) +:+ closed_ +:+
  " | " +:+ itoa (offered v) +:+ " | " +:+ itoa (full v) +:+ " (" +:+ fmt_float 0 pct_ +:+ "%) | " +:+
  itoa (truncated v) +:+ " | " +:+ itoa noReply +:+ " | " +:+ show_round (pctd v p50) +:+ " | " +:+
  show_round (pctd v p99) +:+ " | " +:+ outcomes (victim (r_arm r)) v +:+ " |" +:+ nls.

Definition victimTable (rows : list row) : string :=
  "## The victim" +:+ nls +:+ nls +:+
  "| arm | victim | via | offered | answered | truncated | no reply | p50 | p99 | rcodes seen |" +:+ nls +:+
  "|---|---|---|---:|---:|---:|---:|---:|---:|---|" +:+ nls +:+
  concat_all (map victim_row rows).

(** ** DoH *)

Definition doh_flood (a : arm) : bool :=
  match attacker a with Some c => isDoH c && negb (handshake c) | None => false end.

Definition hasDoH (rows : list row) : bool :=
  existsb (fun r => isDoH (victim (r_arm r)) || doh_flood (r_arm r)) rows.

Definition dohRow (r : row) (what : string) (c : clientSpec) (st : option stats) : string :=
  match st with
  | None => ""
  | Some s =>
      if negb (isDoH c) || handshake c then ""
      else
        let secs := seconds (elapsed r) in
        let refusedPerSec := per (refused s) secs in
        let cpu := fdiv (seconds (r_cpu r)) secs in
        let perRefusal :=
          if flt (f_of_Z 0) refusedPerSec
          then fmt_float 1 (fmul (fdiv cpu refusedPerSec) (f_of_Z million)) +:+ " µs" else "—" in
        "| " +:+ arm_name (r_arm r) +:+ " | " +:+ what +:+ " | " +:+ transport c +:+
        " | " +:+ fmt_float 0 (per (offered s) secs) +:+ " | " +:+ fmt_float 0 (per (full s) secs) +:+
        " | " +:+ fmt_float 0 refusedPerSec +:+ " | " +:+ fmt_float 0 (per (failed s) secs) +:+
        " | " +:+ itoa (dials s) +:+ " | " +:+ fmt_float 2 cpu +:+ " | " +:+ perRefusal +:+ " |" +:+ nls
  end.

Definition doh_rows (r : row) : string :=
  dohRow r "flood" (specOf (attacker (r_arm r))) (r_attacker r) +:+
  dohRow r "victim" (victim (r_arm r)) (Some (r_victim r)).

Definition dohTable (rows : list row) : string :=
  if negb (hasDoH rows) then ""
  else
    nls +:+ "## The DoH arms: what a refusal looks like, and what it costs" +:+ nls +:+ nls +:+
    "| arm | client | via | offered/s | answered/s | 429/s | no status/s | connections | CPU | CPU per refused request |" +:+ nls +:+
    "|---|---|---|---:|---:|---:|---:|---:|---:|---:|" +:+ nls +:+
    concat_all (map doh_rows rows).

(** ** The flood *)

Definition hasQueryFlood (rows : list row) : bool :=
  existsb (fun r => bool_decide (r_attacker r <> None) && negb (handshake (specOf (attacker (r_arm r)))) &&
                    bool_decide (fail_spec (r_arm r) = None)) rows.

Definition flood_row (r : row) : string :=
  match r_attacker r with
  | None => ""
  | Some a =>
      let c := specOf (attacker (r_arm r)) in
      if handshake c || bool_decide (fail_spec (r_arm r) <> None) then ""
      else
        let secs := seconds (elapsed r) in
        let amp := if (0 <? bytesOut a) && negb (isDoH c)
                   then "x" +:+ fmt_float 1 (fdiv (f_of_Z (bytesIn a)) (f_of_Z (bytesOut a))) else "n/a" in
        "| " +:+ arm_name (r_arm r) +:+ " | " +:+ onOff (limiter (r_arm r)) +:+ " | " +:+ src c +:+ " | " +:+ transport c +:+
        " | " +:+ fmt_float 0 (per (offered a) secs) +:+ " | " +:+ fmt_float 0 (per (full a) secs) +:+
        " | " +:+ fmt_float 0 (per (truncated a) secs) +:+ " | " +:+ fmt_float 2 (per_million (bytesIn a) secs) +:+
        " MB | " +:+ amp +:+ " |" +:+ nls
  end.

Definition floodTable (rows : list row) : string :=
  if negb (hasQueryFlood rows) then ""
  else
    nls +:+ "## The flood: what it drew, and what the address it named received" +:+ nls +:+ nls +:+
    "| arm | limiter | flood | via | offered/s | answered/s | truncated/s | bytes/s at the source | amplification |" +:+ nls +:+
    "|---|---|---|---|---:|---:|---:|---:|---:|" +:+ nls +:+
    concat_all (map flood_row rows).

(** ** The connection table *)

Definition idle_flood (a : arm) : bool := match attacker a with Some c => idle c | None => false end.

Definition hasIdle (rows : list row) : bool := existsb (fun r => idle_flood (r_arm r)) rows.

Definition share_cell (a : arm) : string :=
  if (0 <? perPrefix a) && (perPrefix a <? maxConns a) then itoa (perPrefix a) else "none".

Definition conn_row (r : row) : string :=
  if negb (idle_flood (r_arm r)) then ""
  else
    let a := default stats0 (r_attacker r) in
    let v := r_victim r in
    let answered := if 0 <? offered v then percent (full v) (offered v) else f_of_Z 0 in
    "| " +:+ arm_name (r_arm r) +:+ " | " +:+ itoa (maxConns (r_arm r)) +:+ " | " +:+ share_cell (r_arm r) +:+
    " | " +:+ itoa (dials a) +:+ " | " +:+ itoa (dials a - closed a) +:+ " | " +:+ itoa (closed a) +:+
    " | " +:+ itoa (get (r_srv r) "elodin_connections_refused_total") +:+
    " | " +:+ fmt_float 0 answered +:+ "% (" +:+ itoa (full v) +:+ "/" +:+ itoa (offered v) +:+ ") | " +:+
    show_round (pctd v p50) +:+ " |" +:+ nls.

Definition connTable (rows : list row) : string :=
  if negb (hasIdle rows) then ""
  else
    nls +:+ "## The connection table: who is holding it" +:+ nls +:+ nls +:+
    "| arm | table | share | opened | held | refused | conn_refused | victim answered | victim p50 |" +:+ nls +:+
    "|---|---:|---:|---:|---:|---:|---:|---:|---:|" +:+ nls +:+
    concat_all (map conn_row rows).

(** ** The handshake floods *)

Definition handshake_arm (a : arm) : bool := match attacker a with Some c => handshake c | None => false end.

Definition hasHandshakeFlood (rows : list row) : bool := existsb (fun r => handshake_arm (r_arm r)) rows.

Definition figure (n : Z) : string := if n <=? 0 then "shipped" else itoa n.

Definition handshakeRow (r : row) (a : stats) : string :=
  let secs := seconds (elapsed r) in
  let done_ := per (full a) secs in
  let cpu := fdiv (seconds (r_cpu r)) secs in
  let perHandshake := if flt (f_of_Z 0) done_
                      then fmt_float 0 (fmul (fdiv cpu done_) (f_of_Z million)) +:+ " µs" else "—" in
  let v := r_victim r in
  let answered := if 0 <? offered v
                  then fmt_float 0 (percent (full v) (offered v)) +:+ "% (" +:+ itoa (full v) +:+ "/" +:+ itoa (offered v) +:+ ")"
                  else "—" in
  "| " +:+ arm_name (r_arm r) +:+ " | " +:+ transport (specOf (attacker (r_arm r))) +:+
  " | " +:+ figure (maxConns (r_arm r)) +:+ " | " +:+ figure (perPrefix (r_arm r)) +:+
  " | " +:+ fmt_float 0 (per (offered a) secs) +:+ " | " +:+ fmt_float 0 done_ +:+
  " | " +:+ fmt_float 0 (per (closed a) secs) +:+ " | " +:+ fmt_float 0 (per (failed a) secs) +:+
  " | " +:+ itoa (get (r_srv r) "elodin_connections_refused_total") +:+
  " | " +:+ itoa (get (r_srv r) "elodin_connections_rate_limited_total") +:+
  " | " +:+ itoa (get (r_srv r) "elodin_tls_handshakes_total") +:+
  " | " +:+ show_round (pctd a p50) +:+ " | " +:+ fmt_float 2 cpu +:+ " | " +:+ perHandshake +:+
  " | " +:+ answered +:+ " | " +:+ show_round (pctd v p50) +:+ " |" +:+ nls.

Definition handshake_row (r : row) : string :=
  match r_attacker r with
  | Some a => if handshake_arm (r_arm r) then handshakeRow r a else ""
  | None => ""
  end.

Definition handshakeTable (rows : list row) : string :=
  if negb (hasHandshakeFlood rows) then ""
  else
    nls +:+ "## The handshake floods: a client that only connects" +:+ nls +:+ nls +:+
    "| arm | flood via | table | share | attempted/s | completed/s | refused/s | dial failed/s | conn_refused | conn_rate_limited | handshakes | handshake p50 | CPU/s | CPU per handshake | victim answered | victim p50 |" +:+ nls +:+
    "|---|---|---|---|---:|---:|---:|---:|---:|---:|---:|---:|---:|---:|---:|---:|" +:+ nls +:+
    concat_all (map handshake_row rows).

(** ** The server's own account *)

(** The loop ranges over a map, in no particular order. *)
Definition sumFamily (c : gmap string Z) (family : string) : Z :=
  fold_left (fun n '(k, v) => if String.eqb k family || has_prefix (family +:+ "{") k then n + v else n)
    (map_to_list c) 0.

Definition server_row (r : row) : string :=
  let c := r_srv r in
  "| " +:+ arm_name (r_arm r) +:+ " | " +:+ fmt_float 2 (fdiv (seconds (r_cpu r)) (seconds (elapsed r))) +:+
  " | " +:+ itoa (Z.quot (r_peakRSS r) megabyte) +:+ " MB | " +:+
  itoa (sumFamily c "elodin_udp_datagrams_total") +:+ " | " +:+ itoa (sumFamily c "elodin_udp_receive_drops_total") +:+
  " | " +:+ itoa (get c "elodin_queries_total") +:+ " | " +:+ itoa (get c "elodin_rate_limited_total") +:+
  " | " +:+ itoa (get c "elodin_rate_limit_slipped_total") +:+ " | " +:+ itoa (get c "elodin_queries_dropped_total") +:+
  " | " +:+ itoa (get c ("elodin_answers_total{outcome=" +:+ quoted "forwarded" +:+ "}")) +:+ " |" +:+ nls.

Definition serverTable (rows : list row) : string :=
  nls +:+ "## What the server spent, and what it says it did" +:+ nls +:+ nls +:+
  "| arm | CPU/s | peak RSS | read | queue drops | queries | limited | slipped | shed | forwarded |" +:+ nls +:+
  "|---|---:|---:|---:|---:|---:|---:|---:|---:|---:|" +:+ nls +:+
  concat_all (map server_row rows).

(** ** The report *)

Definition questionList (rows : list row) : string :=
  nls +:+ "## What each arm was asking" +:+ nls +:+ nls +:+
  concat_all (map (fun r => "- **" +:+ arm_name (r_arm r) +:+ "** — " +:+ question (r_arm r) +:+ nls) rows).

Definition onlyFail (rows : list row) : bool :=
  forallb (fun r => bool_decide (fail_spec (r_arm r) <> None)) rows && (0 <? zlen rows).

Definition skipList (skips : list skip) : string :=
  if zlen skips =? 0 then ""
  else
    nls +:+ "## Arms this run could not take" +:+ nls +:+ nls +:+
    concat_all (map (fun s => "- **" +:+ skip_name s +:+ "** — " +:+ why s +:+ nls) skips).

Definition renderReport (f : flags) (unit : string) (unitEnv : list string) (rows : list row) (skips : list skip) : string :=
  if onlyFail rows then
    "# Upstream failure: what clients get" +:+ nls +:+ nls +:+
    "Each arm: one server, two clients at once, " +:+ dur_string failArm +:+ " measured after " +:+ dur_string (warmup f) +:+
    " of the miss stream alone, the rate limiter off, a " +:+ dur_string (upDelay f) +:+
    " upstream round trip, a 400,000-entry cache, and the shipped default for everything else an arm does not name." +:+ nls +:+
    upstreamTable f rows +:+ nls +:+ victimTable rows +:+ serverTable rows +:+ questionList rows +:+ skipList skips
  else
    "# Response rate limiting: what a bystander gets" +:+ nls +:+ nls +:+
    (if 0 <? soak f then
       "A soak run: the soak arm alone, " +:+ dur_string (soak f) +:+ " of load after " +:+ dur_string (warmup f) +:+
       " of the same, with the server read every " +:+ dur_string (soakSample f) +:+ "." +:+ nls
     else
       "Each arm: one server, two clients at once, " +:+ dur_string (duration_ f) +:+ " measured after " +:+
       dur_string (warmup f) +:+ " of the same load." +:+ nls) +:+
    "The victim offers " +:+ itoa (victimRate f) +:+ " q/s; the flood offers " +:+ itoa (floodRate f) +:+
    " q/s (0 = flat out). Limit: " +:+ itoa (rps_ f) +:+
    " responses/s per client prefix - a /24, or a /64 in the IPv6 arms - slip " +:+ itoa (slip_ f) +:+ "." +:+ nls +:+
    "Every name is asked once, so every query is a cache miss and a " +:+ dur_string (upDelay f) +:+ " upstream round trip." +:+ nls +:+
    "server.workers " +:+ itoa (workers f) +:+ ", upstream_workers " +:+ itoa (Z.quot (workers f) 2) +:+
    ", and the shipped default for everything an arm does not name." +:+ nls +:+
    "The server runs with " +:+ unit +:+ "'s environment (" +:+ join " " unitEnv +:+ ")." +:+ nls +:+ nls +:+
    victimTable rows +:+ floodTable rows +:+ dohTable rows +:+ connTable rows +:+ handshakeTable rows +:+
    soakTable f rows +:+ upstreamTable f rows +:+ serverTable rows +:+ questionList rows +:+ skipList skips.

(** ** Lines of the lists *)

Definition question_line (r : row) : string := "- **" +:+ arm_name (r_arm r) +:+ "** — " +:+ question (r_arm r) +:+ nls.
Definition skip_line (s : skip) : string := "- **" +:+ skip_name s +:+ "** — " +:+ why s +:+ nls.

Lemma question_listed rows r : r ∈ rows -> occurs (question_line r) (questionList rows).
Proof. intros H. unfold questionList. do 4 apply occurs_app_r. by apply (occurs_concat question_line). Qed.

Lemma skip_listed skips s : s ∈ skips -> occurs (skip_line s) (skipList skips).
Proof.
  intros H. unfold skipList. destruct skips as [|x l]; [by apply not_elem_of_nil in H|].
  replace (zlen (x :: l) =? 0) with false
    by (symmetry; apply Z.eqb_neq; rewrite zlen_cons; pose proof (zlen_nonneg l); lia).
  do 4 apply occurs_app_r. by apply (occurs_concat skip_line).
Qed.

(** Find the part of a concatenation a piece is known to occur in. *)
Ltac occurs_row := solve [by apply occurs_concat | apply occurs_app_r; occurs_row].

(** The report names every arm of the run: for each row, in the arm's
    victim line, its server line and its question; for each skip, in the
    reason it could not run -- whichever of the two forms the report takes. *)
Theorem report_covers_run (f : flags) unit unitEnv rows skips :
  (forall r, r ∈ rows ->
     occurs (victim_row r) (renderReport f unit unitEnv rows skips) /\
     occurs (server_row r) (renderReport f unit unitEnv rows skips) /\
     occurs (question_line r) (renderReport f unit unitEnv rows skips)) /\
  (forall s, s ∈ skips -> occurs (skip_line s) (renderReport f unit unitEnv rows skips)).
Proof.
  split.
  - intros r Hr.
    assert (occurs (victim_row r) (victimTable rows)) as Hv
      by (unfold victimTable; occurs_row).
    assert (occurs (server_row r) (serverTable rows)) as Hs
      by (unfold serverTable; occurs_row).
    pose proof (question_listed rows r Hr) as Hq. unfold renderReport.
    destruct (onlyFail rows); split_and!; occurs_in.
  - intros s Hs. pose proof (skip_listed skips s Hs) as Hk. unfold renderReport.
    destruct (onlyFail rows); occurs_in.
Qed.

(** ** A heading stands over a row *)

(** What [runArm] makes of an arm: the flood's counters exist exactly when the
    arm has a flood. *)
Definition row_ok (r : row) : Prop := r_attacker r = None <-> attacker (r_arm r) = None.

Lemma cell_nonempty s : "| " +:+ s <> "".
Proof. done. Qed.

(** A guard that is [existsb] of what makes a row print. *)
Lemma guarded_table (guard : row -> bool) (print : row -> string) (text : string) rows :
  (forall r, r ∈ rows -> (print r = "" <-> guard r = false)) -> text <> "" ->
  (if negb (existsb guard rows) then "" else text) = "" <-> Forall (fun r => print r = "") rows.
Proof.
  intros Hg Ht. rewrite Forall_forall. destruct (existsb guard rows) eqn:E; simpl.
  - split; [done|]. intros H. exfalso. apply existsb_exists in E as (r & Hr & Hgr).
    apply list_elem_of_In in Hr. specialize (H r Hr). apply Hg in H; [congruence|done].
  - split; [|done]. intros _ r Hr. apply Hg; [done|].
    apply not_true_is_false. intros Hgr. assert (existsb guard rows = true); [|congruence].
    apply existsb_exists. exists r. split; [by apply list_elem_of_In|done].
Qed.

Lemma flood_row_prints r : row_ok r ->
  flood_row r = "" <->
  bool_decide (r_attacker r <> None) && negb (handshake (specOf (attacker (r_arm r)))) &&
    bool_decide (fail_spec (r_arm r) = None) = false.
Proof.
  intros _. unfold flood_row. destruct (r_attacker r) as [a|]; [|done].
  rewrite (bool_decide_true (Some a <> None)) by done. cbn [andb].
  destruct (handshake _); cbn [negb orb andb]; [done|].
  destruct (fail_spec (r_arm r)); [by rewrite bool_decide_true, bool_decide_false|].
  rewrite bool_decide_false, bool_decide_true by auto. split; [intros []%cell_nonempty|done].
Qed.

Lemma conn_row_prints r : conn_row r = "" <-> idle_flood (r_arm r) = false.
Proof.
  unfold conn_row. destruct (idle_flood _); cbn [negb]; [|done]. split; [intros []%cell_nonempty|done].
Qed.

Lemma handshake_row_prints r : row_ok r -> handshake_row r = "" <-> handshake_arm (r_arm r) = false.
Proof.
  intros Hr. unfold handshake_row, row_ok, handshake_arm in *. destruct (r_attacker r) as [a|].
  - destruct (attacker (r_arm r)) as [c|]; [|by destruct (proj2 Hr eq_refl)].
    destruct (handshake c); [|done]. split; [intros []%cell_nonempty|done].
  - by rewrite (proj1 Hr eq_refl).
Qed.

Lemma dohRow_prints r what c st :
  dohRow r what c st = "" <-> st = None \/ isDoH c = false \/ handshake c = true.
Proof.
  unfold dohRow. destruct st as [s|]; [|split; [by left|done]].
  destruct (isDoH c), (handshake c); cbn [negb orb];
    try (split; [intros _; auto|done]).
  split; [intros []%cell_nonempty|naive_solver].
Qed.

Lemma app_empty s t : s +:+ t = "" <-> s = "" /\ t = "".
Proof. destruct s; simpl; naive_solver. Qed.

(** The arms of the matrix have no victim that only handshakes. *)
Lemma doh_rows_prints r :
  row_ok r -> handshake (victim (r_arm r)) = false ->
  doh_rows r = "" <-> isDoH (victim (r_arm r)) || doh_flood (r_arm r) = false.
Proof.
  intros Hr Hv. unfold doh_rows, row_ok, doh_flood in *. rewrite app_empty, !dohRow_prints, Hv.
  destruct (isDoH (victim (r_arm r))); simpl; [naive_solver|].
  destruct (attacker (r_arm r)) as [c|] eqn:Ec; simpl.
  - destruct (r_attacker r) as [a|]; [|by specialize (proj1 Hr eq_refl)].
    destruct (isDoH c), (handshake c); simpl; naive_solver.
  - rewrite (proj2 Hr eq_refl). naive_solver.
Qed.

Lemma soak_series_prints f r :
  soak_series f r = "" <->
  (1 <? zlen (r_samples r)) && bool_decide (fail_spec (r_arm r) = None) = false.
Proof.
  unfold soak_series. destruct (Z.ltb_spec (zlen (r_samples r)) 2).
  - replace (1 <? _) with false by (symmetry; lia). done.
  - replace (1 <? _) with true by (symmetry; lia). cbn [orb andb].
    destruct (fail_spec (r_arm r)); [by rewrite bool_decide_true, bool_decide_false|].
    rewrite bool_decide_false, bool_decide_true by auto. done.
Qed.

Definition upstream_line (r : row) : string := if has_series r then failSummary r else "".

(** No table of the report is a heading over nothing: each of the six
    guarded ones is written exactly when one of the run's rows has a line in
    it. *)
Theorem tables_not_blank (f : flags) rows :
  Forall row_ok rows -> Forall (fun r => handshake (victim (r_arm r)) = false) rows ->
  (floodTable rows = "" <-> Forall (fun r => flood_row r = "") rows) /\
  (dohTable rows = "" <-> Forall (fun r => doh_rows r = "") rows) /\
  (connTable rows = "" <-> Forall (fun r => conn_row r = "") rows) /\
  (handshakeTable rows = "" <-> Forall (fun r => handshake_row r = "") rows) /\
  (soakTable f rows = "" <-> Forall (fun r => soak_series f r = "") rows) /\
  (upstreamTable f rows = "" <-> Forall (fun r => upstream_line r = "") rows).
Proof.
  intros Hr Hv. rewrite Forall_forall in Hr. rewrite Forall_forall in Hv.
  refine (conj _ (conj _ (conj _ (conj _ (conj _ _)))));
    try (apply guarded_table; [intros r Hin|discriminate]).
  - by apply flood_row_prints, Hr.
  - apply doh_rows_prints; [by apply Hr|by apply Hv].
  - apply conn_row_prints.
  - by apply handshake_row_prints, Hr.
  - apply soak_series_prints.
  - unfold upstreamTable. rewrite Forall_forall. cbv zeta. split.
    + destruct (zlen _ =? 0) eqn:E; [intros _ r Hin|done]. unfold upstream_line.
      destruct (has_series r) eqn:Eh; [exfalso|done].
      assert (r ∈ List.filter has_series rows) as Hf by (apply list_elem_of_In, filter_In; by rewrite list_elem_of_In in Hin).
      destruct (List.filter has_series rows); [by apply not_elem_of_nil in Hf|].
      rewrite zlen_cons in E. pose proof (zlen_nonneg l). lia.
    + intros H. replace (List.filter has_series rows) with (@nil row); [done|].
      symmetry. induction rows as [|r rows IH]; [done|]. simpl.
      destruct (has_series r) eqn:Eh.
      * specialize (H r ltac:(by left)). unfold upstream_line in H. rewrite Eh in H. discriminate H.
      * apply IH; intros x Hx; [apply Hr|apply Hv|apply H]; by right.
Qed.

Lemma tables_not_blank_witness :
  floodTable [ex_outage] = "" <-> Forall (fun r => flood_row r = "") [ex_outage].
Proof.
  refine (proj1 (tables_not_blank default_flags [ex_outage] _ _)).
  - apply Forall_cons. split; [done|by apply Forall_nil].
  - apply Forall_cons. split; [reflexivity|by apply Forall_nil].
Defined.

(** ** Families *)

Definition in_family (family k : string) : bool := String.eqb k family || has_prefix (family +:+ "{") k.

Definition family_sum (family : string) (l : list (string * Z)) : Z :=
  zsum (map snd (List.filter (fun kv => in_family family (fst kv)) l)).

Lemma family_sum_fold family l n :
  fold_left (fun n '(k, v) => if String.eqb k family || has_prefix (family +:+ "{") k then n + v else n) l n =
    n + family_sum family l.
Proof.
  revert n. induction l as [|[k v] l IH]; intros n; [unfold family_sum; simpl; lia|].
  cbn [fold_left]. rewrite IH. unfold family_sum. cbn [List.filter fst]. unfold in_family.
  destruct (_ || _); [|done]. cbn [map snd]. unfold zsum. cbn [fold_right]. lia.
Qed.

Lemma family_sum_perm family l k : l ≡ₚ k -> family_sum family l = family_sum family k.
Proof.
  unfold family_sum. induction 1 as [|x l k _ IH|x y l|l1 l2 l3 _ IH1 _ IH2]; [done|..|congruence].
  - cbn [List.filter]. destruct (in_family _ _); [|done]. cbn [map]. unfold zsum in *. cbn [fold_right]. lia.
  - cbn [List.filter]. destruct (in_family family (fst y)), (in_family family (fst x)); cbn [map];
      unfold zsum; cbn [fold_right]; lia.
Qed.

(** The sum of a family does not depend on the order a map is walked in:
    over any listing of the counters it is the sum of the samples of that name,
    bare or with labels; so reading one more sample adds its value when it is
    of the family, and nothing when it is of another, such as one whose name
    merely starts the same. *)
Theorem sumFamily_any_order (c : gmap string Z) family :
  (forall l, l ≡ₚ map_to_list c -> family_sum family l = sumFamily c family) /\
  (forall k v, c !! k = None ->
     sumFamily (<[k := v]> c) family = sumFamily c family + (if in_family family k then v else 0)) /\
  (forall labels, in_family family (family +:+ "{" +:+ labels) = true) /\
  (forall suffix, in_family family (family +:+ suffix) = true ->
     suffix = "" \/ exists labels, suffix = String "{" labels).
Proof.
  assert (forall m, sumFamily m family = family_sum family (map_to_list m)) as Hs.
  { intros m. unfold sumFamily. by rewrite family_sum_fold. }
  split_and!.
  - intros l Hl. by rewrite Hs, (family_sum_perm _ _ _ Hl).
  - intros k v Hk. rewrite !Hs, (family_sum_perm _ _ _ (map_to_list_insert c k v Hk)).
    unfold family_sum. cbn [List.filter fst]. destruct (in_family family k); cbn [map snd];
      unfold zsum; cbn [fold_right]; lia.
  - intros labels. unfold in_family. rewrite <- str_app_assoc, has_prefix_app. apply orb_true_r.
  - intros suffix [E|E]%orb_true_iff.
    + left. apply String.eqb_eq, (f_equal String.length) in E.
      rewrite str_length_app in E. destruct suffix; [done|simpl in E; lia].
    + right. apply has_prefix_spec in E as [t E]. rewrite str_app_assoc in E.
      apply str_app_inj_length in E as [_ ->]; [by exists t|done].
Qed.

(** The names of a cached flood repeat. *)
Lemma fixed_name_repeats c idx seq idx' seq' tag :
  qmode c = "fixed" -> name c idx seq tag = name c idx' seq' tag.
Proof. unfold name. by intros ->. Qed.
