(* ===== verification/RrlRun.v ===== *)
(** * [bench/cmd/rrlexp]: the run of an arm, of the matrix, and the command

    [runArm], [runMatrix], [main] and [emit] of [main.go], [startOutage] and what
    becomes of an [outage] in [arms_upstream.go], [startSoakSampler] of [soak.go]
    and the starts of the clients in [client.go], [doh.go] and [tls.go], as
    programs over what they do to the outside.  A program returns, or ends in
    [fatal], which exits the process past every deferred call; its outcome is a
    value either way.  A [machine] answers each operation by what happened
    before.

    What runs at a moment is a set of [thing]s -- mocks, a server, clients,
    samplers, the outage's schedule, the scratch directory -- kept by the
    monitor [live_after], which refuses an operation asked of what is not
    there. *)

From S2P Require Import Prelude GoStrings GoFloat GoFlag DnsWire UnitEnv ProcStat NetAddr RrlMock RrlArms.
From S2P Require Import RrlStats RrlClient RrlServer RrlSoak RrlUpstream RrlReport.

(** ** What a run starts *)

Inductive which_mock : Type := Upstream | Failing | Steady.

Inductive thing : Type :=
  | AMock (w : which_mock)
  | TheServer
  | AClient (tag : string)
  | TheSampler
  | TheReader
  | TheOutage
  | TheScratch.

#[export] Instance which_mock_eq_dec : EqDecision which_mock.
Proof. solve_decision. Defined.
#[export] Instance thing_eq_dec : EqDecision thing.
Proof. solve_decision. Defined.

Definition thing_code (t : thing) : nat + string :=
  match t with
  | AMock Upstream => inl 0%nat | AMock Failing => inl 1%nat | AMock Steady => inl 2%nat
  | TheServer => inl 3%nat | TheSampler => inl 4%nat | TheReader => inl 5%nat
  | TheOutage => inl 6%nat | TheScratch => inl 7%nat
  | AClient tag => inr tag
  end.

Definition thing_of (c : nat + string) : thing :=
  match c with
  | inl 0%nat => AMock Upstream | inl 1%nat => AMock Failing | inl 2%nat => AMock Steady
  | inl 3%nat => TheServer | inl 4%nat => TheSampler | inl 5%nat => TheReader
  | inl 6%nat => TheOutage | inl _ => TheScratch
  | inr tag => AClient tag
  end.

#[export] Instance thing_countable : Countable thing.
Proof. apply (inj_countable' thing_code thing_of). by intros [[]| | | | | |]. Defined.

Definition is_client (t : thing) : bool := match t with AClient _ => true | _ => false end.

(** What asks the server, or reads it, while it runs. *)
Definition uses_server (t : thing) : bool :=
  match t with AClient _ | TheSampler | TheReader => true | _ => false end.

(** ** Operations *)

(** Where the server of a run comes from: the flags, the binary, the scratch
    directory, the unit's environment and this process's own. *)
Record rig : Type := mkRig {
  rg_flags : flags; rg_unitEnv : list string; rg_environ : list string; rg_bin : string; rg_dir : string
}.

(** [tlsConfig]'s [tls.Config]: the roots are the arm's certificate, and no
    session is resumed. *)
Record tls_config : Type := mkTls {
  RootCAs : string; ServerName : string; MinVersion : Z; NextProtos : list string; ClientSessionCache : bool
}.

(** What [tlsConfig] finds at the path of the certificate. *)
Inductive cert_file : Type := Unreadable (e : string) | NoCertificate | Certificate.

(** What a dial of [dialDoT] met: each step's error, where it had one. *)
Record dot_dial : Type := mkDotDial {
  dd_tcp : option string; dd_deadline : option string; dd_handshake : option string; dd_clear : option string
}.

(** What the outage's goroutine met: the binds of [fail] and of [restore], and
    when it was through with each. *)
Record outage_answers : Type := mkOutageAnswers {
  oa_udp : bool; oa_tcp : bool; oa_udp' : bool; oa_tcp' : bool; oa_down : duration; oa_up : duration
}.

(** One reading of the sampling goroutine: the clock, both clients' counters
    and the scrape. *)
Record reading : Type := mkReading {
  rd_at : duration; rd_victim : stats; rd_attacker : stats; rd_body : option string
}.

Inductive op : Type -> Type :=
  | Abs (path : string) : op (result string string)
  | Stat (path : string) : op (option string)
  | ReadUnit (path : string) : op (result unit_error string)
  | MkdirTemp : op (result string string)
  | RemoveAll (dir : string) : op unit
  | WriteReport (path text : string) : op (option string)
  | Print (s : string) : op unit
  | Bindable (addr : string) : op bool
  | StartMock (w : which_mock) (recs ttl_ : Z) : op (list bind_result * string)
  | StopMock (w : which_mock) : op unit
  | StartServer (r : rig) (ups : string) (a : arm) : op machine_answers
  | StopServer : op unit
  | Scrape (s : server) : op (option string)
  | ReadCert (path : string) : op cert_file
  | DialUDP (addr from_ : string) : op (option string * option string)
  | DialTCP (addr from_ : string) : op (option string)
  | DialDoT (addr from_ : string) (cfg : tls_config) : op dot_dial
  | Launch (k : clientKind) (c : clientSpec) (dur : duration) (tag : string) (track : bool) : op unit
  | ReadClient (tag : string) : op stats
  | StopClient (tag : string) : op stats
  | StartSampler (pid : Z) : op unit
  | StopSampler : op Sampler
  | StartReader (every : duration) (start : time) : op unit
  | StopReader : op (list reading)
  | StartOutage (md : mock_mode) (start : time) : op unit
  | WaitOutage : op outage_answers
  | Sleep (d : duration) : op unit
  | Now : op time.

(** Who called [fatal], and with what. *)
Inductive fatal_site : Type := FromMain | FromArm | FromClient.

#[export] Instance fatal_site_eq_dec : EqDecision fatal_site.
Proof. solve_decision. Defined.

Inductive failure : Type := Text (e : string) | UnitError (e : unit_error).

Inductive prog (A : Type) : Type :=
  | Ret (a : A)
  | Fatal (who : fatal_site) (e : failure)
  | Do {X : Type} (o : op X) (k : X -> prog A).
Arguments Ret {A} a.
Arguments Fatal {A} who e.
Arguments Do {A X} o k.

Fixpoint pbind {A B} (p : prog A) (f : A -> prog B) : prog B :=
  match p with
  | Ret a => f a
  | Fatal who e => Fatal who e
  | Do o k => Do o (fun x => pbind (k x) f)
  end.

Definition act {X} (o : op X) : prog X := Do o Ret.

Notation "'run!' x ':=' m 'in' k" := (pbind m (fun x => k))
  (at level 10, x pattern, m at level 100, k at level 200) : elodin_scope.

(** Go's [if err != nil { return ..., err }]. *)
Notation "'run!?' x ':=' m 'in' k" :=
  (pbind m (fun r => match r with Err e => Ret (Err e) | Ok x => k end))
  (at level 10, x pattern, m at level 100, k at level 200) : elodin_scope.

(** ** Running against a machine *)

Inductive happened : Type :=
  | Ev {X : Type} (o : op X) (x : X).

Definition machine : Type := forall X, list happened -> op X -> X.

Inductive ending (A : Type) : Type :=
  | Returned (a : A)
  | Exited (who : fatal_site) (e : failure).
Arguments Returned {A} a.
Arguments Exited {A} who e.

Fixpoint exec {A} (h : machine) (past : list happened) (p : prog A) : ending A * list happened :=
  match p with
  | Ret a => (Returned a, past)
  | Fatal who e => (Exited who e, past)
  | Do o k => let x := h _ past o in exec h (Ev o x :: past) (k x)
  end.

(** ** What runs

    A start needs that the thing is not there yet, a stop and a use that it is;
    a client, a sampler and a scrape need the server; the server is not stopped
    under anything that uses it, a mock not under the server that forwards to
    it, nor under the goroutine that takes it away and brings it back. *)

Definition begins (t : thing) (live : gset thing) : option (gset thing) :=
  if decide (t ∈ live) then None else Some ({[t]} ∪ live).

Definition needs (t : thing) (live : gset thing) : option (gset thing) :=
  if decide (t ∈ live) then Some live else None.

Definition finishes (t : thing) (live : gset thing) : option (gset thing) :=
  if decide (t ∈ live) then Some (live ∖ {[t]}) else None.

Definition free_of (p : thing -> bool) (live : gset thing) : bool :=
  forallb (fun t => negb (p t)) (elements live).

(** Whether the actions of a start leave a process running: none does when the
    process could not be started. *)
Definition left_running (f : flags) (r : rig) (ups : string) (a : arm) (mc : machine_answers) : bool :=
  is_ok (mc_start mc) &&
  (0 <? running (fst (startServer f (rg_unitEnv r) (rg_environ r) (rg_bin r) (rg_dir r) ups a mc)) 0).

Definition live_after (live : gset thing) (e : happened) : option (gset thing) :=
  match e with
  | Ev o x =>
      match o in op X return X -> option (gset thing) with
      | MkdirTemp => fun r => match r with Ok _ => begins TheScratch live | Err _ => Some live end
      | RemoveAll _ => fun _ => finishes TheScratch live
      | StartMock w recs ttl_ => fun r =>
          match RrlMock.startMock (fst r) recs ttl_ with
          | Some _ => begins (AMock w) live
          | None => Some live
          end
      | StopMock w => fun _ =>
          if decide (TheServer ∈ live \/ TheOutage ∈ live) then None else finishes (AMock w) live
      | StartServer r ups a => fun mc =>
          if decide (TheServer ∈ live) then None
          else if left_running (rg_flags r) r ups a mc then begins TheServer live else Some live
      | StopServer => fun _ => if free_of uses_server live then Some (live ∖ {[TheServer]}) else None
      | Scrape _ => fun _ => needs TheServer live
      | DialUDP _ _ => fun _ => needs TheServer live
      | DialTCP _ _ => fun _ => needs TheServer live
      | DialDoT _ _ _ => fun _ => needs TheServer live
      | Launch _ _ _ tag _ => fun _ => if decide (TheServer ∈ live) then begins (AClient tag) live else None
      | ReadClient tag => fun _ => needs (AClient tag) live
      | StopClient tag => fun _ => finishes (AClient tag) live
      | StartSampler _ => fun _ => if decide (TheServer ∈ live) then begins TheSampler live else None
      | StopSampler => fun _ => finishes TheSampler live
      | StartReader _ _ => fun _ => if decide (TheServer ∈ live) then begins TheReader live else None
      | StopReader => fun _ => finishes TheReader live
      | StartOutage _ _ => fun _ => if decide (AMock Failing ∈ live) then begins TheOutage live else None
      | WaitOutage => fun _ => finishes TheOutage live
      | _ => fun _ => Some live
      end x
  end.

Fixpoint live_of (past : list happened) : option (gset thing) :=
  match past with
  | [] => Some ∅
  | e :: past => match live_of past with None => None | Some live => live_after live e end
  end.

(** ** The clients' starts *)

Definition tlsConfig (path : string) (alpn : list string) : prog (result string tls_config) :=
  run! r := act (ReadCert path) in
  Ret (match r with
       | Unreadable e => Err ("reading the arm's certificate: " +:+ e)
       | NoCertificate => Err (path +:+ " holds no certificate")
       | Certificate => Ok (mkTls path "localhost" 771 alpn false)
       end).

(** What [dialDoT] does with a socket it opened. *)
Inductive sock_action : Type := Opened | ClosedRaw | ClosedTLS.

Definition dialDoT (d : dot_dial) : list sock_action * option string :=
  match dd_tcp d with
  | Some e => ([], Some e)
  | None =>
      match dd_deadline d, dd_handshake d, dd_clear d with
      | Some e, _, _ => ([Opened; ClosedRaw], Some e)
      | None, Some e, _ => ([Opened; ClosedRaw], Some e)
      | None, None, Some e => ([Opened; ClosedTLS], Some e)
      | None, None, None => ([Opened], None)
      end
  end.

(** [runStream]'s dials, one per socket; whether each got a connection. *)
Fixpoint dial_each (n : nat) (dial : prog (option string)) : prog (list bool) :=
  match n with
  | O => Ret []
  | S n' =>
      run! e := dial in
      run! rest := dial_each n' dial in
      Ret (match e with None => true | Some _ => false end :: rest)
  end.

Definition launch_stream (k : clientKind) (c : clientSpec) (dur : duration) (tag : string) (track : bool)
  (dial : prog (option string)) : prog unit :=
  run! dials := dial_each (Z.to_nat (sockets c)) dial in
  match runStream dials stats0 with
  | None =>
      Fatal FromClient (Text (transport c +:+ " from " +:+ src c +:+ ": not one of " +:+ itoa (sockets c) +:+
                              " connections could be opened"))
  | Some _ => act (Launch k c dur tag track)
  end.

(** [dialUDP]: the address is resolved, then the socket connected. *)
Definition dialUDP (resolved connected : option string) : option string :=
  match resolved with Some e => Some e | None => connected end.

(** [runUDP]'s dials: the first that fails is fatal. *)
Fixpoint dial_udp (n : nat) (addr from_ : string) : prog unit :=
  match n with
  | O => Ret tt
  | S n' =>
      run! (resolved, connected) := act (DialUDP addr from_) in
      match dialUDP resolved connected with
      | Some e => Fatal FromClient (Text ("udp from " +:+ from_ +:+ ": " +:+ e))
      | None => dial_udp n' addr from_
      end
  end.

(** Each client up to its goroutines running: what it needs first, and the
    launch. *)
Section starts.
Context (s : server) (c : clientSpec) (dur : duration) (tag : string) (track : bool).

(** A configuration of the arm's certificate, or the end of the run. *)
Definition with_tls (what alpn : string) (rest : tls_config -> prog unit) : prog unit :=
  run! r := tlsConfig (certPath s) [alpn] in
  match r with
  | Err e => Fatal FromClient (Text (what +:+ " from " +:+ src c +:+ ": " +:+ e))
  | Ok cfg => rest cfg
  end.

Definition runUDP (addr : string) : prog unit :=
  run! _ := dial_udp (Z.to_nat (sockets c)) addr (src c) in
  act (Launch (DatagramUDP addr) c dur tag track).

Definition runTCP (addr : string) : prog unit :=
  launch_stream (StreamTCP addr) c dur tag track (act (DialTCP addr (src c))).

Definition runDoT (addr : string) : prog unit :=
  with_tls "dot" "dot" (fun cfg =>
    launch_stream (StreamDoT addr) c dur tag track
      (run! d := act (DialDoT addr (src c) cfg) in Ret (snd (dialDoT d)))).

Definition start_doh (addr : string) : prog unit :=
  with_tls "doh" (doh_alpn c) (fun _ => act (Launch (DoHClient addr) c dur tag track)).

Definition runHandshakeFlood (addr : string) : prog unit :=
  with_tls "handshake flood" (alpnFor (transport c)) (fun _ => act (Launch (HandshakeFlood addr) c dur tag track)).

(** [runClient]. *)
Definition start_client : prog unit :=
  match RrlClient.runClient s c with
  | HandshakeFlood addr => runHandshakeFlood addr
  | IdleHolder addr => act (Launch (IdleHolder addr) c dur tag track)
  | TCPRedial addr => act (Launch (TCPRedial addr) c dur tag track)
  | StreamTCP addr => runTCP addr
  | StreamDoT addr => runDoT addr
  | DoHClient addr => start_doh addr
  | DatagramUDP addr => runUDP addr
  end.
End starts.

(** ** The upstreams of an arm *)

(** [startMock], and what it was given or met: the address, or the error of its
    last bind. *)
Definition start_mock (f : flags) (w : which_mock) (ttl_ : Z) : prog (result string (Mock * string * Z)) :=
  run! (tries, text) := act (StartMock w (answerRecords f) ttl_) in
  Ret (match RrlMock.startMock tries (answerRecords f) ttl_ with
       | Some (m, size) => Ok (m, text, size)
       | None => Err text
       end).

Record outage : Type := mkOutage {
  o_spec : failSpec; o_mock : Mock; o_failing : string; o_steady : option string
}.

Definition startOutage (f : flags) (s : failSpec) : prog (result string outage) :=
  run!? (m, failing, _) := start_mock f Failing (f_ttl s) in
  if f_alone s then Ret (Ok (mkOutage s m failing None))
  else
    run! r := start_mock f Steady (f_ttl s) in
    match r with
    | Err e => run! _ := act (StopMock Failing) in Ret (Err e)
    | Ok (_, steady, _) => Ret (Ok (mkOutage s m failing (Some steady)))
    end.

(** [wait]: the times of the schedule, or its error.  What the mock served
    before it was taken away decides nothing of it, so it is the mock as it
    started. *)
Definition wait (o : outage) : prog (result string (duration * duration)) :=
  run! w := act WaitOutage in
  let '(e, _) := RrlUpstream.schedule (f_mode (o_spec o)) (oa_udp w) (oa_tcp w) (oa_udp' w) (oa_tcp' w) (o_mock o) in
  Ret (match e with Some e => Err e | None => Ok (oa_down w, oa_up w) end).

Definition stop_outage (o : outage) : prog unit :=
  run! _ := act (StopMock Failing) in
  match o_steady o with Some _ => act (StopMock Steady) | None => Ret tt end.

(** ** The sampler of a long arm *)

Definition sample_of (a : arm) (r : reading) : sample :=
  takeSample (rd_victim r) (match attacker a with Some _ => Some (rd_attacker r) | None => None end)
    (counters (rd_body r)) (rd_at r).

(** The counters of the flood, where the arm has one. *)
Definition of_attacker {A} (a : arm) (p : prog A) : prog (option A) :=
  match attacker a with
  | Some _ => run! x := p in Ret (Some x)
  | None => Ret None
  end.

(** [startSoakSampler]: the baseline, and the goroutine that reads on; nothing
    for an arm that is not sampled. *)
Definition startSoakSampler (s : server) (a : arm) (start : time) : prog (option sample) :=
  if arm_sample a <=? 0 then Ret None
  else
    run! v := act (ReadClient "vic") in
    run! fl := of_attacker a (act (ReadClient "atk")) in
    run! body := act (Scrape s) in
    run! _ := act (StartReader (arm_sample a) start) in
    Ret (Some (takeSample v fl (counters body) 0)).

(** The function it returns, and the readings the row then has. *)
Definition stop_soaking (a : arm) (baseline : option sample) : prog (list sample) :=
  match baseline with
  | None => Ret []
  | Some b =>
      run! readings := act StopReader in
      Ret (soak_samples (arm_sample a) b (map (sample_of a) readings))
  end.

(** ** [runArm] *)

(** The lead-in, under the arm's own load. *)
Definition warm_up (f : flags) (s : server) (a : arm) : prog unit :=
  match attacker a with
  | Some c =>
      run! _ := start_client s c (warmup f) "warm" false in
      run! _ := act (Sleep (warmup f)) in
      run! _ := act (StopClient "warm") in
      Ret tt
  | None => act (Sleep (warmup f))
  end.

(** The clients of the measured window: the flood first. *)
Definition start_load (f : flags) (s : server) (a : arm) : prog unit :=
  run! _ := match attacker a with
            | Some c => start_client s c (armDuration f a) "atk" false
            | None => Ret tt
            end in
  start_client s (victim a) (armDuration f a) "vic" true.

(** From the running server to the row. *)
Definition measure (f : flags) (s : server) (pid : Z) (o : option outage) (a : arm)
  : prog (result string row) :=
  run! _ := warm_up f s a in
  run! _ := act (StartSampler pid) in
  run! start := act Now in
  run! _ := start_load f s a in
  run! _ := match o with
            | Some o => act (StartOutage (f_mode (o_spec o)) start)
            | None => Ret tt
            end in
  run! baseline := startSoakSampler s a start in
  run! _ := act (Sleep (armDuration f a)) in
  run! now := act Now in
  run! _ := act (Sleep (500 * millisecond)) in
  run! v := act (StopClient "vic") in
  run! fl := of_attacker a (act (StopClient "atk")) in
  run! readings := stop_soaking a baseline in
  run! sm := act StopSampler in
  run!? (down, up) := match o with Some o => wait o | None => Ret (Ok (0, 0)) end in
  run! body := act (Scrape s) in
  run! _ := act StopServer in
  Ret (Ok (mkRow a v fl (now - start) (CPUUsed sm) (PeakRSS sm) (counters body) readings down up)).

(** [runArm] from the start of its server: the deferred [srv.stop] runs on every
    return. *)
Definition on_server (r : rig) (ups : string) (o : option outage) (a : arm) : prog (result string row) :=
  run! mc := act (StartServer r ups a) in
  match snd (RrlServer.startServer (rg_flags r) (rg_unitEnv r) (rg_environ r) (rg_bin r) (rg_dir r) ups a mc) with
  | Err e => Ret (Err e)
  | Ok (s, pid) =>
      run! res := measure (rg_flags r) s pid o a in
      run! _ := act StopServer in
      Ret res
  end.

Definition runArm (r : rig) (upstream : string) (a : arm) : prog (result string row) :=
  match fail_spec a with
  | None =>
      on_server r (upstreamBlock "failover" 1 [{| m_name := "mock"; m_addr := upstream |}]) None a
  | Some s =>
      run!? o := startOutage (rg_flags r) s in
      run! res := on_server r (outage_block s (o_failing o) (o_steady o)) (Some o) a in
      run! _ := stop_outage o in
      Ret res
  end.

(** ** The matrix *)

(** [unusable]: an address is tried only when it is one. *)
Fixpoint unusable_of (addrs : list string) : prog string :=
  match addrs with
  | [] => Ret ""
  | addr :: rest =>
      if String.eqb addr "" then unusable_of rest
      else
        run! b := act (Bindable addr) in
        if b then unusable_of rest
        else Ret ("this machine cannot send from " +:+ addr +:+ " (" +:+ bindHint addr +:+ ")")
  end.

Definition say (s : string) : prog unit := act (Print (s +:+ nls)).

Fixpoint run_matrix (r : rig) (upstream : string) (arms : list arm) (rows : list row) (skips : list skip)
  : prog (list row * list skip) :=
  match arms with
  | [] => Ret (rows, skips)
  | a :: rest =>
      if negb (String.eqb (only (rg_flags r)) "") && negb (contains (only (rg_flags r)) (arm_name a)) then
        run_matrix r upstream rest rows skips
      else
        run! w := unusable_of (needed a) in
        if negb (String.eqb w "") then
          run! _ := say (pad_right 34 (arm_name a) +:+ " skipped: " +:+ w) in
          run_matrix r upstream rest rows (skips ++ [{| skip_name := arm_name a; why := w |}])
        else
          run! res := runArm r upstream a in
          match res with
          | Err e => Fatal FromArm (Text (arm_name a +:+ ": " +:+ e))
          | Ok x =>
              run! _ := say (line x) in
              run_matrix r upstream rest (rows ++ [x]) skips
          end
  end.

(** ** The command *)

Record main_flags : Type := mkMainFlags {
  mf_binary : string; mf_unit : string; mf_keep : bool; mf_out : string; mf_flags : flags
}.

(** The flags of the command. *)
Definition rrlexp_flags : flag_set :=
  [("binary", FString); ("unit", FString); ("duration", FDuration); ("warmup", FDuration); ("flood-rate", FInt);
   ("victim-rate", FInt); ("rps", FInt); ("slip", FInt); ("answer-records", FInt); ("upstream-delay", FDuration);
   ("workers", FInt); ("only", FString); ("keep", FBool); ("server-cpus", FString); ("log-level", FString);
   ("log-queries", FBool); ("out", FString); ("soak", FDuration); ("soak-sample", FDuration)].

Definition rrlexp_args (args : list string) : result flag_error main_flags :=
  let? (set, _) := parse_args rrlexp_flags args in
  Ok (mkMainFlags (str_flag set "binary" "../bin/elodin") (str_flag set "unit" "../packaging/elodin.service")
        (bool_flag set "keep" false) (str_flag set "out" "")
        {| duration_ := num_flag set "duration" (8 * second); warmup := num_flag set "warmup" (1 * second);
           floodRate := num_flag set "flood-rate" 20000; victimRate := num_flag set "victim-rate" 50;
           rps_ := num_flag set "rps" 500; slip_ := num_flag set "slip" 2;
           answerRecords := num_flag set "answer-records" 70;
           upDelay := num_flag set "upstream-delay" (20 * millisecond); workers := num_flag set "workers" 64;
           only := str_flag set "only" ""; serverCPUs := str_flag set "server-cpus" "";
           logLevel := str_flag set "log-level" "info"; logQueries := bool_flag set "log-queries" false;
           soak := num_flag set "soak" 0; soakSample := num_flag set "soak-sample" (30 * second) |}).

Example rrlexp_args_ex :
  rrlexp_args [] = Ok (mkMainFlags "../bin/elodin" "../packaging/elodin.service" false "" default_flags) /\
  (soak ∘ mf_flags) <$> match rrlexp_args ["-keep"; "-soak"; "1h"] with Ok o => Some o | Err _ => None end =
    Some (60 * minute) /\
  rrlexp_args ["-rps"; "1e3"] = Err (InvalidValue "1e3" "rps").
Proof. vm_compute. done. Qed.

Definition resolveBinary (o : main_flags) : prog string :=
  run! r := act (Abs (mf_binary o)) in
  match r with
  | Err e => Fatal FromMain (Text e)
  | Ok bin =>
      run! e := act (Stat bin) in
      match e with
      | Some e => Fatal FromMain (Text (bin +:+ ": " +:+ e +:+ " (run `mise run release` first)"))
      | None => Ret bin
      end
  end.

Definition loadUnit (o : main_flags) : prog (list string) :=
  run! file := act (ReadUnit (mf_unit o)) in
  match UnitEnv.Load file with
  | Err e => Fatal FromMain (UnitError e)
  | Ok env => Ret env
  end.

Definition scratchDir (o : main_flags) : prog string :=
  run! r := act MkdirTemp in
  match r with
  | Err e => Fatal FromMain (Text e)
  | Ok dir =>
      if mf_keep o then run! _ := say ("configs and logs in " +:+ dir) in Ret dir
      else Ret dir
  end.

(** The [cleanup] it returns. *)
Definition cleanup (o : main_flags) (dir : string) : prog unit :=
  if mf_keep o then Ret tt else act (RemoveAll dir).

Definition emit (o : main_flags) (unitEnv : list string) (rows : list row) (skips : list skip) : prog unit :=
  let report := renderReport (mf_flags o) (mf_unit o) unitEnv rows skips in
  run! _ := act (Print (nls +:+ report)) in
  if String.eqb (mf_out o) "" then Ret tt
  else
    run! e := act (WriteReport (mf_out o) report) in
    match e with
    | Some e => Fatal FromMain (Text e)
    | None => say ("written to " +:+ mf_out o)
    end.

Definition mock_banner (f : flags) (addr : string) (size : Z) : string :=
  "mock upstream on " +:+ addr +:+ ", answering after " +:+ dur_string (upDelay f) +:+ " with " +:+
  itoa (answerRecords f) +:+ " A records (" +:+ itoa size +:+ " bytes)" +:+ nls +:+ nls.

Definition rrlexp_main (o : main_flags) (environ : list string) : prog unit :=
  let f := mf_flags o in
  run! bin := resolveBinary o in
  run! unitEnv := loadUnit o in
  run! dir := scratchDir o in
  run! m := start_mock f Upstream 300 in
  match m with
  | Err e => Fatal FromMain (Text e)
  | Ok (_, addr, size) =>
      run! _ := act (Print (mock_banner f addr size)) in
      run! (rows, skips) := run_matrix (mkRig f unitEnv environ bin dir) addr (matrix f) [] [] in
      run! _ := emit o unitEnv rows skips in
      run! _ := act (StopMock Upstream) in
      cleanup o dir
  end.

(** ** Reasoning about a run *)

Lemma exec_pbind {A B} h past (p : prog A) (f : A -> prog B) :
  exec h past (pbind p f) =
    match exec h past p with
    | (Returned a, past') => exec h past' (f a)
    | (Exited who e, past') => (Exited who e, past')
    end.
Proof. revert past. induction p as [a|who e|X o k IH]; intros past; simpl; [done..|apply IH]. Qed.

(** What holds at the end of a run: [Q] when it returns, [E] when it exits. *)
Definition wp {A} (h : machine) (past : list happened) (p : prog A)
  (Q : A -> list happened -> Prop) (E : fatal_site -> list happened -> Prop) : Prop :=
  match exec h past p with
  | (Returned a, past') => Q a past'
  | (Exited who _, past') => E who past'
  end.

Lemma wp_pbind {A B} h past (p : prog A) (f : A -> prog B) Q E :
  wp h past p (fun a past' => wp h past' (f a) Q E) E -> wp h past (pbind p f) Q E.
Proof. unfold wp. rewrite exec_pbind. by destruct (exec h past p) as [[a|who e] past']. Qed.

Lemma wp_weaken {A} h past (p : prog A) (Q Q' : A -> list happened -> Prop) (E E' : fatal_site -> list happened -> Prop) :
  (forall a past', Q a past' -> Q' a past') -> (forall who past', E who past' -> E' who past') ->
  wp h past p Q E -> wp h past p Q' E'.
Proof. intros HQ HE. unfold wp. destruct (exec h past p) as [[a|who e] past']; auto. Qed.

(** A run from where [L] is live. *)
Definition tracked {A} (L : gset thing) (p : prog A) (Q : A -> gset thing -> Prop)
  (E : fatal_site -> gset thing -> Prop) : Prop :=
  forall h past, live_of past = Some L ->
    wp h past p (fun a past' => exists L', live_of past' = Some L' /\ Q a L')
      (fun who past' => exists L', live_of past' = Some L' /\ E who L').

Section rules.
Context {A : Type} (Q : A -> gset thing -> Prop) (E : fatal_site -> gset thing -> Prop).

Lemma tracked_ret L a : Q a L -> tracked L (Ret a) Q E.
Proof. intros H h past HL. exists L. done. Qed.

Lemma tracked_fatal L who e : E who L -> tracked L (Fatal who e) Q E.
Proof. intros H h past HL. exists L. done. Qed.

Lemma tracked_bind {B} L (p : prog B) (f : B -> prog A) :
  tracked L p (fun b L' => tracked L' (f b) Q E) E -> tracked L (pbind p f) Q E.
Proof.
  intros H h past HL. apply wp_pbind. eapply wp_weaken; [|intros who past' He; exact He|apply (H h past HL)].
  intros b past' (L' & HL' & Hf). by apply Hf.
Qed.

Lemma tracked_act L (o : op A) :
  (forall x, exists L', live_after L (Ev o x) = Some L' /\ Q x L') -> tracked L (act o) Q E.
Proof.
  intros H h past HL. unfold wp, act. cbn [exec]. destruct (H (h A past o)) as (L' & HL' & HQ).
  exists L'. split; [|done]. cbn [live_of]. by rewrite HL.
Qed.

Lemma tracked_mono (Q' : A -> gset thing -> Prop) (E' : fatal_site -> gset thing -> Prop) L p :
  tracked L p Q' E' -> (forall a L', Q' a L' -> Q a L') -> (forall who L', E' who L' -> E who L') ->
  tracked L p Q E.
Proof.
  intros H HQ HE h past HL. eapply wp_weaken; [| |apply (H h past HL)].
  - intros a past' (L' & ? & ?). eauto.
  - intros who past' (L' & ? & ?). eauto.
Qed.
End rules.

Lemma tracked_do {A B} Q E L (o : op B) (f : B -> prog A) :
  (forall x, exists L', live_after L (Ev o x) = Some L' /\ tracked L' (f x) Q E) ->
  tracked L (pbind (act o) f) Q E.
Proof. intros H. apply tracked_bind, tracked_act, H. Qed.

(** ** Starting a client *)

Section starting.
Context (L : gset thing) (Hs : TheServer ∈ L) (tag : string) (Ht : AClient tag ∉ L).

Definition unopened (who : fatal_site) (L' : gset thing) : Prop := L' = L /\ who = FromClient.

Lemma needs_server : needs TheServer L = Some L.
Proof. unfold needs. by rewrite decide_True. Qed.

Lemma launch_tracked k c dur track :
  tracked L (act (Launch k c dur tag track)) (fun _ L' => L' = {[AClient tag]} ∪ L) unopened.
Proof.
  apply tracked_act. intros x. eexists. split; [|done]. cbn [live_after]. unfold begins.
  by rewrite decide_True, decide_False.
Qed.

Lemma tlsConfig_tracked path alpn : tracked L (tlsConfig path alpn) (fun _ L' => L' = L) unopened.
Proof. apply tracked_do. intros x. exists L. split; [done|]. by apply tracked_ret. Qed.

Lemma dial_each_tracked n dial :
  tracked L dial (fun _ L' => L' = L) unopened -> tracked L (dial_each n dial) (fun _ L' => L' = L) unopened.
Proof.
  intros Hd. induction n as [|n IH]; [by apply tracked_ret|]. cbn [dial_each].
  apply tracked_bind. eapply tracked_mono; [exact Hd| |done]. intros e L' ->.
  apply tracked_bind. eapply tracked_mono; [exact IH| |done]. intros rest L' ->. by apply tracked_ret.
Qed.

Lemma launch_stream_tracked k c dur track dial :
  tracked L dial (fun _ L' => L' = L) unopened ->
  tracked L (launch_stream k c dur tag track dial) (fun _ L' => L' = {[AClient tag]} ∪ L) unopened.
Proof.
  intros Hd. apply tracked_bind. eapply tracked_mono; [by apply dial_each_tracked| |done].
  intros dials L' ->. destruct (runStream dials stats0); [apply launch_tracked|by apply tracked_fatal].
Qed.

Lemma dial_udp_tracked n addr from_ : tracked L (dial_udp n addr from_) (fun _ L' => L' = L) unopened.
Proof.
  induction n as [|n IH]; [by apply tracked_ret|]. apply tracked_do. intros [re co].
  exists L. split; [apply needs_server|]. destruct (dialUDP re co); [by apply tracked_fatal|apply IH].
Qed.

Lemma with_tls_tracked s c what alpn rest (Q : unit -> gset thing -> Prop) :
  (forall cfg, tracked L (rest cfg) Q unopened) -> tracked L (with_tls s c what alpn rest) Q unopened.
Proof.
  intros H. apply tracked_bind. eapply tracked_mono; [apply tlsConfig_tracked| |done].
  intros [cfg|e] L' ->; [apply H|by apply tracked_fatal].
Qed.

(** A client that starts is there afterwards; the process exits instead only
    from within the client, leaving all as it was. *)
Lemma start_client_tracked s c dur track :
  tracked L (start_client s c dur tag track) (fun _ L' => L' = {[AClient tag]} ∪ L) unopened.
Proof.
  unfold start_client. destruct (RrlClient.runClient s c) as [addr|addr|addr|addr|addr|addr|addr];
    try apply launch_tracked.
  - apply with_tls_tracked. intros cfg. apply launch_tracked.
  - apply launch_stream_tracked, tracked_act. intros e. exists L. split; [apply needs_server|done].
  - apply with_tls_tracked. intros cfg. apply launch_stream_tracked, tracked_do. intros d.
    exists L. split; [apply needs_server|]. by apply tracked_ret.
  - apply with_tls_tracked. intros cfg. apply launch_tracked.
  - apply tracked_bind. eapply tracked_mono; [apply dial_udp_tracked| |done]. intros ? L' ->.
    apply launch_tracked.
Qed.
End starting.

(** ** An arm leaves what it found *)

(** What is live while an arm's server is not: the run's scratch directory and
    mock, and the upstreams of the arm's outage. *)
Definition around (o : option outage) : gset thing :=
  {[TheScratch; AMock Upstream]} ∪
  match o with
  | None => ∅
  | Some o => {[AMock Failing]} ∪ match o_steady o with Some _ => {[AMock Steady]} | None => ∅ end
  end.

(** Membership in a set of known things, by computation. *)
Ltac known := apply (bool_decide_eq_true_1 _); vm_compute; reflexivity.

(** One operation, from a set of known things. *)
Ltac known_op :=
  cbn [live_after]; unfold begins, needs, finishes;
  repeat (first [rewrite decide_True by known | rewrite decide_False by known]);
  repeat match goal with
  | |- context [free_of ?p ?L] => replace (free_of p L) with true by (vm_compute; reflexivity)
  end;
  reflexivity.

Ltac step := apply tracked_do; intros ?; eexists; split; [known_op|].

(** As far as the program is a sequence of operations. *)
Ltac walk := repeat first [step | apply tracked_ret; cbv beta | apply tracked_bind].

Section arm.
Context (f : flags) (s : server) (pid : Z) (a : arm).

(** The exits of an arm: from a client, past the stop of the server. *)
Definition orphaned (who : fatal_site) (L : gset thing) : Prop := TheServer ∈ L /\ who = FromClient.

Lemma starting_orphaned L who L' : TheServer ∈ L -> unopened L who L' -> orphaned who L'.
Proof. by intros H [-> ->]. Qed.

Lemma warm_up_tracked o :
  let L := {[TheServer]} ∪ around o in
  tracked L (warm_up f s a) (fun _ L' => L' = L) orphaned.
Proof.
  unfold warm_up. destruct o as [[? ? ? [st|]]|]; (destruct (attacker a) as [c|];
    [|apply tracked_act; intros x; eexists; split; [reflexivity|done]]);
    (apply tracked_bind; eapply tracked_mono;
      [apply start_client_tracked; known| |intros ? ?; apply starting_orphaned; known]);
    intros ? L' ->; step; step; apply tracked_ret; known.
Qed.

(** What the measured window runs against. *)
Definition window (o : option outage) : gset thing :=
  let L := {[TheSampler]} ∪ ({[TheServer]} ∪ around o) in
  {[AClient "vic"]} ∪ match attacker a with Some _ => {[AClient "atk"]} ∪ L | None => L end.

Lemma start_load_tracked o :
  tracked ({[TheSampler]} ∪ ({[TheServer]} ∪ around o)) (start_load f s a) (fun _ L' => L' = window o) orphaned.
Proof.
  unfold start_load, window. apply tracked_bind.
  destruct o as [[? ? ? [st|]]|]; (destruct (attacker a) as [c|];
    [eapply tracked_mono;
      [apply start_client_tracked; known| |intros ? ?; apply starting_orphaned; known]
    |apply tracked_ret]); try intros ? L' ->;
    (eapply tracked_mono; [apply start_client_tracked; known|done|intros ? ?; apply starting_orphaned; known]).
Qed.

Lemma measure_tracked o :
  tracked ({[TheServer]} ∪ around o) (measure f s pid o a)
    (fun r L => L = match r with Ok _ => around o | Err _ => {[TheServer]} ∪ around o end) orphaned.
Proof.
  unfold measure. apply tracked_bind. eapply tracked_mono; [apply warm_up_tracked| |done].
  intros ? L' ->.
  destruct o as [[sp m fa [st|]]|]; step; step; apply tracked_bind;
    (eapply tracked_mono; [apply start_load_tracked| |done]);
    intros ? L' ->; unfold window, startSoakSampler, wait, of_attacker;
    destruct (attacker a), (arm_sample a <=? 0);
    walk; unfold stop_soaking; walk; try destruct (schedule _ _ _ _ _ _) as [[e|] m']; walk; known.
Qed.

End arm.

(** A start that returns a server leaves one running, and one that fails leaves
    none. *)
Lemma start_left f r ups a mc :
  left_running f r ups a mc =
    is_ok (snd (RrlServer.startServer f (rg_unitEnv r) (rg_environ r) (rg_bin r) (rg_dir r) ups a mc)).
Proof.
  unfold left_running, RrlServer.startServer.
  pose proof (makeCert_running (rg_dir r) (mc_have_cert mc) (mc_openssl mc)) as Hm.
  destruct (makeCert _ _ _) as [made cert]. cbn [fst] in Hm. pose proof (Hm [] 0) as H0. rewrite app_nil_r in H0.
  destruct (armPorts (mc_free mc)) as [[[[p1 p2] p3] p4]|e], (mc_start mc) as [pid|e']; try done;
    destruct cert as [[cert key]|e2]; try (cbn [fst snd is_ok andb]; by rewrite ?H0);
    destruct (mc_write mc); try (cbn [fst snd is_ok andb]; by rewrite ?Hm); try done.
  destruct (waitReady _ _ _); [destruct (Check _ _)|]; cbn [fst snd is_ok andb];
    by rewrite <- !app_assoc, Hm.
Qed.

Lemma on_server_tracked r ups o a :
  tracked (around o) (on_server r ups o a) (fun _ L => L = around o) orphaned.
Proof.
  unfold on_server. apply tracked_do. intros mc.
  set (res := snd (RrlServer.startServer _ _ _ _ _ _ _ _)).
  exists (if is_ok res then {[TheServer]} ∪ around o else around o). split.
  - cbn [live_after]. rewrite start_left. fold res. unfold begins.
    destruct o as [[sp m fa [st|]]|]; rewrite !decide_False by known; by destruct res.
  - destruct res as [[s pid]|e]; [|by apply tracked_ret]. cbn [is_ok].
    apply tracked_bind. eapply tracked_mono; [apply measure_tracked| |done].
    intros res L ->. destruct o as [[sp m fa [st|]]|], res; walk; known.
Qed.

(** The state between two arms. *)
Definition idle_run : gset thing := around None.

Lemma start_mock_tracked f w ttl_ L :
  AMock w ∉ L ->
  tracked L (start_mock f w ttl_)
    (fun r L' => L' = match r with Ok _ => {[AMock w]} ∪ L | Err _ => L end) orphaned.
Proof.
  intros Hw. apply tracked_do. intros [tries text]. cbn [live_after fst]. unfold begins.
  destruct (RrlMock.startMock _ _ _) as [[m size]|]; eexists; (split; [|by apply tracked_ret]).
  - by rewrite decide_False.
  - done.
Qed.

Lemma startOutage_tracked f s :
  tracked idle_run (startOutage f s)
    (fun r L => L = match r with Ok o => around (Some o) | Err _ => idle_run end) orphaned.
Proof.
  unfold startOutage. apply tracked_bind. eapply tracked_mono; [apply start_mock_tracked; known| |done].
  intros [[[m failing] size]|e] L ->; [|by apply tracked_ret].
  destruct (f_alone s); [apply tracked_ret; known|].
  apply tracked_bind. eapply tracked_mono; [apply start_mock_tracked; known| |done].
  intros [[[m' steady] size']|e] L ->; walk; known.
Qed.

(** Every return of an arm leaves the run as it found it; its exits leave its
    server running. *)
Lemma runArm_tracked r upstream a :
  tracked idle_run (runArm r upstream a) (fun _ L => L = idle_run) orphaned.
Proof.
  unfold runArm. destruct (fail_spec a) as [s|]; [|apply on_server_tracked].
  apply tracked_bind. eapply tracked_mono; [apply startOutage_tracked| |done].
  intros [o|e] L ->; [|by apply tracked_ret].
  apply tracked_bind. eapply tracked_mono; [apply on_server_tracked| |done].
  intros res L ->. unfold stop_outage. destruct o as [sp m fa [st|]]; walk; known.
Qed.

(** ** The matrix and the command *)

(** An exit with a server running is a client's, and a client's has one
    running. *)
Definition stranded (who : fatal_site) (L : gset thing) : Prop := TheServer ∈ L <-> who = FromClient.

Lemma orphaned_stranded who L : orphaned who L -> stranded who L.
Proof. by intros [? ->]. Qed.

Lemma unusable_tracked L addrs : tracked L (unusable_of addrs) (fun _ L' => L' = L) stranded.
Proof.
  induction addrs as [|addr addrs IH]; [by apply tracked_ret|]. cbn [unusable_of].
  destruct (String.eqb addr ""); [done|]. apply tracked_do. intros b. exists L. split; [done|].
  destruct b; [done|by apply tracked_ret].
Qed.

Lemma not_stranded L who : TheServer ∉ L -> who <> FromClient -> stranded who L.
Proof. by unfold stranded; tauto. Qed.

Lemma run_matrix_tracked r upstream arms rows skips :
  tracked idle_run (run_matrix r upstream arms rows skips) (fun _ L => L = idle_run) stranded.
Proof.
  revert rows skips. induction arms as [|a arms IH]; intros rows skips; [by apply tracked_ret|].
  cbn [run_matrix]. destruct (_ && _); [apply IH|].
  apply tracked_bind. eapply tracked_mono; [apply unusable_tracked| |done]. intros w L ->.
  destruct (negb _); [step; apply IH|].
  apply tracked_bind. eapply tracked_mono; [apply runArm_tracked| |apply orphaned_stranded].
  intros [x|e] L ->.
  - step. apply IH.
  - apply tracked_fatal, not_stranded; [known|done].
Qed.

Ltac plain_exit := apply tracked_fatal, not_stranded; [known|done].

Lemma emit_tracked o unitEnv rows skips :
  tracked idle_run (emit o unitEnv rows skips) (fun _ L => L = idle_run) stranded.
Proof.
  unfold emit. step. destruct (String.eqb _ ""); [by apply tracked_ret|]. step.
  destruct x0 as [e|]; [plain_exit|]. apply tracked_act. intros u. by eexists.
Qed.

Lemma resolveBinary_tracked o : tracked ∅ (resolveBinary o) (fun _ L => L = ∅) stranded.
Proof.
  unfold resolveBinary. step. destruct x as [bin|e]; [|plain_exit].
  step. destruct x as [e|]; [plain_exit|by apply tracked_ret].
Qed.

Lemma loadUnit_tracked o : tracked ∅ (loadUnit o) (fun _ L => L = ∅) stranded.
Proof. unfold loadUnit. step. destruct (Load x); [by apply tracked_ret|plain_exit]. Qed.

Lemma scratchDir_tracked o : tracked ∅ (scratchDir o) (fun _ L => L = {[TheScratch]} ∪ ∅) stranded.
Proof.
  apply tracked_do. intros d. exists (if is_ok d then {[TheScratch]} ∪ ∅ else ∅). split; [by destruct d|].
  destruct d as [dir|e]; [|plain_exit]. cbn [is_ok].
  destruct (mf_keep o); [step|]; by apply tracked_ret.
Qed.

Lemma main_tracked o environ :
  tracked ∅ (rrlexp_main o environ) (fun _ L => L = if mf_keep o then {[TheScratch]} else ∅) stranded.
Proof.
  unfold rrlexp_main.
  apply tracked_bind. eapply tracked_mono; [apply resolveBinary_tracked| |done]. intros bin L ->.
  apply tracked_bind. eapply tracked_mono; [apply loadUnit_tracked| |done]. intros unitEnv L ->.
  apply tracked_bind. eapply tracked_mono; [apply scratchDir_tracked| |done]. intros dir L ->.
  apply tracked_bind. eapply tracked_mono; [apply start_mock_tracked; known| |apply orphaned_stranded].
  intros [[[m addr] size]|e] L ->; [|plain_exit].
  step. apply tracked_bind.
  replace (_ ∪ _) with idle_run by known.
  eapply tracked_mono; [apply run_matrix_tracked| |done]. intros [rows skips] L ->.
  apply tracked_bind. eapply tracked_mono; [apply emit_tracked| |done]. intros ? L ->.
  unfold cleanup. destruct (mf_keep o); walk; known.
Qed.

(** C1. However a run of the experiment goes -- any arms, any machine, any
    operation failing -- no operation is asked of what is not running: clients,
    samplers and scrapes find the server, which is not stopped under them, nor a
    mock under the server or the outage that uses it.  A run that returns leaves
    no server, client, sampler or mock, and the scratch directory only when told
    to keep it.  A run that exits leaves its server running exactly when it is a
    client that exits. *)
Theorem rrlexp_teardown (h : machine) (o : main_flags) (environ : list string) :
  let '(r, past) := exec h [] (rrlexp_main o environ) in
  exists live, live_of past = Some live /\
  match r with
  | Returned _ => live = if mf_keep o then {[TheScratch]} else ∅
  | Exited who _ => TheServer ∈ live <-> who = FromClient
  end.
Proof.
  pose proof (main_tracked o environ h [] eq_refl) as H. unfold wp in H.
  by destruct (exec h [] (rrlexp_main o environ)) as [[u|who e] past].
Qed.

(** A machine on which everything succeeds, but for the dials when [up] is
    false; its clock is what has been slept. *)
Fixpoint slept (past : list happened) : time :=
  match past with
  | [] => 0
  | Ev o _ :: past => match o with Sleep d => Z.max d 0 | _ => 0 end + slept past
  end.

Definition a_start : machine_answers :=
  mkMachine [Ok 5301; Ok 8531; Ok 8443; Ok 9153] false None (Ok tt) (Ok 4711)
    [(1, ProbeReply (0 :: 1 :: 128 :: repeat 0 9))] 0 (Ok "").

Definition a_machine (up : bool) : machine := fun X past o =>
  let dialled := if up then None else Some "connection refused" in
  match o in op X return X with
  | Abs path => Ok ("/src/" +:+ path)
  | Stat _ => None
  | ReadUnit _ => Ok ""
  | MkdirTemp => Ok "/tmp/rrlexp-1"
  | RemoveAll _ => tt
  | WriteReport _ _ => None
  | Print _ => tt
  | Bindable addr => negb (isV6 addr)
  | StartMock _ _ _ => ([InUse; Bound], "127.0.0.1:5300")
  | StopMock _ => tt
  | StartServer _ _ _ => a_start
  | StopServer => tt
  | Scrape _ => Some ("elodin_queries_total 42" +:+ nls)
  | ReadCert _ => Certificate
  | DialUDP _ _ => (None, dialled)
  | DialTCP _ _ => dialled
  | DialDoT _ _ _ => mkDotDial dialled None None None
  | Launch _ _ _ _ _ => tt
  | ReadClient _ => stats0
  | StopClient _ => upd stats0 (Offered 400)
  | StartSampler _ => tt
  | StopSampler => NewSampler
  | StartReader _ _ => tt
  | StopReader => []
  | StartOutage _ _ => tt
  | WaitOutage => mkOutageAnswers true true true true failBefore (failBefore + failFor)
  | Sleep _ => tt
  | Now => slept past
  end.

Definition an_experiment (only_ : string) : main_flags :=
  mkMainFlags "bin/elodin" "dist/elodin.service" false "/tmp/report.md"
    (mkFlags (8 * second) second 20000 50 500 2 70 (20 * millisecond) 64 only_ "" "info" false 0 (30 * second)).

(** A stream victim that gets no connection ends the run with its server
    running. *)
Example client_orphans_server :
  let '(r, past) := exec (a_machine false) [] (rrlexp_main (an_experiment "quiet-baseline/tcp") []) in
  r = Exited FromClient (Text "tcp from 127.9.0.1: not one of 1 connections could be opened") /\
  option_map (fun live => bool_decide (TheServer ∈ live)) (live_of past) = Some true.
Proof. vm_compute. done. Qed.

(** ** What a run reports *)

Lemma exec_grows {A} h past (p : prog A) : exists new, snd (exec h past p) = new ++ past.
Proof.
  revert past. induction p as [a|who e|X o k IH]; intros past; [by exists []..|].
  cbn [exec]. destruct (IH (h X past o) (Ev o (h X past o) :: past)) as [new ->].
  exists (new ++ [Ev o (h X past o)]). by rewrite <- app_assoc.
Qed.

Lemma wp_ret {A} h past (a : A) (Q : A -> list happened -> Prop) E : Q a past -> wp h past (Ret a) Q E.
Proof. done. Qed.

Lemma wp_act {A} h past (o : op A) (Q : A -> list happened -> Prop) E :
  Q (h A past o) (Ev o (h A past o) :: past) -> wp h past (act o) Q E.
Proof. done. Qed.

(** Whatever a program does, the past stays. *)
Lemma wp_grows {A} h past (p : prog A) :
  wp h past p (fun _ past' => exists new, past' = new ++ past) (fun _ _ => True).
Proof.
  unfold wp. destruct (exec_grows h past p) as [new E].
  destruct (exec h past p) as [[a|who e] past']; [by exists new|done].
Qed.

Lemma wp_past {A} h past (p : prog A) (Q : A -> list happened -> Prop) E :
  wp h past p Q E -> wp h past p (fun a past' => Q a past' /\ exists new, past' = new ++ past) E.
Proof.
  unfold wp. destruct (exec_grows h past p) as [new En].
  destruct (exec h past p) as [[a|who e] past']; [|done]. intros HQ. split; [done|by exists new].
Qed.

(** A run's clock: it does not go back, a sleep takes its time, and [time.Now]
    reads it. *)
Record keeps_time (h : machine) (clock : list happened -> time) : Prop := {
  kt_forward : forall e past, clock past <= clock (e :: past);
  kt_sleep : forall d x past, clock past + d <= clock (Ev (Sleep d) x :: past);
  kt_now : forall past, h time past Now = clock past
}.

Lemma clock_app h clock new past : keeps_time h clock -> clock past <= clock (new ++ past).
Proof. intros H. induction new as [|e new IH]; [done|]. simpl. pose proof (kt_forward _ _ H e (new ++ past)). lia. Qed.

(** What a row is of its arm. *)
Record row_of_run (f : flags) (past : list happened) (a : arm) (r : row) : Prop := {
  rr_arm : r_arm r = a;
  rr_attacker : row_ok r;
  rr_victim : Ev (StopClient "vic") (r_victim r) ∈ past;
  rr_elapsed : armDuration f a <= elapsed r;
  rr_samples : match r_samples r with
               | [] => arm_sample a <= 0
               | b :: _ => 0 < arm_sample a /\ at_ b = 0
               end;
  rr_outage : fail_spec a = None -> downAt r = 0 /\ upAt r = 0
}.

Lemma row_of_run_grows f new past a r : row_of_run f past a r -> row_of_run f (new ++ past) a r.
Proof. intros []. split; try done. apply elem_of_app. by right. Qed.

(** Skipping what does not matter for the result. *)
Lemma wp_skip {A B} h past (p : prog A) (f : A -> prog B) Q :
  (forall a new, wp h (new ++ past) (f a) Q (fun _ _ => True)) -> wp h past (pbind p f) Q (fun _ _ => True).
Proof.
  intros H. apply wp_pbind. eapply wp_weaken; [|intros who past' He; exact He|apply wp_grows].
  intros a past' [new ->]. apply H.
Qed.

Lemma wp_do {A B} h past (o : op A) (f : A -> prog B) Q E :
  wp h (Ev o (h A past o) :: past) (f (h A past o)) Q E -> wp h past (pbind (act o) f) Q E.
Proof. intros H. apply wp_pbind, wp_act, H. Qed.

Section measured.
Context (h : machine) (clock : list happened -> time) (Hclock : keeps_time h clock).

Lemma samples_wp past s a start Q :
  (forall b new, match b with None => arm_sample a <= 0 | Some b => 0 < arm_sample a /\ at_ b = 0 end ->
     Q b (new ++ past)) ->
  wp h past (startSoakSampler s a start) Q (fun _ _ => True).
Proof.
  intros H. unfold startSoakSampler. destruct (arm_sample a <=? 0) eqn:Es; b2p; [apply (H None []); lia|].
  apply wp_skip. intros v n1. apply wp_skip. intros fl n2. apply wp_skip. intros body n3.
  apply wp_skip. intros ? n4. apply wp_ret. rewrite !app_assoc. apply H. simpl. lia.
Qed.

Lemma of_attacker_wp {A} past a (p : prog A) Q :
  (forall x new, (x = None <-> attacker a = None) -> Q x (new ++ past)) ->
  wp h past (of_attacker a p) Q (fun _ _ => True).
Proof.
  intros H. unfold of_attacker. destruct (attacker a).
  - apply wp_skip. intros x new. apply wp_ret, H. by split.
  - apply wp_ret, (H None []). by split.
Qed.

Lemma stop_soaking_wp past a b Q :
  (forall l new, match l, b with [], None => True | x :: _, Some b => x = b | [], Some _ => arm_sample a <= 0 | _, None => False end ->
     Q l (new ++ past)) ->
  wp h past (stop_soaking a b) Q (fun _ _ => True).
Proof.
  intros H. destruct b as [b|]; [|by apply (H [] [])]. apply wp_skip. intros l new.
  apply wp_ret, H. unfold soak_samples. by destruct (arm_sample a <=? 0) eqn:E; b2p.
Qed.

Lemma times_wp past (o : option outage) Q :
  (forall r new, (o = None -> r = Ok (0, 0)) -> Q r (new ++ past)) ->
  wp h past (match o with Some o => wait o | None => Ret (Ok (0, 0)) end) Q (fun _ _ => True).
Proof.
  intros H. destruct o as [o|]; [|by apply (H _ [])]. apply wp_skip. intros w new.
  destruct (schedule _ _ _ _ _ _) as [e m]. by apply wp_ret, H.
Qed.

Lemma measure_wp f s pid o a past :
  (fail_spec a = None -> o = None) ->
  wp h past (measure f s pid o a)
    (fun r past' => match r with Ok r => row_of_run f past' a r | Err _ => True end) (fun _ _ => True).
Proof.
  intros Ho. unfold measure. apply wp_skip. intros ? n1. apply wp_skip. intros ? n2.
  set (p := n2 ++ n1 ++ past). apply wp_do. rewrite (kt_now _ _ Hclock).
  apply wp_skip. intros ? n3. apply wp_skip. intros ? n4.
  apply wp_pbind, samples_wp. intros b n5 Hb.
  apply wp_do, wp_do. rewrite (kt_now _ _ Hclock).
  set (p1 := n5 ++ n4 ++ n3 ++ Ev Now (clock p) :: p).
  assert (clock p + armDuration f a <= clock (Ev (Sleep (armDuration f a)) (h unit p1 (Sleep (armDuration f a))) :: p1)) as Hel.
  { pose proof (kt_sleep _ _ Hclock (armDuration f a) (h unit p1 (Sleep (armDuration f a))) p1).
    assert (clock p <= clock p1); [|lia]. unfold p1.
    replace (n5 ++ n4 ++ n3 ++ Ev Now (clock p) :: p) with ((n5 ++ n4 ++ n3 ++ [Ev Now (clock p)]) ++ p)
      by (by rewrite <- !app_assoc). by apply (clock_app h). }
  apply wp_do, wp_do.
  apply wp_pbind, of_attacker_wp. intros fl n6 Hfl.
  apply wp_pbind, stop_soaking_wp. intros l n7 Hl. apply wp_skip. intros sm n8.
  apply wp_pbind, times_wp. intros [[down up]|e] n9 Ht; [|by apply wp_ret].
  apply wp_skip. intros body n10. apply wp_skip. intros ? n11. apply wp_ret.
  split; cbn [r_arm r_attacker r_victim elapsed r_samples downAt upAt]; try done.
  - repeat (apply elem_of_app; right). by left.
  - change (armDuration f a <= clock (Ev (Sleep (armDuration f a)) (h unit p1 (Sleep (armDuration f a))) :: p1) - clock p).
    lia.
  - destruct l as [|x l], b as [b|]; try done; by subst.
  - intros Hf. specialize (Ht (Ho Hf)). by simplify_eq.
Qed.

End measured.

(** A row's part in a run, whatever it is, holds of every row of the run when
    measuring gives it and it is not lost as the run goes on. *)
Section report.
Context (h : machine) (R : flags -> list happened -> arm -> row -> Prop).
Context (Rgrows : forall f new past a r, R f past a r -> R f (new ++ past) a r).
Context (Rmeasure : forall f s pid o a past, (fail_spec a = None -> o = None) ->
  wp h past (measure f s pid o a) (fun r past' => match r with Ok r => R f past' a r | Err _ => True end) (fun _ _ => True)).

Lemma on_server_wp r ups o a past :
  (fail_spec a = None -> o = None) ->
  wp h past (on_server r ups o a)
    (fun res past' => match res with Ok x => R (rg_flags r) past' a x | Err _ => True end)
    (fun _ _ => True).
Proof.
  intros Ho. unfold on_server. apply wp_skip. intros mc n1.
  destruct (snd _) as [[s pid]|e]; [|by apply wp_ret].
  apply wp_pbind. eapply wp_weaken; [|intros who past' He; exact He|by apply Rmeasure].
  intros res past' Hr. apply wp_skip. intros ? n2. apply wp_ret.
  destruct res; [by apply Rgrows|done].
Qed.

Lemma runArm_wp r upstream a past :
  wp h past (runArm r upstream a)
    (fun res past' => match res with Ok x => R (rg_flags r) past' a x | Err _ => True end)
    (fun _ _ => True).
Proof.
  unfold runArm. destruct (fail_spec a) as [s|] eqn:Ef; [|by apply on_server_wp].
  apply wp_skip. intros [o|e] n1; [|by apply wp_ret].
  apply wp_pbind. eapply wp_weaken; [|intros who past' He; exact He|apply on_server_wp; by rewrite Ef].
  intros res past' Hr. apply wp_skip. intros ? n2. apply wp_ret.
  destruct res; [by apply Rgrows|done].
Qed.

(** Why an arm was skipped: an address it needs that could not be bound. *)
Definition skip_of_run (past : list happened) (a : arm) (s : skip) : Prop :=
  skip_name s = arm_name a /\
  exists addr, addr ∈ needed a /\ addr <> "" /\ Ev (Bindable addr) false ∈ past /\
    why s = "this machine cannot send from " +:+ addr +:+ " (" +:+ bindHint addr +:+ ")".

Lemma unusable_wp addrs past Q :
  (forall w new, (w <> "" -> exists addr, addr ∈ addrs /\ addr <> "" /\ Ev (Bindable addr) false ∈ new ++ past /\
     w = "this machine cannot send from " +:+ addr +:+ " (" +:+ bindHint addr +:+ ")") -> Q w (new ++ past)) ->
  wp h past (unusable_of addrs) Q (fun _ _ => True).
Proof.
  revert past Q. induction addrs as [|addr addrs IH]; intros past Q H; [by apply (H "" [])|].
  cbn [unusable_of]. destruct (String.eqb_spec addr "") as [->|Hne].
  - apply IH. intros w new Hw. apply H. intros (x & ? & ?)%Hw. exists x. split; [by right|done].
  - apply wp_do. destruct (h bool past (Bindable addr)) eqn:Eb.
    + apply IH. intros w new Hw.
      replace (new ++ Ev (Bindable addr) true :: past) with ((new ++ [Ev (Bindable addr) true]) ++ past) in *
        by (by rewrite <- app_assoc).
      apply H. intros (x & ? & ?)%Hw. exists x. split; [by right|done].
    + apply wp_ret, (H _ [_]). intros _. exists addr. split_and!; [by left|done|by left|done].
Qed.

(** What became of an arm: its row, or its skip. *)
Definition outcome_of_arm (f : flags) (past : list happened) (a : arm) (x : row + skip) : Prop :=
  match x with inl r => R f past a r | inr s => skip_of_run past a s end.

Lemma outcome_grows f new past a x : outcome_of_arm f past a x -> outcome_of_arm f (new ++ past) a x.
Proof.
  destruct x as [r|s]; [apply Rgrows|]. intros (? & addr & ? & ? & ? & ?).
  split; [done|]. exists addr. split_and!; try done. apply elem_of_app. by right.
Qed.

Definition rows_of (l : list (row + skip)) : list row := omap (fun x => match x with inl r => Some r | inr _ => None end) l.
Definition skips_of (l : list (row + skip)) : list skip := omap (fun x => match x with inl _ => None | inr s => Some s end) l.

Lemma run_matrix_wp r upstream arms rows skips past :
  wp h past (run_matrix r upstream arms rows skips)
    (fun res past' => exists outs,
       Forall2 (outcome_of_arm (rg_flags r) past') (List.filter (selected (rg_flags r)) arms) outs /\
       res = (rows ++ rows_of outs, skips ++ skips_of outs))
    (fun _ _ => True).
Proof.
  revert rows skips past. induction arms as [|a arms IH]; intros rows skips past.
  { apply wp_ret. exists []. by rewrite !app_nil_r. }
  assert (forall x rows' skips' past0, outcome_of_arm (rg_flags r) past0 a x ->
    rows' = rows ++ rows_of [x] -> skips' = skips ++ skips_of [x] -> selected (rg_flags r) a = true ->
    wp h past0 (run_matrix r upstream arms rows' skips')
      (fun res past' => exists outs,
         Forall2 (outcome_of_arm (rg_flags r) past') (List.filter (selected (rg_flags r)) (a :: arms)) outs /\
         res = (rows ++ rows_of outs, skips ++ skips_of outs)) (fun _ _ => True)) as Hrest.
  { intros x rows' skips' past0 Hx -> -> Hsel.
    eapply wp_weaken; [|intros who past' He; exact He|apply wp_past, IH].
    intros res past' ((outs & Ho & ->) & new & ->). exists (x :: outs). split.
    - cbn [List.filter]. rewrite Hsel. constructor; [by apply outcome_grows|done].
    - destruct x; simpl; by rewrite ?app_nil_r, <- !app_assoc. }
  cbn [run_matrix]. unfold selected in Hrest at 1. fold (selected (rg_flags r) a) in Hrest.
  destruct (selected (rg_flags r) a) eqn:Hsel; unfold selected in Hsel.
  - rewrite <- negb_orb, Hsel. cbn [negb].
    apply wp_pbind, unusable_wp. intros w n1 Hw. destruct (String.eqb_spec w "") as [->|Hne]; cbn [negb].
    + apply wp_pbind. eapply wp_weaken; [|intros who past' He; exact He|apply runArm_wp].
      intros [x|e] past' Hx; [|done]. apply wp_skip. intros ? n2.
      apply (Hrest (inl x)); [by apply Rgrows|done|by rewrite app_nil_r|done].
    + apply wp_skip. intros ? n2.
      apply (Hrest (inr {| skip_name := arm_name a; why := w |})); [|by rewrite app_nil_r|done..].
      apply (outcome_grows _ n2). split; [done|]. by apply Hw.
  - rewrite <- negb_orb, Hsel. cbn [negb]. cbn [List.filter]. unfold selected at 1. rewrite Hsel. apply IH.
Qed.
(** What a finished run has said. *)
Definition reported (o : main_flags) (past : list happened) : Prop :=
  exists unitEnv outs,
    let report := renderReport (mf_flags o) (mf_unit o) unitEnv (rows_of outs) (skips_of outs) in
    Forall2 (outcome_of_arm (mf_flags o) past)
      (List.filter (selected (mf_flags o)) (matrix (mf_flags o))) outs /\
    Ev (Print (nls +:+ report)) tt ∈ past /\
    (mf_out o <> "" -> Ev (WriteReport (mf_out o) report) None ∈ past).

Lemma reported_grows o new past : reported o past -> reported o (new ++ past).
Proof.
  intros (unitEnv & outs & H1 & H2 & H3). exists unitEnv, outs. split_and!.
  - eapply Forall2_impl; [exact H1|]. intros a x. apply outcome_grows.
  - apply elem_of_app. by right.
  - intros Ho. apply elem_of_app. right. by apply H3.
Qed.

Lemma emit_wp o unitEnv rows skips past :
  let report := renderReport (mf_flags o) (mf_unit o) unitEnv rows skips in
  wp h past (emit o unitEnv rows skips)
    (fun _ past' => Ev (Print (nls +:+ report)) tt ∈ past' /\
       (mf_out o <> "" -> Ev (WriteReport (mf_out o) report) None ∈ past')) (fun _ _ => True).
Proof.
  intros report. unfold emit. fold report. apply wp_do.
  destruct (h unit past (Print (nls +:+ report))).
  destruct (String.eqb_spec (mf_out o) "") as [->|Hne].
  - apply wp_ret. split; [by left|done].
  - apply wp_do. destruct (h (option string) _ (WriteReport (mf_out o) report)) eqn:Ew; [done|].
    apply wp_act. split; [by right; right; left|intros _; by right; left].
Qed.

Lemma main_wp o environ :
  wp h [] (rrlexp_main o environ) (fun _ past => reported o past) (fun _ _ => True).
Proof.
  unfold rrlexp_main. apply wp_skip. intros bin n1. apply wp_skip. intros unitEnv n2.
  apply wp_skip. intros dir n3. apply wp_skip. intros [[[m addr] size]|e] n4; [|done].
  apply wp_skip. intros ? n5.
  apply wp_pbind. eapply wp_weaken; [|intros who past' He; exact He|apply run_matrix_wp].
  cbn [rg_flags]. intros res past1 (outs & Ho & ->).
  apply wp_pbind. eapply wp_weaken; [|intros who past' He; exact He|apply wp_past, emit_wp].
  cbv beta zeta. intros ? past2 ([Hp Hw] & n6 & ->).
  assert (reported o (n6 ++ past1)) as Hr.
  { exists unitEnv, outs. split; [|done]. eapply Forall2_impl; [exact Ho|]. intros b x. apply outcome_grows. }
  apply wp_skip. intros ? n7.
  eapply wp_weaken; [|intros who past' He; exact He|apply wp_grows].
  intros ? past3 [n8 ->]. by apply reported_grows, reported_grows.
Qed.

End report.

(** C3. A run that returns has printed its report, and written it where [-out]
    said; the report is over one outcome for each arm selected, in the order of
    the matrix.  An arm skipped is one that needs an address a socket could not
    be bound to, and the skip says which.  The row of an arm that ran is that
    arm's, with the counters its victim had when it was stopped, the flood's
    exactly when it has a flood, a measured time no shorter than the arm's
    duration, a baseline at the start of a sampled arm and no reading of one
    that is not, and no outage in an arm without. *)
Theorem rrlexp_reports (h : machine) (clock : list happened -> time) (o : main_flags) (environ : list string) past :
  keeps_time h clock ->
  exec h [] (rrlexp_main o environ) = (Returned tt, past) -> reported row_of_run o past.
Proof.
  intros Hc E. pose proof (main_wp h row_of_run row_of_run_grows (measure_wp h clock Hc) o environ) as H. unfold wp in H. by rewrite E in H.
Qed.

Lemma a_machine_time up : keeps_time (a_machine up) slept.
Proof.
  split; [|intros d x past; simpl; lia|done].
  intros [X o x] past. simpl. destruct o; lia.
Qed.

(** A run of the quiet baseline over TCP, on a machine where everything succeeds. *)
Lemma rrlexp_reports_witness :
  let '(r, past) := exec (a_machine true) [] (rrlexp_main (an_experiment "quiet-baseline/tcp") []) in
  r = Returned tt /\ reported row_of_run (an_experiment "quiet-baseline/tcp") past.
Proof.
  destruct (exec (a_machine true) [] (rrlexp_main (an_experiment "quiet-baseline/tcp") [])) as [r past] eqn:E.
  assert (r = Returned tt) as ->.
  { apply (f_equal fst) in E. cbn [fst] in E. rewrite <- E. vm_compute. reflexivity. }
  split; [reflexivity|].
  exact (rrlexp_reports (a_machine true) slept (an_experiment "quiet-baseline/tcp") [] past (a_machine_time true) E).
Defined.
