(* ===== verification/RrlRow.v ===== *)
(** * [bench/cmd/rrlexp]: a row of the report, from its clients' goroutines

    [RrlRun] runs an arm against a machine that answers, when a client is
    stopped, with the counters it has; [RrlClient], [RrlConns] and [RrlDoh] are
    what the goroutines of a client do to them.  Put together: the figures of a
    row are those of clients the arm asked for, whose goroutines ran to their
    ends in some interleaving ([row_figures]). *)

From S2P Require Import Prelude GoStrings GoFloat DnsWire Framing RrlMock NetAddr RrlArms RrlStats RrlClient.
From S2P Require Import RrlConns RrlDoh RrlServer RrlSoak RrlUpstream RrlReport RrlRun.

(** ** A client from its start to its stop *)

(** [client_ends c tag track k a]: [a] are the counters a client of kind [k] may
    have when the function that stops it returns.  A redialling client is one
    goroutine; the rounds of a handshake flood's workers and the connections of
    an idle client are in the order their outcomes were counted in. *)
Inductive client_ends (c : clientSpec) (tag : string) (track : bool) : clientKind -> stats -> Prop :=
  | ends_udp addr dials s0 es s :
      conns_start false c track dials = Some s0 -> length dials = Z.to_nat (sockets c) ->
      conns_run false c tag s0 es = Some s -> conns_done s ->
      client_ends c tag track (DatagramUDP addr) (cs_st s)
  | ends_tcp addr dials s0 es s :
      conns_start true c track dials = Some s0 -> length dials = Z.to_nat (sockets c) ->
      conns_run true c tag s0 es = Some s -> conns_done s ->
      client_ends c tag track (StreamTCP addr) (cs_st s)
  | ends_dot addr dials s0 es s :
      conns_start true c track dials = Some s0 -> length dials = Z.to_nat (sockets c) ->
      conns_run true c tag s0 es = Some s -> conns_done s ->
      client_ends c tag track (StreamDoT addr) (cs_st s)
  | ends_idle addr os :
      length os = Z.to_nat (sockets c) ->
      client_ends c tag track (IdleHolder addr) (fold_left idle_socket os stats0)
  | ends_redial addr os :
      client_ends c tag track (TCPRedial addr)
        (st (fold_left (fun s '(asked, o) => redial_query c tag asked s o) os (sock0 track)))
  | ends_doh addr until es s dials_ :
      doh_run c tag track until (runDoH c) es = Some s ->
      dc_cancelled s = true -> dc_closed s = true -> Forall (eq Gone) (dc_workers s) ->
      client_ends c tag track (DoHClient addr) (doh_stop s dials_)
  | ends_handshake addr hs :
      client_ends c tag track (HandshakeFlood addr) (fold_left handshake_round hs stats0).

(** ** What each kind of client counts *)

Definition figures (c : clientSpec) (track : bool) (k : clientKind) (a : stats) : Prop :=
  match k with
  | DatagramUDP _ => socket_figures false track (Z.max 0 (sockets c)) a
  | StreamTCP _ | StreamDoT _ => socket_figures true track (Z.max 0 (sockets c)) a
  | IdleHolder _ =>
      offered a = 0 /\ replies a = 0 /\ lat a = [] /\ dials a + failed a = Z.max 0 (sockets c) /\ 0 <= closed a <= dials a
  | TCPRedial _ =>
      reply_sums track a /\ offered a = dials a + failed a /\ closed a + replies a <= dials a
  | DoHClient _ =>
      reply_sums track a /\ truncated a = 0 /\ offered a = failed a + refused a + badRcode a + full a
  | HandshakeFlood _ =>
      replies a = 0 /\ offered a = full a + closed a + failed a /\ latLen a = full a
  end.

(** What every step of a fold keeps, the fold keeps. *)
Lemma fold_keeps {A B} (f : A -> B -> A) (P : A -> Prop) :
  (forall a b, P a -> P (f a b)) -> forall l a, P a -> P (fold_left f l a).
Proof. intros Hf l. induction l as [|b l IH]; intros a Ha; simpl; [done|]. by apply IH, Hf. Qed.

Lemma reply_sums0 track : reply_sums track stats0.
Proof. by split. Qed.

Lemma idle_figures os :
  let a := fold_left idle_socket os stats0 in
  offered a = 0 /\ replies a = 0 /\ lat a = [] /\ dials a + failed a = zlen os /\ 0 <= closed a <= dials a.
Proof.
  intros a.
  assert (offered a = 0 /\ replies a = 0 /\ lat a = [] /\ 0 <= closed a <= dials a) as (H1 & H2 & H3 & H4).
  { apply (fold_keeps idle_socket (fun a => offered a = 0 /\ replies a = 0 /\ lat a = [] /\ 0 <= closed a <= dials a)); [|done].
    intros s o (H1 & H2 & H3 & H4). destruct s, o; simpl in *; split_and!; try done; lia. }
  split_and!; try done; try lia. unfold a.
  rewrite (fold_gain idle_socket (fun s => dials s + failed s) 1); [simpl; lia|]. intros s o. destruct s, o; simpl; lia.
Qed.

Lemma redial_sums c tag track asked o s :
  tr_on (tr s) = track /\ reply_sums track (st s) ->
  tr_on (tr (redial_query c tag asked s o)) = track /\ reply_sums track (st (redial_query c tag asked s o)).
Proof.
  intros [Ht Hs].
  assert (forall u, (exists n, u = Offered n \/ u = Failed n \/ u = Dials n \/ u = Closed n \/ u = BytesOut n) ->
    forall a, reply_sums track a -> reply_sums track (upd a u)) as Hu.
  { intros u (n & H) a []. by destruct a; destruct H as [->|[->|[->|[->| ->]]]]; split. }
  pose proof (put_pending (tr s) (u16 (seq_ s + 1)) asked) as [Hp _].
  unfold redial_query. destruct o as [| | | |msg now]; cbn [st tr]; try (split; [congruence|repeat apply Hu; eauto 10]).
  unfold tcp_read. cbn [st tr seq_]. destruct (ParseReply msg) as [rep|];
    [|split; [cbn [tr]; congruence|cbn [st]; repeat apply Hu; eauto 10]].
  match goal with |- context [record ?a ?n rep ?t now] =>
    pose proof (record_sums track a n rep t now ltac:(congruence) ltac:(repeat apply Hu; eauto 10)) as Hr;
    destruct (record a n rep t now) as [s' t'] end.
  cbn [st tr]. by destruct Hr as (? & ? & _).
Qed.

Lemma redial_figures c tag track os :
  let a := st (fold_left (fun s '(asked, o) => redial_query c tag asked s o) os (sock0 track)) in
  reply_sums track a /\ offered a = dials a + failed a /\ closed a + replies a <= dials a.
Proof.
  set (f := fun s '(asked, o) => redial_query c tag asked s o). intros a.
  enough ((tr_on (tr (fold_left f os (sock0 track))) = track /\ reply_sums track a) /\
    offered a = dials a + failed a /\ closed a + replies a <= dials a) as [[_ H1] H2] by done.
  apply (fold_keeps f (fun s => (tr_on (tr s) = track /\ reply_sums track (st s)) /\
    offered (st s) = dials (st s) + failed (st s) /\ closed (st s) + replies (st s) <= dials (st s))).
  - intros s [asked o] [H1 H2]. split; [by apply redial_sums|].
    pose proof (redial_step_sums c tag asked s o) as H. cbv zeta in H. unfold f. lia.
  - split; [split; [done|apply reply_sums0]|done].
Qed.

(** What a DoH client's counters are made of. *)
Lemma doh_run_stats c tag track until (P : stats -> Prop) es s s' :
  (forall idx took_ q a o, P a -> P (doh_query c idx tag track took_ q a o)) ->
  P (dc_stats s) -> doh_run c tag track until s es = Some s' -> P (dc_stats s').
Proof.
  intros HP. revert s. induction es as [|e es IH]; intros s Hs; cbn [doh_run]; [by intros [= <-]|].
  destruct (doh_step c tag track until s e) as [s1|] eqn:E; [|done]. apply IH.
  destruct e as [| | |i now|i|i|i|i|i|i took_ o]; cbn [doh_step actor] in E.
  1: unfold push in E; destruct (_ && _); [by injection E as <-|done].
  1, 2: by injection E as <-.
  all: destruct (dc_workers s !! i) as [[]|]; try done; cbn [work] in E; repeat case_match; try done;
    injection E as <-; try done; by apply HP.
Qed.

Definition doh_sums (track : bool) (a : stats) : Prop :=
  reply_sums track a /\ truncated a = 0 /\ offered a = failed a + refused a + badRcode a + full a.

Lemma doh_query_sums c idx tag track took_ q a o :
  doh_sums track a -> doh_sums track (doh_query c idx tag track took_ q a o).
Proof.
  intros ([H1 H2 H3 H4] & Ht & Ho). destruct a as [o1 r fu t b bi bo cl re fa di la rc ss]. unfold latLen in *. simpl in *.
  unfold doh_query, addStatus, addRcode, addLatency.
  destruct o as [|code body bok]; simpl; [split; [by split|simpl; lia]|].
  destruct bok; simpl; [|split; [by split|simpl; lia]].
  destruct (code =? 200); simpl; [|split; [by split|simpl; lia]].
  destruct (ParseReply body) as [rep|]; simpl; [|split; [by split|simpl; lia]].
  assert (msum (bump (rRcode rep) rc) = r + 1) as Hb by (unfold bump; rewrite msum_count; lia).
  destruct (rRcode rep =? 0); simpl; [|split; [split; unfold latLen; simpl; try done; lia|simpl; lia]].
  destruct track; simpl; (split; [split; unfold latLen; simpl; rewrite ?zlen_app; unfold zlen in *; simpl; try done; try lia|simpl; lia]).
Qed.

Lemma doh_figures c tag track until es s dials_ :
  doh_run c tag track until (runDoH c) es = Some s -> doh_sums track (doh_stop s dials_).
Proof.
  intros E. apply (doh_run_stats c tag track until (doh_sums track)) in E as H;
    [|intros; by apply doh_query_sums|by split; [apply reply_sums0|]].
  unfold doh_stop. by destruct (dc_stats s), H as ([] & ? & ?).
Qed.

Lemma handshake_figures hs :
  let a := fold_left handshake_round hs stats0 in
  replies a = 0 /\ offered a = full a + closed a + failed a /\ latLen a = full a.
Proof.
  apply (fold_keeps handshake_round (fun a => replies a = 0 /\ offered a = full a + closed a + failed a /\ latLen a = full a));
    [|done].
  intros a o (H1 & H2 & H3). pose proof (handshake_step_sums a o) as H. cbv zeta in H. split_and!; try lia.
  by destruct a, o.
Qed.

(** Whatever a client met, its counters say what its kind of client counts. *)
Lemma ends_figures c tag track k a : client_ends c tag track k a -> figures c track k a.
Proof.
  intros [addr dials s0 es s Hs Hl Hr _|addr dials s0 es s Hs Hl Hr _|addr dials s0 es s Hs Hl Hr _
         |addr os Hl|addr os|addr until es s dials_ Hr _ _ _|addr hs]; cbn [figures].
  1-3: by eapply conns_figures.
  - replace (Z.max 0 (sockets c)) with (zlen os) by (unfold zlen; lia). apply idle_figures.
  - apply redial_figures.
  - by eapply doh_figures.
  - apply handshake_figures.
Qed.

(** ** Which client it was that stopped *)

Definition launch : Type := clientKind * clientSpec * duration * bool.

(** The last client launched under a tag. *)
Fixpoint launch_of (tag : string) (past : list happened) : option launch :=
  match past with
  | [] => None
  | Ev o _ :: past =>
      match o with
      | Launch k c dur t track => if String.eqb t tag then Some (k, c, dur, track) else launch_of tag past
      | _ => launch_of tag past
      end
  end.

(** The stops of a run: the tag, the counters and the client launched under it. *)
Fixpoint stops (past : list happened) : list (string * stats * option launch) :=
  match past with
  | [] => []
  | Ev o x :: past =>
      match o in op X return X -> list (string * stats * option launch) with
      | StopClient tag => fun a => (tag, a, launch_of tag past) :: stops past
      | _ => fun _ => stops past
      end x
  end.

(** The machine's clients are the program's: a client that was stopped has the
    counters of one whose goroutines ran to their ends. *)
Definition clients_ran (past : list happened) : Prop :=
  Forall (fun '(tag, a, l) => match l with Some (k, c, _, track) => client_ends c tag track k a | None => True end)
    (stops past).

Lemma stops_grow new past x : x ∈ stops past -> x ∈ stops (new ++ past).
Proof. intros Hx. induction new as [|[X o y] new IH]; [done|]. destruct o; cbn [app stops]; try done. by right. Qed.

(** The row of an arm that ran is of the two clients the arm asks for, the
    victim's tracked, over the same server and for the arm's duration. *)
Definition row_of_clients (f : flags) (past : list happened) (a : arm) (r : row) : Prop :=
  r_arm r = a /\
  exists s : server,
    ("vic", r_victim r, Some (RrlClient.runClient s (victim a), victim a, armDuration f a, true)) ∈ stops past /\
    match attacker a, r_attacker r with
    | Some c, Some x => ("atk", x, Some (RrlClient.runClient s c, c, armDuration f a, false)) ∈ stops past
    | None, None => True
    | _, _ => False
    end.

Lemma row_of_clients_grows f new past a r : row_of_clients f past a r -> row_of_clients f (new ++ past) a r.
Proof.
  intros (Ha & s & Hv & Hat). split; [done|]. exists s. split; [by apply stops_grow|].
  destruct (attacker a), (r_attacker r); try done. by apply stops_grow.
Qed.

(** *** Programs that launch nothing, and those that launch one client *)

Section launches.
Context (h : machine).

Definition still {A} (p : prog A) : Prop :=
  forall past, wp h past p (fun _ past' => forall t, launch_of t past' = launch_of t past) (fun _ _ => True).

Definition launches {A} (tag : string) (l : launch) (p : prog A) : Prop :=
  forall past, wp h past p
    (fun _ past' => launch_of tag past' = Some l /\ forall t, t <> tag -> launch_of t past' = launch_of t past)
    (fun _ _ => True).

Lemma still_ret {A} (a : A) : still (Ret a).
Proof. done. Qed.

Lemma still_fatal {A} who e : still (@Fatal A who e).
Proof. done. Qed.

Lemma still_bind {A B} (p : prog A) (f : A -> prog B) : still p -> (forall a, still (f a)) -> still (pbind p f).
Proof.
  intros Hp Hf past. apply wp_pbind. eapply wp_weaken; [|intros who past' He; exact He|apply Hp].
  intros a past' E. eapply wp_weaken; [|intros who past'' He; exact He|apply Hf]. intros b past'' E' t. by rewrite E', E.
Qed.

Lemma still_act {X} (o : op X) : (forall x past t, launch_of t (Ev o x :: past) = launch_of t past) -> still (act o).
Proof. intros Ho past. apply wp_act. intros t. apply Ho. Qed.

Lemma launches_after {A B} tag l (p : prog A) (f : A -> prog B) :
  still p -> (forall a, launches tag l (f a)) -> launches tag l (pbind p f).
Proof.
  intros Hp Hf past. apply wp_pbind. eapply wp_weaken; [|intros who past' He; exact He|apply Hp].
  intros a past' E. eapply wp_weaken; [|intros who past'' He; exact He|apply Hf]. intros b past'' [E1 E2].
  split; [done|]. intros t Ht. by rewrite E2, E.
Qed.

Lemma launches_fatal {A} tag l who e : launches tag l (@Fatal A who e).
Proof. done. Qed.

Lemma launches_act k c dur tag track : launches tag (k, c, dur, track) (act (Launch k c dur tag track)).
Proof.
  intros past. apply wp_act. cbn [launch_of]. rewrite String.eqb_refl. split; [done|]. intros t Ht.
  destruct (String.eqb_spec tag t); [by subst|done].
Qed.
End launches.

#[local] Hint Resolve still_ret still_fatal still_bind still_act launches_after launches_fatal launches_act : launching.

Section starts.
Context (h : machine).

Lemma dial_each_still n dial : still h dial -> still h (dial_each n dial).
Proof. intros Hd. induction n as [|n IH]; cbn [dial_each]; auto with launching. Qed.

Lemma dial_udp_still n addr from_ : still h (dial_udp n addr from_).
Proof.
  induction n as [|n IH]; cbn [dial_udp]; [auto with launching|]. apply still_bind; [by apply still_act|].
  intros [resolved connected]. destruct (dialUDP resolved connected); auto with launching.
Qed.

Lemma launch_stream_launches k c dur tag track dial :
  still h dial -> launches h tag (k, c, dur, track) (launch_stream k c dur tag track dial).
Proof.
  intros Hd. apply launches_after; [by apply dial_each_still|]. intros dials.
  destruct (runStream dials stats0); auto with launching.
Qed.

Lemma with_tls_launches s c what alpn rest tag l :
  (forall cfg, launches h tag l (rest cfg)) -> launches h tag l (with_tls s c what alpn rest).
Proof.
  intros Hr. apply launches_after.
  - apply still_bind; [by apply still_act|]. auto with launching.
  - intros [cfg|e]; auto with launching.
Qed.

(** Each client that starts is launched as itself. *)
Lemma start_client_launches s c dur tag track :
  launches h tag (RrlClient.runClient s c, c, dur, track) (start_client s c dur tag track).
Proof.
  unfold start_client. destruct (RrlClient.runClient s c) as [addr|addr|addr|addr|addr|addr|addr].
  - apply with_tls_launches. auto with launching.
  - apply launches_act.
  - apply launches_act.
  - apply launch_stream_launches. by apply still_act.
  - apply with_tls_launches. intros cfg. apply launch_stream_launches, still_bind; [by apply still_act|auto with launching].
  - apply with_tls_launches. auto with launching.
  - apply launches_after; [apply dial_udp_still|]. auto with launching.
Qed.
End starts.

(** ** The clients of a row *)

Section rows.
Context (h : machine).

Lemma wp_still {A B} past (p : prog A) (f : A -> prog B) Q :
  still h p -> (forall a past', (forall t, launch_of t past' = launch_of t past) -> wp h past' (f a) Q (fun _ _ => True)) ->
  wp h past (pbind p f) Q (fun _ _ => True).
Proof.
  intros Hp Hf. apply wp_pbind. eapply wp_weaken; [|intros who past' He; exact He|apply Hp].
  intros a past' E. by apply Hf.
Qed.

(** The clients of the measured window, by their tags. *)
Definition loaded (f : flags) (s : server) (a : arm) (past : list happened) : Prop :=
  launch_of "vic" past = Some (RrlClient.runClient s (victim a), victim a, armDuration f a, true) /\
  match attacker a with
  | Some c => launch_of "atk" past = Some (RrlClient.runClient s c, c, armDuration f a, false)
  | None => True
  end.

Lemma start_load_loads f s a past :
  wp h past (start_load f s a) (fun _ past' => loaded f s a past') (fun _ _ => True).
Proof.
  unfold start_load, loaded. apply wp_pbind.
  destruct (attacker a) as [c|].
  - eapply wp_weaken; [|intros who past' He; exact He|apply start_client_launches]. intros ? past1 [E _].
    eapply wp_weaken; [|intros who past' He; exact He|apply start_client_launches]. intros ? past2 [E1 E2].
    split; [done|]. by rewrite E2.
  - apply wp_ret. eapply wp_weaken; [|intros who past' He; exact He|apply start_client_launches]. by intros ? past2 [E1 _].
Qed.

Lemma outage_still (o : option outage) start :
  still h (match o with Some o => act (StartOutage (f_mode (o_spec o)) start) | None => Ret tt end).
Proof. destruct o; auto with launching. Qed.

Lemma samples_still s a start : still h (startSoakSampler s a start).
Proof.
  unfold startSoakSampler. destruct (arm_sample a <=? 0); [auto with launching|].
  repeat (apply still_bind; [|intros ?]); try (by apply still_act); try done.
  unfold of_attacker. destruct (attacker a); [|done]. apply still_bind; [by apply still_act|auto with launching].
Qed.

Lemma measure_clients f s pid o a past :
  wp h past (measure f s pid o a)
    (fun r past' => match r with Ok r => row_of_clients f past' a r | Err _ => True end) (fun _ _ => True).
Proof.
  unfold measure. apply wp_skip. intros ? n1. apply wp_skip. intros ? n2. apply wp_skip. intros start n3.
  apply wp_pbind. eapply wp_weaken; [|intros who past' He; exact He|apply start_load_loads]. intros ? p0 [Hv Ha].
  apply wp_still; [apply outage_still|]. intros ? p1 E1.
  apply wp_still; [apply samples_still|]. intros b p2 E2.
  apply wp_still; [by apply still_act|]. intros ? p3 E3.
  apply wp_still; [by apply still_act|]. intros now p4 E4.
  apply wp_still; [by apply still_act|]. intros ? p5 E5.
  assert (forall t, launch_of t p5 = launch_of t p0) as E by (intros t; by rewrite E5, E4, E3, E2, E1).
  apply wp_do. set (v := h stats p5 (StopClient "vic")). set (p6 := Ev (StopClient "vic") v :: p5).
  assert (("vic", v, Some (RrlClient.runClient s (victim a), victim a, armDuration f a, true)) ∈ stops p6) as Hin.
  { unfold p6. cbn [stops]. rewrite E, Hv. by left. }
  apply wp_pbind, (wp_weaken h p6 _ (fun fl past' => (exists new, past' = new ++ p6) /\
    match attacker a, fl with
    | Some c, Some x => ("atk", x, Some (RrlClient.runClient s c, c, armDuration f a, false)) ∈ stops past'
    | None, None => True
    | _, _ => False
    end) _ (fun _ _ => True)); [|done|].
  - intros fl past' [[new ->] Hfl]. apply wp_skip. intros readings n7. apply wp_skip. intros sm n8.
    apply wp_skip. intros [[down up]|e] n9; [|by apply wp_ret]. apply wp_skip. intros body n10. apply wp_skip. intros ? n11.
    apply wp_ret. apply row_of_clients_grows, row_of_clients_grows, row_of_clients_grows, row_of_clients_grows, row_of_clients_grows.
    split; [done|]. exists s. cbn [r_victim r_attacker]. split; [by apply stops_grow|done].
  - unfold of_attacker. destruct (attacker a) as [c|].
    + apply wp_do, wp_ret. split; [by exists [Ev (StopClient "atk") (h stats p6 (StopClient "atk"))]|].
      cbn [stops]. change (launch_of "atk" p6) with (launch_of "atk" p5). rewrite E, Ha. by left.
    + apply wp_ret. split; [by exists []|done].
Qed.
End rows.

(** What the figures of a row are: its victim's and its flood's, each of a client
    of the arm whose goroutines ran to their ends. *)
Definition row_figures_of (a : arm) (r : row) : Prop :=
  exists s : server,
    (client_ends (victim a) "vic" true (RrlClient.runClient s (victim a)) (r_victim r) /\
     figures (victim a) true (RrlClient.runClient s (victim a)) (r_victim r)) /\
    match attacker a, r_attacker r with
    | Some c, Some x =>
        client_ends c "atk" false (RrlClient.runClient s c) x /\ figures c false (RrlClient.runClient s c) x
    | None, None => True
    | _, _ => False
    end.

Lemma row_of_clients_figures f past a r : clients_ran past -> row_of_clients f past a r -> row_figures_of a r.
Proof.
  intros Hc (_ & s & Hv & Ha). unfold clients_ran in Hc. rewrite Forall_forall in Hc. exists s.
  apply Hc in Hv. split; [split; [done|by eapply ends_figures]|].
  destruct (attacker a), (r_attacker r); try done. apply Hc in Ha. split; [done|by eapply ends_figures].
Qed.

(** C4. The figures the report prints are those of clients that ran.  When the
    machine's clients are the program's (the counters it stops one with are those
    of a client of that kind whose goroutines, in some interleaving and whatever
    came back to them, ran to their ends), every row of the report of a run that
    returns has the counters of a victim and of a flood of its own arm, each over
    the transport and the sockets the arm gives it, the victim's replies tracked
    and the flood's not; and these add up as its kind of client counts them. *)
Theorem row_figures (h : machine) (o : main_flags) (environ : list string) past :
  exec h [] (rrlexp_main o environ) = (Returned tt, past) -> clients_ran past ->
  exists unitEnv outs,
    let report := renderReport (mf_flags o) (mf_unit o) unitEnv (rows_of outs) (skips_of outs) in
    Ev (Print (nls +:+ report)) tt ∈ past /\
    Forall2 (fun a x => match x with inl r => r_arm r = a /\ row_figures_of a r | inr s => skip_name s = arm_name a end)
      (List.filter (selected (mf_flags o)) (matrix (mf_flags o))) outs.
Proof.
  intros E Hc. pose proof (main_wp h row_of_clients row_of_clients_grows
    (fun f s pid o a past _ => measure_clients h f s pid o a past) o environ) as H.
  unfold wp in H. rewrite E in H. destruct H as (unitEnv & outs & H1 & H2 & _). exists unitEnv, outs. split; [done|].
  eapply Forall2_impl; [exact H1|]. intros a [r|s]; [|by intros [? _]].
  intros Hr. split; [by destruct Hr|by eapply row_of_clients_figures].
Qed.

(** ** A run against idle connections

    The flood holds ninety-six connections, of which the server refuses
    thirty-two; the victim, in the lead-in and after it, has one query of three
    answered. *)

Definition ex_holder : clientSpec := client [Src "127.0.0.2"; Transport "tcp"; Sockets 96; Idle true].
Definition ex_redialler : clientSpec := client [Src "127.1.0.1"; Transport "tcp"; Rate 50; Sockets 1; Redial true].

Definition held : list idle_outcome := repeat IdleHeld 64 ++ repeat IdleRefused 32.

Definition redial_outcomes : list (time * redial_outcome) :=
  [(10, RedialReply (ex_reply ex_redialler 1) 17); (30, RedialHeaderFailed); (50, RedialDialFailed)].

Definition holder_counts : stats := fold_left idle_socket held stats0.
Definition redialler_counts : stats :=
  st (fold_left (fun s '(asked, o) => redial_query ex_redialler "vic" asked s o) redial_outcomes (sock0 true)).

Definition client_machine : machine := fun X past o =>
  match o in op X return X with
  | StopClient tag => if String.eqb tag "vic" then redialler_counts else holder_counts
  | o => a_machine true _ past o
  end.

Definition ex_rows : main_flags := an_experiment "slowloris/no-share".

Definition arm_run : ending unit * list happened := exec client_machine [] (rrlexp_main ex_rows []).

Lemma arm_run_eq : arm_run = exec client_machine [] (rrlexp_main ex_rows []).
Proof. reflexivity. Qed.

Lemma arm_run_stops :
  fst arm_run = Returned tt /\
  exists addr d d', stops (snd arm_run) =
    [("atk", holder_counts, Some (IdleHolder addr, ex_holder, d, false));
     ("vic", redialler_counts, Some (TCPRedial addr, ex_redialler, d, true));
     ("warm", holder_counts, Some (IdleHolder addr, ex_holder, d', false))].
Proof. split; [vm_compute; reflexivity|]. eexists _, _, _. vm_compute. reflexivity. Qed.

Lemma row_figures_witness :
  (full redialler_counts, lat redialler_counts, closed holder_counts) = (1, [7], 32) /\
  exists past unitEnv outs,
    arm_run = (Returned tt, past) /\
    Ev (Print (nls +:+ renderReport (mf_flags ex_rows) (mf_unit ex_rows) unitEnv (rows_of outs) (skips_of outs))) tt ∈ past /\
    Forall2 (fun a x => match x with inl r => r_arm r = a /\ row_figures_of a r | inr s => skip_name s = arm_name a end)
      (List.filter (selected (mf_flags ex_rows)) (matrix (mf_flags ex_rows))) outs.
Proof.
  split; [vm_compute; reflexivity|]. destruct arm_run_stops as [Hr (addr & d & d' & Hs)].
  destruct arm_run as [r past] eqn:E. cbn [fst snd] in *. subst r. exists past.
  rewrite arm_run_eq in E.
  destruct (row_figures client_machine ex_rows [] past E) as (unitEnv & outs & H1 & H2).
  - unfold clients_ran. rewrite Hs, !Forall_cons. split_and!; [..|done].
    + by apply (ends_idle ex_holder "atk" false addr held).
    + apply (ends_redial ex_redialler "vic" true addr redial_outcomes).
    + by apply (ends_idle ex_holder "warm" false addr held).
  - exists unitEnv, outs. split; [done|]. split; [exact H1|exact H2].
Defined.
