(* ===== verification/LoadGen.v ===== *)
(** * [bench/cmd/loadgen]: the load generator

    The clients' [Query] methods over what the network delivers, the checks of
    [main], and the three runs: [runOnce], [run] and [runHandshake].  A run is
    its goroutines' steps in any order: [gstep] is one step of one goroutine,
    from one atomic operation on the shared counters to the next, and
    [run_events] a whole interleaving.  Clock readings and what the network did
    are in the events; the TLS and HTTP libraries decide whether a dial or a
    request succeeded. *)

From S2P Require Import Prelude GoStrings GoFloat DnsWire Hist Framing MockDns.

Notation time := Z (only parsing).

Record config : Type := mkConfig {
  c_server : string; c_transport : string; c_clients : Z; c_concurrency : Z;
  c_duration : duration; c_warmup : duration; c_qmode : string; c_qname : string;
  c_path : string; c_rate : Z; c_once : bool
}.

Record Result : Type := mkResult {
  Transport : string; Clients : Z; Concurrency : Z; Answered : Z; Errors : Z;
  Rcodes : gmap string Z; Seconds : float64; QPS : float64; P50ms : float64; P99ms : float64;
  MinPerClient : Z; MaxPerClient : Z; Reconnects : Z
}.

(** ** [main]: what the flags allow *)

Inductive main_action : Type := Exit (code : Z) | DoOnce | DoRun.

(** [pem_ok]: the file of [-ca] was read and holds a certificate. *)
Definition loadgen_main (c : config) (pem_ok : bool) : main_action :=
  if (String.eqb (c_transport c) "dot" || String.eqb (c_transport c) "handshake") && negb pem_ok
  then Exit 2
  else if (c_concurrency c >? 1) && negb (String.eqb (c_transport c) "doh1")
          && negb (String.eqb (c_transport c) "doh2")
  then Exit 2
  else if c_once c then DoOnce else DoRun.

Definition rcodeName (rc : Z) : string :=
  if rc =? 0 then "noerror"
  else if rc =? 2 then "servfail"
  else if rc =? 3 then "nxdomain"
  else if rc =? 5 then "refused"
  else "rcode" +:+ itoa rc.

(** ** One query on an open connection *)

Inductive query_error : Type :=
  | DeadlineFailed | WriteFailed | ReadFailed | BadReply (e : wire_error)
  | WrongID (got asked : Z) | TooLarge (size : Z) | RequestFailed | BadStatus (code : Z).

(** The loop of [udpClient.Query] over the datagrams that arrive before the
    deadline; what is not read stays queued on the socket. *)
Fixpoint udp_await (id : Z) (reads : list bytes) : result query_error Z * list bytes :=
  match reads with
  | [] => (Err ReadFailed, [])
  | msg :: rest =>
      match ParseReply msg with
      | Err e => (Err (BadReply e), rest)
      | Ok rep => if negb (rID rep =? id) then udp_await id rest else (Ok (rRcode rep), rest)
      end
  end.

Definition udp_Query (deadline_ok write_ok : bool) (id : Z) (reads : list bytes)
  : result query_error Z * list bytes :=
  if negb deadline_ok then (Err DeadlineFailed, reads)
  else if negb write_ok then (Err WriteFailed, reads)
  else udp_await id reads.

Definition udp_question (id : Z) (name : string) : bytes := Query id name TypeA 1232.

(** What [streamClient.Query] writes. *)
Definition stream_question (id : Z) (name : string) : bytes :=
  let q := Query id name TypeA 1232 in
  [u8 (Z.shiftr (zlen q) 8); u8 (zlen q)] ++ q.

(** What it makes of the stream, with a buffer of [buf] bytes; the connection
    is what is left to read. *)
Definition stream_Query (buf : Z) (deadline_ok write_ok : bool) (id : Z) (c : conn)
  : result query_error Z * conn :=
  if negb deadline_ok then (Err DeadlineFailed, c)
  else if negb write_ok then (Err WriteFailed, c)
  else
    match readFull c 2 with
    | None => (Err ReadFailed, [])
    | Some (hdr, c) =>
        let size := hdr_size hdr in
        if size >? buf then (Err (TooLarge size), c)
        else
          match readFull c (Z.to_nat size) with
          | None => (Err ReadFailed, [])
          | Some (msg, c) =>
              match ParseReply msg with
              | Err e => (Err (BadReply e), c)
              | Ok rep =>
                  if negb (rID rep =? id) then (Err (WrongID (rID rep) id), c)
                  else (Ok (rRcode rep), c)
              end
          end
    end.

Definition doh_question (id : Z) (name : string) : bytes := Query id name TypeA 0.

(** What the HTTP client gave back: no response, or a status, the protocol's
    major version and a body, [None] when reading it failed. *)
Inductive http_outcome : Type :=
  | NoResponse
  | Response (status proto_major : Z) (body : option bytes).

Definition doh_Query (id : Z) (r : http_outcome) : result query_error Z :=
  match r with
  | NoResponse => Err RequestFailed
  | Response _ _ None => Err ReadFailed
  | Response status _ (Some body) =>
      if negb (status =? 200) then Err (BadStatus status)
      else
        match ParseReply body with
        | Err e => Err (BadReply e)
        | Ok rep => if negb (rID rep =? id) then Err (WrongID (rID rep) id) else Ok (rRcode rep)
        end
  end.

(** ** Dialling *)

Inductive dial_error : Type :=
  | UnknownTransport (t : string) | ConnectFailed (e : string) | NoProbe | WantedH2 | WantedH1.

Inductive client : Type := udpClient | streamClient (tls : bool) | dohClient (url : string).

Definition probe (want : string) (r : http_outcome) : option dial_error :=
  match r with
  | NoResponse => Some NoProbe
  | Response _ major _ =>
      let gotH2 := major =? 2 in
      if String.eqb want "doh2" && negb gotH2 then Some WantedH2
      else if String.eqb want "doh1" && gotH2 then Some WantedH1
      else None
  end.

(** What a dial meets: resolving the address and connecting a socket over UDP,
    the connection over a stream, with its handshake for DoT, and what a probe
    over DoH is answered. *)
Record dial_answers : Type := mkDial {
  dl_resolve : option string; dl_connect : option string; dl_probe : http_outcome
}.

Definition dialUDP (a : dial_answers) : result dial_error client :=
  match dl_resolve a, dl_connect a with
  | Some e, _ | None, Some e => Err (ConnectFailed e)
  | None, None => Ok udpClient
  end.

Definition dialTCP (a : dial_answers) : result dial_error client :=
  match dl_connect a with Some e => Err (ConnectFailed e) | None => Ok (streamClient false) end.

Definition dialDoT (a : dial_answers) : result dial_error client :=
  match dl_connect a with Some e => Err (ConnectFailed e) | None => Ok (streamClient true) end.

Definition dialDoH (c : config) (a : dial_answers) : result dial_error client :=
  match probe (c_transport c) (dl_probe a) with
  | Some e => Err e
  | None => Ok (dohClient ("https://" +:+ c_server c +:+ c_path c))
  end.

Definition dial (c : config) (a : dial_answers) : result dial_error client :=
  if String.eqb (c_transport c) "udp" then dialUDP a
  else if String.eqb (c_transport c) "tcp" then dialTCP a
  else if String.eqb (c_transport c) "dot" then dialDoT a
  else if String.eqb (c_transport c) "doh1" || String.eqb (c_transport c) "doh2" then dialDoH c a
  else Err (UnknownTransport (c_transport c)).

(** ** The figures of a run *)

Definition ms_of (d : duration) : float64 := fdiv (f_of_Z (microseconds d)) (f_of_Z 1000).

Definition rate_of (answered : Z) (elapsed : duration) : float64 :=
  fdiv (f_of_Z answered) (seconds elapsed).

Definition bump (k : string) (m : gmap string Z) : gmap string Z := <[k := default 0 (m !! k) + 1]> m.

(** [MinPerClient] and [MaxPerClient]. *)
Definition minmax_step (acc : Z * Z) (n : Z) : Z * Z :=
  let '(minC, maxC) := acc in
  (if (minC <? 0) || (n <? minC) then n else minC, if n >? maxC then n else maxC).

Definition minmax (perClient : list Z) : Z * Z := fold_left minmax_step perClient (-1, 0).

(** ** [run]: one goroutine per request a client may have in flight *)

Inductive phase : Type :=
  | Looping
  | Asked (t0 : time) (name : string)
  | Redialling
  | Returned (added : bool).  (* [added]: its latencies are in the recorder *)

Record gor : Type := mkGor {
  g_id : Z; g_slot : Z; g_counter : Z; g_local : list duration; g_phase : phase
}.

Record shared : Type := mkShared {
  answered : Z; errors : Z; reconnects : Z; perClient : list Z; rcodes : gmap string Z;
  slots : Z; rec : Recorder
}.

(** What [run] fixes before the start is given. *)
Record schedule : Type := mkSchedule {
  nonce : Z; measureFrom : time; deadline : time; paceFrom : time
}.

Definition interval (c : config) : duration :=
  if c_rate c >? 0 then Z.quot second (c_rate c) else 0.

Definition due_at (c : config) (sc : schedule) (slot : Z) : time :=
  paceFrom sc + wrap64 (slot * interval c).

(** [time.Until(due)] read at [now], the sleep when it is positive, and the
    clock once the goroutine runs again: a sleep is never short. *)
Definition wake (due now : time) (late : N) : time :=
  if due - now >? 0 then due + Z.of_N late else now + Z.of_N late.

Definition unique_name (nonce id slot counter : Z) : string :=
  "q-" +:+ itoa nonce +:+ "-" +:+ itoa id +:+ "-" +:+ itoa slot +:+ "-" +:+ itoa counter +:+ ".bench.test".

Inductive event : Type :=
  | Ask (now after : time) (late : N)  (* the loop's test; the clock at the wait *)
  | Finish (now : time) (r : result query_error Z)
  | Redial (ok : bool) (now : time).

(** A query as it was asked: the slot of the schedule it took, when it was
    written, and its name. *)
Record ask : Type := mkAsk { a_slot : option Z; a_t0 : time; a_name : string }.

Definition query_name (c : config) (sc : schedule) (g : gor) : string :=
  if String.eqb (c_qmode c) "unique" then unique_name (nonce sc) (g_id g) (g_slot g) (g_counter g)
  else c_qname c.

Definition count_answer (s : shared) (id : Z) (rc : Z) : shared :=
  mkShared (answered s + 1) (errors s) (reconnects s)
    (alter (fun n => n + 1) (Z.to_nat id) (perClient s)) (bump (rcodeName rc) (rcodes s))
    (slots s) (rec s).

Definition redials (c : config) : bool :=
  String.eqb (c_transport c) "tcp" || String.eqb (c_transport c) "dot".

Definition gstep (c : config) (sc : schedule) (s : shared) (g : gor) (e : event)
  : option (shared * gor * list ask) :=
  match g_phase g, e with
  | Looping, Ask now after late =>
      if negb (now <? deadline sc) then
        Some (mkShared (answered s) (errors s) (reconnects s) (perClient s) (rcodes s) (slots s)
                (AddBatch (rec s) (g_local g)),
              mkGor (g_id g) (g_slot g) (g_counter g) (g_local g) (Returned true), [])
      else
        let paced := interval c >? 0 in
        let slot := slots s in
        let t0 := if paced then wake (due_at c sc slot) after late else after + Z.of_N late in
        let name := query_name c sc g in
        Some (mkShared (answered s) (errors s) (reconnects s) (perClient s) (rcodes s)
                (if paced then slots s + 1 else slots s) (rec s),
              mkGor (g_id g) (g_slot g) ((g_counter g + 1) mod 2 ^ 64) (g_local g) (Asked t0 name),
              [mkAsk (if paced then Some slot else None) t0 name])
  | Asked t0 _, Finish now (Ok rc) =>
      if t0 >? measureFrom sc then
        Some (count_answer s (g_id g) rc,
              mkGor (g_id g) (g_slot g) (g_counter g) (g_local g ++ [now - t0]) Looping, [])
      else Some (s, mkGor (g_id g) (g_slot g) (g_counter g) (g_local g) Looping, [])
  | Asked t0 _, Finish now (Err _) =>
      Some (mkShared (answered s) (errors s + 1) (reconnects s) (perClient s) (rcodes s) (slots s) (rec s),
            mkGor (g_id g) (g_slot g) (g_counter g) (g_local g)
              (if redials c then Redialling else Looping), [])
  | Redialling, Redial true now =>
      Some (mkShared (answered s) (errors s) (reconnects s + 1) (perClient s) (rcodes s) (slots s) (rec s),
            mkGor (g_id g) (g_slot g) (g_counter g) (g_local g) Looping, [])
  | Redialling, Redial false now =>
      if now <? deadline sc then Some (s, g, [])
      else Some (s, mkGor (g_id g) (g_slot g) (g_counter g) (g_local g) (Returned false), [])
  | _, _ => None
  end.

(** The goroutines of a run, in the order they are spawned. *)
Definition gors0 (c : config) : list gor :=
  flat_map (fun id => map (fun slot => mkGor (Z.of_nat id) (Z.of_nat slot) 0 [] Looping)
                        (seq 0 (Z.to_nat (c_concurrency c))))
    (seq 0 (Z.to_nat (c_clients c))).

Definition shared0 (c : config) : shared :=
  mkShared 0 0 0 (repeat 0 (Z.to_nat (c_clients c))) ∅ 0 (New (2 ^ 20)).

(** An interleaving: which goroutine steps, and how.  [None] is a step that its
    goroutine cannot make. *)
Fixpoint run_events (c : config) (sc : schedule) (s : shared) (gs : list gor)
  (es : list (nat * event)) : option (shared * list gor * list ask) :=
  match es with
  | [] => Some (s, gs, [])
  | (i, e) :: es =>
      match gs !! i with
      | None => None
      | Some g =>
          match gstep c sc s g e with
          | None => None
          | Some (s, g, a) =>
              match run_events c sc s (<[i := g]> gs) es with
              | None => None
              | Some (s, gs, asks) => Some (s, gs, a ++ asks)
              end
          end
      end
  end.

(** The result once every goroutine returned; [failed]: the errors of the
    clients that could not dial, as they came, the first of which is the run's.
    [None] inside is a quantile out of range. *)
Definition run_result (c : config) (failed : list dial_error) (elapsed : duration) (s : shared)
  : result dial_error (option Result) :=
  match failed with
  | e :: _ => Err e
  | [] =>
    Ok (match fst (Percentiles (rec s) [fconst 50 100; fconst 99 100]) with
        | Some [p50; p99] =>
            let '(minC, maxC) := minmax (perClient s) in
            Some (mkResult (c_transport c) (c_clients c) (c_concurrency c) (answered s) (errors s)
              (rcodes s) (seconds elapsed) (rate_of (answered s) elapsed) (ms_of p50) (ms_of p99)
              minC maxC (reconnects s))
        | _ => None
        end)
  end.

(** ** [runOnce] *)

Inductive once_outcome : Type :=
  | OnceNoDial (e : dial_error)
  | OnceFailed (e : query_error)
  | OnceAnswered (lat : duration) (rc : Z).

Definition once_name (c : config) (nonce id : Z) : string :=
  if String.eqb (c_qmode c) "unique" then "o-" +:+ itoa nonce +:+ "-" +:+ itoa id +:+ ".bench.test"
  else c_qname c.

Record once_state : Type := mkOnce {
  o_answered : Z; o_errs : Z; o_rcodes : gmap string Z; o_rec : Recorder; o_held : list bool
}.

(** One client, at the moment its goroutine ends; [held] is indexed by the
    client, true where a connection is kept. *)
Definition once_step (s : once_state) (x : nat * once_outcome) : once_state :=
  let '(id, o) := x in
  match o with
  | OnceNoDial _ => mkOnce (o_answered s) (o_errs s + 1) (o_rcodes s) (o_rec s) (o_held s)
  | OnceFailed _ =>
      mkOnce (o_answered s) (o_errs s + 1) (o_rcodes s) (o_rec s) (<[id := true]> (o_held s))
  | OnceAnswered lat rc =>
      mkOnce (o_answered s + 1) (o_errs s) (bump (rcodeName rc) (o_rcodes s))
        (AddBatch (o_rec s) [lat]) (<[id := true]> (o_held s))
  end.

Definition runOnce (c : config) (elapsed : duration) (outcomes : list (nat * once_outcome))
  : option (Result * list bool) :=
  let s := fold_left once_step outcomes
    (mkOnce 0 0 ∅ (New (c_clients c)) (repeat false (Z.to_nat (c_clients c)))) in
  match fst (Percentiles (o_rec s) [fconst 50 100; fconst 99 100]) with
  | Some [p50; p99] =>
      Some (mkResult (c_transport c) (c_clients c) 0 (o_answered s) (o_errs s) (o_rcodes s)
              (seconds elapsed) (rate_of (o_answered s) elapsed) (ms_of p50) (ms_of p99) 0 0 0,
            o_held s)
  | _ => None
  end.

(** ** [runHandshake] *)

Inductive shake_outcome : Type :=
  | ShakeNoDial | ShakeFailed (e : query_error) | ShakeDone (lat : duration).

(** One client: its rounds, each begun before the deadline, then its batch. *)
Fixpoint shake_client (deadline : time) (rounds : list (time * shake_outcome))
  (acc : Z * Z * list duration) : Z * Z * list duration :=
  match rounds with
  | [] => acc
  | (now, o) :: rounds =>
      if negb (now <? deadline) then acc
      else
        let '(done, errs, local) := acc in
        shake_client deadline rounds
          match o with
          | ShakeNoDial | ShakeFailed _ => (done, errs + 1, local)
          | ShakeDone lat => (done + 1, errs, local ++ [lat])
          end
  end.

Definition shake_add (deadline : time) (acc : Z * Z * Recorder) (rounds : list (time * shake_outcome))
  : Z * Z * Recorder :=
  let '(done, errs, r) := acc in
  let '(d, e, local) := shake_client deadline rounds (0, 0, []) in
  (done + d, errs + e, AddBatch r local).

Definition runHandshake (c : config) (deadline : time) (elapsed : duration)
  (clients : list (list (time * shake_outcome))) : option Result :=
  let '(done, errs, r) := fold_left (shake_add deadline) clients (0, 0, New (2 ^ 16)) in
  match fst (Percentiles r [fconst 50 100; fconst 99 100]) with
  | Some [p50; p99] =>
      Some (mkResult (c_transport c) (c_clients c) 0 done errs ∅ (seconds elapsed)
              (rate_of done elapsed) (ms_of p50) (ms_of p99) 0 0 0)
  | _ => None
  end.

(** ** What a run counts *)

Lemma msum_bump k m : msum (bump k m) = msum m + 1.
Proof. apply msum_count. Qed.

(** Latencies a goroutine holds that are not in the recorder. *)
Definition unreported (g : gor) : Z :=
  match g_phase g with Returned true => 0 | _ => zlen (g_local g) end.

Definition in_flight (g : gor) : Z := match g_phase g with Asked _ _ => 1 | _ => 0 end.

Definition is_finish (e : nat * event) : bool := match snd e with Finish _ _ => true | _ => false end.
Definition is_failure (e : nat * event) : bool := match snd e with Finish _ (Err _) => true | _ => false end.

Lemma run_events_app c sc es1 es2 s gs :
  run_events c sc s gs (es1 ++ es2) =
    match run_events c sc s gs es1 with
    | None => None
    | Some (s, gs, a1) =>
        match run_events c sc s gs es2 with
        | None => None
        | Some (s, gs, a2) => Some (s, gs, a1 ++ a2)
        end
    end.
Proof.
  revert s gs. induction es1 as [|[i e] es1 IH]; intros s gs; simpl.
  - by destruct (run_events c sc s gs es2) as [[[]]|].
  - destruct (gs !! i) as [g|]; [|done]. destruct (gstep c sc s g e) as [[[s1 g1] a]|]; [|done].
    rewrite IH. destruct (run_events c sc s1 _ es1) as [[[s2 gs2] a1]|]; [|done].
    destruct (run_events c sc s2 gs2 es2) as [[[]]|]; [|done]. by rewrite app_assoc.
Qed.

(** What one step adds to each count. *)
Lemma gstep_counts c sc s g e s' g' a :
  gstep c sc s g e = Some (s', g', a) -> (Z.to_nat (g_id g) < length (perClient s))%nat ->
  g_id g' = g_id g /\ g_slot g' = g_slot g /\ length (perClient s') = length (perClient s) /\
  answered s' - answered s = zsum (perClient s') - zsum (perClient s) /\
  answered s' - answered s = msum (rcodes s') - msum (rcodes s) /\
  answered s' - answered s = Len (rec s') - Len (rec s) + (unreported g' - unreported g) /\
  errors s' - errors s = zcount is_failure [(0%nat, e)] /\
  zlen a = zcount is_finish [(0%nat, e)] + (in_flight g' - in_flight g).
Proof.
  intros H Hi. unfold gstep in H.
  destruct (g_phase g) eqn:Ep, e as [now after late|now [rc|er]|[] now]; try done;
    repeat case_match; try done; injection H as <- <- <-;
    unfold unreported, in_flight, Len, count_answer; rewrite ?Ep; simpl;
    rewrite ?length_alter, ?zsum_alter, ?msum_bump, ?zlen_app by done;
    unfold zcount, zlen; simpl; unfold zlen; split_and!; try lia; try done.
Qed.

Definition ids_ok (s : shared) (gs : list gor) : Prop :=
  Forall (fun g => (Z.to_nat (g_id g) < length (perClient s))%nat) gs.

Lemma run_counts c sc es s gs s' gs' asks :
  ids_ok s gs -> run_events c sc s gs es = Some (s', gs', asks) ->
  answered s' - answered s = zsum (perClient s') - zsum (perClient s) /\
  answered s' - answered s = msum (rcodes s') - msum (rcodes s) /\
  answered s' - answered s = Len (rec s') - Len (rec s) +
    (zsum (map unreported gs') - zsum (map unreported gs)) /\
  errors s' - errors s = zcount is_failure es /\
  zlen asks = zcount is_finish es + (zsum (map in_flight gs') - zsum (map in_flight gs)).
Proof.
  revert s gs asks. induction es as [|[i e] es IH]; intros s gs asks Hi; simpl.
  - intros [= <- <- <-]. unfold zcount, zlen. simpl. split_and!; lia.
  - destruct (gs !! i) as [g|] eqn:Eg; [|done].
    destruct (gstep c sc s g e) as [[[s1 g1] a]|] eqn:Es; [|done].
    destruct (run_events c sc s1 _ es) as [[[s2 gs2] a2]|] eqn:Er; [|done]. intros [= -> -> <-].
    assert (Hg := Forall_lookup_1 _ _ _ _ Hi Eg). cbv beta in Hg.
    destruct (gstep_counts _ _ _ _ _ _ _ _ Es Hg) as (H0 & _ & Hl & H1 & H2 & H3 & H4 & H5).
    assert (ids_ok s1 (<[i := g1]> gs)) as Hi1.
    { unfold ids_ok. rewrite Hl. apply Forall_insert; [exact Hi|]. by rewrite H0. }
    destruct (IH _ _ _ Hi1 Er) as (G1 & G2 & G3 & G4 & G5).
    rewrite (zsum_map_insert unreported _ _ _ g1 Eg) in G3.
    rewrite (zsum_map_insert in_flight _ _ _ g1 Eg) in G5.
    rewrite zlen_app, !zcount_cons. rewrite zcount_cons in H4, H5.
    change (is_failure (i, e)) with (is_failure (0%nat, e)).
    change (is_finish (i, e)) with (is_finish (0%nat, e)).
    change (zcount is_failure []) with 0 in H4. change (zcount is_finish []) with 0 in H5.
    split_and!; lia.
Qed.

Lemma gors0_fresh c g : g ∈ gors0 c ->
  exists id slot, g = mkGor id slot 0 [] Looping /\ 0 <= id < c_clients c /\ 0 <= slot < c_concurrency c.
Proof.
  unfold gors0. intros (n & H1 & H2)%list_elem_of_In%in_flat_map.
  apply in_map_iff in H2 as (k & <- & H2). apply in_seq in H1, H2.
  exists (Z.of_nat n), (Z.of_nat k). split; [done|]. lia.
Qed.

Lemma ids_ok0 c : ids_ok (shared0 c) (gors0 c).
Proof.
  apply Forall_forall. intros g (id & slot & -> & H1 & _)%gors0_fresh. simpl. rewrite repeat_length. lia.
Qed.

Lemma zsum_repeat0 n : zsum (repeat 0 n) = 0.
Proof. induction n as [|n IH]; [done|]. cbn [repeat]. by rewrite zsum_cons, IH. Qed.

Lemma gors0_sum c (f : gor -> Z) :
  (forall id slot, f (mkGor id slot 0 [] Looping) = 0) -> zsum (map f (gors0 c)) = 0.
Proof.
  intros Hf. apply zsum_map_zero, Forall_forall. intros g (id & slot & -> & _)%gors0_fresh. apply Hf.
Qed.

(** C9. Whatever the order the goroutines of a run step in, the totals agree: the
    answers counted are the sum of the clients' own and of the response codes',
    every query asked was finished once or is still in flight, and every failed
    one is an error.  The recorder has one latency for each answer counted,
    short of those the goroutines still hold. *)
Theorem load_run_accounting c sc es s gs asks :
  run_events c sc (shared0 c) (gors0 c) es = Some (s, gs, asks) ->
  answered s = zsum (perClient s) /\ answered s = msum (rcodes s) /\
  answered s = Len (rec s) + zsum (map unreported gs) /\
  errors s = zcount is_failure es /\
  zlen asks = zcount is_finish es + zsum (map in_flight gs).
Proof.
  intros H. destruct (run_counts _ _ _ _ _ _ _ _ (ids_ok0 c) H) as (H1 & H2 & H3 & H4 & H5).
  rewrite (gors0_sum c unreported) in H3 by done. rewrite (gors0_sum c in_flight) in H5 by done.
  simpl in *. rewrite zsum_repeat0 in H1. unfold Len in *. simpl in *.
  unfold zlen in H3 at 2. change (msum ∅) with 0 in H2. simpl in H3. split_and!; lia.
Qed.

Definition ex_config (rate : Z) : config :=
  mkConfig "127.0.0.1:5354" "tcp" 2 1 1000 100 "unique" "cached.bench.test" "/dns-query" rate false.

Definition ex_schedule : schedule := mkSchedule 77 100 5000 0.

Definition ex_events : list (nat * event) :=
  [(0%nat, Ask 10 20 0); (1%nat, Ask 11 130 5); (0%nat, Finish 90 (Ok 0));
   (1%nat, Finish 1900 (Ok 3)); (0%nat, Ask 95 2000 0); (1%nat, Ask 2100 2100 0);
   (0%nat, Finish 2500 (Err ReadFailed)); (0%nat, Redial true 2600); (1%nat, Finish 3500 (Ok 0));
   (0%nat, Ask 5001 0 0); (1%nat, Ask 5002 0 0)].

Lemma load_run_accounting_witness :
  let c := ex_config 0 in
  exists s gs asks, run_events c ex_schedule (shared0 c) (gors0 c) ex_events =
    Some (s, gs, asks) /\ answered s = 2 /\ 2 = msum (rcodes s) /\ Len (rec s) = 2 /\
    zlen asks = 4 /\ errors s = 1.
Proof.
  eexists _, _, _. split; [vm_compute; reflexivity|].
  pose proof (load_run_accounting (ex_config 0) ex_schedule ex_events _ _ _ ltac:(vm_compute; reflexivity)) as H.
  destruct H as (_ & H2 & _ & H4 & H5). split; [reflexivity|]. split; [exact H2|].
  split; [reflexivity|]. split; [exact H5|exact H4].
Defined.

(** When every goroutine left its loop by the deadline, the percentiles are over
    every answer counted. *)
Corollary load_run_complete c sc es s gs asks :
  run_events c sc (shared0 c) (gors0 c) es = Some (s, gs, asks) ->
  Forall (fun g => g_phase g = Returned true) gs -> Len (rec s) = answered s.
Proof.
  intros H Hd. destruct (run_counts _ _ _ _ _ _ _ _ (ids_ok0 c) H) as (_ & _ & H3 & _).
  rewrite (gors0_sum c unreported) in H3 by done.
  rewrite (zsum_map_zero unreported gs) in H3.
  - simpl in H3. unfold Len in *. unfold zlen in H3 at 2. simpl in H3. lia.
  - eapply Forall_impl; [exact Hd|]. intros g Hg. unfold unreported. by rewrite Hg.
Qed.

(** ** The schedule of a paced run *)

Lemma wake_after_due due now late : due <= wake due now late.
Proof. unfold wake. destruct (due - now >? 0) eqn:E; b2p; lia. Qed.

Lemma gstep_slot c sc s g e s' g' a :
  0 < interval c -> gstep c sc s g e = Some (s', g', a) ->
  slots s' = slots s + zlen a /\
  forall x, x ∈ a -> a = [x] /\ a_slot x = Some (slots s) /\ due_at c sc (slots s) <= a_t0 x.
Proof.
  intros Hp H. unfold gstep in H. replace (interval c >? 0) with true in H by (symmetry; lia).
  destruct (g_phase g) eqn:Ep, e as [now after late|now [rc|er]|[] now]; try done;
    repeat case_match; try done; injection H as <- <- <-; unfold count_answer, zlen; simpl;
    (split; [lia|]); intros x Hx; try (by apply not_elem_of_nil in Hx).
  apply list_elem_of_singleton in Hx as ->. split; [done|]. split; [done|apply wake_after_due].
Qed.

Lemma run_slots c sc es s gs s' gs' asks :
  0 < interval c -> run_events c sc s gs es = Some (s', gs', asks) ->
  slots s' = slots s + zlen asks /\
  forall i x, asks !! i = Some x ->
    a_slot x = Some (slots s + Z.of_nat i) /\ due_at c sc (slots s + Z.of_nat i) <= a_t0 x.
Proof.
  intros Hp. revert s gs asks. induction es as [|[j e] es IH]; intros s gs asks; simpl.
  - intros [= <- <- <-]. split; [unfold zlen; simpl; lia|]. intros i x. by rewrite lookup_nil.
  - destruct (gs !! j) as [g|] eqn:Eg; [|done].
    destruct (gstep c sc s g e) as [[[s1 g1] a]|] eqn:Es; [|done].
    destruct (run_events c sc s1 _ es) as [[[s2 gs2] a2]|] eqn:Er; [|done]. intros [= -> -> <-].
    destruct (gstep_slot _ _ _ _ _ _ _ _ Hp Es) as [H1 H2], (IH _ _ _ Er) as [H3 H4].
    rewrite zlen_app. split; [lia|]. intros i x Hx.
    destruct a as [|y a]; [rewrite H1 in H4; unfold zlen in H4; simpl in *; rewrite Z.add_0_r in H4; auto|].
    destruct (H2 y) as ([= ->] & Hy1 & Hy2); [by left|]. destruct i as [|i]; simpl in Hx.
    + injection Hx as <-. by rewrite Z.add_0_r.
    + specialize (H4 _ _ Hx). rewrite H1 in H4. unfold zlen in H4. simpl in H4.
      replace (slots s + Z.of_nat (S i)) with (slots s + 1 + Z.of_nat i) by lia. done.
Qed.

Lemma filter_prefix {A} (f : A -> bool) l n :
  (forall i x, l !! i = Some x -> f x = true -> (i < n)%nat) -> zcount f l <= Z.of_nat n.
Proof.
  revert n. induction l as [|x l IH]; intros n H; [unfold zcount, zlen; simpl; lia|].
  rewrite zcount_cons. destruct n as [|n].
  - destruct (f x) eqn:E; [specialize (H 0%nat x eq_refl E); lia|].
    specialize (IH 0%nat). rewrite Z.add_0_l. apply IH. intros i y Hy Hf.
    specialize (H (S i) y Hy Hf). lia.
  - assert (zcount f l <= Z.of_nat n); [|destruct (f x); lia].
    apply IH. intros i y Hy Hf. specialize (H (S i) y Hy Hf). lia.
Qed.

(** C14. A paced run never runs ahead of its schedule.  The queries take the slots
    in the order they are asked, none is written before its slot is due, and so
    by any moment of the run the queries written are at most one more than the
    intervals that have passed since the start, however many clients share the
    schedule and however the answers come back. *)
Theorem paced_run_rate c sc es s gs asks T :
  0 < interval c -> zlen asks * interval c < 2 ^ 63 -> 0 <= T ->
  run_events c sc (shared0 c) (gors0 c) es = Some (s, gs, asks) ->
  slots s = zlen asks /\
  (forall i x, asks !! i = Some x -> a_slot x = Some (Z.of_nat i) /\
     paceFrom sc + Z.of_nat i * interval c <= a_t0 x) /\
  zcount (fun x => a_t0 x <=? paceFrom sc + T) asks <= T / interval c + 1.
Proof.
  intros Hp Hw HT H. destruct (run_slots _ _ _ _ _ _ _ _ Hp H) as [H1 H2]. simpl in H1, H2.
  assert (forall i x, asks !! i = Some x -> a_slot x = Some (Z.of_nat i) /\
     paceFrom sc + Z.of_nat i * interval c <= a_t0 x) as H3.
  { intros i x Hx. destruct (H2 i x Hx) as [H4 H5]. split; [exact H4|].
    apply lookup_lt_Some in Hx. unfold due_at in H5. rewrite wrap64_id in H5; [exact H5|].
    unfold int64_range, zlen in *. split; nia. }
  split; [lia|]. split; [exact H3|].
  pose proof (Z.div_pos T (interval c) HT ltac:(lia)).
  rewrite <- (Z2Nat.id (T / interval c + 1)) by lia. apply filter_prefix.
  intros i x Hx Hf. destruct (H3 i x Hx) as [_ H5]. b2p.
  assert (Z.of_nat i <= T / interval c) by (apply Z.div_le_lower_bound; lia). lia.
Qed.

Definition ex_load : config := ex_config 1000000.

Lemma paced_run_rate_witness :
  exists s gs asks, run_events ex_load ex_schedule (shared0 ex_load) (gors0 ex_load) ex_events =
    Some (s, gs, asks) /\ map a_t0 asks = [20; 1005; 2000; 3000] /\
    zcount (fun x => a_t0 x <=? 0 + 1999) asks <= 2.
Proof.
  eexists _, _, _. split; [vm_compute; reflexivity|]. split; [reflexivity|].
  refine (proj2 (proj2 (paced_run_rate ex_load ex_schedule ex_events _ _ _ 1999 _ _ _ _)));
    [reflexivity|reflexivity|lia|vm_compute; reflexivity].
Defined.

(** ** Unique names *)

Lemma unique_name_split n id slot k : 0 <= n -> 0 <= id -> 0 <= slot -> 0 <= k ->
  split "-"%char (unique_name n id slot k) =
    ["q"; itoa n; itoa id; itoa slot; itoa k +:+ ".bench.test"].
Proof.
  intros H1 H2 H3 H4.
  change (unique_name n id slot k) with
    (join "-" ["q"; itoa n; itoa id; itoa slot; itoa k +:+ ".bench.test"]).
  apply split_join; [done|].
  repeat constructor; try done; try by apply itoa_no_dash. apply lacks_app. split; [by apply itoa_no_dash|done].
Qed.

Lemma unique_name_inj n id slot k id' slot' k' :
  0 <= n -> 0 <= id -> 0 <= slot -> 0 <= k -> 0 <= id' -> 0 <= slot' -> 0 <= k' ->
  unique_name n id slot k = unique_name n id' slot' k' -> id = id' /\ slot = slot' /\ k = k'.
Proof.
  intros Hn H1 H2 H3 H4 H5 H6 E. apply (f_equal (split "-"%char)) in E.
  rewrite !unique_name_split in E by done. injection E as E1 E2 E3.
  apply itoa_inj in E1, E2; try done. split_and!; [done..|].
  apply (f_equal (trim_suffix ".bench.test")) in E3. rewrite !trim_suffix_app in E3. by apply itoa_inj.
Qed.

Definition g_key (g : gor) : Z * Z := (g_id g, g_slot g).

Lemma gstep_names c sc s g e s' g' a :
  c_qmode c = "unique" -> 0 <= g_counter g < 2 ^ 64 - 1 -> gstep c sc s g e = Some (s', g', a) ->
  g_key g' = g_key g /\ g_counter g' = g_counter g + zlen a /\
  (a = [] \/ exists x, a = [x] /\ a_name x = unique_name (nonce sc) (g_id g) (g_slot g) (g_counter g)).
Proof.
  intros Hq Hc H. pose proof (Z.mod_small (g_counter g + 1) (2 ^ 64) ltac:(lia)) as Hm.
  unfold gstep, query_name in H. rewrite Hq in H. change (String.eqb "unique" "unique") with true in H.
  destruct (g_phase g) eqn:Ep, e as [now after late|now [rc|er]|[] now]; try done;
    repeat case_match; try done; injection H as <- <- <-; rewrite ?Hm; unfold zlen, g_key; simpl;
    (split; [done|split; [lia|eauto]]).
Qed.

(** A query named from a counter one of the goroutines has not passed. *)
Definition named_later (n : Z) (gs : list gor) (x : ask) : Prop :=
  exists i g k, gs !! i = Some g /\ g_counter g <= k /\
    a_name x = unique_name n (g_id g) (g_slot g) k.

Definition gor_ok (room : Z) (g : gor) : Prop :=
  0 <= g_id g /\ 0 <= g_slot g /\ 0 <= g_counter g < 2 ^ 64 - room.

(** One goroutine moved on by [d]: what is named later was named later before,
    and not under the counters it passed. *)
Lemma named_later_before n gs j g g1 d x :
  gs !! j = Some g -> g_key g1 = g_key g -> g_counter g1 = g_counter g + d -> 0 <= d ->
  named_later n (<[j := g1]> gs) x ->
  exists i h k, gs !! i = Some h /\ g_counter h <= k /\ (i = j -> g_counter h + d <= k) /\
    a_name x = unique_name n (g_id h) (g_slot h) k.
Proof.
  unfold g_key. intros Eg [= Hk1 Hk2] Hc Hd (i & h & k & Hi & Hle & Hx).
  destruct (decide (i = j)) as [->|Hne].
  - rewrite list_lookup_insert_eq in Hi by (by eapply lookup_lt_Some). injection Hi as <-.
    exists j, g, k. rewrite <- Hk1, <- Hk2. split_and!; lia || done.
  - rewrite list_lookup_insert_ne in Hi by done. exists i, h, k. split_and!; done.
Qed.

Lemma named_later_fresh n room gs j g g1 x y :
  0 <= n -> NoDup (map g_key gs) -> Forall (gor_ok room) gs -> gs !! j = Some g ->
  g_key g1 = g_key g -> g_counter g1 = g_counter g + 1 ->
  a_name x = unique_name n (g_id g) (g_slot g) (g_counter g) ->
  named_later n (<[j := g1]> gs) y -> a_name x <> a_name y.
Proof.
  intros Hn Hd Hok Eg Hk Hc Hx Hy Heq.
  destruct (named_later_before n gs j g g1 1 y Eg Hk Hc ltac:(lia) Hy) as (i & h & k & Hi & Hle & Hj & Hyn).
  rewrite Hx, Hyn in Heq.
  destruct (Forall_lookup_1 _ _ _ _ Hok Hi) as (? & ? & ?), (Forall_lookup_1 _ _ _ _ Hok Eg) as (? & ? & ?).
  apply unique_name_inj in Heq as (E1 & E2 & E3); try lia.
  assert (i = j) as ->.
  { eapply (NoDup_lookup (map g_key gs)); [done|by rewrite list_lookup_fmap, Hi|].
    rewrite list_lookup_fmap, Eg. unfold g_key. simpl. by rewrite E1, E2. }
  specialize (Hj eq_refl). rewrite Eg in Hi. injection Hi as <-. lia.
Qed.

Lemma run_names c sc es s gs s' gs' asks :
  c_qmode c = "unique" -> 0 <= nonce sc -> NoDup (map g_key gs) -> Forall (gor_ok (zlen es)) gs ->
  run_events c sc s gs es = Some (s', gs', asks) ->
  NoDup (map a_name asks) /\ Forall (named_later (nonce sc) gs) asks.
Proof.
  intros Hq Hn. revert s gs asks. induction es as [|[j e] es IH]; intros s gs asks Hd Hc; simpl.
  { intros [= <- <- <-]. split; constructor. }
  destruct (gs !! j) as [g|] eqn:Eg; [|done].
  destruct (gstep c sc s g e) as [[[s1 g1] a]|] eqn:Es; [|done].
  destruct (run_events c sc s1 _ es) as [[[s2 gs2] a2]|] eqn:Er; [|done]. intros [= -> -> <-].
  destruct (Forall_lookup_1 _ _ _ _ Hc Eg) as (Hid & Hsl & Hct). rewrite zlen_cons in Hct.
  pose proof (zlen_nonneg es).
  apply gstep_names in Es as (Hk & Hc1 & Ha); [|done|lia].
  assert (0 <= zlen a <= 1) as Hza by (destruct Ha as [->|(x & -> & _)]; unfold zlen; simpl; lia).
  destruct (IH s1 (<[j := g1]> gs) a2) as [Hd2 Hf2]; [| |done|].
  { rewrite list_fmap_insert, list_insert_id; [done|]. by rewrite list_lookup_fmap, Eg, Hk. }
  { unfold g_key in Hk. injection Hk as Hk1 Hk2.
    apply Forall_insert; [eapply Forall_impl; [exact Hc|]|]; unfold gor_ok; rewrite ?zlen_cons; intros; lia. }
  assert (Forall (named_later (nonce sc) gs) a2) as Hf3.
  { eapply Forall_impl; [exact Hf2|]. intros x Hx.
    destruct (named_later_before _ _ _ _ _ _ _ Eg Hk Hc1 ltac:(lia) Hx) as (i & h & k & ? & ? & _ & ?).
    by exists i, h, k. }
  destruct Ha as [->|(x & -> & Hx)]; [done|]. split.
  - cbn [map app]. constructor; [|done]. intros (y & Hy & Hin)%list_elem_of_fmap.
    revert Hy. eapply (named_later_fresh (nonce sc) _ gs j g g1); try done.
    by apply (proj1 (Forall_forall _ a2) Hf2).
  - constructor; [|done]. exists j, g, (g_counter g). split_and!; [done|lia|done].
Qed.

Definition spawn (m id : nat) : list gor :=
  map (fun slot => mkGor (Z.of_nat id) (Z.of_nat slot) 0 [] Looping) (seq 0 m).

Lemma spawn_key m id x : x ∈ map g_key (spawn m id) -> fst x = Z.of_nat id.
Proof. unfold spawn. rewrite map_map. by intros (k & -> & _)%list_elem_of_fmap. Qed.

Lemma gors0_keys c : NoDup (map g_key (gors0 c)).
Proof.
  change (gors0 c) with (flat_map (spawn (Z.to_nat (c_concurrency c))) (seq 0 (Z.to_nat (c_clients c)))).
  generalize (Z.to_nat (c_concurrency c)) as m, (NoDup_seq 0 (Z.to_nat (c_clients c))).
  generalize (seq 0 (Z.to_nat (c_clients c))) as l. intros l m. induction 1 as [|id l Hid _ IH]; [constructor|].
  cbn [flat_map]. rewrite map_app. apply NoDup_app. split_and!; [| |done].
  - unfold spawn. rewrite map_map.
    refine (NoDup_fmap_2 (fun k => (Z.of_nat id, Z.of_nat k)) (seq 0 m) (NoDup_seq 0 m)).
  - intros x Hx%spawn_key (g & -> & Hg)%list_elem_of_fmap.
    apply list_elem_of_In, in_flat_map in Hg as (id' & Hin & Hg).
    assert (fst (g_key g) = Z.of_nat id') as E.
    { eapply (spawn_key m). apply list_elem_of_fmap. exists g. split; [done|by apply list_elem_of_In]. }
    apply Hid, list_elem_of_In. by assert (id = id') as -> by lia.
Qed.

Lemma gors0_ok c n : 0 <= n < 2 ^ 64 -> Forall (gor_ok n) (gors0 c).
Proof. intros Hn. apply Forall_forall. intros g (id & slot & -> & ? & ?)%gors0_fresh. unfold gor_ok. simpl. lia. Qed.

(** C31. In [unique] mode no name is asked twice in a run, by any goroutine: the
    cache the server keeps is never what answers.  (A goroutine's counter is 64
    bits wide; the run is shorter than it takes to wrap.) *)
Theorem unique_run_names c sc es s gs asks :
  c_qmode c = "unique" -> 0 <= nonce sc -> zlen es < 2 ^ 64 ->
  run_events c sc (shared0 c) (gors0 c) es = Some (s, gs, asks) -> NoDup (map a_name asks).
Proof.
  intros Hq Hn Hw H. apply (run_names c sc es (shared0 c) (gors0 c) s gs); try done; [apply gors0_keys|].
  apply gors0_ok. pose proof (zlen_nonneg es). lia.
Qed.

Lemma unique_run_names_witness :
  exists s gs asks, run_events ex_load ex_schedule (shared0 ex_load) (gors0 ex_load) ex_events =
    Some (s, gs, asks) /\ zlen asks = 4 /\ NoDup (map a_name asks).
Proof.
  eexists _, _, _. split; [vm_compute; reflexivity|]. split; [reflexivity|].
  eapply (unique_run_names ex_load ex_schedule ex_events);
    [reflexivity|vm_compute; discriminate|reflexivity|vm_compute; reflexivity].
Defined.

(** ** A client that cannot dial again *)

Definition ex_lost : list (nat * event) :=
  [(0%nat, Ask 10 10 0); (1%nat, Ask 10 10 0); (1%nat, Finish 20 (Ok 0)); (0%nat, Finish 900 (Ok 0));
   (1%nat, Ask 1000 1000 0); (0%nat, Ask 1100 1100 0); (0%nat, Finish 2500 (Ok 0));
   (1%nat, Finish 2600 (Err ReadFailed)); (1%nat, Redial false 2700);
   (0%nat, Ask 2800 2800 0); (0%nat, Finish 2900 (Err ReadFailed)); (0%nat, Redial false 5000);
   (1%nat, Redial false 5100)].

Definition has_returned (g : gor) : Prop := exists added, g_phase g = Returned added.

Definition handed_over (g : gor) : bool := match g_phase g with Returned true => true | _ => false end.

(** The latencies the goroutines have handed over. *)
Definition reported (gs : list gor) : list duration :=
  concat (map g_local (List.filter handed_over gs)).

Lemma reported_cons g gs : reported (g :: gs) = (if handed_over g then g_local g else []) ++ reported gs.
Proof. unfold reported. cbn [List.filter]. by destruct (handed_over g). Qed.

Lemma reported_none gs : (forall g, g ∈ gs -> handed_over g = false) -> reported gs = [].
Proof.
  induction gs as [|g gs IH]; intros H; [done|]. rewrite reported_cons, H by by left. apply IH. intros. apply H. by right.
Qed.

Lemma reported_insert gs i g g1 :
  gs !! i = Some g -> handed_over g = false ->
  reported (<[i := g1]> gs) ≡ₚ reported gs ++ (if handed_over g1 then g_local g1 else []).
Proof.
  revert i. induction gs as [|h gs IH]; intros [|i] Hi Hg; [done..| |].
  - injection Hi as ->. cbn [insert list_insert]. rewrite !reported_cons, Hg. apply Permutation_app_comm.
  - cbn [insert list_insert]. rewrite !reported_cons, <- app_assoc. f_equiv. by apply IH.
Qed.

Lemma gstep_reports c sc s g e s' g' a :
  gstep c sc s g e = Some (s', g', a) ->
  handed_over g = false /\ samples (rec s') = samples (rec s) ++ (if handed_over g' then g_local g' else []).
Proof.
  intros H. unfold gstep in H. unfold handed_over.
  destruct (g_phase g) eqn:Ep, e as [now after late|now [rc|er]|[] now]; try done;
    repeat case_match; try done; injection H as <- <- <-; simpl in *; rewrite ?app_nil_r; try done; congruence.
Qed.

Lemma run_reports c sc es s gs s' gs' asks :
  run_events c sc s gs es = Some (s', gs', asks) ->
  samples (rec s) ≡ₚ reported gs -> samples (rec s') ≡ₚ reported gs'.
Proof.
  revert s gs asks. induction es as [|[i e] es IH]; intros s gs asks; simpl; [by intros [= <- <- _]|].
  destruct (gs !! i) as [g|] eqn:Eg; [|done]. destruct (gstep c sc s g e) as [[[s1 g1] a]|] eqn:Es; [|done].
  destruct (run_events c sc s1 _ es) as [[[s2 gs2] a2]|] eqn:Er; [|done]. intros [= -> -> _] Hs.
  apply (IH _ _ _ Er). destruct (gstep_reports _ _ _ _ _ _ _ _ Es) as [Hg ->]. by rewrite reported_insert, Hs.
Qed.

(** A goroutine that gives up a redial is one whose transport redials. *)
Definition redials_ok (c : config) (g : gor) : Prop := g_phase g = Redialling -> redials c = true.

Definition gives_up (sc : schedule) (e : event) : Prop := exists now, e = Redial false now /\ deadline sc <= now.

Lemma gstep_gives_up c sc s g e s' g' a :
  gstep c sc s g e = Some (s', g', a) -> redials_ok c g ->
  redials_ok c g' /\ g_phase g <> Returned false /\ (g_phase g' = Returned false <-> gives_up sc e) /\
  (gives_up sc e -> redials c = true).
Proof.
  intros H Hr. unfold gstep in H. unfold redials_ok, gives_up in *.
  destruct (g_phase g) eqn:Ep, e as [now after late|now [rc|er]|[] now]; try done;
    repeat case_match; try done; injection H as <- <- <-; simpl; rewrite ?Ep; b2p;
    (split_and!; [done|done|split; [try done|intros (n & [= ->] & ?); try done; lia]|intros (n & ? & ?); try done; auto]).
  intros _. exists now. split; [done|lia].
Qed.

Lemma run_gave_up c sc es s gs s' gs' asks i g' :
  run_events c sc s gs es = Some (s', gs', asks) -> Forall (redials_ok c) gs -> gs' !! i = Some g' ->
  (g_phase g' = Returned false <->
     g_phase <$> gs !! i = Some (Returned false) \/ exists e, (i, e) ∈ es /\ gives_up sc e) /\
  ((exists e, (i, e) ∈ es /\ gives_up sc e) -> redials c = true).
Proof.
  revert s gs asks. induction es as [|[j e] es IH]; intros s gs asks; simpl.
  - intros [= <- <- _] _ Hi. rewrite Hi. simpl. split; [|by intros (e & ?%not_elem_of_nil & _)].
    split; [by intros ->; left|]. intros [[= ->]|(e & ?%not_elem_of_nil & _)]; done.
  - destruct (gs !! j) as [g|] eqn:Eg; [|done]. destruct (gstep c sc s g e) as [[[s1 g1] a]|] eqn:Es; [|done].
    destruct (run_events c sc s1 _ es) as [[[s2 gs2] a2]|] eqn:Er; [|done]. intros [= -> -> _] Hr Hi.
    destruct (gstep_gives_up _ _ _ _ _ _ _ _ Es (Forall_lookup_1 _ _ _ _ Hr Eg)) as (Hr1 & Hne & Hg & Hc).
    destruct (IH _ _ _ Er (Forall_insert _ _ _ _ Hr Hr1) Hi) as [IH1 IH2]. split.
    + rewrite IH1. clear IH1 IH2. destruct (decide (i = j)) as [->|Hij].
      * rewrite list_lookup_insert_eq, Eg by (by eapply lookup_lt_Some). simpl. split.
        -- intros [[= E]|(e' & Hin & He)]; right; [exists e; split; [by left|by apply Hg]|exists e'; split; [by right|done]].
        -- intros [[= E]|(e' & [[= ->]|Hin]%elem_of_cons & He)]; [done|left; by f_equal; apply Hg|right; by exists e'].
      * rewrite list_lookup_insert_ne by done. split; (intros [E|(e' & Hin & He)]; [by left|right; exists e']).
        -- split; [by right|done].
        -- apply elem_of_cons in Hin as [[= -> _]|Hin]; done.
    + intros (e' & [[= -> ->]|Hin]%elem_of_cons & He); [by apply Hc|]. apply IH2. by exists e'.
Qed.

Lemma unreported_reported gs :
  zlen (reported gs) + zsum (map unreported gs) = zsum (map (fun g => zlen (g_local g)) gs).
Proof.
  induction gs as [|g gs IH]; [done|]. rewrite reported_cons. cbn [map]. rewrite !zsum_cons, zlen_app.
  unfold unreported at 1, handed_over. destruct (g_phase g) as [| | |[]]; rewrite ?zlen_nil; lia.
Qed.

(** C39. What a run that ended counts, and what it reports.  Whatever the order its
    goroutines stepped in, every answer is counted, but the recorder has the
    latencies of only those that did not give up: a goroutine gives up exactly
    when a redial of its own fails at the deadline or later, which only TCP and
    DoT do, and then the latencies of the answers it counted are in no
    percentile.  When every goroutine gave up, the run reports its answers with
    percentiles of nothing, 0. *)
Theorem lost_latencies c sc es s gs asks :
  run_events c sc (shared0 c) (gors0 c) es = Some (s, gs, asks) -> Forall has_returned gs ->
  let gave_up i := exists now, (i, Redial false now) ∈ es /\ deadline sc <= now in
  (forall i g, gs !! i = Some g -> (g_phase g = Returned false <-> gave_up i) /\ (gave_up i -> redials c = true)) /\
  samples (rec s) ≡ₚ concat (map g_local (List.filter handed_over gs)) /\
  answered s = zsum (map (fun g => zlen (g_local g)) gs) /\
  answered s - Len (rec s) = zsum (map (fun g => if handed_over g then 0 else zlen (g_local g)) gs) /\
  (Forall (fun g => g_phase g = Returned false) gs ->
   forall elapsed, exists r, run_result c [] elapsed s = Ok (Some r) /\ Answered r = answered s /\
     P50ms r = ms_of 0 /\ P99ms r = ms_of 0).
Proof.
  intros H Hd gave_up.
  assert (Hp : samples (rec s) ≡ₚ reported gs).
  { apply (run_reports _ _ _ _ _ _ _ _ H). rewrite reported_none; [done|].
    intros g (id & slot & -> & _)%gors0_fresh. done. }
  destruct (run_counts _ _ _ _ _ _ _ _ (ids_ok0 c) H) as (_ & _ & Ha & _).
  rewrite (gors0_sum c unreported) in Ha by done. cbn [answered rec shared0] in Ha.
  change (Len (New (2 ^ 20))) with 0 in Ha. pose proof (unreported_reported gs) as Hu.
  assert (Hl : Len (rec s) = zlen (reported gs)) by (unfold Len, zlen; by rewrite Hp). split_and!; [|done|lia| |].
  - intros i g Hi.
    assert (Hr0 : Forall (redials_ok c) (gors0 c)).
    { apply Forall_forall. intros g0 (id & slot & -> & _)%gors0_fresh. done. }
    destruct (run_gave_up _ _ _ _ _ _ _ _ i g H Hr0 Hi) as [H1 H2].
    assert (Hiff : (exists e, (i, e) ∈ es /\ gives_up sc e) <-> gave_up i)
      by (unfold gives_up, gave_up; naive_solver).
    rewrite <- Hiff, H1. split; [|done]. split; [|by right]. intros [E|E]; [|done].
    destruct (gors0 c !! i) as [g0|] eqn:E0; [|done].
    apply list_elem_of_lookup_2, gors0_fresh in E0 as (id & slot & -> & _). done.
  - replace (zsum (map (fun g => if handed_over g then 0 else zlen (g_local g)) gs)) with (zsum (map unreported gs)); [lia|].
    f_equal. apply map_ext. intros g. unfold unreported, handed_over. by destruct (g_phase g) as [| | |[]].
  - intros Hall. rewrite reported_none in Hp.
    + apply Permutation_nil_r in Hp. intros elapsed. unfold run_result, Percentiles. rewrite Hp. cbn.
      destruct (minmax (perClient s)) as [mn mx]. by eexists.
    + intros g Hg. rewrite Forall_forall in Hall. unfold handed_over. by rewrite Hall.
Qed.

(** Two answers counted, and nothing recorded. *)
Lemma lost_latencies_witness :
  exists s gs asks, run_events ex_load ex_schedule (shared0 ex_load) (gors0 ex_load) ex_lost = Some (s, gs, asks) /\
    answered s = 2 /\ Len (rec s) = 0 /\ 2 = zsum (map (fun g => zlen (g_local g)) gs) /\
    exists r, run_result ex_load [] 5000 s = Ok (Some r) /\ Answered r = answered s /\
      P50ms r = ms_of 0 /\ P99ms r = ms_of 0.
Proof.
  eexists _, _, _. split; [vm_compute; reflexivity|]. split; [reflexivity|]. split; [reflexivity|].
  pose proof (lost_latencies ex_load ex_schedule ex_lost _ _ _ ltac:(vm_compute; reflexivity)
    ltac:(repeat (constructor; [exact (ex_intro _ false eq_refl)|]); constructor)) as H.
  split; [exact (proj1 (proj2 (proj2 H)))|].
  refine (proj2 (proj2 (proj2 (proj2 H))) _ 5000). repeat (constructor; [reflexivity|]). constructor.
Defined.

(** ** One query against a server that answers *)

Section query.
Context (f : bytes -> result wire_error bytes) `{Responder f}.
Context (id : Z) (name : string) (udpSize : Z) (Hid : 0 <= id < 65536).

Lemma reply_to_query r :
  f (Query id name TypeA udpSize) = Ok r ->
  exists an, ParseReply r =
    Ok {| rID := id; rRcode := 0; rAnCount := an; rTruncated := false; rAD := false |}.
Proof.
  intros Hr. destruct (responder_reply _ _ (Query_bytes_ok _ _ _ _) Hr) as (an & E).
  exists an. by rewrite E, Query_id by done.
Qed.
End query.

(** An answer to some other query: a reply under another id. *)
Definition late (id : Z) (msg : bytes) : Prop :=
  exists rep, ParseReply msg = Ok rep /\ rID rep <> id.

Lemma udp_await_late id lates reads :
  Forall (late id) lates -> udp_await id (lates ++ reads) = udp_await id reads.
Proof.
  induction 1 as [|m ms (rep & E & Hne) _ IH]; [done|]. cbn [app udp_await]. rewrite E.
  by apply Z.eqb_neq in Hne as ->.
Qed.

Lemma stream_question_frame id name : stream_question id name = frame (udp_question id name).
Proof. unfold stream_question. by rewrite Z.shiftr_div_pow2, frame_bytes. Qed.

(** C16. A query a server answers -- any [Responder] -- comes back NOERROR: over
    UDP past any late answers to earlier queries that are still queued; over TCP
    and DoT however the stream is cut, leaving the bytes that follow; over DoH
    in a 200. *)
Theorem answered_query f id name rq rd lates reads (c : conn) s major :
  Responder f -> 0 <= id < 65536 ->
  f (udp_question id name) = Ok rq -> f (doh_question id name) = Ok rd ->
  Forall (late id) lates -> zlen rq < 65536 -> concat c = frame rq ++ s ->
  udp_Query true true id (lates ++ rq :: reads) = (Ok 0, reads) /\
  (exists c', stream_Query 65535 true true id c = (Ok 0, c') /\ concat c' = s) /\
  doh_Query id (Response 200 major (Some rd)) = Ok 0.
Proof.
  intros Hf Hid Hq Hd Hl Hw Hc.
  destruct (reply_to_query f id name 1232 Hid rq Hq) as (an & E).
  destruct (reply_to_query f id name 0 Hid rd Hd) as (an' & E').
  split; [|split].
  - unfold udp_Query. cbn [negb]. rewrite udp_await_late by done. cbn [udp_await]. rewrite E. simpl.
    by rewrite Z.eqb_refl.
  - unfold stream_Query. cbn [negb]. pose proof (zlen_nonneg rq).
    unfold frame in Hc. rewrite u16_id, <- app_assoc in Hc by lia.
    destruct (readFull_app c _ _ 2 Hc eq_refl) as (c1 & -> & Hc1). rewrite hdr_size_be16 by lia.
    destruct (zlen rq >? 65535) eqn:Eg; [b2p; lia|].
    destruct (readFull_app c1 rq s (Z.to_nat (zlen rq)) Hc1) as (c2 & -> & Hc2); [unfold zlen; lia|].
    rewrite E. simpl. rewrite Z.eqb_refl. by exists c2.
  - simpl. rewrite E'. simpl. by rewrite Z.eqb_refl.
Qed.

Definition ex_rep (id : Z) : bytes :=
  match answer (udp_question id "a.bc") 300 with Ok r => r | Err _ => [] end.
Definition ex_doh (id : Z) : bytes :=
  match answer (doh_question id "a.bc") 300 with Ok r => r | Err _ => [] end.

Lemma answered_query_witness :
  udp_Query true true 9 ([ex_rep 7; ex_rep 8] ++ ex_rep 9 :: []) = (Ok 0, []) /\
  doh_Query 9 (Response 200 2 (Some (ex_doh 9))) = Ok 0.
Proof.
  destruct (answered_query (fun q => answer q 300) 9 "a.bc" (ex_rep 9) (ex_doh 9) [ex_rep 7; ex_rep 8] []
    [take 5 (frame (ex_rep 9)); drop 5 (frame (ex_rep 9)) ++ [1]] [1] 2) as (H1 & _ & H3).
  - apply answer_responder.
  - lia.
  - vm_compute. reflexivity.
  - vm_compute. reflexivity.
  - repeat constructor; eexists; (split; [vm_compute; reflexivity|simpl; lia]).
  - vm_compute. reflexivity.
  - vm_compute. reflexivity.
  - exact (conj H1 H3).
Defined.

(** What a query reports, it read: a response code comes back only from a
    reply that carries the query's id, over UDP the first such among the
    datagrams, over a stream the first message on it. *)
Theorem query_reads_own_reply id rc :
  (forall d w reads rest, udp_Query d w id reads = (Ok rc, rest) ->
     exists lates msg, reads = lates ++ msg :: rest /\ Forall (late id) lates /\
       exists rep, ParseReply msg = Ok rep /\ rID rep = id /\ rRcode rep = rc) /\
  (forall buf d w c rest, stream_Query buf d w id c = (Ok rc, rest) ->
     exists msg, read_frame c = Message msg rest /\
       exists rep, ParseReply msg = Ok rep /\ rID rep = id /\ rRcode rep = rc) /\
  (forall r, doh_Query id r = Ok rc ->
     exists major msg, r = Response 200 major (Some msg) /\
       exists rep, ParseReply msg = Ok rep /\ rID rep = id /\ rRcode rep = rc).
Proof.
  split; [|split].
  - intros [] [] reads rest; try done. unfold udp_Query. cbn [negb].
    induction reads as [|m reads IH]; [done|]. cbn [udp_await].
    destruct (ParseReply m) as [rep|] eqn:E; [|done]. destruct (rID rep =? id) eqn:Ei; b2p; simpl.
    + intros [= Hr <-]. exists [], m. split; [done|]. split; [constructor|eauto].
    + intros (l & msg & -> & Hl & Hm)%IH. exists (m :: l), msg. split; [done|]. split; [|done].
      constructor; [by exists rep|done].
  - intros buf [] [] c rest; try done. unfold stream_Query, read_frame. cbn [negb].
    destruct (readFull c 2) as [[hdr c1]|]; [|done]. destruct (_ >? buf); [done|].
    destruct (readFull c1 _) as [[msg c2]|]; [|done].
    destruct (ParseReply msg) as [rep|] eqn:E; [|done]. destruct (rID rep =? id) eqn:Ei; b2p; simpl; [|done].
    intros [= Hr <-]. eauto 10.
  - intros [|st major [msg|]]; simpl; try done. destruct (st =? 200) eqn:Es; [|done]. simpl.
    destruct (ParseReply msg) as [rep|] eqn:E; [|done]. destruct (rID rep =? id) eqn:Ei; b2p; simpl; [|done].
    subst. intros [= Hr]. eauto 10.
Qed.

(** ** The other figures *)

Lemma minmax_bounds l a b :
  Forall (Z.le 0) l -> 0 <= a <= b ->
  let '(mn, mx) := fold_left minmax_step l (a, b) in
  (mn = a \/ mn ∈ l) /\ (mx = b \/ mx ∈ l) /\ mn <= a /\ b <= mx /\ Forall (fun x => mn <= x <= mx) l.
Proof.
  intros H. revert a b. induction H as [|x l Hx _ IH]; intros a b Hab; simpl.
  - split_and!; try lia; try (by left); by constructor.
  - destruct (a <? 0) eqn:E1, (x <? a) eqn:E2, (x >? b) eqn:E3; b2p; try lia; simpl.
    all: match goal with |- context [fold_left _ _ (?p, ?q)] => specialize (IH p q ltac:(lia)) end.
    all: destruct (fold_left minmax_step l _) as [mn mx]; destruct IH as (H1 & H2 & H3 & H4 & H5).
    all: rewrite !elem_of_cons; split_and!; try lia; try naive_solver; constructor; [lia|done].
Qed.

(** The spread a run reports is that of its clients: the two figures are
    answers some client counted, and every client's lies between them. *)
Theorem minmax_spread l :
  l <> [] -> Forall (Z.le 0) l ->
  let '(mn, mx) := minmax l in mn ∈ l /\ mx ∈ l /\ Forall (fun x => mn <= x <= mx) l.
Proof.
  intros Hl H. destruct l as [|x l]; [done|]. apply Forall_cons in H as [Hx H].
  unfold minmax. cbn [fold_left minmax_step]. change (-1 <? 0) with true. cbn [orb].
  assert ((if x >? 0 then x else 0) = x) as -> by (destruct (x >? 0) eqn:E; b2p; lia).
  pose proof (minmax_bounds l x x H ltac:(lia)) as Hm.
  destruct (fold_left minmax_step l (x, x)) as [mn mx]. destruct Hm as (H1 & H2 & H3 & H4 & H5).
  rewrite !elem_of_cons. split_and!; try tauto. constructor; [lia|done].
Qed.

Lemma minmax_spread_witness : minmax [7; 3; 0; 9] = (0, 9) /\ 0 ∈ [7; 3; 0; 9].
Proof.
  split; [reflexivity|]. refine (proj1 (minmax_spread [7; 3; 0; 9] _ _)); [done|repeat constructor; lia].
Defined.

Lemma lookup_repeat {A} (x : A) n i : (i < n)%nat -> repeat x n !! i = Some x.
Proof. revert i. induction n as [|n IH]; intros [|i] Hi; try lia; [done|]. apply IH. lia. Qed.

Definition has_conn (x : nat * once_outcome) : bool :=
  match snd x with OnceNoDial _ => false | _ => true end.

Lemma once_step_counts s x :
  let s' := once_step s x in
  o_answered s' + o_errs s' = o_answered s + o_errs s + 1 /\
  o_answered s' - o_answered s = Len (o_rec s') - Len (o_rec s) /\
  o_answered s' - o_answered s = msum (o_rcodes s') - msum (o_rcodes s) /\
  o_held s' = if has_conn x then <[fst x := true]> (o_held s) else o_held s.
Proof.
  destruct x as [id [e|e|lat rc]]; unfold Len; simpl; rewrite ?msum_bump, ?zlen_app; unfold zlen; simpl;
    split_and!; try lia; done.
Qed.

Lemma once_counts xs s :
  let s' := fold_left once_step xs s in
  o_answered s' + o_errs s' = o_answered s + o_errs s + zlen xs /\
  o_answered s' - o_answered s = Len (o_rec s') - Len (o_rec s) /\
  o_answered s' - o_answered s = msum (o_rcodes s') - msum (o_rcodes s).
Proof.
  revert s. induction xs as [|x xs IH]; intros s; cbn [fold_left]; cbv zeta.
  - unfold zlen. simpl. lia.
  - destruct (once_step_counts s x) as (H1 & H2 & H3 & _), (IH (once_step s x)) as (G1 & G2 & G3).
    rewrite zlen_cons. cbv zeta in *. split_and!; lia.
Qed.

Lemma once_held xs s i :
  o_held (fold_left once_step xs s) !! i =
    if existsb (fun x => has_conn x && Nat.eqb (fst x) i) xs && bool_decide (i < length (o_held s))%nat
    then Some true else o_held s !! i.
Proof.
  revert s. induction xs as [|x xs IH]; intros s; [done|]. cbn [fold_left existsb].
  destruct (once_step_counts s x) as (_ & _ & _ & Hh). rewrite IH, Hh.
  destruct (has_conn x); cbn [andb orb]; [|done]. rewrite length_insert.
  destruct (Nat.eqb_spec (fst x) i) as [<-|Hne]; cbn [orb andb].
  - case_bool_decide as Hd; rewrite ?andb_true_r, ?andb_false_r.
    + destruct (existsb _ xs); [done|]. by apply list_lookup_insert_eq.
    + rewrite !lookup_ge_None_2; [done|lia|rewrite length_insert; lia].
  - by rewrite list_lookup_insert_ne.
Qed.

(** [runOnce] over any order in which its clients end: every client is
    answered or in error, once; the recorder and the response codes have one
    entry for each answer; and the connections held are those of the clients
    that had one, answered or not. *)
Theorem once_accounting c xs :
  map fst xs ≡ₚ seq 0 (Z.to_nat (c_clients c)) ->
  let s := fold_left once_step xs
    (mkOnce 0 0 ∅ (New (c_clients c)) (repeat false (Z.to_nat (c_clients c)))) in
  o_answered s + o_errs s = Z.max 0 (c_clients c) /\
  Len (o_rec s) = o_answered s /\ msum (o_rcodes s) = o_answered s /\
  forall i, (i < Z.to_nat (c_clients c))%nat ->
    o_held s !! i = Some (existsb (fun x => has_conn x && Nat.eqb (fst x) i) xs).
Proof.
  intros Hp. cbv zeta. set (s0 := mkOnce _ _ _ _ _).
  destruct (once_counts xs s0) as (H1 & H2 & H3). cbv zeta in *.
  assert (zlen xs = Z.max 0 (c_clients c)) as Hl.
  { apply Permutation_length in Hp. rewrite length_map, length_seq in Hp. unfold zlen. lia. }
  change (o_answered s0) with 0 in *. change (o_errs s0) with 0 in *.
  change (Len (o_rec s0)) with 0 in *. change (msum (o_rcodes s0)) with 0 in *.
  split_and!; try lia. intros i Hi. rewrite once_held. unfold s0. cbn [o_held].
  rewrite repeat_length, bool_decide_eq_true_2, andb_true_r by done.
  destruct (existsb _ xs); [done|]. by apply lookup_repeat.
Qed.

Lemma once_accounting_witness :
  let xs := [(2%nat, OnceFailed ReadFailed); (0%nat, OnceAnswered 500 0); (1%nat, OnceNoDial NoProbe)] in
  let s := fold_left once_step xs (mkOnce 0 0 ∅ (New 3) (repeat false 3)) in
  o_answered s + o_errs s = 3 /\ Len (o_rec s) = 1 /\ o_held s !! 2%nat = Some true.
Proof.
  destruct (once_accounting (mkConfig "a:53" "udp" 3 1 0 0 "fixed" "a" "/" 0 true)
    [(2%nat, OnceFailed ReadFailed); (0%nat, OnceAnswered 500 0); (1%nat, OnceNoDial NoProbe)])
    as (H1 & H2 & _ & H4).
  - apply (bool_decide_eq_true_1 _). vm_compute. reflexivity.
  - split; [exact H1|]. split; [exact H2|]. apply (H4 2%nat). vm_compute. lia.
Defined.

(** What [main] lets through.  A transport that checks a certificate runs with
    one; a client that may redial, or whose replies are matched by order, has one
    query in flight at a time; and DoH clients speak the version asked for. *)
Theorem main_admits c pem :
  (match loadgen_main c pem with
   | Exit code => code = 2
   | _ =>
      (c_transport c = "dot" \/ c_transport c = "handshake" -> pem = true) /\
      (redials c = true \/ c_transport c = "udp" -> c_concurrency c <= 1)
   end) /\
  forall a cl, dial c a = Ok cl ->
    match cl with
    | dohClient _ => exists st major b, dl_probe a = Response st major b /\ (major = 2 <-> c_transport c = "doh2")
    | udpClient => dl_resolve a = None /\ dl_connect a = None
    | streamClient _ => dl_connect a = None
    end.
Proof.
  split.
  - unfold loadgen_main, redials. generalize (c_transport c). intros t.
    destruct ((String.eqb t "dot" || String.eqb t "handshake") && negb pem) eqn:E1; [done|].
    destruct ((c_concurrency c >? 1) && negb (String.eqb t "doh1") && negb (String.eqb t "doh2")) eqn:E2; [done|].
    enough ((t = "dot" \/ t = "handshake" -> pem = true) /\
      (String.eqb t "tcp" || String.eqb t "dot" = true \/ t = "udp" -> c_concurrency c <= 1)) by (by destruct (c_once c)).
    split.
    + intros [-> | ->]; by destruct pem.
    + intros Ht. rewrite <- andb_assoc in E2. apply andb_false_iff in E2 as [E2|E2]; [b2p; lia|].
      exfalso. destruct Ht as [[->%String.eqb_eq| ->%String.eqb_eq]%orb_true_iff| ->]; done.
  - intros [re co probed] cl. unfold dial, dialUDP, dialTCP, dialDoT, dialDoH, probe. cbn [dl_resolve dl_connect dl_probe].
    destruct (String.eqb_spec (c_transport c) "udp"); [destruct re, co; try done; by intros [= <-]|].
    destruct (String.eqb_spec (c_transport c) "tcp"); [destruct co; try done; by intros [= <-]|].
    destruct (String.eqb_spec (c_transport c) "dot"); [destruct co; try done; by intros [= <-]|].
    destruct probed as [|st major b].
    + by destruct (_ || _).
    + destruct (String.eqb_spec (c_transport c) "doh1") as [E1|], (String.eqb_spec (c_transport c) "doh2") as [E2|];
        simpl; try done; destruct (Z.eqb_spec major 2); try done; intros [= <-]; exists st, major, b;
        (split; [done|]); split; congruence.
Qed.
