(* ===== verification/Survey.v ===== *)
(** * [bench/cmd/bench/survey.go]: the DNSSEC survey

    Reading the list of names, asking one of a server, and the report that
    compares what elodin and a reference resolver said.  Sockets are arguments:
    whether the dial, the deadline and the write succeeded and the datagrams
    that arrived.  The description of the machine is an argument of the
    report. *)

From S2P Require Import Prelude GoStrings DnsWire LoadGen.

(** ** The list of names *)

Record domain : Type := mkDomain { dom_name : string; bogus : bool }.

(** [bufio.ScanLines]: one carriage return before the newline is dropped, and a
    last line without a newline is a line when it holds anything. *)
Definition drop_cr (s : string) : string := trim_suffix (String cr "") s.

Fixpoint drop_last_empty (l : list string) : list string :=
  match l with
  | [] => []
  | [s] => if String.eqb s "" then [] else [s]
  | s :: rest => s :: drop_last_empty rest
  end.

(** The longest token of a [bufio.Scanner]: a line that fills the buffer ends
    the scan with an error. *)
Definition max_token : Z := 65536.

(** The loop of [readDomains]; false is the scanner's error.  A line that is not
    blank has a first field: see [domain_of_line_total]. *)
Definition domain_of_line (raw : string) : option domain :=
  let line := trim_space (drop_cr raw) in
  if String.eqb line "" || has_prefix "#" line then None
  else
    match fields line with
    | [] => None
    | name :: rest =>
        Some (mkDomain name (match rest with tag :: _ => String.eqb tag "bogus" | [] => false end))
    end.

Fixpoint read_lines (lines : list string) : list domain * bool :=
  match lines with
  | [] => ([], true)
  | raw :: rest =>
      if max_token <=? slen raw then ([], false)
      else
        let '(out, ok) := read_lines rest in
        (match domain_of_line raw with Some d => d :: out | None => out end, ok)
  end.

Definition readDomains (data : option string) : list domain * bool :=
  match data with
  | None => ([], false)
  | Some data => read_lines (drop_last_empty (GoStrings.split nl data))
  end.

(** ** One question *)

Inductive ask_error : Type :=
  | NetError (text : string)
  | ReplyError (e : wire_error).

(** The datagrams read before the deadline; [late_error] is the error of the read
    that fails after them. *)
Fixpoint ask_loop (id : Z) (late_error : string) (reads : list bytes)
  : result ask_error (Z * bool) :=
  match reads with
  | [] => Err (NetError late_error)
  | msg :: rest =>
      match ParseReply msg with
      | Err e => Err (ReplyError e)
      | Ok rep => if negb (rID rep =? id) then ask_loop id late_error rest else Ok (rRcode rep, rAD rep)
      end
  end.

(** [sock_error]: the dial, the deadline or the write failed. *)
Definition askDOOnce (sock_error : option string) (id : Z) (late_error : string) (reads : list bytes)
  : result ask_error (Z * bool) :=
  match sock_error with
  | Some e => Err (NetError e)
  | None => ask_loop id late_error reads
  end.

Definition survey_question (id : Z) (name : string) : bytes := QueryDO id name TypeA 1232.

(** [askDO]: what the attempts gave, asked in turn and at most twice. *)
Definition askDO (attempt : nat -> result ask_error (Z * bool)) : result ask_error (Z * bool) * nat :=
  match attempt 0%nat with
  | Ok a => (Ok a, 1%nat)
  | Err _ => (attempt 1%nat, 2%nat)
  end.

(** ** The verdicts *)

Record verdict : Type := mkVerdict {
  v_domain : string; wantBogus : bool;
  elodinRcode : Z; elodinAD : bool; elodinErr : option ask_error;
  refRcode : Z; refAD : bool; refErr : option ask_error
}.

Definition agrees (v : verdict) : bool :=
  (elodinRcode v =? refRcode v) && Bool.eqb (elodinAD v) (refAD v).

(** The three values of [askDO], zero where it failed. *)
Definition ask_rcode (r : result ask_error (Z * bool)) : Z := match r with Ok (c, _) => c | Err _ => 0 end.
Definition ask_ad (r : result ask_error (Z * bool)) : bool := match r with Ok (_, a) => a | Err _ => false end.
Definition ask_err (r : result ask_error (Z * bool)) : option ask_error :=
  match r with Ok _ => None | Err e => Some e end.

Definition judge_name (here there : string -> result ask_error (Z * bool)) (d : domain) : verdict :=
  let e := here (dom_name d) in
  let r := there (dom_name d) in
  mkVerdict (dom_name d) (bogus d) (ask_rcode e) (ask_ad e) (ask_err e) (ask_rcode r) (ask_ad r) (ask_err r).

(** The goroutines write their own index of [results], in the order they end. *)
Definition zero_verdict : verdict := mkVerdict "" false 0 false None 0 false None.

Definition gather (here there : string -> result ask_error (Z * bool)) (domains : list domain)
  (order : list nat) : list verdict :=
  fold_left (fun results i =>
      match domains !! i with
      | Some d => <[i := judge_name here there d]> results
      | None => results
      end)
    order (repeat zero_verdict (length domains)).

(** ** The report *)

Record tally : Type := mkTally {
  agreed : Z; disagreed : Z; unanswered : Z; bogusRefused : Z; bogusServed : Z;
  adHere : Z; adThere : Z; mismatches : list verdict; errored : list verdict
}.

Definition tally0 : tally := mkTally 0 0 0 0 0 0 0 [] [].

Definition isSome {A} (o : option A) : bool := match o with Some _ => true | None => false end.

Definition b2z (b : bool) : Z := if b then 1 else 0.

Definition tally_step (t : tally) (v : verdict) : tally :=
  if isSome (elodinErr v) || isSome (refErr v) then
    mkTally (agreed t) (disagreed t) (unanswered t + 1) (bogusRefused t) (bogusServed t)
      (adHere t) (adThere t) (mismatches t) (errored t ++ [v])
  else if wantBogus v then
    if elodinRcode v =? 2 then
      mkTally (agreed t) (disagreed t) (unanswered t) (bogusRefused t + 1) (bogusServed t)
        (adHere t) (adThere t) (mismatches t) (errored t)
    else
      mkTally (agreed t) (disagreed t) (unanswered t) (bogusRefused t) (bogusServed t + 1)
        (adHere t) (adThere t) (mismatches t ++ [v]) (errored t)
  else
    let here := adHere t + b2z (elodinAD v) in
    let there := adThere t + b2z (refAD v) in
    if agrees v then
      mkTally (agreed t + 1) (disagreed t) (unanswered t) (bogusRefused t) (bogusServed t)
        here there (mismatches t) (errored t)
    else
      mkTally (agreed t) (disagreed t + 1) (unanswered t) (bogusRefused t) (bogusServed t)
        here there (mismatches t ++ [v]) (errored t).

Definition tally_all (results : list verdict) : tally := fold_left tally_step results tally0.

Definition describeAnswer (rcode : Z) (ad : bool) : string :=
  let name := rcodeName rcode in if ad then name +:+ " + AD" else name.

Definition wire_error_text (e : wire_error) : string :=
  match e with
  | ShortMessage n => "short message: " +:+ itoa n +:+ " bytes"
  | NotAResponse => "not a response"
  | NamePastMessage => "name runs past the message"
  | CompressionPointer => "compression pointer in a question"
  | LabelPastMessage => "label runs past the message"
  | QuestionTruncated => "question truncated"
  | OutOfFuel => ""
  end.

Definition error_text (e : ask_error) : string :=
  match e with NetError s => s | ReplyError e => wire_error_text e end.

Definition mismatch_line (v : verdict) : string :=
  "| " +:+ v_domain v +:+ " | " +:+ describeAnswer (elodinRcode v) (elodinAD v) +:+ " | " +:+
  describeAnswer (refRcode v) (refAD v) +:+ " |" +:+ nls.

Definition errored_line (v : verdict) : string :=
  let '(reason, side) :=
    match elodinErr v with
    | Some e => (error_text e, "elodin")
    | None => (match refErr v with Some e => error_text e | None => "<nil>" end, "reference")
    end in
  "- " +:+ v_domain v +:+ " (" +:+ side +:+ ": " +:+ reason +:+ ")" +:+ nls.

Definition renderSurvey (machine note reference : string) (results : list verdict) : string :=
  let t := tally_all results in
  let line name figure := "| " +:+ name +:+ " | " +:+ figure +:+ " |" +:+ nls in
  concat_all
    ["# elodin DNSSEC survey" +:+ nls +:+ nls; machine +:+ " " +:+ note +:+ nls +:+ nls;
     itoa (zlen results) +:+ " names asked through elodin with validation on, and asked again of " +:+
       reference +:+ "." +:+ nls +:+ nls;
     "| | |" +:+ nls +:+ "|---|---|" +:+ nls;
     line "names agreeing on rcode and AD" (itoa (agreed t));
     line "names differing" (itoa (disagreed t));
     line "authenticated here / by the reference" (itoa (adHere t) +:+ " / " +:+ itoa (adThere t));
     line "deliberately broken, refused" (itoa (bogusRefused t));
     line "deliberately broken, served anyway" (itoa (bogusServed t));
     line "unanswered by one side or the other" (itoa (unanswered t)) +:+ nls] +:+
  (match mismatches t with
   | [] => ""
   | ms =>
       "Where they differ:" +:+ nls +:+ nls +:+ "| name | elodin | reference |" +:+ nls +:+
       "|---|---|---|" +:+ nls +:+ concat_all (map mismatch_line ms) +:+ nls
   end) +:+
  match errored t with
  | [] => ""
  | es => "Unanswered:" +:+ nls +:+ nls +:+ concat_all (map errored_line es) +:+ nls
  end.

(** [dnssecSurvey], the server having started or not. *)
Definition dnssecSurvey (data : option string) (started : bool) (machine note reference : string)
  (here there : string -> result ask_error (Z * bool)) (order : list nat) : option string :=
  let '(domains, ok) := readDomains data in
  if negb ok then None
  else if negb started then None
  else Some (renderSurvey machine note reference (gather here there domains order)).

(** ** The results do not depend on the order the goroutines end in *)

Section order.
Context (here there : string -> result ask_error (Z * bool)) (domains : list domain).

Let fill (results : list verdict) (i : nat) : list verdict :=
  match domains !! i with
  | Some d => <[i := judge_name here there d]> results
  | None => results
  end.

Lemma fill_length order results : length (fold_left fill order results) = length results.
Proof.
  revert results. induction order as [|i order IH]; intros results; [done|]. cbn [fold_left].
  rewrite IH. unfold fill. destruct (domains !! i); [apply length_insert|done].
Qed.

Lemma fill_lookup order results i d :
  length results = length domains -> domains !! i = Some d ->
  fold_left fill order results !! i =
    if decide (i ∈ order) then Some (judge_name here there d) else results !! i.
Proof.
  intros Hl Hi. assert (i < length domains)%nat as Hlt by (by eapply lookup_lt_Some).
  revert results Hl. induction order as [|j order IH]; intros results Hl; [done|]. cbn [fold_left].
  rewrite IH by (unfold fill; destruct (domains !! j); [by rewrite length_insert|done]).
  destruct (decide (i ∈ order)) as [Hin|Hin].
  - rewrite decide_True by (by right). done.
  - destruct (decide (i = j)) as [->|Hne].
    + rewrite decide_True by (by left). unfold fill. rewrite Hi. apply list_lookup_insert_eq. lia.
    + rewrite decide_False by (by intros [?|?]%elem_of_cons). unfold fill.
      destruct (domains !! j); [by rewrite list_lookup_insert_ne|done].
Qed.

Lemma gather_complete order :
  order ≡ₚ seq 0 (length domains) ->
  gather here there domains order = map (judge_name here there) domains.
Proof.
  intros Hp. apply list_eq. intros i. rewrite list_lookup_fmap.
  change (gather here there domains order) with (fold_left fill order (repeat zero_verdict (length domains))).
  destruct (domains !! i) as [d|] eqn:Hi; simpl.
  - rewrite (fill_lookup _ _ i d); [|by rewrite repeat_length|done].
    rewrite decide_True; [done|]. rewrite Hp. apply elem_of_seq. apply lookup_lt_Some in Hi. lia.
  - apply lookup_ge_None_2. rewrite fill_length, repeat_length. by apply lookup_ge_None_1.
Qed.
End order.

(** ** What the report counts *)

Definition v_errored (v : verdict) : bool := isSome (elodinErr v) || isSome (refErr v).
Definition v_refused (v : verdict) : bool := negb (v_errored v) && wantBogus v && (elodinRcode v =? 2).
Definition v_served (v : verdict) : bool := negb (v_errored v) && wantBogus v && negb (elodinRcode v =? 2).
Definition v_real (v : verdict) : bool := negb (v_errored v) && negb (wantBogus v).

Lemma tally_step_counts t v :
  let t' := tally_step t v in
  agreed t' = agreed t + b2z (v_real v && agrees v) /\
  disagreed t' = disagreed t + b2z (v_real v && negb (agrees v)) /\
  unanswered t' = unanswered t + b2z (v_errored v) /\
  bogusRefused t' = bogusRefused t + b2z (v_refused v) /\
  bogusServed t' = bogusServed t + b2z (v_served v) /\
  adHere t' = adHere t + b2z (v_real v && elodinAD v) /\
  adThere t' = adThere t + b2z (v_real v && refAD v) /\
  mismatches t' = mismatches t ++ (if v_served v || v_real v && negb (agrees v) then [v] else []) /\
  errored t' = errored t ++ (if v_errored v then [v] else []).
Proof.
  unfold tally_step, v_real, v_refused, v_served, v_errored, b2z.
  destruct (isSome (elodinErr v) || isSome (refErr v)), (wantBogus v), (elodinRcode v =? 2), (agrees v);
    simpl; rewrite ?app_nil_r; split_and!; try lia; try done.
Qed.

Lemma tally_counts l t :
  let t' := fold_left tally_step l t in
  agreed t' = agreed t + zcount (fun v => v_real v && agrees v) l /\
  disagreed t' = disagreed t + zcount (fun v => v_real v && negb (agrees v)) l /\
  unanswered t' = unanswered t + zcount v_errored l /\
  bogusRefused t' = bogusRefused t + zcount v_refused l /\
  bogusServed t' = bogusServed t + zcount v_served l /\
  adHere t' = adHere t + zcount (fun v => v_real v && elodinAD v) l /\
  adThere t' = adThere t + zcount (fun v => v_real v && refAD v) l /\
  mismatches t' = mismatches t ++ List.filter (fun v => v_served v || v_real v && negb (agrees v)) l /\
  errored t' = errored t ++ List.filter v_errored l.
Proof.
  revert t. induction l as [|v l IH]; intros t; cbn [fold_left]; cbv zeta.
  - unfold zcount, zlen. simpl. rewrite !app_nil_r. split_and!; try lia; done.
  - specialize (IH (tally_step t v)). cbv zeta in IH.
    destruct (tally_step_counts t v) as (H1 & H2 & H3 & H4 & H5 & H6 & H7 & H8 & H9).
    destruct IH as (G1 & G2 & G3 & G4 & G5 & G6 & G7 & G8 & G9).
    rewrite !zcount_cons. unfold b2z in *. cbn [List.filter].
    split_and!; try lia.
    + rewrite G8, H8, <- app_assoc. by destruct (_ || _).
    + rewrite G9, H9, <- app_assoc. by destruct (v_errored v).
Qed.

Lemma outcome_counts l :
  zlen l = zcount (fun v => v_real v && agrees v) l + zcount (fun v => v_real v && negb (agrees v)) l +
    zcount v_errored l + zcount v_refused l + zcount v_served l.
Proof.
  induction l as [|v l IH]; [done|]. rewrite zlen_cons, !zcount_cons, IH.
  unfold v_real, v_refused, v_served. destruct (v_errored v), (wantBogus v), (elodinRcode v =? 2), (agrees v); simpl; lia.
Qed.

(** C29. What the survey reports, whatever order its questions are answered in.
    Every name is counted once, as agreeing, differing, refused, served or
    unanswered; the table of differences lists, in the order of the file, exactly
    the broken zones that were served and the others whose answer or
    authentication is not the reference's; the list below it the names one side
    did not answer. *)
Theorem survey_tally here there domains order :
  order ≡ₚ seq 0 (length domains) ->
  let results := gather here there domains order in
  let t := tally_all results in
  results = map (judge_name here there) domains /\
  zlen domains = agreed t + disagreed t + unanswered t + bogusRefused t + bogusServed t /\
  bogusServed t = zcount (fun v => v_served v) results /\
  mismatches t = List.filter (fun v => v_served v || v_real v && negb (agrees v)) results /\
  errored t = List.filter v_errored results.
Proof.
  intros Hp. cbv zeta. rewrite gather_complete by done. unfold tally_all.
  destruct (tally_counts (map (judge_name here there) domains) tally0) as (H1 & H2 & H3 & H4 & H5 & _ & _ & H8 & H9).
  cbv zeta in *. split_and!; [done| |exact H5|exact H8|exact H9].
  pose proof (outcome_counts (map (judge_name here there) domains)) as Hc.
  unfold zlen in *. rewrite length_map in Hc. simpl in *. lia.
Qed.

Definition ex_domains : list domain :=
  [mkDomain "isc.org" false; mkDomain "dnssec-failed.org" true; mkDomain "example.net" false].

Definition ex_here (n : string) : result ask_error (Z * bool) :=
  if String.eqb n "isc.org" then Ok (0, true) else if String.eqb n "example.net" then Err (NetError "i/o timeout") else Ok (0, false).

Definition ex_there (n : string) : result ask_error (Z * bool) :=
  if String.eqb n "dnssec-failed.org" then Ok (2, false) else Ok (0, true).

Lemma survey_tally_witness :
  let t := tally_all (gather ex_here ex_there ex_domains [2%nat; 0%nat; 1%nat]) in
  3 = agreed t + disagreed t + unanswered t + bogusRefused t + bogusServed t /\
  map v_domain (mismatches t) = ["dnssec-failed.org"] /\ agreed t = 1 /\ unanswered t = 1.
Proof.
  destruct (survey_tally ex_here ex_there ex_domains [2%nat; 0%nat; 1%nat]) as (_ & H1 & _ & H2 & _).
  - apply (bool_decide_eq_true_1 _). reflexivity.
  - cbv zeta in *. split; [exact H1|]. rewrite H2. split; [reflexivity|]. split; reflexivity.
Defined.

(** ** Reading the list back *)

Inductive entry : Type := Blank | Comment (text : string) | Name (d : domain).

Definition show_entry (e : entry) : string :=
  match e with
  | Blank => ""
  | Comment t => "#" +:+ t
  | Name d => dom_name d +:+ (if bogus d then " bogus" else "")
  end.

Definition entry_ok (e : entry) : Prop :=
  lacks nl (show_entry e) /\ slen (show_entry e) < max_token /\
  match e with
  | Blank => True
  | Comment t => True
  | Name d => field_ok is_space (dom_name d) /\ has_prefix "#" (dom_name d) = false
  end.

Definition entry_domain (e : entry) : option domain :=
  match e with Name d => Some d | _ => None end.

Definition name_words (d : domain) : list string := dom_name d :: (if bogus d then ["bogus"] else []).

Lemma show_name d : show_entry (Name d) = join " " (name_words d).
Proof. unfold name_words. simpl. destruct (bogus d); [done|by rewrite str_app_nil_r]. Qed.

Lemma comment_line t : domain_of_line (String "#" t) = None.
Proof.
  unfold domain_of_line. assert (exists u, drop_cr (String "#" t) = String "#" u) as [u ->].
  { unfold drop_cr, trim_suffix. case_match; [|eauto]. destruct t; [done|]. simpl. eauto. }
  unfold trim_space. cbn [trim_left_func].
  change (is_space "#") with false. cbv iota.
  destruct (trim_right_head is_space "#" u eq_refl) as [r ->]. done.
Qed.

Lemma domain_of_shown e : entry_ok e -> domain_of_line (show_entry e) = entry_domain e.
Proof.
  destruct e as [|t|d]; intros (_ & _ & He); [done|apply comment_line|]. destruct He as [Hf Hh].
  assert (Forall (field_ok is_space) (name_words d)) as Hw.
  { unfold name_words. constructor; [done|]. destruct (bogus d); repeat constructor; done. }
  rewrite show_name. unfold domain_of_line, drop_cr. rewrite trim_suffix_lacks_none.
  2:{ apply lacks_join; [done|]. eapply Forall_impl; [exact Hw|]. intros w. by apply field_lacks. }
  rewrite trim_space_join, fields_join by done.
  assert (exists a s, dom_name d = String a s) as (a & s & E) by (destruct Hf as [? _]; destruct (dom_name d); eauto; done).
  assert (join " " (name_words d) = String a (s +:+ (if bogus d then " bogus" else ""))) as ->.
  { unfold name_words. rewrite E. destruct (bogus d); simpl; [done|by rewrite str_app_nil_r]. }
  rewrite E in Hh. simpl in *. rewrite Hh.
  destruct d as [n b]. simpl in *. subst n. by destruct b.
Qed.

Lemma drop_last_empty_snoc l : drop_last_empty (l ++ [""]) = l.
Proof.
  induction l as [|x l IH]; [done|]. cbn [app]. destruct l as [|y l]; [done|].
  change (x :: drop_last_empty ((y :: l) ++ [""]) = x :: y :: l). by rewrite IH.
Qed.

Lemma split_lines_shown es :
  Forall entry_ok es ->
  GoStrings.split nl (concat_all (map (fun e => show_entry e +:+ nls) es)) = map show_entry es ++ [""].
Proof.
  induction 1 as [|e es (He & _) _ IH]; [done|]. cbn [map concat_all]. rewrite str_app_assoc.
  change (nls +:+ concat_all (map (fun e => show_entry e +:+ nls) es)) with
    (String nl (concat_all (map (fun e => show_entry e +:+ nls) es))).
  by rewrite split_lacks_app, IH.
Qed.

(** A file of names, one a line, with blank lines and comments among them, is
    read back as those names, each with its mark. *)
Theorem readDomains_file es :
  Forall entry_ok es ->
  readDomains (Some (concat_all (map (fun e => show_entry e +:+ nls) es))) = (omap entry_domain es, true).
Proof.
  intros H. unfold readDomains. rewrite split_lines_shown, drop_last_empty_snoc by done.
  induction H as [|e es He _ IH]; [done|]. cbn [map read_lines].
  destruct (max_token <=? slen (show_entry e)) eqn:E; [b2p; destruct He as (_ & ? & _); lia|].
  rewrite IH, domain_of_shown by done. simpl. by destruct (entry_domain e).
Qed.

Lemma readDomains_file_witness :
  readDomains (Some ("# names" +:+ nls +:+ nls +:+ "isc.org" +:+ nls +:+ "dnssec-failed.org bogus" +:+ nls)) =
    ([mkDomain "isc.org" false; mkDomain "dnssec-failed.org" true], true).
Proof.
  apply (readDomains_file [Comment " names"; Blank; Name (mkDomain "isc.org" false);
    Name (mkDomain "dnssec-failed.org" true)]).
  repeat (apply Forall_cons; split); [..|constructor];
    (split; [reflexivity|split; [reflexivity|]]); try exact I; (split; [split; [discriminate|reflexivity]|reflexivity]).
Defined.
