(* ===== verification/BenchRun.v ===== *)
(** * [bench/cmd/bench]: the driver's effects and the runs it measures

    What a section of the benchmark does to the outside -- start a server, stop
    it, run the load generator against it, read its memory -- is an operation of
    [op]; a section is a program over them ([prog]), composed as the code
    composes its calls, with the errors it returns as values.  [exec] runs one
    against any machine ([handler]), which may answer each operation by
    everything that happened before.  [wp] is the weakest precondition of a
    program over every machine; its rule for a server is that one is running at
    a time and none is left.

    From [scenarios.go]: [load] and the figures of a row; the sections
    themselves are in [BenchSections] and [BenchCompare]. *)

From stdpp Require Import sorting.
From S2P Require Import Prelude GoStrings GoFloat Hist LoadGen.

(** ** Options of a run *)

(** [serverOpts] over its zero value. *)
Record serverOpts : Type := mkOpts {
  so_name : string; so_kind : string; so_loops : Z; so_maxPending : Z; so_maxConnections : Z;
  so_clientTimeout : duration; so_cpus : string; so_cache : bool; so_cacheEntries : Z;
  so_blockRules : Z; so_certKind : string; so_logQueries : bool; so_logLevel : string;
  so_noUpstream : bool; so_dnssec : bool; so_upstreamAddr : string; so_attempts : Z
}.

Inductive opt_field : Type :=
  | Kind (s : string) | Loops (n : Z) | MaxPending (n : Z) | MaxConnections (n : Z)
  | ClientTimeout (d : duration) | Cpus (s : string) | Cached | CacheEntries (n : Z)
  | BlockRules (n : Z) | CertKind (s : string) | LogQueries (b : bool) | LogLevel (s : string)
  | UpstreamAddr (s : string) | Attempts (n : Z) | NoUpstream | Dnssec.

Definition set_field (o : serverOpts) (x : opt_field) : serverOpts :=
  let '(mkOpts n k l p c t u ca ce b ck lq ll nu ds up att) := o in
  match x with
  | Kind k => mkOpts n k l p c t u ca ce b ck lq ll nu ds up att
  | Loops l => mkOpts n k l p c t u ca ce b ck lq ll nu ds up att
  | MaxPending p => mkOpts n k l p c t u ca ce b ck lq ll nu ds up att
  | MaxConnections c => mkOpts n k l p c t u ca ce b ck lq ll nu ds up att
  | ClientTimeout t => mkOpts n k l p c t u ca ce b ck lq ll nu ds up att
  | Cpus u => mkOpts n k l p c t u ca ce b ck lq ll nu ds up att
  | Cached => mkOpts n k l p c t u true ce b ck lq ll nu ds up att
  | CacheEntries ce => mkOpts n k l p c t u ca ce b ck lq ll nu ds up att
  | BlockRules b => mkOpts n k l p c t u ca ce b ck lq ll nu ds up att
  | CertKind ck => mkOpts n k l p c t u ca ce b ck lq ll nu ds up att
  | LogQueries lq => mkOpts n k l p c t u ca ce b ck lq ll nu ds up att
  | LogLevel ll => mkOpts n k l p c t u ca ce b ck lq ll nu ds up att
  | UpstreamAddr up => mkOpts n k l p c t u ca ce b ck lq ll nu ds up att
  | Attempts att => mkOpts n k l p c t u ca ce b ck lq ll nu ds up att
  | NoUpstream => mkOpts n k l p c t u ca ce b ck lq ll true ds up att
  | Dnssec => mkOpts n k l p c t u ca ce b ck lq ll nu true up att
  end.

(** A composite literal [serverOpts{name: n, ...}]. *)
Definition server_opts (n : string) (fields : list opt_field) : serverOpts :=
  fold_left set_field fields (mkOpts n "" 0 0 0 0 "" false 0 0 "" false "" false false "" 0).

Record loadOpts : Type := mkLoad {
  lo_transport : string; lo_clients : Z; lo_concurrency : Z; lo_qmode : string; lo_qname : string;
  lo_rate : Z; lo_duration : duration; lo_cpus : string; lo_repeat : Z
}.

Inductive load_field : Type :=
  | Conc (n : Z) | Qmode (s : string) | Qname (s : string) | Rate (n : Z) | Dur (d : duration)
  | OnCpus (s : string) | Repeat (n : Z).

Definition set_load (o : loadOpts) (x : load_field) : loadOpts :=
  let '(mkLoad t c k m n r d u p) := o in
  match x with
  | Conc k => mkLoad t c k m n r d u p
  | Qmode m => mkLoad t c k m n r d u p
  | Qname n => mkLoad t c k m n r d u p
  | Rate r => mkLoad t c k m n r d u p
  | Dur d => mkLoad t c k m n r d u p
  | OnCpus u => mkLoad t c k m n r d u p
  | Repeat p => mkLoad t c k m n r d u p
  end.

Definition load_opts (transport : string) (clients : Z) (fields : list load_field) : loadOpts :=
  fold_left set_load fields (mkLoad transport clients 0 "" "" 0 0 "" 0).

(** The flags the sections read. *)
Record bench_flags : Type := mkBench {
  f_held : Z; f_duration : duration; f_warmup : duration; f_upstreamRTT : duration;
  f_repeat : Z; f_cooldown : duration
}.

Definition default_bench : bench_flags :=
  mkBench 20000 (10 * second) (2 * second) (20 * millisecond) 3 (15 * second).

(** What was true of the server while a run happened. *)
Record sample : Type := mkSample { PeakRSS : Z; CPU : duration; MaxThreads : Z; Spread : float64 }.

Definition CPUPerQuery (sm : sample) (answered : Z) : duration :=
  if answered =? 0 then 0 else Z.quot (CPU sm) answered.

(** The zero [Result]. *)
Definition no_result : Result := mkResult "" 0 0 0 0 ∅ (f_of_Z 0) (f_of_Z 0) (f_of_Z 0) (f_of_Z 0) 0 0 0.

(** ** Effects *)

(** A server the driver started: the number of its start, what a row asked of it,
    and where it listens. *)
Record server : Type := mkServer {
  s_num : nat; s_opts : serverOpts; dnsAddr : string; dotAddr : string; dohAddr : string;
  caPath : string; logPath : string
}.

Definition addrFor (s : server) (transport : string) : string :=
  if String.eqb transport "dot" || String.eqb transport "handshake" then dotAddr s
  else if String.eqb transport "doh1" || String.eqb transport "doh2" then dohAddr s
  else dnsAddr s.

Definition ends : Type := string * string * string * string * string.

(** How one run of the generator failed: its process, or its output. *)
Inductive loadgen_failure : Type := RunFailed (e : string) | BadOutput (e : string).

Inductive op : Type -> Type :=
  | StartServer (o : serverOpts) : op (result string server)
  | StopServer (s : server) : op unit
  | Loadgen (s : server) (argv : list string) : op (result loadgen_failure (Result * sample))
  | Once (s : server) (transport : string) (n : Z) (qmode : string) : op (result string (Result * Z * Z))
  | Rss (s : server) : op Z
  | StartMock (delay : duration) : op (result string string)
  | Sleep (d : duration) : op unit
  | WaitReady (s : server) (qname : string) : op (option string)
  | WaitBlocked (s : server) : op (option string)
  | FileSize (path : string) : op Z
  | Remove (path : string) : op unit
  | FreeBytes : op (result string Z)
  | ServerLabel (kind : string) : op string
  | NumCPU : op Z
  | HasTaskset : op bool
  | RmemDefault : op (result string string)
  | AvgMHz : op float64
  | DescribeMachine : op string.

Inductive prog (A : Type) : Type :=
  | Ret (a : A)
  | Do {X : Type} (o : op X) (k : X -> prog A).
Arguments Ret {A} a.
Arguments Do {A X} o k.

Fixpoint pbind {A B} (p : prog A) (f : A -> prog B) : prog B :=
  match p with
  | Ret a => f a
  | Do o k => Do o (fun x => pbind (k x) f)
  end.

Definition act {X} (o : op X) : prog X := Do o Ret.

Notation "'let!' x ':=' m 'in' k" := (pbind m (fun x => k))
  (at level 10, x pattern, m at level 100, k at level 200) : elodin_scope.

(** Go's [if err != nil { return ..., err }]. *)
Notation "'let!?' x ':=' m 'in' k" :=
  (pbind m (fun r => match r with Err e => Ret (Err e) | Ok x => k end))
  (at level 10, x pattern, m at level 100, k at level 200) : elodin_scope.

(** ** Running against a machine *)

(** One operation as it happened, with the machine's answer. *)
Inductive happened : Type :=
  | Ev {X : Type} (o : op X) (x : X).

(** A machine decides every answer from what happened before (latest first); a
    server it starts is given the next number and its addresses. *)
Record handler : Type := mkHandler {
  answers : forall X, list happened -> op X -> X;
  starts : list happened -> serverOpts -> result string ends
}.

Definition answer_of (h : handler) (past : list happened) (next : nat) {X} (o : op X) : X :=
  match o in op X return X with
  | StartServer o =>
      match starts h past o with
      | Err e => Err e
      | Ok (d, t, w, ca, lg) => Ok (mkServer next o d t w ca lg)
      end
  | o => answers h _ past o
  end.

Definition next_num {X} (o : op X) : X -> nat -> nat :=
  match o in op X return X -> nat -> nat with
  | StartServer _ => fun r n => match r with Ok _ => S n | Err _ => n end
  | _ => fun _ n => n
  end.

Fixpoint exec (h : handler) (past : list happened) (next : nat) {A} (p : prog A)
  : A * nat * list happened :=
  match p with
  | Ret a => (a, next, past)
  | Do o k =>
      let x := answer_of h past next o in exec h (Ev o x :: past) (next_num o x next) (k x)
  end.

(** The server that runs after an operation, [None] when the operation was asked
    of a server that does not run, or started one beside another. *)
Definition live_after (live : option nat) (e : happened) : option (option nat) :=
  match e with
  | Ev o x =>
      match o in op X return X -> option (option nat) with
      | StartServer _ => fun r =>
          match live, r with
          | None, Ok s => Some (Some (s_num s))
          | None, Err _ => Some None
          | Some _, _ => None
          end
      | StopServer s => fun _ => if decide (live = Some (s_num s)) then Some None else None
      | Loadgen s _ => fun _ => if decide (live = Some (s_num s)) then Some live else None
      | Once s _ _ _ => fun _ => if decide (live = Some (s_num s)) then Some live else None
      | Rss s => fun _ => if decide (live = Some (s_num s)) then Some live else None
      | WaitReady s _ => fun _ => if decide (live = Some (s_num s)) then Some live else None
      | WaitBlocked s => fun _ => if decide (live = Some (s_num s)) then Some live else None
      | _ => fun _ => Some live
      end x
  end.

Fixpoint live_of (trace : list happened) : option (option nat) :=
  match trace with
  | [] => Some None
  | e :: past => match live_of past with None => None | Some live => live_after live e end
  end.

(** ** Weakest preconditions *)

Definition wp_op {X} (o : op X) (n : nat) (live : option nat) : (X -> nat -> option nat -> Prop) -> Prop :=
  match o in op X return (X -> nat -> option nat -> Prop) -> Prop with
  | StartServer o => fun K =>
      live = None /\ (forall e, K (Err e) n None) /\
      (forall d t w ca lg, K (Ok (mkServer n o d t w ca lg)) (S n) (Some n))
  | StopServer s => fun K => live = Some (s_num s) /\ forall x, K x n None
  | Loadgen s _ => fun K => live = Some (s_num s) /\ forall x, K x n live
  | Once s _ _ _ => fun K => live = Some (s_num s) /\ forall x, K x n live
  | Rss s => fun K => live = Some (s_num s) /\ forall x, K x n live
  | WaitReady s _ => fun K => live = Some (s_num s) /\ forall x, K x n live
  | WaitBlocked s => fun K => live = Some (s_num s) /\ forall x, K x n live
  | _ => fun K => forall x, K x n live
  end.

Fixpoint wp {A} (p : prog A) (n : nat) (live : option nat) (Q : A -> nat -> option nat -> Prop) : Prop :=
  match p with
  | Ret a => Q a n live
  | Do o k => wp_op o n live (fun x n live => wp (k x) n live Q)
  end.

Lemma wp_op_mono {X} (o : op X) n live (K K' : X -> nat -> option nat -> Prop) :
  (forall x n l, K x n l -> K' x n l) -> wp_op o n live K -> wp_op o n live K'.
Proof. intros H. destruct o; simpl; naive_solver. Qed.

Lemma wp_mono {A} (p : prog A) n live (Q Q' : A -> nat -> option nat -> Prop) :
  (forall a n l, Q a n l -> Q' a n l) -> wp p n live Q -> wp p n live Q'.
Proof.
  intros H. revert n live. induction p as [a|X o k IH]; intros n live; simpl; [apply H|].
  apply wp_op_mono. intros x n' l. apply IH.
Qed.

Lemma wp_bind {A B} (p : prog A) (f : A -> prog B) n live Q :
  wp p n live (fun a n l => wp (f a) n l Q) -> wp (pbind p f) n live Q.
Proof.
  revert n live. induction p as [a|X o k IH]; intros n live; simpl; [done|].
  apply wp_op_mono. intros x n' l. apply IH.
Qed.

(** What [wp] proves holds of every execution: no operation is asked of a server
    that does not run, none is started beside another, and the run ends as the
    postcondition says. *)
Lemma wp_op_sound {X} (o : op X) h past n live K :
  live_of past = Some live -> wp_op o n live K ->
  let x := answer_of h past n o in
  exists live', live_of (Ev o x :: past) = Some live' /\ K x (next_num o x n) live'.
Proof.
  intros Hl Hw. destruct o; simpl in *; rewrite Hl; simpl;
    try (destruct Hw as [-> Hw]; rewrite decide_True by done; eauto); eauto.
  destruct Hw as (-> & He & Hs). destruct (starts h past o) as [[[[[d t] w] ca] lg]|e]; eauto.
Qed.

Lemma wp_sound {A} (p : prog A) h past n live Q :
  live_of past = Some live -> wp p n live Q ->
  let '(a, n', past') := exec h past n p in exists live', live_of past' = Some live' /\ Q a n' live'.
Proof.
  revert past n live. induction p as [a|X o k IH]; intros past n live Hl Hw; simpl in *; [eauto|].
  destruct (wp_op_sound o h past n live _ Hl Hw) as (live' & Hl' & Hw').
  exact (IH _ _ _ _ Hl' Hw').
Qed.

(** A program that leaves no server behind, and one that keeps to its own. *)
Definition quiet {A} (p : prog A) : Prop := forall n, wp p n None (fun _ _ l => l = None).

Definition keeps {A} (s : server) (p : prog A) : Prop :=
  forall n, wp p n (Some (s_num s)) (fun _ _ l => l = Some (s_num s)).

Lemma quiet_bind {A B} (p : prog A) (f : A -> prog B) :
  quiet p -> (forall a, quiet (f a)) -> quiet (pbind p f).
Proof. intros Hp Hf n. apply wp_bind. eapply wp_mono; [|apply Hp]. intros a n' l ->. apply Hf. Qed.

Lemma keeps_bind {A B} s (p : prog A) (f : A -> prog B) :
  keeps s p -> (forall a, keeps s (f a)) -> keeps s (pbind p f).
Proof. intros Hp Hf n. apply wp_bind. eapply wp_mono; [|apply Hp]. intros a n' l ->. apply Hf. Qed.

Lemma quiet_ret {A} (a : A) : quiet (Ret a).
Proof. done. Qed.

Lemma keeps_ret {A} s (a : A) : keeps s (Ret a).
Proof. done. Qed.

(** A program that stops the server it was handed. *)
Definition owns {A} (s : server) (p : prog A) : Prop :=
  forall n, wp p n (Some (s_num s)) (fun _ _ l => l = None).

Lemma owns_bind {A B} s (p : prog A) (f : A -> prog B) :
  keeps s p -> (forall a, owns s (f a)) -> owns s (pbind p f).
Proof. intros Hp Hf n. apply wp_bind. eapply wp_mono; [|apply Hp]. intros a n' l ->. apply Hf. Qed.

Lemma owns_stop {A} s (k : unit -> prog A) : (forall x, quiet (k x)) -> owns s (pbind (act (StopServer s)) k).
Proof. intros H n. simpl. split; [done|]. intros x. apply H. Qed.

Lemma start_quiet {A} o (k : result string server -> prog A) :
  (forall e, quiet (k (Err e))) -> (forall s, owns s (k (Ok s))) -> quiet (pbind (act (StartServer o)) k).
Proof.
  intros He Hs n. simpl. split; [done|]. split; [intros e; apply He|]. intros d t w ca lg.
  exact (Hs (mkServer n o d t w ca lg) (S n)).
Qed.

(** [s, err := h.startServer(o); if err != nil { return err }; defer s.stop()]. *)
Definition with_server {A} (o : serverOpts) (body : server -> prog (result string A)) : prog (result string A) :=
  let!? s := act (StartServer o) in
  let! r := body s in
  let! _ := act (StopServer s) in
  Ret r.

Lemma with_server_quiet {A} o (body : server -> prog (result string A)) :
  (forall s, keeps s (body s)) -> quiet (with_server o body).
Proof.
  intros H. apply start_quiet; [intros e; apply quiet_ret|]. intros s. apply owns_bind; [apply H|].
  intros r. apply owns_stop. intros _. apply quiet_ret.
Qed.

(** A loop whose body may fail. *)
Fixpoint for_each {X S : Type} (l : list X) (f : S -> X -> prog (result string S)) (s : S)
  : prog (result string S) :=
  match l with
  | [] => Ret (Ok s)
  | x :: l => let!? s := f s x in for_each l f s
  end.

Lemma for_each_Forall {X S} (l : list X) (f : S -> X -> prog (result string S)) s :
  Forall (fun x => forall s, quiet (f s x)) l -> quiet (for_each l f s).
Proof.
  intros Hl. revert s. induction Hl as [|x l Hx Hl IH]; intros s; [apply quiet_ret|].
  apply quiet_bind; [apply Hx|]. intros [s'|e]; [apply IH|apply quiet_ret].
Qed.

Lemma for_each_quiet {X S} (l : list X) (f : S -> X -> prog (result string S)) s :
  (forall s x, quiet (f s x)) -> quiet (for_each l f s).
Proof. intros Hf. apply for_each_Forall, Forall_true. auto. Qed.

Lemma for_each_keeps {X S} v (l : list X) (f : S -> X -> prog (result string S)) s :
  (forall s x, keeps v (f s x)) -> keeps v (for_each l f s).
Proof.
  intros Hf. revert s. induction l as [|x l IH]; intros s; [apply keeps_ret|].
  apply keeps_bind; [apply Hf|]. intros [s'|e]; [apply IH|apply keeps_ret].
Qed.

#[export] Hint Resolve @quiet_ret @keeps_ret @quiet_bind @keeps_bind @with_server_quiet
  @for_each_quiet @for_each_keeps : bench.

(** ** One run of the generator, and the median of several *)

Record harness : Type := mkHarness {
  h_kinds : list string; h_skipped : list string; h_loadgen : string; h_unitEnv : list string;
  h_dir : string
}.

(** The defaults [loadOnce] fills in. *)
Definition load_defaults (f : bench_flags) (o : loadOpts) : loadOpts :=
  mkLoad (lo_transport o)
    (if lo_clients o =? 0 then 100 else lo_clients o)
    (if lo_concurrency o =? 0 then 1 else lo_concurrency o)
    (if String.eqb (lo_qmode o) "" then "fixed" else lo_qmode o)
    (if String.eqb (lo_qname o) "" then "cached.bench.test" else lo_qname o)
    (lo_rate o)
    (if lo_duration o =? 0 then f_duration f else lo_duration o)
    (lo_cpus o) (lo_repeat o).

Definition load_args (f : bench_flags) (s : server) (o : loadOpts) : list string :=
  ["-server"; addrFor s (lo_transport o); "-transport"; lo_transport o;
   "-clients"; itoa (lo_clients o); "-concurrency"; itoa (lo_concurrency o);
   "-qmode"; lo_qmode o; "-qname"; lo_qname o; "-duration"; dur_string (lo_duration o);
   "-warmup"; dur_string (f_warmup f); "-ca"; caPath s] ++
  (if lo_rate o >? 0 then ["-rate"; itoa (lo_rate o)] else []).

Definition loadOnce (h : harness) (f : bench_flags) (s : server) (o : loadOpts)
  : prog (result string (Result * sample)) :=
  let o := load_defaults f o in
  let args := load_args f s o in
  let argv := if String.eqb (lo_cpus o) "" then h_loadgen h :: args
              else ["taskset"; "-c"; lo_cpus o; h_loadgen h] ++ args in
  let! r := act (Loadgen s argv) in
  Ret (match r with
       | Err (RunFailed e) => Err ("loadgen " +:+ join " " args +:+ ": " +:+ e)
       | Err (BadOutput e) => Err ("parsing loadgen output: " +:+ e)
       | Ok a => Ok a
       end).

(** [slices.SortFunc] on at most twelve elements is an insertion sort: each
    element moves left past those it is smaller than.  The sorted part is kept
    last element first. *)
Definition slower (a b : Result * sample) : bool := flt (QPS (fst a)) (QPS (fst b)).

Fixpoint go_insert (x : Result * sample) (sorted : list (Result * sample)) : list (Result * sample) :=
  match sorted with
  | [] => [x]
  | y :: rest => if slower x y then y :: go_insert x rest else x :: sorted
  end.

Definition sort_runs (runs : list (Result * sample)) : list (Result * sample) :=
  rev (fold_left (fun sorted x => go_insert x sorted) runs []).

(** The median run by throughput, and how far the fastest and slowest are
    apart. *)
Definition median (runs : list (Result * sample)) : option (Result * sample) :=
  let runs := sort_runs runs in
  match runs !! (length runs / 2)%nat, head runs, last runs with
  | Some (r, sm), Some (rlo, _), Some (rhi, _) =>
      let lo := QPS rlo in
      let spread := if flt (f_of_Z 0) lo then fdiv (fsub (QPS rhi) lo) lo else f_of_Z 0 in
      Some (r, mkSample (PeakRSS sm) (CPU sm) (MaxThreads sm) spread)
  | _, _, _ => None
  end.

Definition runs_asked (f : bench_flags) (o : loadOpts) : Z :=
  let n := if lo_repeat o =? 0 then f_repeat f else lo_repeat o in if n <? 1 then 1 else n.

(** One turn of the loop of [load]. *)
Definition one_run (h : harness) (f : bench_flags) (s : server) (o : loadOpts)
  (runs : list (Result * sample)) (_ : unit) : prog (result string (list (Result * sample))) :=
  let! _ := act (Sleep (f_cooldown f)) in
  let!? run := loadOnce h f s o in
  Ret (Ok (runs ++ [run])).

Definition load (h : harness) (f : bench_flags) (s : server) (o : loadOpts)
  : prog (result string (Result * sample)) :=
  let!? runs := for_each (repeat tt (Z.to_nat (runs_asked f o))) (one_run h f s o) [] in
  Ret (match median runs with
       | Some m => Ok m
       | None => Err ""  (* no run: see [load_runs], [runs_asked] is at least one *)
       end).

(** ** The figures of a row *)

(** [strconv.FormatFloat(v, 'f', 0, 64)] with a comma before every third byte
    from the right. *)
Fixpoint commas (s : string) : string :=
  match s with
  | EmptyString => ""
  | String c rest =>
      String c (if (negb (String.eqb rest "")) && (Nat.modulo (String.length rest) 3 =? 0)%nat
                then String "," (commas rest) else commas rest)
  end.

Definition thousands (v : float64) : string := commas (fmt_float 0 v).

Definition thousandsZ (n : Z) : string := thousands (f_of_Z n).

Definition ms (v : float64) : string :=
  if flt v (f_of_Z 1) then fmt_float 2 v +:+ " ms" else fmt_float 1 v +:+ " ms".

Definition mib (b : Z) : string :=
  if b =? 0 then "—" else fmt_float 0 (fdiv (f_of_Z b) (f_of_Z (2 ^ 20))) +:+ " MB".

Definition perItem (delta n : Z) : string :=
  let per := fdiv (f_of_Z delta) (f_of_Z n) in
  let kb := fdiv per (f_of_Z 1024) in
  if flt per (f_of_Z (10 * 1024)) then fmt_float 1 kb +:+ " KB" else fmt_float 0 kb +:+ " KB".

Definition answeredOf (r : Result) (n : Z) : string :=
  if Answered r =? n then "all"
  else "**" +:+ thousandsZ (Answered r) +:+ " of " +:+ thousandsZ n +:+ "**".

Definition label (t : string) : string :=
  if String.eqb t "udp" then "UDP"
  else if String.eqb t "tcp" then "TCP"
  else if String.eqb t "dot" then "DoT"
  else if String.eqb t "doh1" then "DoH over HTTP/1.1"
  else if String.eqb t "doh2" then "DoH over HTTP/2"
  else t.

Definition row (name : string) (r : Result) (rss : Z) : string :=
  "| " +:+ name +:+ " | " +:+ thousands (QPS r) +:+ " qps | " +:+ ms (P50ms r) +:+ " | " +:+
  ms (P99ms r) +:+ " | " +:+ mib rss +:+ " |" +:+ nls.

(** [fmt] prints a map with its keys in order. *)
Definition key_le (a b : string * Z) : Prop := String.leb (fst a) (fst b) = true.

#[export] Instance key_le_dec : RelDecision key_le.
Proof. intros a b. unfold key_le. apply _. Defined.

Definition show_counts (m : gmap string Z) : string :=
  "map[" +:+ join " " (map (fun kv => fst kv +:+ ":" +:+ itoa (snd kv)) (merge_sort key_le (map_to_list m))) +:+ "]".

(** A run whose answers are not of the kind the row is about is no row. *)
Definition expectRcode (r : Result) (want : string) : option string :=
  if Answered r =? 0 then Some "nothing was answered"
  else
    let got := default 0 (Rcodes r !! want) in
    if got * 10 <? Answered r * 9 then
      Some ("only " +:+ itoa got +:+ " of " +:+ itoa (Answered r) +:+ " answers were " +:+ want +:+ ": " +:+
            show_counts (Rcodes r))
    else None.

Example thousands_ex : map thousandsZ [0; 999; 1000; 1234567] = ["0"; "999"; "1,000"; "1,234,567"].
Proof. vm_compute. reflexivity. Qed.

(** An error with what was being done before it: [fmt.Errorf("...: %w", err)]. *)
Definition prefix_err {A} (what : string) (p : prog (result string A)) : prog (result string A) :=
  let! r := p in Ret (match r with Err e => Err (what +:+ ": " +:+ e) | Ok a => Ok a end).

Definition expecting (want : string) (p : prog (result string (Result * sample)))
  : prog (result string (Result * sample)) :=
  let!? a := p in
  Ret (match expectRcode (fst a) want with Some e => Err e | None => Ok a end).

(** ** Programs that keep to one server *)

Lemma keeps_act {X} s (o : op X) :
  (forall n, wp_op o n (Some (s_num s)) (fun _ _ l => l = Some (s_num s))) -> keeps s (act o).
Proof. intros H n. apply H. Qed.

Lemma quiet_act {X} (o : op X) : (forall n, wp_op o n None (fun _ _ l => l = None)) -> quiet (act o).
Proof. intros H n. apply H. Qed.

Lemma prefix_err_keeps {A} s what (p : prog (result string A)) : keeps s p -> keeps s (prefix_err what p).
Proof. intros H. apply keeps_bind; [done|]. intros []; apply keeps_ret. Qed.

Lemma prefix_err_quiet {A} what (p : prog (result string A)) : quiet p -> quiet (prefix_err what p).
Proof. intros H. apply quiet_bind; [done|]. intros []; apply quiet_ret. Qed.

Lemma expecting_keeps s want p : keeps s p -> keeps s (expecting want p).
Proof. intros H. apply keeps_bind; [done|]. intros []; apply keeps_ret. Qed.
(** One step of a proof that a program is [quiet] or [keeps] a server: a bind, a
    loop, a server of its own, or a case. *)
Ltac bench_step :=
  match goal with
  | |- quiet (Ret _) => apply quiet_ret
  | |- quiet (pbind (act (StartServer _)) _) => apply start_quiet; intros ?
  | |- owns ?s (pbind (act (StopServer ?s)) _) => apply owns_stop; intros ?
  | |- owns _ (pbind _ _) => apply owns_bind; [|intros ?]
  | |- keeps _ (Ret _) => apply keeps_ret
  | |- quiet (pbind _ _) => apply quiet_bind; [|intros ?]
  | |- keeps _ (pbind _ _) => apply keeps_bind; [|intros ?]
  | |- quiet (with_server _ _) => apply with_server_quiet; intros ?
  | |- keeps _ (prefix_err _ _) => apply prefix_err_keeps
  | |- quiet (prefix_err _ _) => apply prefix_err_quiet
  | |- keeps _ (expecting _ _) => apply expecting_keeps
  | |- quiet (for_each _ _ _) => apply for_each_quiet; intros ??
  | |- keeps _ (for_each _ _ _) => apply for_each_keeps; intros ??
  | |- quiet (act _) => apply quiet_act; simpl; auto
  | |- keeps _ (act _) => apply keeps_act; simpl; auto
  | |- context [match ?x with _ => _ end] => destruct x
  end.

Ltac bench := repeat (cbv beta iota zeta; first [bench_step | solve [eauto with bench]]).

Lemma loadOnce_keeps h f s o : keeps s (loadOnce h f s o).
Proof. unfold loadOnce. bench. Qed.
#[export] Hint Resolve loadOnce_keeps : bench.

Lemma load_keeps h f s o : keeps s (load h f s o).
Proof. unfold load, one_run. bench. Qed.
#[export] Hint Resolve load_keeps : bench.

(** ** What a program may ask *)

(** Every operation a program may come to satisfies [P], whatever it is
    answered. *)
Fixpoint asks (P : forall X, op X -> Prop) {A} (p : prog A) : Prop :=
  match p with
  | Ret _ => True
  | Do o k => P _ o /\ forall x, asks P (k x)
  end.

Section asks.
Context (P : forall X, op X -> Prop).

Lemma asks_bind {A B} (p : prog A) (f : A -> prog B) : asks P p -> (forall a, asks P (f a)) -> asks P (pbind p f).
Proof. intros Hp Hf. induction p as [a|X o k IH]; [apply Hf|]. destruct Hp as [Ho Hk]. split; [done|auto]. Qed.

Lemma asks_act {X} (o : op X) : P X o -> asks P (act o).
Proof. by split. Qed.

Lemma asks_for_each {X S} (l : list X) (f : S -> X -> prog (result string S)) s :
  Forall (fun x => forall s, asks P (f s x)) l -> asks P (for_each l f s).
Proof.
  intros Hl. revert s. induction Hl as [|x l Hx Hl IH]; intros s; [done|].
  apply asks_bind; [apply Hx|]. intros [s'|e]; [apply IH|done].
Qed.

(** What [asks] proves holds of every execution. *)
Lemma asks_sound {A} (p : prog A) h past n e :
  asks P p -> e ∈ snd (exec h past n p) -> e ∈ past \/ match e with Ev o _ => P _ o end.
Proof.
  revert past n. induction p as [a|X o k IH]; intros past n Hp He; [by left|]. destruct Hp as [Ho Hk].
  destruct (IH _ _ _ (Hk _) He) as [H|H]; [|by right]. apply elem_of_cons in H as [->|H]; [by right|by left].
Qed.
End asks.

(** ** The median *)

Definition qps_ok (x : Result * sample) : Prop := is_nan (QPS (fst x)) = false.

(** Fastest first. *)
Definition faster_first (x y : Result * sample) : Prop := slower x y = false.

Lemma go_insert_perm x l : go_insert x l ≡ₚ x :: l.
Proof.
  induction l as [|y l IH]; [done|]. simpl. destruct (slower x y); [|done].
  rewrite IH. apply Permutation_swap.
Qed.

Lemma go_insert_sorted x l :
  qps_ok x -> Forall qps_ok l -> StronglySorted faster_first l -> StronglySorted faster_first (go_insert x l).
Proof.
  intros Hx Hl Hs. induction Hs as [|y l Hs IH Hy]; [repeat constructor|].
  apply Forall_cons in Hl as [Hy' Hl]. simpl. destruct (slower x y) eqn:E.
  - constructor; [by apply IH|]. rewrite go_insert_perm. constructor; [|done]. by apply flt_asym.
  - constructor; [by constructor|]. constructor; [done|]. rewrite !Forall_forall in *.
    intros z Hz. eapply nlt_trans; [apply Hx|apply Hy'|by apply Hl|exact E|by apply Hy].
Qed.

Lemma go_sort_go l acc :
  Forall qps_ok l -> Forall qps_ok acc -> StronglySorted faster_first acc ->
  let out := fold_left (fun sorted x => go_insert x sorted) l acc in
  out ≡ₚ acc ++ l /\ StronglySorted faster_first out.
Proof.
  revert acc. induction l as [|x l IH]; intros acc Hl Ha Hs; simpl; [by rewrite app_nil_r|].
  apply Forall_cons in Hl as [Hx Hl].
  destruct (IH (go_insert x acc)) as [Hp Ho]; [done| |by apply go_insert_sorted|].
  - rewrite go_insert_perm. by constructor.
  - split; [|done]. rewrite Hp, go_insert_perm. simpl. by rewrite <- Permutation_middle.
Qed.

(** Slowest first, and nothing lost. *)
Lemma sort_runs_spec runs :
  Forall qps_ok runs ->
  sort_runs runs ≡ₚ runs /\
  exists fast, sort_runs runs = rev fast /\ StronglySorted faster_first fast.
Proof.
  intros Hr. destruct (go_sort_go runs [] Hr) as [Hp Hs]; [constructor..|]. split.
  - unfold sort_runs. by rewrite rev_alt, <- rev_alt, <- Permutation_rev.
  - by eexists.
Qed.

Lemma sorted_split fast slow x :
  StronglySorted faster_first (fast ++ x :: slow) ->
  Forall (fun y => slower y x = false) fast /\ Forall (fun y => slower x y = false) slow.
Proof.
  induction fast as [|y fast IH]; simpl; intros Hs; apply StronglySorted_inv in Hs as [Hs Hy]; [by split|].
  destruct (IH Hs) as [Hf Hsl]. split; [|done]. constructor; [|done].
  apply Forall_app in Hy as [_ Hy]. by apply Forall_cons in Hy as [Hy _].
Qed.

Lemma zcount_le {A} (f : A -> bool) l : zcount f l <= zlen l.
Proof. induction l as [|x l IH]; [done|]. rewrite zcount_cons, zlen_cons. destruct (f x); lia. Qed.

Lemma zcount_perm {A} (f : A -> bool) l k : l ≡ₚ k -> zcount f l = zcount f k.
Proof. induction 1; rewrite ?zcount_cons; lia. Qed.

(** What [y] is to the median [x]: the extremes of the runs. *)
Definition slowest (runs : list (Result * sample)) (x : Result * sample) : Prop :=
  x ∈ runs /\ Forall (fun y => slower y x = false) runs.

Definition fastest (runs : list (Result * sample)) (x : Result * sample) : Prop :=
  x ∈ runs /\ Forall (fun y => slower x y = false) runs.

Lemma sort_runs_at runs i x :
  Forall qps_ok runs -> sort_runs runs !! i = Some x ->
  x ∈ runs /\ zcount (fun y => slower y x) runs <= Z.of_nat i /\
  zcount (fun y => slower x y) runs <= zlen runs - 1 - Z.of_nat i.
Proof.
  intros Hr Hx. destruct (sort_runs_spec runs Hr) as [Hp (fast & Ef & Hs)].
  assert (Hin : x ∈ runs) by (rewrite <- Hp; by eapply list_elem_of_lookup_2). split; [done|].
  apply list_elem_of_split_length in Hx as (slow & quick & E & Hl).
  assert (Ef' : fast = rev quick ++ x :: rev slow).
  { rewrite <- (rev_involutive fast), <- Ef, E, rev_app_distr. simpl. by rewrite <- app_assoc. }
  rewrite Ef' in Hs. apply sorted_split in Hs as [Hq Hsl].
  rewrite <- !(zcount_perm _ _ _ Hp), !E, !zcount_app, !zcount_cons.
  apply Forall_rev in Hq, Hsl. rewrite rev_involutive in Hq, Hsl. 
  assert (slower x x = false) as -> by apply flt_irrefl.
  rewrite (zcount_false (fun y => slower y x) quick Hq), (zcount_false (fun y => slower x y) slow Hsl).
  pose proof (zcount_le (fun y => slower y x) slow). pose proof (zcount_le (fun y => slower x y) quick).
  unfold zlen in *. rewrite <- (Permutation_length Hp), E, length_app. simpl. lia.
Qed.

Lemma sort_runs_ends runs lo hi :
  Forall qps_ok runs -> head (sort_runs runs) = Some lo -> last (sort_runs runs) = Some hi ->
  slowest runs lo /\ fastest runs hi.
Proof.
  intros Hr Hlo Hhi. destruct (sort_runs_spec runs Hr) as [Hp (fast & Ef & Hs)].
  unfold slowest, fastest. rewrite <- Hp. rewrite last_lookup in Hhi. rewrite head_lookup in Hlo.
  split; (split; [by eapply list_elem_of_lookup_2|]).
  - destruct (sort_runs runs) as [|x slow] eqn:E; [done|]. injection Hlo as ->.
    rewrite <- (rev_involutive fast), <- Ef in Hs. simpl in Hs. apply sorted_split in Hs as [Hf _].
    constructor; [apply flt_irrefl|]. apply Forall_rev in Hf. by rewrite rev_involutive in Hf.
  - rewrite Ef in Hhi |- *. rewrite length_rev in Hhi. destruct fast as [|x fast]; [done|]. simpl in Hhi.
    rewrite lookup_app_r in Hhi by (rewrite length_rev; lia). rewrite length_rev, Nat.sub_diag in Hhi.
    injection Hhi as ->. apply Forall_rev. apply StronglySorted_inv in Hs as [_ Hs].
    constructor; [apply flt_irrefl|done].
Qed.

Lemma median_rank runs :
  runs <> [] -> Forall qps_ok runs ->
  exists r sm sm0 lo hi,
    median runs = Some (r, sm) /\ (r, sm0) ∈ runs /\
    (PeakRSS sm, CPU sm, MaxThreads sm) = (PeakRSS sm0, CPU sm0, MaxThreads sm0) /\
    2 * zcount (fun y => slower y (r, sm0)) runs <= zlen runs /\
    2 * zcount (fun y => slower (r, sm0) y) runs <= zlen runs /\
    slowest runs lo /\ fastest runs hi /\
    Spread sm = if flt (f_of_Z 0) (QPS (fst lo))
                then fdiv (fsub (QPS (fst hi)) (QPS (fst lo))) (QPS (fst lo)) else f_of_Z 0.
Proof.
  intros Hne Hr. destruct (sort_runs_spec runs Hr) as [Hp _].
  assert (Hl : length (sort_runs runs) = length runs) by by apply Permutation_length.
  assert (0 < length runs)%nat by (destruct runs; [done|simpl; lia]).
  destruct (lookup_lt_is_Some_2 (sort_runs runs) (length runs / 2)) as [[r sm0] Em];
    [rewrite Hl; apply Nat.div_lt; lia|].
  destruct (head (sort_runs runs)) as [lo|] eqn:Elo;
    [|by destruct (sort_runs runs); [simpl in Hl; lia|]].
  destruct (last (sort_runs runs)) as [hi|] eqn:Ehi; [|apply last_None in Ehi; rewrite Ehi in Hl; simpl in Hl; lia].
  destruct (sort_runs_at _ _ _ Hr Em) as (Hin & Hslow & Hfast).
  destruct (sort_runs_ends _ _ _ Hr Elo Ehi) as [Hlo Hhi].
  unfold median. rewrite Hl, Em, Elo, Ehi. destruct lo as [rlo slo], hi as [rhi shi].
  eexists r, _, sm0, (rlo, slo), (rhi, shi). split; [done|]. simpl. split_and!; try done.
  - pose proof (Nat.div_mod_eq (length runs) 2). unfold zlen. lia.
  - pose proof (Nat.div_mod_eq (length runs) 2). pose proof (Nat.mod_upper_bound (length runs) 2 ltac:(lia)).
    unfold zlen in *. lia.
Qed.

(** ** What a run measured *)

Lemma exec_bind {A B} h past n (p : prog A) (f : A -> prog B) :
  exec h past n (pbind p f) = let '(a, n', past') := exec h past n p in exec h past' n' (f a).
Proof. revert past n. induction p as [a|X o k IH]; intros past n; simpl; [done|]. apply IH. Qed.

Lemma exec_bind_inv {A B} h past n (p : prog A) (f : A -> prog B) b n' past' :
  exec h past n (pbind p f) = (b, n', past') ->
  exists a n1 past1, exec h past n p = (a, n1, past1) /\ exec h past1 n1 (f a) = (b, n', past').
Proof. rewrite exec_bind. destruct (exec h past n p) as [[a n1] past1]. eauto. Qed.

(** The runs of the generator that came to an end, latest first. *)
Definition measured (e : happened) : list (Result * sample) :=
  match e with
  | Ev o x =>
      match o in op X return X -> list (Result * sample) with
      | Loadgen _ _ => fun r => match r with Ok a => [a] | Err _ => [] end
      | _ => fun _ => []
      end x
  end.

Definition measurements (past : list happened) : list (Result * sample) := flat_map measured past.

Lemma loadOnce_measures h f v o hd past n r n' past' :
  exec hd past n (loadOnce h f v o) = (r, n', past') ->
  measurements past' = (match r with Ok a => [a] | Err _ => [] end) ++ measurements past.
Proof.
  unfold loadOnce. cbv zeta. simpl.
  match goal with |- context [answers hd ?T past ?x] => destruct (answers hd T past x) as [a|[e|e]] end;
    by intros [= <- _ <-].
Qed.

(** What [load] gives was measured while it ran. *)
Lemma sort_runs_perm runs : sort_runs runs ≡ₚ runs.
Proof.
  unfold sort_runs. rewrite <- Permutation_rev.
  enough (forall acc, fold_left (fun sorted x => go_insert x sorted) runs acc ≡ₚ acc ++ runs) as H by apply (H []).
  induction runs as [|x runs IH]; intros acc; simpl; [by rewrite app_nil_r|].
  rewrite IH, go_insert_perm. simpl. by rewrite <- Permutation_middle.
Qed.

Lemma median_member runs r sm : median runs = Some (r, sm) -> exists sm0, (r, sm0) ∈ runs.
Proof.
  unfold median. destruct (sort_runs runs !! _) as [[r' sm0]|] eqn:E; [|done].
  destruct (head _) as [[lo ?]|]; [|done]. destruct (last _) as [[hi ?]|]; [|done].
  intros [= <- _]. exists sm0. rewrite <- sort_runs_perm. by eapply list_elem_of_lookup_2.
Qed.

Lemma median_one a : exists sm, median [a] = Some (fst a, sm).
Proof. destruct a as [r sm]. eexists. reflexivity. Qed.

Lemma one_run_measures h f v o hd runs u past n r n' past' :
  exec hd past n (one_run h f v o runs u) = (r, n', past') ->
  match r with
  | Ok runs' => exists a, runs' = runs ++ [a] /\ measurements past' = a :: measurements past
  | Err _ => measurements past' = measurements past
  end.
Proof.
  unfold one_run. intros (x & n1 & past1 & Hs & H)%exec_bind_inv. injection Hs as <- <- <-.
  apply exec_bind_inv in H as (run & n2 & past2 & Hl & H). apply loadOnce_measures in Hl.
  destruct run as [a|e]; injection H as <- <- <-; [exists a|]; done.
Qed.

(** The runs [load] makes are the generator's, one after the other. *)
Lemma load_runs h f v o hd k runs past n r n' past' :
  exec hd past n (for_each (repeat tt k) (one_run h f v o) runs) = (Ok r, n', past') ->
  exists new, r = runs ++ new /\ length new = k /\ measurements past' = rev new ++ measurements past.
Proof.
  revert runs past n. induction k as [|k IH]; intros runs past n; cbn [repeat for_each].
  { intros [= <- <- <-]. exists []. by rewrite app_nil_r. }
  intros (x & n1 & past1 & Hx & H)%exec_bind_inv. apply one_run_measures in Hx.
  destruct x as [runs1|e]; [|done]. destruct Hx as (a & -> & Hm).
  apply IH in H as (new & -> & <- & Hm'). exists (a :: new). rewrite <- app_assoc. split_and!; [done..|].
  rewrite Hm', Hm. simpl. by rewrite <- app_assoc.
Qed.

Lemma load_measures h f v o hd past n r sm n' past' :
  exec hd past n (load h f v o) = (Ok (r, sm), n', past') ->
  exists new, zlen new = runs_asked f o /\ median new = Some (r, sm) /\
    measurements past' = rev new ++ measurements past.
Proof.
  unfold load. intros (x & n1 & past1 & Hx & H)%exec_bind_inv. destruct x as [runs|e]; [|done].
  apply load_runs in Hx as (new & -> & Hl & Hm). simpl in H. destruct (median new) as [m|] eqn:E; [|done].
  injection H as -> <- <-. exists new. split_and!; try done. unfold zlen. rewrite Hl.
  unfold runs_asked. destruct (_ =? 0), (_ <? 1) eqn:?; lia.
Qed.

(** C21. [load] makes the runs it was asked for, each by the generator, and keeps
    the median by throughput: at most half of the runs are slower and at most
    half faster, the figures it gives are that run's own, and the spread beside
    them is what the fastest gains on the slowest. *)
Theorem load_median h f v o hd past n r sm n' past' :
  exec hd past n (load h f v o) = (Ok (r, sm), n', past') ->
  exists runs, zlen runs = runs_asked f o /\ measurements past' = rev runs ++ measurements past /\
    (Forall qps_ok runs ->
     exists sm0 lo hi, (r, sm0) ∈ runs /\
       (PeakRSS sm, CPU sm, MaxThreads sm) = (PeakRSS sm0, CPU sm0, MaxThreads sm0) /\
       2 * zcount (fun y => slower y (r, sm0)) runs <= zlen runs /\
       2 * zcount (fun y => slower (r, sm0) y) runs <= zlen runs /\
       slowest runs lo /\ fastest runs hi /\
       Spread sm = if flt (f_of_Z 0) (QPS (fst lo))
                   then fdiv (fsub (QPS (fst hi)) (QPS (fst lo))) (QPS (fst lo)) else f_of_Z 0).
Proof.
  intros (runs & Hl & Em & Hm)%load_measures. exists runs. split_and!; [done..|]. intros Hr.
  destruct (median_rank runs) as (r' & sm' & sm0 & lo & hi & Em' & H); [|done|].
  - intros ->. vm_compute in Em. done.
  - rewrite Em in Em'. injection Em' as <- <-. by exists sm0, lo, hi.
Qed.

(** ** A machine to run programs on *)

Definition a_run (qps : Z) : Result * sample :=
  (mkResult "udp" 1 1 1 0 ∅ (f_of_Z 1) (f_of_Z qps) (f_of_Z 0) (f_of_Z 0) 1 1 0, mkSample qps 0 1 (f_of_Z 0)).

Definition plain (run : Result * sample) {X} (o : op X) : X :=
  match o in op X return X with
  | StartServer o => Ok (mkServer 0 o "" "" "" "" "")
  | StopServer _ => tt
  | Loadgen _ _ => Ok run
  | Once _ _ _ _ => Ok (fst run, 2000000, 3000000)
  | Rss _ => 1000000
  | StartMock _ => Ok "127.0.0.1:5301"
  | Sleep _ => tt
  | WaitReady _ _ => None
  | WaitBlocked _ => None
  | FileSize _ => 0
  | Remove _ => tt
  | FreeBytes => Ok (2 ^ 40)
  | ServerLabel kind => kind
  | NumCPU => 8
  | HasTaskset => true
  | RmemDefault => Ok ("1048576" +:+ nls)
  | AvgMHz => f_of_Z 3000
  | DescribeMachine => "a machine"
  end.

(** The runs of its generator, by how many came before. *)
Definition a_handler (run : nat -> Result * sample) : handler :=
  mkHandler (fun X past o => plain (run (length (measurements past))) o)
    (fun _ _ => Ok ("127.0.0.1:53", "127.0.0.1:853", "127.0.0.1:443", "/ca", "/log")).

Definition some_runs (i : nat) : Result * sample := a_run (nth i [30; 10; 20] 5).

Definition a_harness : harness := mkHarness ["elodin"; "unbound"] [] "/bin/loadgen" [] "/run".

Definition a_server : server :=
  mkServer 0 (server_opts "x" []) "127.0.0.1:53" "127.0.0.1:853" "127.0.0.1:443" "/ca" "/log".

Definition median_run : result string (Result * sample) * nat * list happened :=
  exec (a_handler some_runs) [] 0 (load a_harness default_bench a_server (load_opts "udp" 100 [])).

Lemma load_median_witness :
  exists r sm, fst (fst median_run) = Ok (r, sm) /\ PeakRSS sm = 20 /\
  exists runs, zlen runs = 3 /\ measurements (snd median_run) = rev runs ++ [] /\
    (Forall qps_ok runs ->
     exists sm0 lo hi, (r, sm0) ∈ runs /\
       (PeakRSS sm, CPU sm, MaxThreads sm) = (PeakRSS sm0, CPU sm0, MaxThreads sm0) /\
       2 * zcount (fun y => slower y (r, sm0)) runs <= zlen runs /\
       2 * zcount (fun y => slower (r, sm0) y) runs <= zlen runs /\
       slowest runs lo /\ fastest runs hi /\
       Spread sm = if flt (f_of_Z 0) (QPS (fst lo))
                   then fdiv (fsub (QPS (fst hi)) (QPS (fst lo))) (QPS (fst lo)) else f_of_Z 0).
Proof.
  destruct median_run as [[[[r sm]|e] n'] past'] eqn:E; [|vm_compute in E; discriminate].
  exists r, sm. split; [done|]. split; [|exact (load_median _ _ _ _ _ [] _ _ _ _ _ E)].
  assert (match fst (fst median_run) with Ok (_, sm) => PeakRSS sm | Err _ => 0 end = 20)
    as H by (vm_compute; reflexivity).
  by rewrite E in H.
Defined.

Example median_ex : (fun x => PeakRSS (snd x)) <$> median [a_run 30; a_run 10; a_run 20] = Some 20.
Proof. vm_compute. reflexivity. Qed.

(** ** Servers along a run *)

(** The server an operation starts, stops or is asked of. *)
Inductive server_use : Type := Starts (s : option server) | Stops (s : server) | Asks (s : server) | Elsewhere.

Definition use_of (e : happened) : server_use :=
  match e with
  | Ev o x =>
      match o in op X return X -> server_use with
      | StartServer _ => fun r => Starts (match r with Ok s => Some s | Err _ => None end)
      | StopServer s => fun _ => Stops s
      | Loadgen s _ => fun _ => Asks s
      | Once s _ _ _ => fun _ => Asks s
      | Rss s => fun _ => Asks s
      | WaitReady s _ => fun _ => Asks s
      | WaitBlocked s => fun _ => Asks s
      | _ => fun _ => Elsewhere
      end x
  end.

(** The server running after what happened, if every start was of the only one. *)
Fixpoint running (past : list happened) : option nat :=
  match past with
  | [] => None
  | e :: past =>
      match use_of e with
      | Starts (Some s) => Some (s_num s)
      | Stops _ => None
      | Starts None | Asks _ | Elsewhere => running past
      end
  end.

(** Every start finds none running, every other use finds the server it is of. *)
Definition in_order (past : list happened) : Prop :=
  forall after e before, past = after ++ e :: before ->
    match use_of e with
    | Starts _ => running before = None
    | Stops s | Asks s => running before = Some (s_num s)
    | Elsewhere => True
    end.

Lemma live_in_order past live : live_of past = Some live -> in_order past /\ running past = live.
Proof.
  revert live. induction past as [|e past IH]; intros live; simpl.
  { intros [= <-]. split; [|done]. intros after e before H. by destruct after. }
  destruct (live_of past) as [l|] eqn:E; [|done]. destruct (IH l eq_refl) as [Ho Hr]. intros Hl.
  assert (match use_of e with
          | Starts _ => running past = None
          | Stops s | Asks s => running past = Some (s_num s)
          | Elsewhere => True
          end /\ running (e :: past) = live) as [He Hr'].
  { rewrite Hr. destruct e as [X o x]. simpl in *. destruct o; simpl in *;
      try (destruct (decide _); [by injection Hl as <-|done]); try (by injection Hl as <-).
    destruct l; [done|]. by destruct x; injection Hl as <-. }
  split; [|exact Hr']. intros [|e' after] e0 before H; simpl in H; injection H as -> ->; [done|].
  by apply (Ho after).
Qed.
