(* ===== verification/LoadGenProc.v ===== *)
(** * [bench/cmd/loadgen] as a process, and [bench/cmd/bench] on the other side

    The driver runs the generator as a child: it writes an argument vector, the
    generator reads it back with [flag], runs, and prints a [Result] as JSON,
    which the driver decodes into a struct of its own.  This file is that
    boundary: [loadgen_args] and [mockdns_args] are the flags the two commands
    define, [json_of_result] and [read_result] the struct tags of the two
    [Result]s, [generator] the child from its arguments to what the driver reads.

    JSON is modelled as its tree: how a number or a string is written as text is
    the Standard Library's, and reads back as itself. *)

From stdpp Require Import sorting.
From S2P Require Import Prelude GoStrings GoFloat GoFlag Hist DnsWire MockDns LoadGen BenchRun.

(** ** The flags *)

Definition loadgen_flags : flag_set :=
  [("server", FString); ("transport", FString); ("clients", FInt); ("concurrency", FInt);
   ("duration", FDuration); ("warmup", FDuration); ("qmode", FString); ("qname", FString);
   ("path", FString); ("rate", FInt); ("once", FBool); ("ca", FString)].

(** The configuration the flags come to, and the path of [-ca]. *)
Definition flags_config (set : list (string * flag_value)) : config * string :=
  (mkConfig (str_flag set "server" "127.0.0.1:5354") (str_flag set "transport" "udp") (num_flag set "clients" 100)
     (num_flag set "concurrency" 1) (num_flag set "duration" (10 * second)) (num_flag set "warmup" (2 * second))
     (str_flag set "qmode" "fixed") (str_flag set "qname" "cached.bench.test") (str_flag set "path" "/dns-query")
     (num_flag set "rate" 0) (bool_flag set "once" false),
   str_flag set "ca" "").

Definition loadgen_args (args : list string) : result flag_error (config * string) :=
  let? (set, _) := parse_args loadgen_flags args in Ok (flags_config set).

(** [mockdns]: the address, the delay and the TTL. *)
Definition mockdns_flags : flag_set := [("addr", FString); ("delay", FDuration); ("ttl", FUint)].

Definition mockdns_args (args : list string) : result flag_error (string * duration * Z) :=
  let? (set, _) := parse_args mockdns_flags args in
  Ok (str_flag set "addr" "127.0.0.1:5399", num_flag set "delay" (20 * millisecond), num_flag set "ttl" 300).

(** ** The result *)

Inductive json : Type :=
  | JNull | JString (s : string) | JInt (n : Z) | JFloat (f : float64) | JObject (fields : list (string * json)).

Definition is_finite (f : float64) : bool :=
  match f with SpecFloat.S754_nan | SpecFloat.S754_infinity _ => false | _ => true end.

(** A map is written with its keys in order; one that was never made is
    [null]. *)
Definition json_of_counts (made : bool) (m : gmap string Z) : json :=
  if made then JObject (map (fun kv => (fst kv, JInt (snd kv))) (merge_sort key_le (map_to_list m))) else JNull.

(** [json.Encode] of a [Result]: nothing is written of one that holds a float
    JSON has no number for. *)
Definition json_of_result (made : bool) (r : Result) : option json :=
  if forallb is_finite [Seconds r; QPS r; P50ms r; P99ms r] then
    Some (JObject
      [("transport", JString (Transport r)); ("clients", JInt (Clients r)); ("concurrency", JInt (Concurrency r));
       ("answered", JInt (Answered r)); ("errors", JInt (Errors r)); ("rcodes", json_of_counts made (Rcodes r));
       ("seconds", JFloat (Seconds r)); ("qps", JFloat (QPS r)); ("p50_ms", JFloat (P50ms r));
       ("p99_ms", JFloat (P99ms r)); ("min_per_client", JInt (MinPerClient r));
       ("max_per_client", JInt (MaxPerClient r)); ("reconnects", JInt (Reconnects r))])
  else None.

(** [json.Unmarshal] into the fields of the driver's [Result]: [null] leaves a
    field as it is, and a value of another type is an error. *)
Definition into_string (old : string) (j : json) : option string :=
  match j with JString s => Some s | JNull => Some old | _ => None end.

Definition into_int (old : Z) (j : json) : option Z :=
  match j with JInt n => if decide (int64_range n) then Some n else None | JNull => Some old | _ => None end.

Definition into_float (old : float64) (j : json) : option float64 :=
  match j with JFloat f => Some f | JInt n => Some (f_of_Z n) | JNull => Some old | _ => None end.

Fixpoint into_counts (old : gmap string Z) (fields : list (string * json)) : option (gmap string Z) :=
  match fields with
  | [] => Some old
  | (k, j) :: fields =>
      match into_int 0 j with Some n => into_counts (<[k := n]> old) fields | None => None end
  end.

Definition into_map (old : gmap string Z) (j : json) : option (gmap string Z) :=
  match j with JObject fields => into_counts old fields | JNull => Some ∅ | _ => None end.

(** A key goes to the field whose tag it is, in any case of its letters; one
    that is nobody's is ignored. *)
Fixpoint fold_case (s : string) : string :=
  match s with
  | EmptyString => ""
  | String c s =>
      let n := Z.of_nat (nat_of_ascii c) in
      String (if (65 <=? n) && (n <=? 90) then lower c else c) (fold_case s)
  end.

Definition set_result (r : Result) (k : string) (j : json) : option Result :=
  let '(mkResult tr cl co an er rc se qp p5 p9 mi ma re) := r in
  let tagged tag := String.eqb (fold_case k) tag in
  if tagged "transport" then (fun tr => mkResult tr cl co an er rc se qp p5 p9 mi ma re) <$> into_string tr j
  else if tagged "clients" then (fun cl => mkResult tr cl co an er rc se qp p5 p9 mi ma re) <$> into_int cl j
  else if tagged "concurrency" then (fun co => mkResult tr cl co an er rc se qp p5 p9 mi ma re) <$> into_int co j
  else if tagged "answered" then (fun an => mkResult tr cl co an er rc se qp p5 p9 mi ma re) <$> into_int an j
  else if tagged "errors" then (fun er => mkResult tr cl co an er rc se qp p5 p9 mi ma re) <$> into_int er j
  else if tagged "rcodes" then (fun rc => mkResult tr cl co an er rc se qp p5 p9 mi ma re) <$> into_map rc j
  else if tagged "seconds" then (fun se => mkResult tr cl co an er rc se qp p5 p9 mi ma re) <$> into_float se j
  else if tagged "qps" then (fun qp => mkResult tr cl co an er rc se qp p5 p9 mi ma re) <$> into_float qp j
  else if tagged "p50_ms" then (fun p5 => mkResult tr cl co an er rc se qp p5 p9 mi ma re) <$> into_float p5 j
  else if tagged "p99_ms" then (fun p9 => mkResult tr cl co an er rc se qp p5 p9 mi ma re) <$> into_float p9 j
  else if tagged "min_per_client" then (fun mi => mkResult tr cl co an er rc se qp p5 p9 mi ma re) <$> into_int mi j
  else if tagged "max_per_client" then (fun ma => mkResult tr cl co an er rc se qp p5 p9 mi ma re) <$> into_int ma j
  else if tagged "reconnects" then (fun re => mkResult tr cl co an er rc se qp p5 p9 mi ma re) <$> into_int re j
  else Some r.

Fixpoint set_results (r : Result) (fields : list (string * json)) : option Result :=
  match fields with
  | [] => Some r
  | (k, j) :: fields => match set_result r k j with Some r => set_results r fields | None => None end
  end.

(** [json.Unmarshal] of what was printed, if anything, into a zero [Result]. *)
Definition read_result (out : option json) : option Result :=
  match out with
  | Some (JObject fields) => set_results no_result fields
  | Some JNull => Some no_result
  | _ => None
  end.

(** ** The child *)

(** How a run of the generator goes, given its configuration: [run]'s result, or
    its error; [None] is a quantile out of range, which panics. *)
Definition world : Type := config -> result dial_error (option Result).

(** The status [loadgen] exits with and what it printed.  [pem_ok]: the file of
    [-ca] was read and holds a certificate; [r] is [run]'s or [runOnce]'s. *)
Definition loadgen_exit (c : config) (pem_ok : bool) (r : result dial_error (option Result)) : Z * option json :=
  match loadgen_main c pem_ok with
  | Exit code => (code, None)
  | DoOnce | DoRun =>
      match r with
      | Err _ => (1, None)
      | Ok None => (2, None)
      | Ok (Some r) => (0, json_of_result (c_once c || negb (String.eqb (c_transport c) "handshake")) r)
      end
  end.

(** How [exec] runs the generator's command line, through [taskset] or not. *)
Definition argv_args (argv : list string) : list string :=
  match argv with
  | prog :: args => if String.eqb prog "taskset" then drop 3 args else args
  | [] => []
  end.

(** The whole child: how it ends on an argument vector and what it printed. *)
Definition generator (argv : list string) (pem_ok : string -> bool) (w : world) : Z * option json :=
  match loadgen_args (argv_args argv) with
  | Err e => (flag_exit e, None)
  | Ok (c, ca) => loadgen_exit c (pem_ok ca) (w c)
  end.

(** What [loadOnce] is left with: the process failed, its output could not be
    read, or its result. *)
Definition run_read (child : Z * option json) : result loadgen_failure Result :=
  let '(code, out) := child in
  if negb (code =? 0) then Err (RunFailed ("exit status " +:+ itoa code))
  else
    match out with
    | None => Err (BadOutput "unexpected end of JSON input")
    | Some _ => match read_result out with Some r => Ok r | None => Err (BadOutput "json: cannot unmarshal") end
    end.





(** ** What was asked is what runs *)

(** The configuration a row's options come to. *)
Definition asked_of (f : bench_flags) (s : server) (o : loadOpts) : config :=
  mkConfig (addrFor s (lo_transport o)) (lo_transport o) (lo_clients o) (lo_concurrency o) (lo_duration o)
    (f_warmup f) (lo_qmode o) (lo_qname o) "/dns-query" (if lo_rate o >? 0 then lo_rate o else 0) false.

(** Every figure of the options is one a flag can carry. *)
Definition opts_in_range (f : bench_flags) (o : loadOpts) : Prop :=
  Forall int64_range [lo_clients o; lo_concurrency o; lo_duration o; f_warmup f; lo_rate o].

Lemma set_int z : int64_range z -> set_value FInt (itoa z) = Some (VNumber z).
Proof. intros Hz. cbn [set_value]. by rewrite ParseInt0_itoa. Qed.

Lemma set_duration d : int64_range d -> set_value FDuration (dur_string d) = Some (VNumber d).
Proof. intros Hd. cbn [set_value]. by rewrite ParseDuration_string. Qed.

Lemma argv_args_load cpus prog args :
  prog <> "taskset" ->
  argv_args (if String.eqb cpus "" then prog :: args else ["taskset"; "-c"; cpus; prog] ++ args) = args.
Proof. intros Hn. destruct (String.eqb cpus ""); [|done]. simpl. by destruct (String.eqb_spec prog "taskset"). Qed.

(** One flag of a vector. *)
Ltac one_flag :=
  first [erewrite parse_args_cons; [|reflexivity|reflexivity|discriminate|
           first [by apply set_int|by apply set_duration|reflexivity]]
        |erewrite parse_args_bool; [|reflexivity|reflexivity]].

Lemma load_args_parse f s o :
  opts_in_range f o -> loadgen_args (load_args f s o) = Ok (asked_of f s o, caPath s).
Proof.
  unfold opts_in_range. rewrite !Forall_cons. intros (Hc & Hk & Hd & Hw & Hr & _).
  unfold loadgen_args, load_args, asked_of. destruct (lo_rate o >? 0); cbn [app]; repeat one_flag; reflexivity.
Qed.



(** ** What was printed is what is read *)

Lemma into_counts_map l old :
  NoDup l.*1 -> Forall (fun kv => int64_range (snd kv)) l ->
  into_counts old (map (fun kv => (fst kv, JInt (snd kv))) l) = Some (list_to_map l ∪ old).
Proof.
  intros Hd Hl. revert old. induction Hl as [|[k n] l Hn Hl IH]; intros old; simpl; [by rewrite (left_id_L ∅ (∪))|].
  apply NoDup_cons in Hd as [Hk Hd]. simpl in *. rewrite decide_True, (IH Hd) by done. f_equal.
  rewrite <- insert_union_r; [|by apply not_elem_of_list_to_map_1]. by rewrite insert_union_l.
Qed.

Lemma counts_roundtrip m :
  map_Forall (fun _ => int64_range) m -> into_map ∅ (json_of_counts true m) = Some m.
Proof.
  intros Hm. unfold json_of_counts, into_map.
  pose proof (merge_sort_Permutation key_le (map_to_list m)) as Hp.
  rewrite into_counts_map.
  - rewrite (right_id_L ∅ (∪)). f_equal. rewrite <- (list_to_map_to_list m) at 2.
    apply list_to_map_proper; [rewrite Hp; apply NoDup_fst_map_to_list|done].
  - rewrite Hp. apply NoDup_fst_map_to_list.
  - rewrite Hp. apply Forall_forall. intros [k n] H%elem_of_map_to_list. by apply Hm in H.
Qed.

Lemma into_int_range old n : int64_range n -> into_int old (JInt n) = Some n.
Proof. intros Hn. simpl. by rewrite decide_True. Qed.

#[local] Arguments into_int : simpl never.
#[local] Arguments into_map : simpl never.
#[local] Arguments json_of_counts : simpl never.

(** A result its fields can carry; a run of handshakes makes no map of answers. *)
Definition result_ok (made : bool) (r : Result) : Prop :=
  Forall int64_range [Clients r; Concurrency r; Answered r; Errors r; MinPerClient r; MaxPerClient r; Reconnects r] /\
  map_Forall (fun _ => int64_range) (Rcodes r) /\ (made = false -> Rcodes r = ∅).

Definition finite_figures (r : Result) : bool := forallb is_finite [Seconds r; QPS r; P50ms r; P99ms r].

Lemma result_roundtrip made r :
  result_ok made r -> finite_figures r = true ->
  exists j, json_of_result made r = Some j /\ read_result (Some j) = Some r.
Proof.
  intros (Hr & Hm & Hn) Hf. unfold json_of_result. fold (finite_figures r). rewrite Hf. eexists. split; [done|].
  assert (into_map ∅ (json_of_counts made (Rcodes r)) = Some (Rcodes r)) as Hc.
  { destruct made; [by apply counts_roundtrip|]. by rewrite Hn. }
  revert Hr. rewrite !Forall_cons. intros (H1 & H2 & H3 & H4 & H5 & H6 & H7 & _).
  destruct r. simpl in *. repeat (simpl; first [rewrite into_int_range by done|rewrite Hc]). reflexivity.
Qed.

(** ** A run through the child *)

(** What the child does with a configuration read back from its arguments. *)
Definition child_run (c : config) (pem : bool) (w : world) : Z * option json := loadgen_exit c pem (w c).

Lemma generator_child argv pem_ok w c ca :
  loadgen_args (argv_args argv) = Ok (c, ca) -> generator argv pem_ok w = child_run c (pem_ok ca) w.
Proof. intros H. unfold generator. by rewrite H. Qed.

(** The end of a run of the generator, as its configuration decides it. *)
Definition run_end (c : config) (pem : bool) (w : world) : Z + Result :=
  match loadgen_main c pem, w c with
  | Exit code, _ => inl code
  | _, Err _ => inl 1
  | _, Ok None => inl 2
  | _, Ok (Some r) => inr r
  end.

Definition makes_counts (c : config) : bool := c_once c || negb (String.eqb (c_transport c) "handshake").

Definition world_ok (w : world) (c : config) : Prop := forall r, w c = Ok (Some r) -> result_ok (makes_counts c) r.

Lemma loadgen_main_exit c pem code : loadgen_main c pem = Exit code -> code = 2.
Proof. unfold loadgen_main. by repeat match goal with |- context [if ?b then _ else _] => destruct b end; intros [=]. Qed.

(** A child either fails and prints nothing, or ends well and prints what its
    driver reads as the result; a result JSON has no numbers for is not printed. *)
Lemma child_ends c pem w :
  world_ok w c ->
  match run_end c pem w with
  | inl code => child_run c pem w = (code, None) /\ code <> 0
  | inr r =>
      if finite_figures r then exists j, child_run c pem w = (0, Some j) /\ read_result (Some j) = Some r
      else child_run c pem w = (0, None)
  end.
Proof.
  intros Hw. unfold child_run, run_end, loadgen_exit. pose proof (Hw : forall r, _) as Hr.
  assert (match loadgen_main c pem with Exit code => code = 2 | _ => True end) as He
    by (destruct (loadgen_main c pem) eqn:E; [by apply loadgen_main_exit in E|done..]).
  fold (makes_counts c). destruct (loadgen_main c pem) as [code| |]; [by subst|..].
  all: destruct (w c) as [[r|]|e]; [|done..]; unfold json_of_result; fold (finite_figures r).
  all: destruct (finite_figures r) eqn:Ef; [|done]; destruct (result_roundtrip _ r (Hr r eq_refl) Ef) as (j & Hj & Hread).
  all: unfold json_of_result in Hj; fold (finite_figures r) in Hj; rewrite Ef in Hj; by exists j; rewrite Hj.
Qed.

(** A machine whose generator is a child in one of these worlds: whatever
    happened before, a run of the generator is the child's, beside some reading of
    the server. *)
Definition generates (hd : handler) (pem_ok : string -> bool) (P : world -> Prop) : Prop :=
  forall past s argv, exists w sm, P w /\
    answers hd _ past (Loadgen s argv) = (let? r := run_read (generator argv pem_ok w) in Ok (r, sm)).

Definition runs_generator (hd : handler) (pem_ok : string -> bool) (w : world) : Prop :=
  generates hd pem_ok (eq w).

(** [loadOnce] runs the child once, on the arguments of its options. *)
Lemma loadOnce_child hd pem_ok P h f s o past n :
  generates hd pem_ok P -> h_loadgen h <> "taskset" -> opts_in_range f (load_defaults f o) ->
  let args := load_args f s (load_defaults f o) in
  exists w sm argv x, P w /\ argv_args argv = args /\
    exec hd past n (loadOnce h f s o) =
      (match run_read (child_run (asked_of f s (load_defaults f o)) (pem_ok (caPath s)) w) with
       | Err (RunFailed e) => Err ("loadgen " +:+ join " " args +:+ ": " +:+ e)
       | Err (BadOutput e) => Err ("parsing loadgen output: " +:+ e)
       | Ok r => Ok (r, sm)
       end, n, Ev (Loadgen s argv) x :: past).
Proof.
  intros Hg Hn Ho args. unfold loadOnce. fold args. set (o' := load_defaults f o) in *.
  set (argv := if String.eqb (lo_cpus o') "" then _ else _).
  assert (argv_args argv = args) as Ha by by apply argv_args_load.
  destruct (Hg past s argv) as (w & sm & Hw & Hsm). exists w, sm, argv, (answers hd _ past (Loadgen s argv)).
  do 2 (split; [done|]). cbn [pbind act exec answer_of next_num]. rewrite Hsm.
  rewrite (generator_child argv pem_ok w (asked_of f s o') (caPath s)) by (rewrite Ha; by apply load_args_parse).
  destruct (run_read (child_run (asked_of f s o') (pem_ok (caPath s)) w)) as [r|[e|e]]; reflexivity.
Qed.

(** C6. A row's figures are the generator's.  Over any machine that runs the
    generator, [loadOnce] runs it once, with the configuration the row's options
    come to (defaults filled in, every flag read back as it was written, on the
    cpus asked for or not), and returns the [Result] of that run field by field;
    it fails when the process does, with its status and its arguments, and when a
    figure is one JSON has no number for. *)
Theorem loadOnce_generator hd pem_ok w h f s o past n :
  runs_generator hd pem_ok w -> h_loadgen h <> "taskset" -> opts_in_range f (load_defaults f o) ->
  world_ok w (asked_of f s (load_defaults f o)) ->
  let args := load_args f s (load_defaults f o) in
  let c := asked_of f s (load_defaults f o) in
  let '(res, n', past') := exec hd past n (loadOnce h f s o) in
  n' = n /\ (exists argv x, past' = Ev (Loadgen s argv) x :: past /\ argv_args argv = args) /\
  match run_end c (pem_ok (caPath s)) w with
  | inl code => res = Err ("loadgen " +:+ join " " args +:+ ": exit status " +:+ itoa code)
  | inr r =>
      if finite_figures r then exists sm, res = Ok (r, sm)
      else res = Err "parsing loadgen output: unexpected end of JSON input"
  end.
Proof.
  intros Hg Hn Ho Hw args c. destruct (loadOnce_child hd pem_ok _ h f s o past n Hg Hn Ho) as (? & sm & argv & x & <- & Ha & ->).
  fold args c. split; [done|]. split; [by exists argv, x|].
  pose proof (child_ends c (pem_ok (caPath s)) w Hw) as Hc. destruct (run_end c (pem_ok (caPath s)) w) as [code|r].
  - destruct Hc as [-> Hz]. apply Z.eqb_neq in Hz. unfold run_read. by rewrite Hz.
  - destruct (finite_figures r); [destruct Hc as (j & -> & Hj)|by rewrite Hc]. unfold run_read. rewrite Hj. by exists sm.
Qed.

(** A run of four answers over TCP, measured for five seconds. *)
Definition ex_measured : Result :=
  mkResult "tcp" 2 1 4 1 (<["servfail" := 1]> {["noerror" := 3]}) (f_of_Z 5) (fdiv (f_of_Z 4) (f_of_Z 5))
    (fdiv (f_of_Z 3) (f_of_Z 4)) (f_of_Z 2) 1 3 0.

Definition ex_world : world := fun c =>
  if String.eqb (c_transport c) "tcp" then Ok (Some ex_measured) else Err (ConnectFailed "refused").

(** A driver's machine whose generator is [loadgen]. *)
Definition child_handler (pem_ok : string -> bool) (w : world) (r : Result) (sm : sample) : handler :=
  mkHandler (fun X past o =>
      match o in op X return X with
      | Loadgen _ argv => let? r := run_read (generator argv pem_ok w) in Ok (r, sm)
      | o => plain (r, sm) o
      end)
    (fun _ _ => Ok ("127.0.0.1:53", "127.0.0.1:853", "127.0.0.1:443", "/ca", "/log")).

Definition ex_sample : sample := mkSample (2 ^ 20) second 8 (f_of_Z 0).

Lemma ex_world_ok c : world_ok ex_world c.
Proof.
  intros r. unfold ex_world. case_match; [|done]. intros [= <-]. split; [by apply (bool_decide_unpack _); vm_compute|].
  split; [by apply (bool_decide_unpack _); vm_compute|]. apply String.eqb_eq in H. unfold makes_counts. rewrite H. by destruct (c_once c).
Qed.

Definition ex_options : loadOpts := load_opts "tcp" 2 [Rate 7; OnCpus "2-3"].

Lemma loadOnce_generator_witness :
  let '(res, n', past') := exec (child_handler (fun _ => true) ex_world ex_measured ex_sample) [] 0
    (loadOnce a_harness default_bench a_server ex_options) in
  n' = 0%nat /\ (exists argv x, past' = [Ev (Loadgen a_server argv) x] /\
    argv_args argv = load_args default_bench a_server (load_defaults default_bench ex_options)) /\
  exists sm, res = Ok (ex_measured, sm).
Proof.
  refine (loadOnce_generator (child_handler (fun _ => true) ex_world ex_measured ex_sample) (fun _ => true) ex_world
    a_harness default_bench a_server ex_options [] 0 _ _ _ _).
  - intros past s argv. by exists ex_world, ex_sample.
  - discriminate.
  - by apply (bool_decide_unpack _); vm_compute.
  - apply ex_world_ok.
Defined.


