(* ===== verification/BenchRow.v ===== *)
(** * A row of the benchmark, from its options to the queries made

    [LoadGen] says what a run of the generator counts, over any interleaving of
    its goroutines; [LoadGenProc] says that the driver reads what the generator
    printed.  Put together: [row_accounts] is about the figures the driver's
    sections put in their tables. *)

From S2P Require Import Prelude GoStrings GoFloat GoFlag Hist LoadGen BenchRun LoadGenProc.

(** ** Bounds of a run *)

(** No count of a run is past [n], and none is negative. *)
Definition counts_to (n : Z) (s : shared) : Prop :=
  0 <= answered s <= n /\ 0 <= errors s <= n /\ 0 <= reconnects s <= n /\
  Forall (fun k => 0 <= k <= n) (perClient s) /\ map_Forall (fun _ k => 0 <= k <= n) (rcodes s).

Lemma counts_to_mono n m s : n <= m -> counts_to n s -> counts_to m s.
Proof.
  intros Hm (H1 & H2 & H3 & H4 & H5). split_and!; try lia; [eapply Forall_impl; [exact H4|]|eapply map_Forall_impl; [exact H5|]];
    simpl; intros; lia.
Qed.

Lemma count_answer_to n s id rc : counts_to n s -> counts_to (n + 1) (count_answer s id rc).
Proof.
  intros H. pose proof (counts_to_mono n (n + 1) s ltac:(lia) H) as (_ & G2 & G3 & _ & _).
  destruct H as (H1 & _ & _ & H4 & H5). split_and!; simpl; try lia.
  - apply Forall_alter; [eapply Forall_impl; [exact H4|]; simpl; intros; lia|].
    intros k Hk _. rewrite Forall_lookup in H4. apply H4 in Hk. lia.
  - unfold bump. apply map_Forall_insert_2.
    + destruct (rcodes s !! rcodeName rc) as [k|] eqn:E; simpl; [apply H5 in E|]; lia.
    + eapply map_Forall_impl; [exact H5|]. simpl. intros. lia.
Qed.

Lemma gstep_to n c sc s g e s' g' a : gstep c sc s g e = Some (s', g', a) -> counts_to n s -> counts_to (n + 1) s'.
Proof.
  intros H Hs. pose proof (counts_to_mono n (n + 1) s ltac:(lia) Hs) as Hs1.
  unfold gstep in H. destruct (g_phase g), e as [now after late|now [rc|er]|[] now]; try done;
    repeat case_match; try done; injection H as <- _ _; try done; try by apply count_answer_to.
  all: destruct Hs as (H1 & H2 & H3 & H4 & H5); destruct Hs1 as (_ & _ & _ & G4 & G5); split_and!; simpl; try done; lia.
Qed.

Lemma run_to c sc es s gs s' gs' asks n :
  run_events c sc s gs es = Some (s', gs', asks) -> counts_to n s -> counts_to (n + zlen es) s'.
Proof.
  revert s gs asks n. induction es as [|[i e] es IH]; intros s gs asks n; simpl.
  - intros [= <- _ _]. by rewrite Z.add_0_r.
  - destruct (gs !! i) as [g|]; [|done]. destruct (gstep c sc s g e) as [[[s1 g1] a]|] eqn:Es; [|done].
    destruct (run_events c sc s1 _ es) as [[[s2 gs2] a2]|] eqn:Er; [|done]. intros [= -> -> _] Hs.
    rewrite zlen_cons. replace (n + (1 + zlen es)) with (n + 1 + zlen es) by lia. eapply IH; [exact Er|]. by eapply gstep_to.
Qed.

Lemma shared0_to c : counts_to 0 (shared0 c).
Proof. split_and!; simpl; try lia; [|done]. apply Forall_forall. intros k Hk%list_elem_of_In%repeat_spec. lia. Qed.

(** ** A run that ended *)

(** [r] is the result of a run of [c] that took [elapsed], over some interleaving
    of its goroutines to their ends, of fewer steps than a counter holds. *)
Definition run_of (c : config) (sc : schedule) (es : list (nat * event)) (elapsed : duration)
  (asked : list ask) (r : Result) : Prop :=
  exists s gs, run_events c sc (shared0 c) (gors0 c) es = Some (s, gs, asked) /\ Forall has_returned gs /\
    zlen es < 2 ^ 63 /\ run_result c [] elapsed s = Ok (Some r).

(** The rounds of a client of handshakes that ended well, and how long they took. *)
Definition shaken (x : time * shake_outcome) : option duration :=
  match snd x with ShakeDone lat => Some lat | _ => None end.

Definition shake_fails (x : time * shake_outcome) : bool := negb (bool_decide (is_Some (shaken x))).

(** [r] is the result of a run of handshakes of [c] that took [elapsed]: a client
    each of [c]'s, whose rounds -- these are all it began, the first it would have
    begun at the deadline or later ending it -- are fewer than a counter holds. *)
Definition shakes_of (c : config) (deadline : time) (elapsed : duration)
  (clients : list (list (time * shake_outcome))) (r : Result) : Prop :=
  length clients = Z.to_nat (c_clients c) /\ Forall (Forall (fun x => fst x < deadline)) clients /\
  zlen (concat clients) < 2 ^ 63 /\ runHandshake c deadline elapsed clients = Some r.

(** Every result a generator of this world ends with, when it was asked for
    queries or for handshakes, is one of such a run. *)
Definition runs_made (w : world) : Prop :=
  forall c r, c_once c = false -> w c = Ok (Some r) ->
  if decide (c_transport c = "handshake") then exists deadline elapsed clients, shakes_of c deadline elapsed clients r
  else exists sc es elapsed asked, run_of c sc es elapsed asked r.

Lemma in_flight_returned gs : Forall has_returned gs -> zsum (map in_flight gs) = 0.
Proof. intros H. apply zsum_map_zero. eapply Forall_impl; [exact H|]. intros g [b Hg]. unfold in_flight. by rewrite Hg. Qed.

Lemma run_result_fields c elapsed s r :
  run_result c [] elapsed s = Ok (Some r) ->
  Transport r = c_transport c /\ Clients r = c_clients c /\ Concurrency r = c_concurrency c /\
  Answered r = answered s /\ Errors r = errors s /\ Rcodes r = rcodes s /\ Reconnects r = reconnects s /\
  (MinPerClient r, MaxPerClient r) = minmax (perClient s) /\ Seconds r = seconds elapsed /\
  QPS r = rate_of (answered s) elapsed.
Proof.
  unfold run_result. destruct (fst (Percentiles _ _)) as [[|p50 [|p99 [|]]]|]; try done.
  destruct (minmax (perClient s)) as [mn mx]. by intros [= <-].
Qed.

(** What the spread of a run says, also when it has no client. *)
Lemma minmax_range n l :
  0 <= n -> Forall (fun k => 0 <= k <= n) l -> let '(mn, mx) := minmax l in -1 <= mn <= n /\ 0 <= mx <= n.
Proof.
  intros Hn Hl. destruct l as [|x l]; [simpl; lia|].
  pose proof (minmax_spread (x :: l) ltac:(done)) as H. destruct (minmax (x :: l)) as [mn mx].
  destruct H as (H1 & H2 & _); [eapply Forall_impl; [exact Hl|]; simpl; lia|].
  rewrite Forall_forall in Hl. apply Hl in H1, H2. lia.
Qed.

Lemma run_of_ok c sc es elapsed asked r :
  run_of c sc es elapsed asked r -> int64_range (c_clients c) -> int64_range (c_concurrency c) -> result_ok true r.
Proof.
  intros (s & gs & H & _ & Hn & Hr) Hc Hk. apply run_result_fields in Hr as (_ & E1 & E2 & E3 & E4 & E5 & E6 & E7 & _).
  pose proof (run_to c sc es _ _ _ _ _ 0 H (shared0_to c)) as (H1 & H2 & H3 & H4 & H5).
  pose proof (minmax_range (zlen es) (perClient s) ltac:(pose proof (zlen_nonneg es); lia) H4) as Hm. rewrite <- E7 in Hm.
  rewrite Z.add_0_l in *. split; [|split; [|done]].
  - rewrite E1, E2, E3, E4, E6. unfold int64_range in *. repeat constructor; lia.
  - rewrite E5. eapply map_Forall_impl; [exact H5|]. intros k x. simpl. unfold int64_range. lia.
Qed.

(** ** What a run of handshakes counts *)

Lemma shaken_cons x rounds :
  omap shaken (x :: rounds) = match shaken x with Some lat => lat :: omap shaken rounds | None => omap shaken rounds end.
Proof. done. Qed.

Lemma shake_client_rounds deadline rounds d e local :
  Forall (fun x => fst x < deadline) rounds ->
  shake_client deadline rounds (d, e, local) =
    (d + zlen (omap shaken rounds), e + zcount shake_fails rounds, local ++ omap shaken rounds).
Proof.
  intros H. revert d e local. induction H as [|[now x] rounds Hx _ IH]; intros d e local.
  - unfold zcount, zlen. simpl. by rewrite !Z.add_0_r, app_nil_r.
  - rewrite shaken_cons, zcount_cons. simpl in Hx |- *. destruct (Z.ltb_spec now deadline); [|lia]. unfold shake_fails at 1.
    destruct x as [|er|lat]; simpl; rewrite IH, ?zlen_cons, <- ?app_assoc, !pair_equal_spec; split_and!; (done || lia).
Qed.

Lemma shake_all_rounds deadline clients d e r :
  Forall (Forall (fun x => fst x < deadline)) clients ->
  fold_left (shake_add deadline) clients (d, e, r) =
    (d + zlen (omap shaken (concat clients)), e + zcount shake_fails (concat clients),
     {| samples := samples r ++ omap shaken (concat clients) |}).
Proof.
  intros H. revert d e r. induction H as [|rounds clients Hr _ IH]; intros d e [l].
  - unfold zcount, zlen. simpl. by rewrite !Z.add_0_r, app_nil_r.
  - cbn [fold_left concat]. unfold shake_add at 2. rewrite shake_client_rounds, IH by done.
    rewrite omap_app, zcount_app, zlen_app. cbn [AddBatch samples app].
    rewrite <- app_assoc, !pair_equal_spec. split_and!; (done || lia).
Qed.

(** Every round is counted as a handshake or as an error. *)
Lemma shake_rounds_split rounds : zlen (omap shaken rounds) + zcount shake_fails rounds = zlen rounds.
Proof.
  induction rounds as [|[now x] rounds IH]; [done|]. rewrite zcount_cons, zlen_cons, shaken_cons.
  unfold shake_fails at 1. destruct x; simpl; rewrite ?zlen_cons; lia.
Qed.

(** What the result of a run of handshakes says of it. *)
Record shake_accounts (c : config) (elapsed : duration) (clients : list (list (time * shake_outcome))) (r : Result)
  : Prop := mkShakeAccounts {
  sha_asked : Transport r = "handshake" /\ Clients r = c_clients c;
  sha_done : Answered r = zlen (omap shaken (concat clients));
  sha_errors : Errors r = zcount shake_fails (concat clients);
  sha_rounds : Answered r + Errors r = zlen (concat clients);
  sha_rate : QPS r = rate_of (Answered r) elapsed;
  sha_latencies : exists p50 p99,
    fst (Percentiles {| samples := omap shaken (concat clients) |} [fconst 50 100; fconst 99 100]) = Some [p50; p99] /\
    P50ms r = ms_of p50 /\ P99ms r = ms_of p99;
  sha_unused : Concurrency r = 0 /\ Rcodes r = ∅ /\ MinPerClient r = 0 /\ MaxPerClient r = 0 /\ Reconnects r = 0
}.

Lemma shakes_of_accounts c deadline elapsed clients r :
  c_transport c = "handshake" -> shakes_of c deadline elapsed clients r -> shake_accounts c elapsed clients r.
Proof.
  intros Ht (_ & Hd & _ & Hr). pose proof (shake_rounds_split (concat clients)) as Hs.
  unfold runHandshake in Hr. rewrite shake_all_rounds in Hr by done. rewrite !Z.add_0_l in Hr. cbn [samples New app] in Hr.
  destruct (fst (Percentiles _ _)) as [[|p50 [|p99 [|]]]|] eqn:Ep; try done. injection Hr as <-.
  split; simpl; try done. by exists p50, p99.
Qed.

Lemma shakes_of_ok c deadline elapsed clients r :
  shakes_of c deadline elapsed clients r -> int64_range (c_clients c) -> result_ok false r.
Proof.
  intros (_ & Hd & Hn & Hr) Hc. pose proof (shake_rounds_split (concat clients)) as Hs.
  pose proof (zlen_nonneg (omap shaken (concat clients))). pose proof (zcount_nonneg shake_fails (concat clients)).
  unfold runHandshake in Hr. rewrite shake_all_rounds in Hr by done. rewrite !Z.add_0_l in Hr.
  destruct (fst (Percentiles _ _)) as [[|p50 [|p99 [|]]]|]; try done. injection Hr as <-.
  unfold result_ok. simpl. unfold int64_range in *. split; [repeat constructor; lia|done].
Qed.

(** ** What the figures of a run say *)

(** What a run's result says of the run it is of. *)
Record accounts (c : config) (sc : schedule) (es : list (nat * event)) (elapsed : duration)
  (asked : list ask) (r : Result) : Prop := mkAccounts {
  acc_asked : Transport r = c_transport c /\ Clients r = c_clients c /\ Concurrency r = c_concurrency c;
  acc_rcodes : Answered r = msum (Rcodes r);
  acc_errors : Errors r = zcount is_failure es;
  acc_finished : zlen asked = zcount is_finish es;
  acc_within : Answered r + Errors r <= zlen asked;
  acc_clients : 0 < c_clients c ->
    MinPerClient r * c_clients c <= Answered r <= MaxPerClient r * c_clients c;
  acc_rate : QPS r = rate_of (Answered r) elapsed;
  acc_names : c_qmode c = "unique" -> 0 <= nonce sc -> NoDup (map a_name asked)
}.

(** An answer is counted when a query finishes, and a failed one is not an answer. *)
Lemma gstep_within c sc s g e s' g' a i :
  gstep c sc s g e = Some (s', g', a) ->
  answered s' - answered s + zcount is_failure [(i, e)] <= zcount is_finish [(i, e)].
Proof.
  intros H. unfold gstep in H.
  destruct (g_phase g), e as [now after late|now [rc|er]|[] now]; try done;
    repeat case_match; try done; injection H as <- _ _; unfold zcount, zlen; simpl; lia.
Qed.

Lemma run_within c sc es s gs s' gs' asks :
  run_events c sc s gs es = Some (s', gs', asks) ->
  answered s' - answered s + zcount is_failure es <= zcount is_finish es.
Proof.
  revert s gs asks. induction es as [|[i e] es IH]; intros s gs asks; simpl.
  - intros [= <- _ _]. unfold zcount, zlen. simpl. lia.
  - destruct (gs !! i) as [g|]; [|done]. destruct (gstep c sc s g e) as [[[s1 g1] a]|] eqn:Es; [|done].
    destruct (run_events c sc s1 _ es) as [[[s2 gs2] a2]|] eqn:Er; [|done]. intros [= -> -> _].
    apply IH in Er. apply gstep_within with (i := i) in Es. rewrite zcount_cons in Es. rewrite zcount_cons in Es.
    change (zcount is_failure []) with 0 in Es. change (zcount is_finish []) with 0 in Es. rewrite !zcount_cons. lia.
Qed.

Lemma run_clients c sc es s gs s' gs' asks :
  ids_ok s gs -> run_events c sc s gs es = Some (s', gs', asks) -> length (perClient s') = length (perClient s).
Proof.
  revert s gs asks. induction es as [|[i e] es IH]; intros s gs asks Hi; simpl; [by intros [= <- _ _]|].
  destruct (gs !! i) as [g|] eqn:Eg; [|done]. destruct (gstep c sc s g e) as [[[s1 g1] a]|] eqn:Es; [|done].
  destruct (run_events c sc s1 _ es) as [[[s2 gs2] a2]|] eqn:Er; [|done]. intros [= -> -> _].
  destruct (gstep_counts _ _ _ _ _ _ _ _ Es (Forall_lookup_1 _ _ _ _ Hi Eg)) as (H0 & _ & Hl & _).
  rewrite <- Hl. eapply IH; [|exact Er]. unfold ids_ok. rewrite Hl. apply Forall_insert; [exact Hi|].
  rewrite H0. exact (Forall_lookup_1 _ _ _ _ Hi Eg).
Qed.

Lemma run_spread c sc es s gs asks :
  run_events c sc (shared0 c) (gors0 c) es = Some (s, gs, asks) -> 0 < c_clients c ->
  let '(mn, mx) := minmax (perClient s) in mn * c_clients c <= zsum (perClient s) <= mx * c_clients c.
Proof.
  intros H Hc. pose proof (run_clients _ _ _ _ _ _ _ _ (ids_ok0 c) H) as Hl. simpl in Hl. rewrite repeat_length in Hl.
  pose proof (run_to _ _ _ _ _ _ _ _ 0 H (shared0_to c)) as (_ & _ & _ & H4 & _).
  pose proof (minmax_spread (perClient s)) as Hm. destruct (minmax (perClient s)) as [mn mx].
  destruct Hm as (_ & _ & Hm).
  - intros E. rewrite E in Hl. simpl in Hl. lia.
  - eapply Forall_impl; [exact H4|]. simpl. lia.
  - replace (c_clients c) with (zlen (perClient s)) by (unfold zlen; lia). by apply zsum_bounds.
Qed.

Lemma run_of_accounts c sc es elapsed asked r :
  run_of c sc es elapsed asked r -> accounts c sc es elapsed asked r.
Proof.
  intros (s & gs & H & Hd & Hn & Hr). apply run_result_fields in Hr as (E1 & E2 & E3 & E4 & E5 & E6 & _ & E7 & _ & E8).
  destruct (run_counts _ _ _ _ _ _ _ _ (ids_ok0 c) H) as (H1 & H2 & _ & H4 & H5).
  pose proof (run_within _ _ _ _ _ _ _ _ H) as H6. pose proof (run_spread _ _ _ _ _ _ H) as H7.
  rewrite (in_flight_returned gs Hd), (gors0_sum c in_flight) in H5 by done.
  simpl in *. rewrite zsum_repeat0 in H1. change (msum ∅) with 0 in H2. rewrite <- E7 in H7.
  split; [done|rewrite E4, E6; lia|rewrite E5; lia|lia|rewrite E4, E5; lia| |by rewrite E4|].
  - intros Hc. specialize (H7 Hc). rewrite E4. lia.
  - intros Hq Hnc. apply (run_names c sc es (shared0 c) (gors0 c) s gs); try done; [apply gors0_keys|].
    apply gors0_ok. pose proof (zlen_nonneg es). lia.
Qed.

(** ** From the options of a row to its figures *)

(** The result the driver reads is the one the generator ended with. *)
Lemma child_reads c pem w r : world_ok w c -> run_read (child_run c pem w) = Ok r -> w c = Ok (Some r).
Proof.
  intros Hw H. pose proof (child_ends c pem w Hw) as He. destruct (run_end c pem w) as [code|r0] eqn:Er.
  - destruct He as [He Hc]. apply Z.eqb_neq in Hc. unfold run_read in H. rewrite He, Hc in H. done.
  - assert (w c = Ok (Some r0)) as Hr.
    { unfold run_end in Er. destruct (loadgen_main c pem), (w c) as [[]|]; try done; by injection Er as ->. }
    destruct (finite_figures r0); [destruct He as (j & He & Hj)|]; unfold run_read in H; rewrite He in H; [|done].
    rewrite Hj in H. by injection H as <-.
Qed.

Lemma runs_made_ok w c :
  runs_made w -> c_once c = false -> int64_range (c_clients c) -> int64_range (c_concurrency c) -> world_ok w c.
Proof.
  intros Hw Ho Hc Hk r Hr. specialize (Hw c r Ho Hr). unfold makes_counts. rewrite Ho. simpl.
  destruct (decide (c_transport c = "handshake")) as [->|Ht]; [destruct Hw as (d & el & cs & H)|destruct Hw as (sc & es & el & asked & H)].
  - by eapply shakes_of_ok.
  - apply String.eqb_neq in Ht. rewrite Ht. by eapply run_of_ok.
Qed.

(** What holds of every run [loadOnce] measures holds of the one [load] keeps. *)
Lemma load_result (P : Result -> Prop) hd h f s o :
  (forall past n r sm n' past', exec hd past n (loadOnce h f s o) = (Ok (r, sm), n', past') -> P r) ->
  forall past n r sm n' past', exec hd past n (load h f s o) = (Ok (r, sm), n', past') -> P r.
Proof.
  intros HP past n r sm n' past'. unfold load. generalize (Z.to_nat (runs_asked f o)) as k. intros k.
  enough (forall runs past n, Forall (fun x => P (fst x)) runs ->
    match exec hd past n (for_each (repeat tt k) (one_run h f s o) runs) with
    | (Ok runs, _, _) => Forall (fun x => P (fst x)) runs
    | _ => True
    end) as H.
  { intros (x & n1 & past1 & Hx & Hr)%exec_bind_inv. specialize (H [] past n ltac:(constructor)). rewrite Hx in H.
    destruct x as [runs|e]; [|done]. simpl in Hr. destruct (median runs) as [m|] eqn:E; [|done]. injection Hr as -> _ _.
    apply median_member in E as (sm0 & E). rewrite Forall_forall in H. by apply H in E. }
  clear past n r sm n' past'. induction k as [|k IH]; intros runs past n Hr; cbn [repeat for_each]; [done|].
  rewrite exec_bind. unfold one_run at 1. rewrite exec_bind. cbn [act exec]. rewrite exec_bind.
  match goal with |- context [exec hd ?p ?m (loadOnce h f s o)] =>
    destruct (exec hd p m (loadOnce h f s o)) as [[[[r sm]|e] n1] past1] eqn:E end; [|done].
  apply HP in E. cbn [exec]. apply IH. apply Forall_app. by repeat constructor.
Qed.

(** C5. What a row of the report says is so of a run the generator made.  Whatever
    its runs are (every result it ends with is that of some interleaving of its
    goroutines, run to their ends, or of the rounds of its handshakes), the figures
    [load] keeps for a row are those of one such run, made with the transport and
    the clients the row asks for.  A row of queries: the answers are the sum of the
    response codes, the errors are the queries that failed, no more was answered or
    failed than was asked, the spread holds of the clients, the throughput is the
    answers over the time the run took, and in [unique] mode no name was asked
    twice.  A row of handshakes: every round a client began before the deadline is
    counted once, as a handshake or as an error, the throughput is the handshakes
    over the time, the percentiles are those of the handshakes that ended well, and
    there are no response codes. *)
Theorem row_accounts hd pem_ok h f s o past n r sm n' past' :
  generates hd pem_ok runs_made -> h_loadgen h <> "taskset" ->
  opts_in_range f (load_defaults f o) ->
  exec hd past n (load h f s o) = (Ok (r, sm), n', past') ->
  let c := asked_of f s (load_defaults f o) in
  if decide (lo_transport o = "handshake")
  then exists deadline elapsed clients, shakes_of c deadline elapsed clients r /\ shake_accounts c elapsed clients r
  else exists sc es elapsed asked, run_of c sc es elapsed asked r /\ accounts c sc es elapsed asked r.
Proof.
  intros Hg Hn Ho Hr c. revert past n r sm n' past' Hr. apply load_result.
  intros past n r sm n' past' H.
  destruct (loadOnce_child hd pem_ok runs_made h f s o past n Hg Hn Ho) as (w & sm1 & argv & x & Hw & _ & E).
  rewrite E in H. fold c in H. destruct (run_read _) as [r1|[e|e]] eqn:Er; [|done..]. injection H as -> _ _ _.
  unfold opts_in_range in Ho. rewrite !Forall_cons in Ho. destruct Ho as (Hc & Hk & _).
  apply child_reads in Er; [|by apply runs_made_ok]. specialize (Hw c r eq_refl Er). change (c_transport c) with (lo_transport o) in Hw.
  destruct (decide (lo_transport o = "handshake")) as [Ht|Ht].
  - destruct Hw as (d & el & cs & H). exists d, el, cs. split; [done|]. by eapply shakes_of_accounts.
  - destruct Hw as (sc & es & el & asked & H). exists sc, es, el, asked. split; [done|]. by apply run_of_accounts.
Qed.

(** ** A row whose generator asked four queries *)

#[export] Instance config_eq_dec : EqDecision config.
Proof. solve_decision. Defined.

Definition row_opts : loadOpts := load_opts "tcp" 2 [Qmode "unique"].

Definition row_config : config := asked_of default_bench a_server (load_defaults default_bench row_opts).

Definition row_run : option (shared * list gor * list ask) :=
  run_events row_config ex_schedule (shared0 row_config) (gors0 row_config) ex_events.

Lemma row_run_eq :
  row_run = run_events row_config ex_schedule (shared0 row_config) (gors0 row_config) ex_events.
Proof. reflexivity. Qed.

(** And a row of handshakes, whose two clients began three: one ended well. *)
Definition shake_row_opts : loadOpts := load_opts "handshake" 2 [].

Definition shake_row_config : config := asked_of default_bench a_server (load_defaults default_bench shake_row_opts).

Definition ex_shakes : list (list (time * shake_outcome)) :=
  [[(0, ShakeDone 5000000); (6000000, ShakeFailed ReadFailed)]; [(0, ShakeNoDial)]].

Definition row_world : world := fun c =>
  if decide (c = row_config) then
    match row_run with Some (s, _, _) => run_result c [] (5 * second) s | None => Ok None end
  else if decide (c = shake_row_config) then Ok (runHandshake c (5 * second) (5 * second) ex_shakes)
  else Err (ConnectFailed "refused").

Lemma row_world_made : runs_made row_world.
Proof.
  intros c r _. unfold row_world. destruct (decide (c = row_config)) as [->|].
  - intros Hr.
    destruct row_run as [[[s gs] asked]|] eqn:E; [|exfalso; discriminate Hr].
    destruct (decide (c_transport row_config = "handshake")) as [Ht|_]; [vm_compute in Ht; discriminate|].
    exists ex_schedule, ex_events, (5 * second), asked, s, gs.
    assert (Some gs = (fun x => x.1.2) <$> row_run) as Hg by by rewrite E.
    rewrite row_run_eq in E. split; [exact E|]. split; [|split; [vm_compute; reflexivity|exact Hr]].
    vm_compute in Hg. injection Hg as ->. repeat constructor; by eexists.
  - destruct (decide (c = shake_row_config)) as [->|]; intros Hr; [|exfalso; discriminate Hr]. apply Ok_inj in Hr.
    destruct (decide (c_transport shake_row_config = "handshake")) as [_|Ht]; [|by destruct Ht; vm_compute].
    exists (5 * second), (5 * second), ex_shakes. split; [vm_compute; reflexivity|].
    split; [by apply (bool_decide_unpack _); vm_compute|]. split; [vm_compute; reflexivity|exact Hr].
Qed.

Definition row_handler : handler := child_handler (fun _ => true) row_world no_result ex_sample.

Lemma row_handler_generates : generates row_handler (fun _ => true) runs_made.
Proof. intros past s argv. exists row_world, ex_sample. split; [apply row_world_made|done]. Qed.

Definition a_row (o : loadOpts) : result string (Result * sample) * nat * list happened :=
  exec row_handler [] 0 (load a_harness default_bench a_server o).

Lemma a_row_eq o : a_row o = exec row_handler [] 0 (load a_harness default_bench a_server o).
Proof. reflexivity. Qed.

Definition row_result (o : loadOpts) : option (Result * sample) :=
  match fst (fst (a_row o)) with Ok x => Some x | Err _ => None end.

Lemma row_result_exec o r sm :
  row_result o = Some (r, sm) ->
  exists n past, exec row_handler [] 0 (load a_harness default_bench a_server o) = (Ok (r, sm), n, past).
Proof.
  unfold row_result. intros H. rewrite <- a_row_eq. destruct (a_row o) as [[[x|e] n] past]; [|done].
  injection H as ->. by exists n, past.
Qed.

Lemma row_accounts_witness :
  (exists r sm, row_result row_opts = Some (r, sm) /\ Answered r = 2 /\ Errors r = 1 /\ Rcodes r !! "noerror" = Some 1 /\
   exists sc es elapsed asked, run_of row_config sc es elapsed asked r /\ accounts row_config sc es elapsed asked r) /\
  (exists r sm, row_result shake_row_opts = Some (r, sm) /\ Answered r = 1 /\ Errors r = 2 /\
   exists deadline elapsed clients, shakes_of shake_row_config deadline elapsed clients r /\
     shake_accounts shake_row_config elapsed clients r).
Proof.
  split.
  - destruct (row_result row_opts) as [[r sm]|] eqn:E; [|vm_compute in E; discriminate]. exists r, sm. split; [done|].
    assert ((fun x => (Answered (fst x), Errors (fst x), Rcodes (fst x) !! "noerror")) <$> row_result row_opts
      = Some (2, 1, Some 1)) as H by (vm_compute; reflexivity).
    rewrite E in H. injection H as H1 H2 H3. do 3 (split; [done|]). destruct (row_result_exec _ _ _ E) as (n & past & Hx).
    refine (row_accounts row_handler (fun _ => true) a_harness default_bench a_server row_opts [] 0 r sm n past
              row_handler_generates _ _ Hx); [discriminate|by apply (bool_decide_unpack _); vm_compute].
  - destruct (row_result shake_row_opts) as [[r sm]|] eqn:E; [|vm_compute in E; discriminate]. exists r, sm. split; [done|].
    assert ((fun x => (Answered (fst x), Errors (fst x))) <$> row_result shake_row_opts = Some (1, 2)) as H
      by (vm_compute; reflexivity).
    rewrite E in H. injection H as H1 H2. do 2 (split; [done|]). destruct (row_result_exec _ _ _ E) as (n & past & Hx).
    refine (row_accounts row_handler (fun _ => true) a_harness default_bench a_server shake_row_opts [] 0 r sm n past
              row_handler_generates _ _ Hx); [discriminate|by apply (bool_decide_unpack _); vm_compute].
Defined.
