(* ===== verification/BenchServers.v ===== *)
(** * [bench/cmd/bench/competitors.go, main.go]: the servers a run compares

    What each server serves ([supports]), where its binary is found
    ([findCompetitor]) and how [-servers] becomes the rows of a run
    ([addServers]).  What is a file and what is on PATH are arguments. *)

From S2P Require Import Prelude GoStrings BenchRun.

(** [%q] of a printable ASCII string. *)
Fixpoint quote_body (s : string) : string :=
  match s with
  | EmptyString => ""
  | String c rest =>
      if Ascii.eqb c dquote || Ascii.eqb c "\" then String "\" (String c (quote_body rest))
      else String c (quote_body rest)
  end.

Definition quote (s : string) : string := dq +:+ quote_body s +:+ dq.

(** [filepath.Join] of clean parts. *)
Definition path_join (parts : list string) : string := join "/" parts.

(** ** The servers *)

Record competitor : Type := mkCompetitor {
  cp_bin : string; cp_version : string; cp_transports : list string; cp_blocks : bool
}.

Definition competitors : gmap string competitor :=
  list_to_map
    [("adguardhome", mkCompetitor "adguardhome" "--version" ["udp"; "tcp"; "dot"; "doh1"; "doh2"] true);
     ("blocky", mkCompetitor "blocky" "version" ["udp"; "tcp"; "dot"; "doh1"] true);
     ("coredns", mkCompetitor "coredns" "-version" ["udp"; "tcp"; "dot"; "doh1"; "doh2"] false);
     ("dnsmasq", mkCompetitor "dnsmasq" "--version" ["udp"] true);
     ("pdns", mkCompetitor "pdns_recursor" "--version" ["udp"; "tcp"] true);
     ("dnsdist", mkCompetitor "dnsdist" "--version" ["udp"; "tcp"; "dot"; "doh2"] true);
     ("bind", mkCompetitor "named" "-v" ["udp"; "tcp"; "dot"; "doh2"] true);
     ("pihole", mkCompetitor "pihole-FTL" "-v" ["udp"; "tcp"] true);
     ("knot", mkCompetitor "kresd" "--version" ["udp"; "tcp"; "dot"; "doh2"] true)].

Definition supports (kind transport : string) : bool :=
  if String.eqb kind "elodin" then true
  else if String.eqb kind "unbound" then negb (String.eqb transport "doh1")
  else
    match competitors !! kind with
    | None => false
    | Some c =>
        if String.eqb transport "block" then cp_blocks c
        else existsb (String.eqb transport) (cp_transports c)
    end.

(** [findCompetitor]: [is_file] is a file that is there and no directory, [on_path]
    is [exec.LookPath]. *)
Definition findCompetitor (dir bin : string) (is_file : string -> bool) (on_path : string -> option string)
  : option string :=
  let tried := map (fun sub => path_join [dir; sub; bin]) ["bin"; "root/usr/sbin"; "root/usr/bin"] ++
               [path_join [dir; bin]] in
  if String.eqb dir "" then on_path bin
  else match List.find is_file tried with Some p => Some p | None => on_path bin end.

Definition libPath (competitorDir : string) : string :=
  if String.eqb competitorDir "" then ""
  else
    let r := path_join [competitorDir; "root"] in
    path_join [r; "usr/lib/aarch64-linux-gnu"] +:+ ":" +:+ path_join [r; "usr/lib/x86_64-linux-gnu"] +:+ ":" +:+
    path_join [r; "usr/lib"].

(** ** Which servers a run compares: [addServers] *)

Inductive add_outcome : Type :=
  | Added (kinds skipped : list string) (bins : gmap string string)
  | Fatal (message : string).

(** [addCompetitor], on the names and binaries collected so far. *)
Definition addCompetitor (only : string) (find : string -> option string)
  (acc : list string * list string * gmap string string) (k : string) : add_outcome :=
  let '(kinds, skipped, bins) := acc in
  match competitors !! k with
  | None => Fatal ("bench: -servers: unknown server " +:+ quote k)
  | Some c =>
      if negb (String.eqb only "compare") then
        Fatal ("bench: -servers " +:+ k +:+
               " is for -only compare; the other sections compare elodin and unbound")
      else
        match find (cp_bin c) with
        | None => Added kinds (skipped ++ [k +:+ " rows are skipped: `" +:+ cp_bin c +:+ "` was not found."]) bins
        | Some path => Added (kinds ++ [k]) skipped (<[k := path]> bins)
        end
  end.

Definition addServer (only unboundBin : string) (unbound : option string) (find : string -> option string)
  (acc : list string * list string * gmap string string) (k : string) : add_outcome :=
  let '(kinds, skipped, bins) := acc in
  if String.eqb k "elodin" then Added (kinds ++ [k]) skipped bins
  else if String.eqb k "unbound" then
    match unbound with
    | Some _ => Added (kinds ++ [k]) skipped bins
    | None => Added kinds (skipped ++ ["Unbound rows are skipped: `" +:+ unboundBin +:+ "` is not on PATH."]) bins
    end
  else if String.eqb k "" then Added kinds skipped bins
  else addCompetitor only find acc k.

Fixpoint add_all (only unboundBin : string) (unbound : option string) (find : string -> option string)
  (acc : list string * list string * gmap string string) (ks : list string) : add_outcome :=
  match ks with
  | [] => let '(kinds, skipped, bins) := acc in Added kinds skipped bins
  | k :: ks =>
      match addServer only unboundBin unbound find acc k with
      | Fatal m => Fatal m
      | Added kinds skipped bins => add_all only unboundBin unbound find (kinds, skipped, bins) ks
      end
  end.

Definition all_servers : string :=
  "elodin,unbound,adguardhome,blocky,pihole,coredns,dnsmasq,pdns,dnsdist,bind,knot".

Definition server_names (names : string) : list string :=
  let names := if String.eqb names "all" then all_servers else names in
  map trim_space (GoStrings.split "," names).

Definition addServers (only unboundBin : string) (unbound : option string) (find : string -> option string)
  (names : string) : add_outcome :=
  add_all only unboundBin unbound find ([], [], ∅) (server_names names).

(** ** What a run compares *)

(** A name that is a server, and one that is found on the machine. *)
Definition known (k : string) : bool :=
  String.eqb k "elodin" || String.eqb k "unbound" || bool_decide (is_Some (competitors !! k)).

Definition found (unbound : option string) (find : string -> option string) (k : string) : bool :=
  if String.eqb k "elodin" then true
  else if String.eqb k "unbound" then bool_decide (is_Some unbound)
  else match competitors !! k with Some c => bool_decide (is_Some (find (cp_bin c))) | None => false end.

Definition named (k : string) : bool := negb (String.eqb k "").

(** What adding the names [ks] to [kinds], [skipped] and [bins] may give. *)
Definition added (only : string) (unbound : option string) (find : string -> option string) (ks : list string)
  (kinds : list string) (skips : Z) (bins : gmap string string) (out : add_outcome) : Prop :=
  match out with
  | Added kinds' skipped' bins' =>
      Forall (fun k => known k = true) (List.filter named ks) /\
      kinds' = kinds ++ List.filter (found unbound find) (List.filter named ks) /\
      zlen skipped' = skips + zcount (fun k => negb (found unbound find k)) (List.filter named ks) /\
      (forall k, bins' !! k = bins !! k \/
                 exists c, competitors !! k = Some c /\ bins' !! k = find (cp_bin c)) /\
      Forall (fun k => forall c, competitors !! k = Some c -> found unbound find k = true ->
                bins' !! k = find (cp_bin c)) ks
  | Fatal _ => exists k, k ∈ ks /\ named k = true /\ (known k = false \/ only <> "compare")
  end.

Section one_name.
Context (only : string) (unbound : option string) (find : string -> option string).
Context (kinds skipped : list string) (bins : gmap string string) (k : string).

Lemma added_yes bins' :
  named k = true -> known k = true -> found unbound find k = true ->
  (forall j, bins' !! j = bins !! j \/ exists c, competitors !! j = Some c /\ bins' !! j = find (cp_bin c)) ->
  (forall c, competitors !! k = Some c -> bins' !! k = find (cp_bin c)) ->
  added only unbound find [k] kinds (zlen skipped) bins (Added (kinds ++ [k]) skipped bins').
Proof.
  intros Hn Hk Hf Hm Hb. unfold added, zcount. cbn [List.filter]. rewrite Hn. cbn [List.filter]. rewrite Hf.
  split; [by repeat constructor|]. split; [done|]. split; [by rewrite Z.add_0_r|].
  split; [done|]. constructor; [|done]. intros c Hc _. by apply Hb.
Qed.

Lemma added_no why :
  named k = true -> known k = true -> found unbound find k = false ->
  added only unbound find [k] kinds (zlen skipped) bins (Added kinds (skipped ++ [why]) bins).
Proof.
  intros Hn Hk Hf. unfold added, zcount. cbn [List.filter]. rewrite Hn. cbn [List.filter]. rewrite Hf.
  split; [by repeat constructor|]. split; [by rewrite app_nil_r|].
  split; [by rewrite zlen_app|]. split; [by left|]. constructor; [|done]. intros c _ Hf'. congruence.
Qed.

Lemma addCompetitor_added :
  k <> "elodin" -> k <> "unbound" -> k <> "" ->
  added only unbound find [k] kinds (zlen skipped) bins (addCompetitor only find (kinds, skipped, bins) k).
Proof.
  intros H1%String.eqb_neq H2%String.eqb_neq H3%String.eqb_neq. unfold addCompetitor.
  assert (Hn : named k = true) by (unfold named; by rewrite H3).
  destruct (competitors !! k) as [c|] eqn:Ec.
  2: { exists k. split_and!; [set_solver|done|]. left. unfold known. by rewrite H1, H2, Ec. }
  destruct (String.eqb only "compare") eqn:Eo.
  2: { apply String.eqb_neq in Eo. exists k. split_and!; [set_solver|done|by right]. }
  assert (Hk : known k = true) by (unfold known; rewrite Ec; apply orb_true_r).
  assert (Hf : found unbound find k = bool_decide (is_Some (find (cp_bin c)))) by (unfold found; by rewrite H1, H2, Ec).
  cbn [negb]. destruct (find (cp_bin c)) as [path|] eqn:Ef; [|by apply added_no].
  apply added_yes; [done..| |].
  - intros j. destruct (decide (k = j)) as [<-|Hj]; [right|left].
    + exists c. by rewrite lookup_insert_eq.
    + by rewrite lookup_insert_ne.
  - intros c' Hc. rewrite Ec in Hc. injection Hc as <-. by rewrite lookup_insert_eq.
Qed.

End one_name.

Lemma addServer_added only unboundBin unbound find kinds skipped bins k :
  added only unbound find [k] kinds (zlen skipped) bins
    (addServer only unboundBin unbound find (kinds, skipped, bins) k).
Proof.
  unfold addServer. destruct (String.eqb_spec k "elodin") as [E|H1].
  { apply added_yes; rewrite ?E; try done. by left. }
  destruct (String.eqb_spec k "unbound") as [E|H2].
  { destruct unbound as [path|]; [apply added_yes|apply added_no]; rewrite ?E; try done. by left. }
  destruct (String.eqb_spec k "") as [E|H3]; [|by apply addCompetitor_added].
  rewrite E. unfold added, zcount. cbn [List.filter named negb String.eqb zlen length].
  split; [done|]. split; [by rewrite app_nil_r|]. split; [by rewrite Z.add_0_r|]. split; [by left|].
  constructor; [|done]. intros c Hc. vm_compute in Hc. done.
Qed.
Lemma added_app only unbound find ks ks' kinds skips bins kinds1 skipped1 bins1 out :
  added only unbound find ks kinds skips bins (Added kinds1 skipped1 bins1) ->
  added only unbound find ks' kinds1 (zlen skipped1) bins1 out ->
  added only unbound find (ks ++ ks') kinds skips bins out.
Proof.
  intros (Hk & -> & Hs & Hm & Hb) H. destruct out as [kinds2 skipped2 bins2|m]; [|unfold added in *; set_solver].
  destruct H as (Hk' & -> & Hs' & Hm' & Hb'). unfold added. rewrite !List.filter_app.
  split; [by apply Forall_app|]. split; [by rewrite app_assoc|].
  split; [rewrite zcount_app; lia|]. split.
  - intros k. destruct (Hm' k) as [->|?]; [apply Hm|by right].
  - apply Forall_app. split; [|done]. eapply Forall_impl; [exact Hb|]. intros k Hf c Hc Hfound.
    destruct (Hm' k) as [->|(c' & Hc' & ->)]; [by apply Hf|congruence].
Qed.

Lemma add_all_added only unboundBin unbound find ks kinds skipped bins :
  added only unbound find ks kinds (zlen skipped) bins
    (add_all only unboundBin unbound find (kinds, skipped, bins) ks).
Proof.
  revert kinds skipped bins. induction ks as [|k ks IH]; intros kinds skipped bins; cbn [add_all].
  - split; [done|]. split; [by rewrite app_nil_r|]. split; [by rewrite Z.add_0_r|]. split; [by left|done].
  - pose proof (addServer_added only unboundBin unbound find kinds skipped bins k) as H.
    destruct (addServer _ _ _ _ _ k) as [kinds1 skipped1 bins1|m].
    + exact (added_app _ _ _ [k] ks _ _ _ _ _ _ _ H (IH _ _ _)).
    + destruct H as (j & ?%list_elem_of_singleton & Hj). exists j. set_solver.
Qed.

(** C32. The rows of a run are the servers asked for, each accounted for.  Either
    every name is a server the harness knows, and then those found on the
    machine are compared, in the order and as often as they were named, each
    other has its line in the report, and every competitor compared has the
    path of its binary; or a name is no server, or one only the comparison
    section can run, and nothing is. *)
Theorem addServers_accounts only unboundBin unbound find names :
  match addServers only unboundBin unbound find names with
  | Added kinds skipped bins =>
      let asked := List.filter named (server_names names) in
      Forall (fun k => known k = true) asked /\
      kinds = List.filter (found unbound find) asked /\ zlen kinds + zlen skipped = zlen asked /\
      Forall (fun k => forall c, competitors !! k = Some c -> bins !! k = find (cp_bin c)) kinds
  | Fatal _ => exists k, k ∈ server_names names /\ named k = true /\ (known k = false \/ only <> "compare")
  end.
Proof.
  unfold addServers. pose proof (add_all_added only unboundBin unbound find (server_names names) [] [] ∅) as H.
  destruct (add_all _ _ _ _ _ _) as [kinds skipped bins|m]; [|exact H].
  destruct H as (Hk & -> & -> & _ & Hb). simpl. split; [done|]. split; [done|]. split.
  - unfold zcount. induction (List.filter named (server_names names)) as [|k l IH]; [done|]. inversion Hk; subst.
    simpl. destruct (found unbound find k); simpl; rewrite ?zlen_cons; specialize (IH ltac:(done)); lia.
  - rewrite Forall_forall in *. intros k Hin c Hc. apply list_elem_of_In, filter_In in Hin as [Hin Hf].
    apply filter_In in Hin as [Hin _]. by apply (Hb k (proj2 (list_elem_of_In _ _) Hin)).
Qed.

Example addServers_ex :
  addServers "compare" "unbound" None (fun b => if String.eqb b "named" then Some "/opt/named" else None)
    "elodin, unbound,bind, knot" =
  Added ["elodin"; "bind"]
    ["Unbound rows are skipped: `unbound` is not on PATH."; "knot rows are skipped: `kresd` was not found."]
    {["bind" := "/opt/named"]}.
Proof. vm_compute. reflexivity. Qed.
