(* ===== verification/BenchConfigs.v ===== *)
(** * [bench/cmd/bench/competitor_configs.go, server.go]: how each server is configured

    The configuration files written for each server and the command that runs
    it.  Writing a file, making a directory and a free port are arguments
    ([machine]): what the operating system answered.  A configuration is a
    template of the source filled in by [sprintf]; the templates are the
    source's, a tilde standing for the double quote.

    What makes a blocking row comparable -- that every server is given the same
    names, and told to block them -- is [BenchBlocking]'s. *)

From S2P Require Import Prelude GoStrings GoFloat NetAddr UnitEnv BenchRun BenchServers.

(** ** [fmt.Sprintf] over arguments already printed *)

Definition is_verb (c : ascii) : bool := in_set ["s"; "d"; "t"; "q"; "v"]%char c.

Fixpoint sprintf (format : string) (args : list string) : string :=
  match format with
  | EmptyString => ""
  | String "%" (String c rest) =>
      if Ascii.eqb c "%" then String "%" (sprintf rest args)
      else if is_verb c then
        match args with
        | a :: args => a +:+ sprintf rest args
        | [] => "%!" +:+ String c ("(MISSING)" +:+ sprintf rest [])
        end
      else String "%" (String c (sprintf rest args))
  | String c rest => String c (sprintf rest args)
  end.

(** How many arguments a format takes. *)
Fixpoint verbs (format : string) : nat :=
  match format with
  | EmptyString => 0
  | String "%" (String c rest) => if is_verb c then S (verbs rest) else verbs rest
  | String _ rest => verbs rest
  end.

Definition tilde (s : string) : string := replace_byte "~" dquote s.

(** ** Sizes every configuration shares *)

Definition cacheBytes (o : serverOpts) (per : Z) : Z :=
  let b := so_cacheEntries o * per in
  if so_cacheEntries o >=? 10000 then Z.max b (Z.shiftl 32 20) else b.

Definition inflightBound (o : serverOpts) : Z := Z.max 4096 (so_maxPending o).

Definition secs (d : duration) : Z := trunc64 (seconds d).

(** [unboundThreads], on a machine with [cpus]. *)
Definition unboundThreads (cpus loops : Z) : Z := if loops >? 0 then loops else Z.min cpus 8.

Definition blockNames (n : Z) : list string :=
  "blocked.bench.test" ::
  map (fun i => "sink-" +:+ itoa (Z.of_nat i) +:+ ".bench.invalid") (seq 0 (Z.to_nat n)).

(** The defaults [start] fills in. *)
Definition start_defaults (o : serverOpts) : serverOpts :=
  let or_z (v d : Z) := if v =? 0 then d else v in
  let or_s v d := if String.eqb v "" then d else v in
  mkOpts (so_name o) (so_kind o) (so_loops o) (so_maxPending o) (or_z (so_maxConnections o) 512)
    (or_z (so_clientTimeout o) (10 * second)) (so_cpus o) (so_cache o) (or_z (so_cacheEntries o) 10000)
    (so_blockRules o) (or_s (so_certKind o) "ecdsa") (so_logQueries o) (or_s (so_logLevel o) "warn")
    (so_noUpstream o) (so_dnssec o) (so_upstreamAddr o) (or_z (so_attempts o) 1).

(** ** The templates *)

Definition elodinTemplate : string := tilde "log:
  level: %s
  queries: %t
  file: %s

server:
  max_connections: %d
  # The whole table to one prefix, for the same reason the limiter is off below:
  # every client here is 127.0.0.1, so all of them are one client to a per-prefix
  # share, and the shipped default of half the table would refuse the second half
  # of the 500-connection TCP row rather than measure it. A real deployment keeps
  # the share; see bench/results/2026-09-03-connection-table-share.md.
  max_connections_per_prefix: %d
  max_pending: %d
  client_timeout: %s
  # The load generator is one address sending as fast as it can, which is
  # exactly the shape response rate limiting exists to stop. Measuring the
  # server's ceiling means taking that limit off; a real deployment keeps it.
  rate_limit:
    enabled: false

listeners:
  udp:
    enabled: true
    address: ~127.0.0.1~
    port: %d
    readers: %d
  tcp:
    enabled: true
    address: ~127.0.0.1~
    port: %d
  dot:
    enabled: true
    address: ~127.0.0.1~
    port: %d
    cert_file: %s
    key_file: %s
  doh:
    enabled: true
    address: ~127.0.0.1~
    port: %d
    path: /dns-query
    cert_file: %s
    key_file: %s

upstream:
  strategy: failover
  timeout: 5s
  attempts: %d
  bootstrap: [127.0.0.1]
  servers:
    - name: mock
      type: udp
      address: %s
      port: %s

cache:
  enabled: %t
  max_entries: %d
  # Room for every entry the row allows, as the byte-sized servers get through
  # cacheBytes: left at the 64 MiB default, the byte bound evicts first in the
  # 200,000-entry row and the per-entry figure divides by entries not held.
  # Never under that default, so the rows it already fitted are run as before.
  max_bytes: %d

dnssec:
  enabled: %t

rewrites:
  - domain: rewritten.bench.test
    answer: 192.0.2.10
".

Definition unboundTemplate : string := tilde "server:
  verbosity: 0
  num-threads: %d
  so-reuseport: yes
  interface: 127.0.0.1@%d
  interface: 127.0.0.1@%d
  interface: 127.0.0.1@%d
  port: %d
  tls-port: %d
  https-port: %d
  http-endpoint: ~/dns-query~
  tls-service-key: %s
  tls-service-pem: %s
  do-ip6: no
  access-control: 127.0.0.0/8 allow
  # The mock is on loopback, which Unbound refuses to forward to by default.
  do-not-query-localhost: no
  # Unbound answers test. itself (RFC 6761 section 6.2), NXDOMAIN for every
  # name; the mock's zone is under it, so it has to be forwarded instead.
  local-zone: ~test.~ nodefault
  # DNSSEC off, as for elodin: the mock's zone has no chain to the root.
  module-config: ~iterator~
  qname-minimisation: no
  # No rate limiting, for the reason elodin's is off: every client is one
  # address asking as fast as it can.
  ratelimit: 0
  ip-ratelimit: 0
  msg-cache-size: %d
  rrset-cache-size: %d
%s  num-queries-per-thread: %d
  outgoing-range: %d
  outgoing-num-tcp: 64
  incoming-num-tcp: %d
  tcp-idle-timeout: %d
  # Unbound times out an upstream it has no round-trip figure for after 376 ms
  # and retransmits, which against the long-delay mock would turn one query
  # into four. elodin waits upstream.timeout (5s) for one attempt; so does this.
  unknown-server-time-limit: 5000
  # Unbound drops the reply to a client that has waited past this (1,900 ms by
  # default) on the view that it has retried by now; the generator does not
  # retry, and the in-flight rows hold queries for three seconds.
  discard-timeout: 0
  infra-cache-min-rtt: 5000
  username: ~~
  chroot: ~~
  directory: %s
  pidfile: ~~
  use-syslog: no
  logfile: %s
  log-queries: %s

remote-control:
  control-enable: no

forward-zone:
  name: ~.~
  forward-addr: %s@%s
".

Definition elodinBlocking : string := tilde "
blocking:
  enabled: true
  response: nxdomain
  refresh: 0
  cache_dir: %s
  lists:
    - name: bench
      file: %s
      format: domains
".

Definition aghTemplate : string := tilde "schema_version: 34
http:
  address: 127.0.0.1:%d
users: []
dns:
  bind_hosts: [127.0.0.1]
  port: %d
  # The generator is one address; AdGuard's default is 20 a second per client.
  ratelimit: 0
  upstream_dns: [~127.0.0.1:%s~]
  bootstrap_dns: [~127.0.0.1:%s~]
  fallback_dns: []
  upstream_mode: load_balance
  upstream_timeout: 5s
  # AdGuard's bound on queries being handled at once, default 300: the
  # counterpart of max_pending.
  max_goroutines: %d
  cache_enabled: %s
  cache_size: %d
  cache_optimistic: false
  enable_dnssec: false
  aaaa_disabled: false
  use_private_ptr_resolvers: false
  serve_plain_dns: true
tls:
  enabled: true
  server_name: localhost
  port_https: %d
  port_dns_over_tls: %d
  port_dns_over_quic: 0
  allow_unencrypted_doh: false
  certificate_path: %s
  private_key_path: %s
querylog:
  enabled: false
statistics:
  enabled: false
filtering:
  protection_enabled: true
  filtering_enabled: true
  blocking_mode: nxdomain
  # 0 would also skip reading the list at start.
  filters_update_interval: 24
  safe_fs_patterns: [~%s/*~]
%slog:
  verbose: false
".

Definition blockyTemplate : string := tilde "blocking:
  denylists:
    bench: [%s]
  clientGroupsBlock:
    default: [bench]
  blockType: nxDomain
  loading:
    strategy: blocking
    refreshPeriod: 0
".

Definition pdnsTemplate : string := tilde "local-address=127.0.0.1
local-port=%d
forward-zones-recurse=.=127.0.0.1:%s
# The mock is on loopback, which the recursor will not query by default.
dont-query=
threads=%d
dnssec=off
max-cache-entries=%d
max-packetcache-entries=%d
# Its bound on queries being resolved at once, per thread.
max-mthreads=%d
max-tcp-clients=%d
max-tcp-per-client=0
client-tcp-timeout=%d
network-timeout=5000
# A UNIX socket path is at most 108 bytes, which the run directory can pass.
socket-dir=%s
disable-syslog=yes
daemon=no
loglevel=3
security-poll-suffix=
".

Definition bindTemplate : string := tilde "tls benchtls { cert-file %q; key-file %q; };
http benchhttp { endpoints { ~/dns-query~; }; };
options {
  directory %q;
  pid-file none;
  session-keyfile none;
  listen-on port %d { 127.0.0.1; };
  listen-on port %d tls benchtls { 127.0.0.1; };
  listen-on port %d tls benchtls http benchhttp { 127.0.0.1; };
  listen-on-v6 { none; };
  recursion yes;
  allow-query { any; };
  allow-recursion { 127.0.0.0/8; };
  forwarders { 127.0.0.1 port %s; };
  forward only;
  dnssec-validation no;
  max-cache-size %s;
%s  recursive-clients %d;
  tcp-clients %d;
  http-listener-clients %d;
  # BIND's listen backlog is 10 by default, which a thousand clients
  # connecting at once overflow; the kernel's own ceiling, as the others use.
  tcp-listen-queue 4096;
  tcp-initial-timeout %d;
  tcp-idle-timeout %d;
  minimal-responses no-auth;
%s};
logging { category default { null; }; category lame-servers { null; }; };
%s".

Definition piholeTemplate : string := tilde "[dns]
upstreams = [~127.0.0.1#%s~]
port = %d
listeningMode = ~BIND~
interface = ~lo~
queryLogging = false
dnssec = false
[dns.cache]
size = %d
[dns.blocking]
mode = ~NX~
[dns.rateLimit]
count = 0
[resolver]
resolveIPv4 = false
resolveIPv6 = false
[database]
maxDBdays = 0
[webserver]
port = ~127.0.0.1:%d~
[files]
database = ~%s/ftl.db~
[files.log]
ftl = ~%s/FTL.log~
dnsmasq = ~%s/dnsmasq.log~
webserver = ~%s/web.log~
[ntp.ipv4]
active = false
[ntp.ipv6]
active = false
[ntp.sync]
active = false
[misc]
# dnsmasq's bound on queries forwarded at once, default 150: the
# counterpart of max_pending. FTL answers all of test. itself (RFC 6761);
# the mock's zone is under it, so the more specific server= forwards it,
# and a blocked name under it is answered from the list or not at all.
dnsmasq_lines = [~dns-forward-max=%d~, ~server=/bench.test/127.0.0.1#%s~]
".

Definition blockyBody : string := tilde "upstreams:
  groups:
    default: [127.0.0.1:%s]
  timeout: 5s
  init:
    strategy: fast
ports:
  dns: 127.0.0.1:%d
  tls: 127.0.0.1:%d
  https: 127.0.0.1:%d
certFile: %s
keyFile: %s
# Blocky answers RFC 6761 names itself, NXDOMAIN for all of test.; the
# mock's zone is under it, so it has to be forwarded instead.
specialUseDomains:
  enable: false
%s%squeryLog:
  type: none
log:
  level: warn
".

Definition corednsBlock : string := tilde "%s.:%d {
  bind 127.0.0.1
  %s
  forward . 127.0.0.1:%s {
    max_concurrent %d
  }
  %s
  timeouts {
    idle %ds
  }
}
".

Definition dnsmasqBody : string := tilde "port=%d
listen-address=127.0.0.1
bind-interfaces
no-resolv
no-hosts
no-poll
server=127.0.0.1#%s
cache-size=%d
dns-forward-max=%d
pid-file=
".

Definition dnsdistList : string := tilde "local s = newDNSNameSet()
for l in io.lines(%q) do s:add(newDNSName(l)) end
addAction(QNameSetRule(s), RCodeAction(DNSRCode.NXDOMAIN))
".

Definition knotBody : string := tilde "net.listen('127.0.0.1', %d, {kind='dns'})
net.listen('127.0.0.1', %d, {kind='tls'})
net.listen('127.0.0.1', %d, {kind='doh2'})
net.tls(%q, %q)
net.tcp_in_idle(%d)
trust_anchors.remove('.')
cache.open(%d, 'lmdb://%s')
".

(** ** Writing the configurations *)

Record ports : Type := mkPorts { p_dns : Z; p_dot : Z; p_doh : Z; upHost : string; upPort : string }.

(** What the operating system answers while a configuration is written. *)
Record machine : Type := mkMachine {
  m_dir : string; m_cpus : Z; m_bin : string; m_competitorDir : string;
  m_write : string -> option string;       (* the error of writing a path *)
  m_mkdir : string -> option string;
  m_port : result string Z;                (* the web port of two of them *)
  m_tmp : result string string;
  m_schema : result string string; m_sqlite : option string; m_now : Z
}.

(** The files written, in order, and the command. *)
Record launch : Type := mkLaunch { files : list (string * string); argv : list string }.

Section config.
Context (m : machine) (o : serverOpts) (p : ports).

Definition write (path content : string) : result string (string * string) :=
  match m_write m path with Some e => Err e | None => Ok (path, content) end.

Definition mkdir (path : string) : result string unit :=
  match m_mkdir m path with Some e => Err e | None => Ok tt end.

Definition in_dir (name : string) : string := path_join [m_dir m; name].

Definition cert : string := in_dir (so_certKind o +:+ "-cert.pem").
Definition key : string := in_dir (so_certKind o +:+ "-key.pem").

(** [writeList]: the names of the list, one a line. *)
Definition writeList (ext header : string) (line : string -> string) : result string (string * string) :=
  write (in_dir (so_name o +:+ "-" +:+ so_kind o +:+ "-block." +:+ ext))
    (header +:+ concat_all (map (fun n => line n +:+ nls) (blockNames (so_blockRules o)))).

Definition writeRPZ : result string (string * string) :=
  writeList "rpz"
    ("$TTL 60" +:+ nls +:+ "@ SOA localhost. root.localhost. 1 3600 600 86400 60" +:+ nls +:+ "@ NS localhost." +:+ nls)
    (fun n => n +:+ " CNAME .").

Definition writeConf (ext cfg : string) : result string (string * string) :=
  write (in_dir (so_name o +:+ "-" +:+ so_kind o +:+ "." +:+ ext)) cfg.

(** The list when the row blocks, and nothing otherwise. *)
Definition when_blocking {A} (none : A) (w : result string A) : result string A :=
  if so_blockRules o >? 0 then w else Ok none.

Definition elodinConfig (logPath : string) : result string launch :=
  let blockPath := in_dir (so_name o +:+ "-block.txt") in
  let? list := when_blocking []
    (let? w := write blockPath
       ("blocked.bench.test" +:+ nls +:+
        concat_all (map (fun i => "sink-" +:+ itoa (Z.of_nat i) +:+ ".bench.invalid" +:+ nls)
                      (seq 0 (Z.to_nat (so_blockRules o))))) in
     Ok [w]) in
  let cfg := sprintf elodinTemplate
    [so_logLevel o; fmt_bool (so_logQueries o); logPath;
     itoa (so_maxConnections o); itoa (so_maxConnections o); itoa (so_maxPending o);
     dur_string (so_clientTimeout o); itoa (p_dns p); itoa (so_loops o); itoa (p_dns p); itoa (p_dot p);
     cert; key; itoa (p_doh p); cert; key; itoa (so_attempts o); upHost p; upPort p;
     fmt_bool (so_cache o); itoa (so_cacheEntries o);
     itoa (Z.max (cacheBytes o 1024) (Z.shiftl 64 20)); fmt_bool (so_dnssec o)] in
  let cfg := cfg +:+
    (if so_blockRules o >? 0 then sprintf elodinBlocking [in_dir "listcache"; blockPath]
     else nls +:+ "blocking:" +:+ nls +:+ "  enabled: false" +:+ nls) in
  let? w := write (in_dir (so_name o +:+ ".yaml")) cfg in
  Ok (mkLaunch (list ++ [w]) [m_bin m; "--config"; fst w; "--no-fetch"]).

(** Handlers Unbound is given per thread: three times the even share. *)
Definition perThreadTCP (threads : Z) : Z :=
  3 * Z.quot (so_maxConnections o + threads - 1) threads + 64.

Definition unboundConfig (logPath : string) : result string launch :=
  if so_dnssec o || so_noUpstream o then
    Err (so_name o +:+ ": validation and a dead upstream are elodin-only rows")
  else
    let threads := unboundThreads (m_cpus m) (so_loops o) in
    let inflight := inflightBound o in
    let maxTTL := if so_cache o then "" else "  cache-max-ttl: 0" +:+ nls in
    let logQueries := if so_logQueries o then "yes" else "no" in
    let msgCache := cacheBytes o 1024 in
    let ports := map itoa [p_dns p; p_dot p; p_doh p] in
    let cfg := sprintf unboundTemplate
      ([itoa threads] ++ ports ++ ports ++
       [key; cert; itoa msgCache; itoa (2 * msgCache); maxTTL; itoa inflight; itoa (2 * inflight);
        itoa (perThreadTCP threads); itoa (milliseconds (so_clientTimeout o));
        m_dir m; logPath; logQueries; upHost p; upPort p]) in
    let? list := when_blocking []
      (let? w := writeList "conf" ("server:" +:+ nls)
         (fun n => "  local-zone: " +:+ quote (n +:+ ".") +:+ " always_nxdomain") in Ok [w]) in
    let cfg := cfg +:+ concat_all (map (fun w => "include: " +:+ fst w +:+ nls) list) in
    let? w := write (in_dir (so_name o +:+ "-unbound.conf")) cfg in
    Ok (mkLaunch (list ++ [w]) [m_bin m; "-d"; "-c"; fst w]).

Definition aghConfig : result string launch :=
  let? web := m_port m in
  let work := in_dir (so_name o +:+ "-agh") in
  let? _ := mkdir work in
  let? (list, filters) := when_blocking ([], "filters: []" +:+ nls)
    (let? w := writeList "txt" "" (fun n => "||" +:+ n +:+ "^") in
     Ok ([w], "filters:" +:+ nls +:+ "  - enabled: true" +:+ nls +:+ "    url: " +:+ fst w +:+ nls +:+
              "    name: bench" +:+ nls +:+ "    id: 1" +:+ nls)) in
  let cfg := sprintf aghTemplate
    [itoa web; itoa (p_dns p); upPort p; upPort p; itoa (inflightBound o); fmt_bool (so_cache o);
     itoa (cacheBytes o 4096); itoa (p_doh p); itoa (p_dot p); cert; key; m_dir m; filters] in
  let? w := writeConf "yaml" cfg in
  Ok (mkLaunch (list ++ [w]) [m_bin m; "-c"; fst w; "-w"; work; "--no-check-update"; "--no-permcheck"]).

Definition blockyConfig : result string launch :=
  let? (list, blocking) := when_blocking ([], "")
    (let? w := writeList "txt" "" (fun n => n) in Ok ([w], sprintf blockyTemplate [fst w])) in
  let caching :=
    if so_cache o then
      "caching:" +:+ nls +:+ "  maxItemsCount: " +:+ itoa (so_cacheEntries o) +:+ nls +:+ "  prefetching: false" +:+ nls
    else "caching:" +:+ nls +:+ "  maxTime: -1m" +:+ nls in
  let cfg := sprintf blockyBody
    [upPort p; itoa (p_dns p); itoa (p_dot p); itoa (p_doh p); cert; key; caching; blocking] in
  let? w := writeConf "yaml" cfg in
  Ok (mkLaunch (list ++ [w]) [m_bin m; "--config"; fst w]).

Definition corednsConfig : result string launch :=
  let n := itoa (so_cacheEntries o) in
  let cache :=
    if so_cache o then
      "cache 3600 {" +:+ nls +:+ "    success " +:+ n +:+ nls +:+ "    denial " +:+ n +:+ nls +:+ "  }"
    else "" in
  let block scheme port tls := sprintf corednsBlock
    [scheme; itoa port; tls; upPort p; itoa (inflightBound o); cache; itoa (secs (so_clientTimeout o))] in
  let tls := "tls " +:+ cert +:+ " " +:+ key in
  let https := tls +:+ nls +:+ "  https {" +:+ nls +:+ "    max_connections " +:+ itoa (so_maxConnections o) +:+
               nls +:+ "  }" in
  let? w := writeConf "Corefile" (block "" (p_dns p) "" +:+ block "tls://" (p_dot p) tls +:+
                                  block "https://" (p_doh p) https) in
  Ok (mkLaunch [w] [m_bin m; "-conf"; fst w; "-quiet"]).

Definition dnsmasqConfig : result string launch :=
  let cache := if so_cache o then so_cacheEntries o else 0 in
  let cfg := sprintf dnsmasqBody [itoa (p_dns p); upPort p; itoa cache; itoa (inflightBound o)] in
  let? list := when_blocking []
    (let? w := writeList "conf" "" (fun n => "address=/" +:+ n +:+ "/") in Ok [w]) in
  let cfg := cfg +:+ concat_all (map (fun w => "conf-file=" +:+ fst w +:+ nls) list) in
  let? w := writeConf "conf" cfg in
  Ok (mkLaunch (list ++ [w]) [m_bin m; "--keep-in-foreground"; "--conf-file=" +:+ fst w]).

Definition pdnsConfig : result string launch :=
  let dir := in_dir (so_name o +:+ "-pdns") in
  let? _ := mkdir dir in
  let? sock := m_tmp m in
  let threads := unboundThreads (m_cpus m) (so_loops o) in
  let entries := if so_cache o then so_cacheEntries o else 0 in
  let cfg := sprintf pdnsTemplate
    [itoa (p_dns p); upPort p; itoa threads; itoa entries; itoa entries; itoa (inflightBound o);
     itoa (so_maxConnections o); itoa (secs (so_clientTimeout o)); sock] in
  let? (list, cfg) := when_blocking ([], cfg)
    (let? rpz := writeRPZ in
     let? lua := write (path_join [dir; "rpz.lua"])
       ("rpzFile(" +:+ quote (fst rpz) +:+ ", {policyName=" +:+ quote "bench" +:+ "})" +:+ nls) in
     Ok ([rpz; lua], cfg +:+ "lua-config-file=" +:+ fst lua +:+ nls)) in
  let? w := write (path_join [dir; "recursor.conf"]) cfg in
  Ok (mkLaunch (list ++ [w]) [m_bin m; "--config-dir=" +:+ dir; "--enable-old-settings"]).

Definition dnsdistConfig : result string launch :=
  let threads := unboundThreads (m_cpus m) (so_loops o) in
  let local op := op +:+ "Local('127.0.0.1:" +:+ itoa (p_dns p) +:+ "', {reusePort=true})" +:+ nls in
  let sb :=
    "setSecurityPollSuffix('')" +:+ nls +:+ "setACL({'127.0.0.0/8'})" +:+ nls +:+ local "set" +:+
    concat_all (repeat (local "add") (Z.to_nat (threads - 1))) +:+
    "addTLSLocal('127.0.0.1:" +:+ itoa (p_dot p) +:+ "', " +:+ quote cert +:+ ", " +:+ quote key +:+ ")" +:+ nls +:+
    "addDOHLocal('127.0.0.1:" +:+ itoa (p_doh p) +:+ "', " +:+ quote cert +:+ ", " +:+ quote key +:+
      ", '/dns-query')" +:+ nls +:+
    "newServer({address='127.0.0.1:" +:+ upPort p +:+ "', healthCheckMode='up'})" +:+ nls +:+
    "setUDPTimeout(5)" +:+ nls +:+ "setTCPRecvTimeout(" +:+ itoa (secs (so_clientTimeout o)) +:+ ")" +:+ nls +:+
    "setMaxTCPClientThreads(" +:+ itoa threads +:+ ")" +:+ nls +:+
    (if so_cache o then "getPool(''):setCache(newPacketCache(" +:+ itoa (so_cacheEntries o) +:+ "))" +:+ nls
     else "") in
  let? (list, sb) := when_blocking ([], sb)
    (let? w := writeList "txt" "" (fun n => n) in Ok ([w], sb +:+ sprintf dnsdistList [quote (fst w)])) in
  let? w := writeConf "lua" sb in
  Ok (mkLaunch (list ++ [w]) [m_bin m; "--supervised"; "--disable-syslog"; "-C"; fst w]).

Definition bindConfig : result string launch :=
  let dir := in_dir (so_name o +:+ "-bind") in
  let? _ := mkdir dir in
  let idle := Z.min 1200 (secs (so_clientTimeout o) * 10) in
  let? (list, (rpz, zone)) := when_blocking ([], ("", ""))
    (let? w := writeRPZ in
     Ok ([w], ("  response-policy { zone " +:+ quote "rpz.bench" +:+ "; };" +:+ nls,
               "zone " +:+ quote "rpz.bench" +:+ " { type primary; file " +:+ quote (fst w) +:+ "; };" +:+ nls))) in
  let nocache :=
    if so_cache o then "" else "  max-cache-ttl 0;" +:+ nls +:+ "  max-ncache-ttl 0;" +:+ nls in
  let cfg := sprintf bindTemplate
    [quote cert; quote key; quote dir; itoa (p_dns p); itoa (p_dot p); itoa (p_doh p); upPort p;
     itoa (cacheBytes o 4096); nocache; itoa (inflightBound o); itoa (so_maxConnections o);
     itoa (so_maxConnections o); itoa idle; itoa idle; rpz; zone] in
  let? w := writeConf "conf" cfg in
  Ok (mkLaunch (list ++ [w])
        [m_bin m; "-g"; "-c"; fst w; "-n"; itoa (unboundThreads (m_cpus m) (so_loops o))]).

Definition knotConfig : result string launch :=
  let dir := in_dir (so_name o +:+ "-knot") in
  let? _ := mkdir dir in
  let sb := sprintf knotBody
    [itoa (p_dns p); itoa (p_dot p); itoa (p_doh p); quote cert; quote key;
     itoa (milliseconds (so_clientTimeout o)); itoa (Z.max (Z.shiftl 10 20) (cacheBytes o 4096));
     path_join [dir; "cache"]] in
  let? (list, sb) := when_blocking ([], sb)
    (let? w := writeRPZ in
     Ok ([w], sb +:+ "policy.add(policy.rpz(policy.DENY, " +:+ quote (fst w) +:+ "))" +:+ nls)) in
  let sb := sb +:+ concat_all (map (fun zone =>
    "policy.rule_forward_add(" +:+ quote zone +:+ ", {dnssec=false}, {{'127.0.0.1@" +:+ upPort p +:+ "'}})" +:+ nls)
    ["."; "bench.test."]) in
  let? w := writeConf "lua" sb in
  Ok (mkLaunch (list ++ [w]) [m_bin m; "-n"; "-q"; "-c"; fst w; dir]).

Definition gravity (n : string) : string :=
  "INSERT INTO gravity (domain,adlist_id) VALUES ('" +:+ n +:+ "',1);" +:+ nls.

Definition gravity_rows : string :=
  if so_blockRules o >? 0 then concat_all (map gravity (blockNames (so_blockRules o))) else "".

(** The SQL given to [sqlite3] on the gravity database. *)
Definition gravity_head (schema : string) : string :=
  schema +:+ nls +:+ "BEGIN;" +:+ nls +:+
  "INSERT INTO adlist (id,address,enabled) VALUES (1,'file:///bench',1);" +:+ nls.

Definition gravity_tail : string :=
  "INSERT OR REPLACE INTO info VALUES ('updated', " +:+ itoa (m_now m) +:+ ");" +:+ nls +:+
  "INSERT OR REPLACE INTO info VALUES ('gravity_count', " +:+ itoa (so_blockRules o) +:+ ");" +:+ nls +:+
  "COMMIT;" +:+ nls.

Definition piholeConfig : result string launch :=
  let dir := in_dir (so_name o +:+ "-pihole") in
  let etc := path_join [dir; "etc"] in
  let? _ := mkdir etc in
  let? web := m_port m in
  let? schema := m_schema m in
  let sql := gravity_head schema +:+ gravity_rows +:+ gravity_tail in
  let? _ := match m_sqlite m with Some e => Err ("building gravity.db: " +:+ e) | None => Ok tt end in
  let cache := if so_cache o then so_cacheEntries o else 0 in
  let cfg := sprintf piholeTemplate
    [upPort p; itoa (p_dns p); itoa cache; itoa web; dir; dir; dir; dir; itoa (inflightBound o); upPort p] in
  let? w := write (path_join [etc; "pihole.toml"]) cfg in
  Ok (mkLaunch [(path_join [etc; "gravity.db"], sql); w]
        ["sudo"; "unshare"; "-m"; "sh"; "-c";
         "mount --bind " +:+ etc +:+ " /etc/pihole && exec " +:+ m_bin m +:+ " -f"]).

(** The [config] field of each competitor. *)
Definition configs : list (string * result string launch) :=
  [("adguardhome", aghConfig); ("blocky", blockyConfig); ("coredns", corednsConfig);
   ("dnsmasq", dnsmasqConfig); ("pdns", pdnsConfig); ("dnsdist", dnsdistConfig);
   ("bind", bindConfig); ("pihole", piholeConfig); ("knot", knotConfig)].

Definition config_of (kind : string) : option (result string launch) :=
  snd <$> List.find (fun kv => String.eqb (fst kv) kind) configs.

Definition competitorConfig : result string launch :=
  match competitors !! so_kind o, config_of (so_kind o) with
  | Some c, Some config =>
      if so_dnssec o || so_noUpstream o then
        Err (so_name o +:+ ": validation and a dead upstream are elodin-only rows")
      else if (so_blockRules o >? 0) && negb (cp_blocks c) then
        Err (so_name o +:+ ": " +:+ so_kind o +:+ " loads no blocklist")
      else
        let? l := config in
        Ok (mkLaunch (files l) ("env" :: ("LD_LIBRARY_PATH=" +:+ libPath (m_competitorDir m)) :: argv l))
  | _, _ => Err ("unknown server kind " +:+ quote (so_kind o))
  end.

(** The configuration and the command of one attempt. *)
Definition configure (logPath : string) : result string launch :=
  if String.eqb (so_kind o) "elodin" then elodinConfig logPath
  else if String.eqb (so_kind o) "unbound" then unboundConfig logPath
  else competitorConfig.
End config.
