(* ===== verification/BenchBlocking.v ===== *)
(** * [bench/cmd/bench/competitor_configs.go, server.go]: what a blocking row configures

    A row that blocks compares servers only if each of them was given the same
    names and told to answer NXDOMAIN for them.  [blocking] says what that takes
    for each server, in its own configuration language: the file the list is in,
    a rule a line, and the lines of the configuration the server is started with
    that read the list and turn blocking on.  It is written without reference to
    [BenchConfigs], whose configurations are shown to meet it. *)

From S2P Require Import Prelude GoStrings GoFloat NetAddr UnitEnv BenchRun BenchServers BenchConfigs.

(** ** A format taken apart *)

(** No verb is cut short at the end of a format. *)
Fixpoint closed (format : string) : bool :=
  match format with
  | EmptyString => true
  | String "%" (String _ rest) => closed rest
  | String "%" EmptyString => false
  | String _ rest => closed rest
  end.

Lemma sprintf_other c f args : c <> "%"%char -> sprintf (String c f) args = String c (sprintf f args).
Proof. intros Hc. destruct c as [[] [] [] [] [] [] [] []]; done. Qed.

Lemma verbs_other c f : c <> "%"%char -> verbs (String c f) = verbs f.
Proof. intros Hc. destruct c as [[] [] [] [] [] [] [] []]; done. Qed.

Lemma closed_other c f : c <> "%"%char -> closed (String c f) = closed f.
Proof. intros Hc. destruct c as [[] [] [] [] [] [] [] []]; done. Qed.

(** A format is printed a piece at a time, each piece taking its own arguments. *)
Lemma sprintf_app f g args :
  closed f = true -> sprintf (f +:+ g) args = sprintf f args +:+ sprintf g (drop (verbs f) args).
Proof.
  remember (String.length f) as n eqn:En. revert f args En.
  induction n as [n IH] using lt_wf_ind. intros f args -> Hc. destruct f as [|a f]; [done|].
  destruct (decide (a = "%"%char)) as [->|Ha].
  - destruct f as [|c f]; [done|]. cbn [closed] in Hc.
    assert (Hf : forall args, sprintf (f +:+ g) args = sprintf f args +:+ sprintf g (drop (verbs f) args))
      by (intros args'; eapply IH; [|reflexivity|done]; simpl; lia).
    change (String "%" (String c f) +:+ g) with (String "%" (String c (f +:+ g))). cbn [sprintf verbs].
    destruct (Ascii.eqb_spec c "%") as [->|_]; [by rewrite Hf|].
    destruct (is_verb c); [|by rewrite Hf]. destruct args as [|x args]; rewrite Hf, ?drop_nil; [|by rewrite str_app_assoc].
    by rewrite !str_app_cons, str_app_assoc.
  - rewrite closed_other in Hc by done. change (String a f +:+ g) with (String a (f +:+ g)).
    rewrite !sprintf_other, verbs_other by done. rewrite IH with (m := String.length f) by (done || simpl; lia). done.
Qed.

Lemma sprintf_plain f g args : lacks "%"%char f -> sprintf (f +:+ g) args = f +:+ sprintf g args.
Proof.
  intros Hf. induction f as [|c f IH]; [done|]. apply lacks_cons in Hf as [Hc Hf].
  change (String c f +:+ g) with (String c (f +:+ g)). rewrite sprintf_other by done. by rewrite IH.
Qed.

(** Where a template ends in a newline, so does what is printed from it. *)
Lemma sprintf_newline f args : closed f = true -> sprintf (f +:+ nls) args = sprintf f args +:+ nls.
Proof. intros Hf. by rewrite sprintf_app. Qed.

(** Lines the template itself has. *)
Lemma has_lines_template f g ls args :
  closed f = true -> lacks "%"%char (lines_of ls) ->
  has_lines ls (sprintf (f +:+ nls +:+ lines_of ls +:+ g) args).
Proof.
  intros Hf Hl. rewrite sprintf_app by done. apply has_lines_app_r. rewrite sprintf_plain by done.
  rewrite sprintf_plain by done. by eexists "", _.
Qed.

(** Lines printed at a verb that starts a line. *)
Lemma has_lines_hole f g ls args :
  closed f = true -> args !! verbs f = Some (lines_of ls) ->
  has_lines ls (sprintf (f +:+ nls +:+ "%s" +:+ g) args).
Proof.
  intros Hf Ha. rewrite sprintf_app by done. apply has_lines_app_r. rewrite sprintf_plain by done.
  rewrite (drop_S _ _ _ Ha). by eexists "", _.
Qed.

(** Lines printed at a verb after one whose argument ends a line. *)
Lemma has_lines_second f g x ls args :
  closed f = true -> args !! verbs f = Some (x +:+ nls) -> args !! S (verbs f) = Some (lines_of ls) ->
  has_lines ls (sprintf (f +:+ nls +:+ "%s%s" +:+ g) args).
Proof.
  intros Hf Hx Ha. rewrite sprintf_app by done. apply has_lines_app_r. rewrite sprintf_plain by done.
  rewrite (drop_S _ _ _ Hx), (drop_S _ _ _ Ha). apply has_lines_app_r.
  eexists x, _. cbn [sprintf String.append]. change (Ascii.eqb "s" "%") with false. change (is_verb "s") with true.
  cbv iota. by rewrite str_app_assoc.
Qed.

(** Lines added after the template. *)
Lemma has_lines_end ls s text rest :
  (exists p, s = p +:+ nls) -> text = lines_of ls +:+ rest -> has_lines ls (s +:+ text).
Proof. intros [p ->] ->. exists p, rest. by rewrite !str_app_assoc. Qed.

Lemma has_lines_after f ls args text rest :
  closed f = true -> text = lines_of ls +:+ rest -> has_lines ls (sprintf (f +:+ nls) args +:+ text).
Proof. intros Hf Ht. eapply has_lines_end; [|exact Ht]. eexists. by apply sprintf_newline. Qed.

(** What is before the first [sep] in a format, and what is [k] bytes past its start. *)
Fixpoint until (sep format : string) : string :=
  if has_prefix sep format then ""
  else match format with EmptyString => "" | String c rest => String c (until sep rest) end.

Definition beyond (sep : string) (k : nat) (format : string) : string :=
  str_drop (String.length (until sep format) + k) format.

(** What is before its last newline. *)
Definition but_nl (format : string) : string := trim_suffix nls format.

(** ** What it takes for a server to block the names *)

Section spec.
Context (n : Z) (l : launch).

(** A file the server is given holds the names and nothing else, in order, a
    rule a line, each between [before] and [after]. *)
Definition list_file (path head before after tail : string) : Prop :=
  exists body, (path, head +:+ body +:+ tail) ∈ files l /\
    map (unwrap before after) (read_back body) = map Some (blockNames n).

(** A configuration that has these lines, each group together. *)
Definition config_file (path : string) (groups : list (list string)) : Prop :=
  exists text, (path, text) ∈ files l /\ Forall (fun ls => has_lines ls text) groups.

(** The command has these arguments, together. *)
Definition run_with (args : list string) : Prop := exists pre post, argv l = pre ++ args ++ post.

Definition rpz_head : string :=
  lines_of ["$TTL 60"; "@ SOA localhost. root.localhost. 1 3600 600 86400 60"; "@ NS localhost."].

Inductive blocking : string -> Prop :=
  | elodin_blocks rules cache conf :
      list_file rules "" "" "" "" ->
      config_file conf
        [["blocking:"; "  enabled: true"; "  response: nxdomain"; "  refresh: 0"; "  cache_dir: " +:+ cache;
          "  lists:"; "    - name: bench"; "      file: " +:+ rules; "      format: domains"]] ->
      run_with ["--config"; conf] -> blocking "elodin"
  | unbound_blocks rules conf :
      list_file rules (lines_of ["server:"]) (tilde "  local-zone: ~") (tilde ".~ always_nxdomain") "" ->
      config_file conf [["include: " +:+ rules]] ->
      run_with ["-c"; conf] -> blocking "unbound"
  | agh_blocks rules conf :
      list_file rules "" "||" "^" "" ->
      config_file conf
        [["filters:"; "  - enabled: true"; "    url: " +:+ rules; "    name: bench"; "    id: 1"];
         ["filtering:"; "  protection_enabled: true"; "  filtering_enabled: true"; "  blocking_mode: nxdomain"]] ->
      run_with ["-c"; conf] -> blocking "adguardhome"
  | blocky_blocks rules conf :
      list_file rules "" "" "" "" ->
      config_file conf
        [["blocking:"; "  denylists:"; "    bench: [" +:+ rules +:+ "]"; "  clientGroupsBlock:";
          "    default: [bench]"; "  blockType: nxDomain"; "  loading:"; "    strategy: blocking";
          "    refreshPeriod: 0"]] ->
      run_with ["--config"; conf] -> blocking "blocky"
  | dnsmasq_blocks rules conf :
      list_file rules "" "address=/" "/" "" ->
      config_file conf [["conf-file=" +:+ rules]] ->
      run_with ["--conf-file=" +:+ conf] -> blocking "dnsmasq"
  | pdns_blocks rules lua dir :
      list_file rules rpz_head "" " CNAME ." "" ->
      (lua, lines_of ["rpzFile(" +:+ quote rules +:+ tilde ", {policyName=~bench~})"]) ∈ files l ->
      config_file (path_join [dir; "recursor.conf"]) [["lua-config-file=" +:+ lua]] ->
      run_with ["--config-dir=" +:+ dir] -> blocking "pdns"
  | dnsdist_blocks rules conf :
      list_file rules "" "" "" "" ->
      config_file conf
        [["local s = newDNSNameSet()"; "for l in io.lines(" +:+ quote rules +:+ ") do s:add(newDNSName(l)) end";
          "addAction(QNameSetRule(s), RCodeAction(DNSRCode.NXDOMAIN))"]] ->
      run_with ["-C"; conf] -> blocking "dnsdist"
  | bind_blocks rules conf :
      list_file rules rpz_head "" " CNAME ." "" ->
      config_file conf
        [[tilde "  response-policy { zone ~rpz.bench~; };"];
         [tilde "zone ~rpz.bench~ { type primary; file " +:+ quote rules +:+ "; };"]] ->
      run_with ["-c"; conf] -> blocking "bind"
  | pihole_blocks etc bin schema now :
      list_file (path_join [etc; "gravity.db"])
        (schema +:+ nls +:+ lines_of ["BEGIN;"; "INSERT INTO adlist (id,address,enabled) VALUES (1,'file:///bench',1);"])
        "INSERT INTO gravity (domain,adlist_id) VALUES ('" "',1);"
        (lines_of ["INSERT OR REPLACE INTO info VALUES ('updated', " +:+ itoa now +:+ ");";
                   "INSERT OR REPLACE INTO info VALUES ('gravity_count', " +:+ itoa n +:+ ");"; "COMMIT;"]) ->
      config_file (path_join [etc; "pihole.toml"]) [["[dns.blocking]"; tilde "mode = ~NX~"]] ->
      run_with ["sh"; "-c"; "mount --bind " +:+ etc +:+ " /etc/pihole && exec " +:+ bin +:+ " -f"] ->
      blocking "pihole"
  | knot_blocks rules conf :
      list_file rules rpz_head "" " CNAME ." "" ->
      config_file conf [["policy.add(policy.rpz(policy.DENY, " +:+ quote rules +:+ "))"]] ->
      run_with ["-c"; conf] -> blocking "knot".
End spec.

(** ** The names *)

Definition needs_quote (c : ascii) : bool := Ascii.eqb c dquote || Ascii.eqb c "\".

Lemma quote_body_plain s : any_byte needs_quote s = false -> quote_body s = s.
Proof.
  induction s as [|c s IH]; [done|]. cbn [any_byte quote_body]. intros [Hc Hs]%orb_false_iff.
  fold (needs_quote c). rewrite Hc. by rewrite IH.
Qed.

(** No name has a byte a quoted string escapes, or a newline. *)
Definition unsafe (c : ascii) : bool := needs_quote c || Ascii.eqb c nl.

Lemma blockNames_plain n x : x ∈ blockNames n -> any_byte unsafe x = false.
Proof.
  intros [-> | (i & -> & _)%list_elem_of_fmap]%elem_of_cons; [done|].
  rewrite !any_byte_app, any_byte_itoa; [done|done|].
  intros d Hd.
  assert (d = 0 \/ d = 1 \/ d = 2 \/ d = 3 \/ d = 4 \/ d = 5 \/ d = 6 \/ d = 7 \/ d = 8 \/ d = 9) as H by lia.
  by repeat destruct H as [->|H]; [..|subst].
Qed.

Lemma blockNames_quote n x : x ∈ blockNames n -> any_byte needs_quote x = false.
Proof.
  intros Hx%blockNames_plain. eapply any_byte_impl; [|exact Hx]. unfold unsafe. intros c ->. done.
Qed.

Lemma blockNames_lack n x : x ∈ blockNames n -> lacks nl x.
Proof.
  intros Hx%blockNames_plain. eapply any_byte_impl; [|exact Hx]. unfold unsafe. intros c E.
  rewrite Ascii.eqb_sym, E. apply orb_true_r.
Qed.

(** A list written a name a line is read back as the names. *)
Lemma list_written n l path head before after tail line text :
  (path, text) ∈ files l ->
  text = head +:+ concat_all (map (fun x => line x +:+ nls) (blockNames n)) +:+ tail ->
  (forall x, x ∈ blockNames n -> line x = before +:+ x +:+ after) -> lacks nl before -> lacks nl after ->
  list_file n l path head before after tail.
Proof.
  intros Hin -> Hl Hb Ha. eexists. split; [exact Hin|]. rewrite lines_of_concat by done. rewrite read_back_lines.
  - rewrite map_map. apply map_ext_in. intros x Hx%list_elem_of_In. rewrite Hl by done. apply unwrap_wrap.
  - done.
  - apply Forall_map, Forall_forall. intros x Hx. rewrite Hl by done.
    apply lacks_app. split; [done|]. apply lacks_app. split; [by eapply blockNames_lack|done].
Qed.

(** ** The configurations meet it *)

#[local] Arguments sprintf : simpl never.
#[local] Arguments tilde : simpl never.
#[local] Arguments blockNames : simpl never.

Lemma write_Ok m path content w : write m path content = Ok w -> w = (path, content).
Proof. unfold write. destruct (m_write m path); [done|]. by intros [= <-]. Qed.

(** Unfold a chain of [let?] to the files it wrote. *)
Ltac ok_inv :=
  unfold writeRPZ, writeList, writeConf, when_blocking in *; cbv zeta in *;
  repeat
    match goal with
    | H : (so_blockRules _ >? 0) = true |- _ => progress rewrite H in *
    | H : rbind _ _ = Ok _ |- _ => apply rbind_ok in H as (? & ? & H); cbv beta iota zeta in H
    | H : write _ _ _ = Ok _ |- _ => apply write_Ok in H; subst; cbn [fst snd] in *
    | H : Ok _ = Ok _ |- _ => apply Ok_inj in H; subst; cbn [fst snd] in *
    | H : (let '(_, _) := ?x in _) = Ok _ |- _ => destruct x
    | H : (_, _) = (_, _) |- _ => apply pair_equal_spec in H as [? ?]; subst; cbn [fst snd] in *
    end.

(** The file is one of those written. *)
Ltac written := cbn [files app map]; first [apply list_elem_of_here | apply list_elem_of_further; written].

(** It is the last of them. *)
Ltac written_last := cbn [files app map]; first [apply list_elem_of_further; written_last | apply list_elem_of_here].

(** Closed facts about a template. *)
Ltac evaluate := vm_compute; reflexivity.

Ltac listed f :=
  eapply list_written with (line := f); [written | rewrite str_app_nil_r; reflexivity | | reflexivity..].

Ltac run :=
  first [by eexists [_], _ | by eexists [_; _], _ | by eexists [_; _; _], _].

(** The argument a format takes at a verb. *)
Ltac argument :=
  match goal with |- _ !! ?k = _ => let i := eval vm_compute in k in replace k with i by evaluate end;
  cbn [lookup list_lookup]; apply f_equal.

Ltac same_lines := unfold lines_of; cbn [join]; rewrite ?str_app_assoc; reflexivity.

(** At the verb that starts the line [sep] of template [T]. *)
Ltac at_hole T sep :=
  replace T with (until (nls +:+ sep) T +:+ nls +:+ "%s" +:+ beyond (nls +:+ sep) 3 T) by evaluate;
  apply has_lines_hole; [evaluate | argument; same_lines].

(** Among the lines of template [T]. *)
Ltac in_template T :=
  match goal with |- has_lines ?ls _ =>
    replace T with (until (nls +:+ lines_of ls) T +:+ nls +:+ lines_of ls +:+
                    beyond (nls +:+ lines_of ls) (String.length (nls +:+ lines_of ls)) T) by evaluate;
    apply has_lines_template; evaluate
  end.

(** Right after template [T]. *)
Ltac after T :=
  replace T with (but_nl T +:+ nls) by evaluate;
  apply has_lines_after with (rest := ""); [evaluate | same_lines].

Lemma elem_text (l : list (string * string)) path text text' : (path, text) ∈ l -> text' = text -> (path, text') ∈ l.
Proof. by intros ? ->. Qed.

Section blocking.
Context (m : machine) (o : serverOpts) (p : ports).
Hypothesis Hb : (so_blockRules o >? 0) = true.
Notation n := (so_blockRules o).

Lemma unbound_blocking logPath l : unboundConfig m o p logPath = Ok l -> blocking n l "unbound".
Proof.
  unfold unboundConfig. destruct (_ || _); [done|]. intros H. ok_inv. eapply unbound_blocks; [|eexists; split; [written_last|]|run].
  - listed (fun x => "  local-zone: " +:+ quote (x +:+ ".") +:+ " always_nxdomain"). intros x Hx. unfold quote.
    rewrite quote_body_plain by (by rewrite any_byte_app, (blockNames_quote _ _ Hx)). by rewrite !str_app_assoc.
  - constructor; [|done]. cbn [map concat_all]. after unboundTemplate.
Qed.

Lemma agh_blocking l : aghConfig m o p = Ok l -> blocking n l "adguardhome".
Proof.
  unfold aghConfig. intros H. ok_inv. eapply agh_blocks; [|eexists; split; [written_last|]|run].
  - by listed (fun x => "||" +:+ x +:+ "^").
  - constructor; [|constructor; [|done]]; [at_hole aghTemplate "%slog:"|in_template aghTemplate].
Qed.

Lemma blocky_blocking l : blockyConfig m o p = Ok l -> blocking n l "blocky".
Proof.
  unfold blockyConfig. intros H. ok_inv. eapply blocky_blocks; [|eexists; split; [written_last|]|run].
  - listed (fun x : string => x). intros x _. by rewrite str_app_nil_r.
  - constructor; [|done].
    replace blockyBody with (until (nls +:+ "%s%s") blockyBody +:+ nls +:+ "%s%s" +:+ beyond (nls +:+ "%s%s") 5 blockyBody)
      by evaluate.
    destruct (so_cache o); (eapply has_lines_second; [evaluate|argument; rewrite <- !str_app_assoc; reflexivity|argument; same_lines]).
Qed.

Lemma dnsmasq_blocking l : dnsmasqConfig m o p = Ok l -> blocking n l "dnsmasq".
Proof.
  unfold dnsmasqConfig. intros H. ok_inv. eapply dnsmasq_blocks; [|eexists; split; [written_last|]|run].
  - by listed (fun x => "address=/" +:+ x +:+ "/").
  - constructor; [|done]. cbn [map concat_all]. after dnsmasqBody.
Qed.

Lemma pdns_blocking l : pdnsConfig m o p = Ok l -> blocking n l "pdns".
Proof.
  unfold pdnsConfig. intros H. ok_inv. eapply pdns_blocks; [| |eexists; split; [written_last|]|run].
  - by listed (fun x => x +:+ " CNAME .").
  - eapply elem_text; [cbn [files app]; apply list_elem_of_further, list_elem_of_here|same_lines].
  - constructor; [|done]. after pdnsTemplate.
Qed.

Lemma dnsdist_blocking l : dnsdistConfig m o p = Ok l -> blocking n l "dnsdist".
Proof.
  unfold dnsdistConfig. intros H. ok_inv. eapply dnsdist_blocks; [|eexists; split; [written_last|]|run].
  - listed (fun x : string => x). intros x _. by rewrite str_app_nil_r.
  - constructor; [|done]. apply has_lines_end with (rest := "").
    + destruct (so_cache o); rewrite ?str_app_nil_r; eexists; rewrite <- !str_app_assoc; reflexivity.
    + unfold dnsdistList. same_lines.
Qed.

Lemma bind_blocking l : bindConfig m o p = Ok l -> blocking n l "bind".
Proof.
  unfold bindConfig. intros H. ok_inv. eapply bind_blocks; [|eexists; split; [written_last|]|run].
  - by listed (fun x => x +:+ " CNAME .").
  - constructor; [|constructor; [|done]]; [at_hole bindTemplate "%s};"|].
    replace bindTemplate with (trim_suffix (nls +:+ "%s") bindTemplate +:+ nls +:+ "%s" +:+ "") by evaluate.
    apply has_lines_hole; [evaluate|argument; same_lines].
Qed.

Lemma knot_blocking l : knotConfig m o p = Ok l -> blocking n l "knot".
Proof.
  unfold knotConfig. intros H. ok_inv. eapply knot_blocks; [|eexists; split; [written_last|]|run].
  - by listed (fun x => x +:+ " CNAME .").
  - constructor; [|done]. apply has_lines_app_l. after knotBody.
Qed.
(** elodin's list is synthesised apart from the others'; the names are theirs. *)
Lemma elodin_list k :
  "blocked.bench.test" +:+ nls +:+
    concat_all (map (fun i => "sink-" +:+ itoa (Z.of_nat i) +:+ ".bench.invalid" +:+ nls) (seq 0 (Z.to_nat k))) =
  concat_all (map (fun x => x +:+ nls) (blockNames k)).
Proof.
  unfold blockNames. cbn [map concat_all]. rewrite str_app_assoc. do 2 f_equal. rewrite map_map.
  f_equal. apply map_ext. intros i. by rewrite !str_app_assoc.
Qed.

Lemma elodin_blocking logPath l : elodinConfig m o p logPath = Ok l -> blocking n l "elodin".
Proof.
  unfold elodinConfig. rewrite elodin_list. intros H. ok_inv.
  eapply (elodin_blocks _ _ _ (in_dir m "listcache")); [|eexists; split; [written_last|]|run].
  - eapply list_written with (line := fun x => x); [written | by rewrite str_app_nil_r | | reflexivity..].
    intros x _. by rewrite str_app_nil_r.
  - constructor; [|done]. apply has_lines_app_r. exists "", "". unfold elodinBlocking. same_lines.
Qed.

Lemma gravity_lines k :
  concat_all (map gravity (blockNames k)) =
  concat_all (map (fun x => ("INSERT INTO gravity (domain,adlist_id) VALUES ('" +:+ x +:+ "',1);") +:+ nls)
    (blockNames k)).
Proof. f_equal. apply map_ext. intros x. unfold gravity. by rewrite !str_app_assoc. Qed.

Lemma gravity_tail_lines :
  gravity_tail m o =
  lines_of ["INSERT OR REPLACE INTO info VALUES ('updated', " +:+ itoa (m_now m) +:+ ");";
            "INSERT OR REPLACE INTO info VALUES ('gravity_count', " +:+ itoa n +:+ ");"; "COMMIT;"].
Proof. unfold gravity_tail. same_lines. Qed.

Lemma pihole_blocking l : piholeConfig m o p = Ok l -> blocking n l "pihole".
Proof.
  unfold piholeConfig, gravity_rows, gravity_head. rewrite gravity_tail_lines, gravity_lines. intros H. ok_inv.
  eapply (pihole_blocks _ _ (path_join [in_dir m (so_name o +:+ "-pihole"); "etc"]) (m_bin m) _ (m_now m));
    [|eexists; split; [written_last|]|by exists ["sudo"; "unshare"; "-m"], []].
  - eapply list_written; [written|reflexivity|done|reflexivity..].
  - constructor; [|done]. in_template piholeTemplate.
Qed.
End blocking.

(** Every server [configs] has a configuration for either blocks, or is one that
    loads no list. *)
Lemma competitor_blocking m o p c l :
  (so_blockRules o >? 0) = true -> competitors !! so_kind o = Some c -> cp_blocks c = true ->
  config_of m o p (so_kind o) = Some (Ok l) -> blocking (so_blockRules o) l (so_kind o).
Proof.
  intros Hb Hc Hbl H. unfold config_of in H.
  destruct (List.find _ _) as [[k cfg]|] eqn:E; [|done]. injection H as ->.
  apply find_some in E as [Hin Hk]. apply String.eqb_eq in Hk. cbn [fst] in Hk. rewrite <- Hk in *. clear Hk.
  destruct Hin as [E|[E|[E|[E|[E|[E|[E|[E|[E|[]]]]]]]]]]; apply pair_equal_spec in E as [<- El].
  - by eapply agh_blocking.
  - by eapply blocky_blocking.
  - injection Hc as <-. done.
  - by eapply dnsmasq_blocking.
  - by eapply pdns_blocking.
  - by eapply dnsdist_blocking.
  - by eapply bind_blocking.
  - by eapply pihole_blocking.
  - by eapply knot_blocking.
Qed.

(** The wrapper every competitor is started under changes neither. *)
Lemma blocking_wrapped n l kind args :
  blocking n l kind -> blocking n (mkLaunch (files l) (args ++ argv l)) kind.
Proof.
  assert (Hr : forall xs, run_with l xs -> run_with (mkLaunch (files l) (args ++ argv l)) xs).
  { intros xs (pre & post & E). exists (args ++ pre), post. cbn [argv]. by rewrite E, <- !app_assoc. }
  intros []; [eapply elodin_blocks|eapply unbound_blocks|eapply agh_blocks|eapply blocky_blocks|eapply dnsmasq_blocks
             |eapply pdns_blocks|eapply dnsdist_blocks|eapply bind_blocks|eapply pihole_blocks|eapply knot_blocks]; eauto.
Qed.

(** C23. A row that blocks gives every server the same list.  Whatever server a
    configuration is written for, if it is written at all, one of its files
    holds exactly the names of the row, in order, a rule each in that server's
    own form; the configuration the server is started with has the lines that
    read that file, and those that answer NXDOMAIN for its names; and a server
    that blocks nothing gets no configuration for such a row. *)
Theorem blocklist_loaded m o p logPath :
  0 < so_blockRules o ->
  match configure m o p logPath with
  | Ok l => supports (so_kind o) "block" = true /\ blocking (so_blockRules o) l (so_kind o)
  | Err _ => True
  end.
Proof.
  intros Hb. assert ((so_blockRules o >? 0) = true) as Hb' by lia.
  destruct (configure m o p logPath) as [l|] eqn:E; [|done]. unfold configure in E. unfold supports.
  destruct (String.eqb_spec (so_kind o) "elodin") as [->|]; [split; [done|]; by eapply elodin_blocking|].
  destruct (String.eqb_spec (so_kind o) "unbound") as [->|]; [split; [done|]; by eapply unbound_blocking|].
  unfold competitorConfig in E. rewrite Hb' in E.
  destruct (competitors !! so_kind o) as [c|] eqn:Eo; [|done].
  destruct (config_of m o p (so_kind o)) as [cfg|] eqn:Ec; [|done].
  destruct (so_dnssec o || so_noUpstream o); [done|]. simpl in E.
  destruct (cp_blocks c) eqn:Eb; [|done]. split; [done|].
  apply rbind_ok in E as (l' & -> & <-%Ok_inj).
  apply (blocking_wrapped _ l' _ ["env"; _]). by eapply competitor_blocking.
Qed.

(** A machine where every file can be written. *)
Definition a_machine : machine :=
  mkMachine "/run" 8 "/opt/named" "" (fun _ => None) (fun _ => None) (Ok 8080) (Ok "/tmp/x") (Ok "CREATE") None 0.

Definition a_blocking_row : serverOpts := server_opts "blocked" [Kind "bind"; Cached; BlockRules 2].

Lemma blocklist_loaded_witness :
  0 < so_blockRules a_blocking_row /\
  is_ok (configure a_machine a_blocking_row (mkPorts 53 853 443 "127.0.0.1" "5300") "/run/log") = true /\
  match configure a_machine a_blocking_row (mkPorts 53 853 443 "127.0.0.1" "5300") "/run/log" with
  | Ok l => supports "bind" "block" = true /\ blocking 2 l "bind"
  | Err _ => True
  end.
Proof.
  split; [done|]. split; [vm_compute; reflexivity|].
  exact (blocklist_loaded a_machine a_blocking_row (mkPorts 53 853 443 "127.0.0.1" "5300") "/run/log" eq_refl).
Defined.
