(* ===== verification/BenchStart.v ===== *)
(** * [bench/cmd/bench/server.go]: starting a server

    [start] is one attempt and [startServer] the three; what the operating
    system answered each is an argument ([attempt]).  [stop] and [rss] are what
    the rows do with the server they started. *)

From S2P Require Import Prelude GoStrings GoFloat NetAddr UnitEnv ProcStat RrlServer BenchRun BenchServers BenchConfigs.

(** ** Starting a server *)

(** The same loop as [cmd/rrlexp]'s. *)
Definition waitReady (rounds : list (Z * probe)) (start within_ : Z) : result string unit :=
  wait_ready rounds (start + within_) None.

Inductive action : Type :=
  | Wrote (path content : string)
  | Started (argv env : list string)
  | Stopped.

(** What the operating system answered one attempt. *)
Record attempt : Type := mkAttempt {
  at_machine : machine;
  at_ports : result string (Z * Z * Z);
  at_dead : result string Z;           (* the port nothing listens on *)
  at_stderr : result string unit;
  at_start : result string Z;          (* the process, and its pid *)
  at_rounds : list (Z * probe); at_now : Z;
  at_said : string;                    (* what it wrote before its log opened *)
  at_pid : Z;                          (* [serverPid]: past the wrappers *)
  at_environ : result unit_error string
}.

Record running_server : Type := mkRunning {
  rs_dns : string; rs_dot : string; rs_doh : string; rs_ca : string; rs_log : string; rs_pid : Z
}.

Definition local (port : Z) : string := "127.0.0.1:" +:+ itoa port.

Definition upstream_of (mockAddr : string) (o : serverOpts) (a : attempt) : result string string :=
  if so_noUpstream o then let? port := at_dead a in Ok (local port)
  else Ok (if String.eqb (so_upstreamAddr o) "" then mockAddr else so_upstreamAddr o).

(** The environment a kind is started with: the unit's for elodin, and for every
    other the caller's without its allocator settings. *)
Definition start_env (unitEnv osEnviron : list string) (o : serverOpts) : list string :=
  Shipped (if String.eqb (so_kind o) "elodin" then unitEnv else []) osEnviron.

Definition pinned (o : serverOpts) (argv : list string) : list string :=
  if String.eqb (so_cpus o) "" then argv else "taskset" :: "-c" :: so_cpus o :: argv.

(** [start]: one attempt. *)
Definition start (mockAddr : string) (unitEnv osEnviron : list string) (o : serverOpts) (a : attempt)
  : list action * result string running_server :=
  let o := start_defaults o in
  let m := at_machine a in
  match at_ports a, upstream_of mockAddr o a with
  | Err e, _ | Ok _, Err e => ([], Err e)
  | Ok (dns, dot, doh), Ok upstream =>
      let '(host, port) := default ("", "") (SplitHostPort upstream) in
      let p := mkPorts dns dot doh host port in
      let logPath := in_dir m (so_name o +:+ "-" +:+ so_kind o +:+ ".log") in
      match configure m o p logPath with
      | Err e => ([], Err e)
      | Ok l =>
          let wrote := map (fun w => Wrote (fst w) (snd w)) (files l) in
          match at_stderr a, at_start a with
          | Err e, _ | Ok _, Err e => (wrote, Err e)
          | Ok _, Ok pid =>
              let ran := wrote ++ [Started (pinned o (argv l)) (start_env unitEnv osEnviron o)] in
              match waitReady (at_rounds a) (at_now a) (15 * second) with
              | Err e =>
                  (ran ++ [Stopped], Err (so_name o +:+ " (" +:+ so_kind o +:+ ") did not come up: " +:+ e +:+
                                          nls +:+ trim_space (at_said a)))
              | Ok _ => (ran, Ok (mkRunning (local dns) (local dot) (local doh) (cert m o) logPath pid))
              end
          end
      end
  end.

Definition default_kind (o : serverOpts) : serverOpts :=
  if String.eqb (so_kind o) "" then set_field o (Kind "elodin") else o.

(** The loop of [startServer] over the attempts still to make. *)
Fixpoint start_tries (mockAddr : string) (unitEnv osEnviron : list string) (o : serverOpts)
  (last : string) (attempts : list attempt) : list action * result string running_server :=
  match attempts with
  | [] => ([], Err last)
  | a :: attempts =>
      match start mockAddr unitEnv osEnviron o a with
      | (acts, Err e) =>
          let '(acts', r) := start_tries mockAddr unitEnv osEnviron o e attempts in (acts ++ acts', r)
      | (acts, Ok s) =>
          let s := mkRunning (rs_dns s) (rs_dot s) (rs_doh s) (rs_ca s) (rs_log s) (at_pid a) in
          if String.eqb (so_kind o) "elodin" then
            match Check (at_environ a) unitEnv with
            | Err e => (acts ++ [Stopped], Err "environment")
            | Ok _ => (acts, Ok s)
            end
          else (acts, Ok s)
      end
  end.

Definition startServer (mockAddr : string) (unitEnv osEnviron : list string) (o : serverOpts)
  (attempts : nat -> attempt) : list action * result string running_server :=
  start_tries mockAddr unitEnv osEnviron (default_kind o) "" [attempts 0%nat; attempts 1%nat; attempts 2%nat].

(** ** What starting a server leaves *)

Definition run_step (n : Z) (x : action) : Z :=
  match x with Wrote _ _ => n | Started _ _ => n + 1 | Stopped => n - 1 end.

Definition processes (acts : list action) : Z := fold_left run_step acts 0.

Lemma processes_from acts n : fold_left run_step acts n = n + processes acts.
Proof.
  unfold processes. revert n. induction acts as [|x acts IH]; intros n; simpl; [lia|].
  rewrite IH, (IH (run_step 0 x)). destruct x; simpl; lia.
Qed.

Lemma processes_app a b : processes (a ++ b) = processes a + processes b.
Proof. unfold processes at 1. rewrite fold_left_app, processes_from. done. Qed.

Lemma processes_wrote l : processes (map (fun w => Wrote (fst w) (snd w)) l) = 0.
Proof. unfold processes. induction l as [|w l IH]; [done|]. exact IH. Qed.

(** What one attempt that brings [s] up did, from what the machine answered it:
    the configuration written is for the three ports it was given and for the
    upstream the row asks for -- a port nothing listens on, the row's own
    address, or the mock's -- and is written before the server is started, alone
    and last, on the row's processors; elodin has the unit's settings over the
    caller's environment and every other server the caller's with the allocator's
    taken out; it answered a probe within fifteen seconds; and the addresses
    returned are those of the three ports. *)
Definition came_up (mockAddr : string) (unitEnv osEnviron : list string) (o : serverOpts) (a : attempt)
  (s : running_server) (acts : list action) : Prop :=
  exists dns dot doh upstream host port l env,
    at_ports a = Ok (dns, dot, doh) /\
    (so_noUpstream o = true /\ (exists dead, at_dead a = Ok dead /\ upstream = "127.0.0.1:" +:+ itoa dead) \/
     so_noUpstream o = false /\ so_upstreamAddr o <> "" /\ upstream = so_upstreamAddr o \/
     so_noUpstream o = false /\ so_upstreamAddr o = "" /\ upstream = mockAddr) /\
    (host, port) = default ("", "") (SplitHostPort upstream) /\
    configure (at_machine a) (start_defaults o) (mkPorts dns dot doh host port) (rs_log s) = Ok l /\
    (so_kind o = "elodin" /\ env = Shipped unitEnv osEnviron \/
     so_kind o <> "elodin" /\ env = Shipped [] osEnviron) /\
    acts = map (fun w => Wrote (fst w) (snd w)) (files l) ++
           [Started ((if decide (so_cpus o = "") then [] else ["taskset"; "-c"; so_cpus o]) ++ argv l) env] /\
    answered (at_rounds a) (at_now a + 15 * second) /\
    rs_dns s = "127.0.0.1:" +:+ itoa dns /\ rs_dot s = "127.0.0.1:" +:+ itoa dot /\
    rs_doh s = "127.0.0.1:" +:+ itoa doh /\
    rs_ca s = in_dir (at_machine a) ((if decide (so_certKind o = "") then "ecdsa" else so_certKind o) +:+ "-cert.pem") /\
    rs_log s = in_dir (at_machine a) (so_name o +:+ "-" +:+ so_kind o +:+ ".log").

Lemma upstream_of_ok mockAddr o a upstream :
  upstream_of mockAddr (start_defaults o) a = Ok upstream ->
  so_noUpstream o = true /\ (exists dead, at_dead a = Ok dead /\ upstream = "127.0.0.1:" +:+ itoa dead) \/
  so_noUpstream o = false /\ so_upstreamAddr o <> "" /\ upstream = so_upstreamAddr o \/
  so_noUpstream o = false /\ so_upstreamAddr o = "" /\ upstream = mockAddr.
Proof.
  unfold upstream_of. cbn [so_noUpstream so_upstreamAddr start_defaults]. destruct (so_noUpstream o).
  - intros H. left. split; [done|]. apply rbind_ok in H as (dead & Hd & [= <-]). by exists dead.
  - intros [= <-]. right. destruct (String.eqb_spec (so_upstreamAddr o) ""); [by right|by left].
Qed.

Lemma start_env_of unitEnv osEnviron o :
  so_kind o = "elodin" /\ start_env unitEnv osEnviron (start_defaults o) = Shipped unitEnv osEnviron \/
  so_kind o <> "elodin" /\ start_env unitEnv osEnviron (start_defaults o) = Shipped [] osEnviron.
Proof.
  unfold start_env. cbn [so_kind start_defaults]. destruct (String.eqb_spec (so_kind o) "elodin"); [by left|by right].
Qed.

Lemma pinned_cpus o argv :
  pinned (start_defaults o) argv = (if decide (so_cpus o = "") then [] else ["taskset"; "-c"; so_cpus o]) ++ argv.
Proof.
  unfold pinned. cbn [so_cpus start_defaults].
  destruct (String.eqb_spec (so_cpus o) ""), (decide (so_cpus o = "")); done.
Qed.

Lemma start_one mockAddr unitEnv osEnviron o a :
  let '(acts, r) := start mockAddr unitEnv osEnviron o a in
  match r with
  | Err _ => processes acts = 0
  | Ok s => processes acts = 1 /\ came_up mockAddr unitEnv osEnviron o a s acts
  end.
Proof.
  unfold start. destruct (at_ports a) as [[[dns dot] doh]|] eqn:Ep; [|done].
  destruct (upstream_of _ _ _) as [ups|] eqn:Eu; [|done]. cbv zeta.
  destruct (default _ _) as [host port] eqn:Eh.
  destruct (configure _ _ _ _) as [l|] eqn:Ec; [|done].
  destruct (at_stderr a); [|apply processes_wrote]. destruct (at_start a); [|apply processes_wrote].
  destruct (waitReady _ _ _) as [[]|] eqn:Ew.
  - rewrite processes_app, processes_wrote, pinned_cpus. split; [done|].
    exists dns, dot, doh, ups, host, port, l. eexists. apply wait_ready_ok in Ew.
    split_and!; [done|by apply upstream_of_ok|done|exact Ec|apply start_env_of|done|exact Ew|done..| |done].
    unfold rs_ca, cert. cbn [so_certKind start_defaults].
    destruct (String.eqb_spec (so_certKind o) ""), (decide (so_certKind o = "")); done.
  - rewrite !processes_app, processes_wrote. done.
Qed.

(** What a caller of [startServer] is told: nothing runs, or exactly one server
    does, the one returned. *)
Definition started_one (mockAddr : string) (unitEnv osEnviron : list string) (o : serverOpts)
  (attempts : nat -> attempt) (acts : list action) (s : running_server) : Prop :=
  processes acts = 1 /\
  exists i before up, (i < 3)%nat /\ acts = before ++ up /\ processes before = 0 /\
    came_up mockAddr unitEnv osEnviron o (attempts i) s up /\ rs_pid s = at_pid (attempts i) /\
    (so_kind o = "elodin" -> Check (at_environ (attempts i)) unitEnv = Ok tt).

Lemma start_tries_outcome mockAddr unitEnv osEnviron o attempts l last :
  Forall (fun i => i < 3)%nat l ->
  let '(acts, r) := start_tries mockAddr unitEnv osEnviron o last (map attempts l) in
  match r with
  | Err _ => processes acts = 0
  | Ok s => started_one mockAddr unitEnv osEnviron o attempts acts s
  end.
Proof.
  revert last. induction l as [|i l IH]; intros last Hl; [done|]. apply Forall_cons in Hl as [Hi Hl].
  cbn [map start_tries]. pose proof (start_one mockAddr unitEnv osEnviron o (attempts i)) as Hs.
  destruct (start mockAddr unitEnv osEnviron o (attempts i)) as [acts [s|e]].
  - destruct Hs as [H1 Hc]. destruct (String.eqb_spec (so_kind o) "elodin") as [Hk|Hk].
    + destruct (Check _ _) as [[]|] eqn:Ek; [|by rewrite processes_app, H1].
      split; [done|]. exists i, [], acts. split_and!; done.
    + split; [done|]. exists i, [], acts. split_and!; done.
  - specialize (IH e Hl). destruct (start_tries _ _ _ _ _ _) as [acts' [s|e']].
    + destruct IH as [H1 (j & before & up & Hj & -> & Hb & Hc & Hrest)].
      split; [rewrite processes_app; lia|]. exists j, (acts ++ before), up.
      rewrite processes_app, <- app_assoc. split_and!; try done; [lia|apply Hrest..].
    + rewrite processes_app. lia.
Qed.

(** C20. However many of its three attempts fail, [startServer] leaves no server
    running unless it returns one; then exactly one runs, started last, after
    its configuration -- for the ports it was given and the upstream the row
    asks for -- was written, and in the environment of its kind: the unit's
    settings over the caller's for elodin, found again in the process, and the
    caller's without allocator settings for every other.  It answered a probe
    within fifteen seconds, and the addresses, certificate and log returned are
    those it was configured with. *)
Theorem bench_start_outcome mockAddr unitEnv osEnviron o attempts :
  let '(acts, r) := startServer mockAddr unitEnv osEnviron o attempts in
  match r with
  | Err _ => processes acts = 0
  | Ok s =>
      processes acts = 1 /\
      exists i before up, (i < 3)%nat /\ acts = before ++ up /\ processes before = 0 /\
        came_up mockAddr unitEnv osEnviron (default_kind o) (attempts i) s up /\
        rs_pid s = at_pid (attempts i) /\
        (so_kind (default_kind o) = "elodin" -> Check (at_environ (attempts i)) unitEnv = Ok tt)
  end.
Proof.
  exact (start_tries_outcome mockAddr unitEnv osEnviron (default_kind o) attempts [0; 1; 2]%nat ""
           ltac:(repeat constructor; lia)).
Qed.

(** ** Stopping one, and reading its memory *)

Inductive signal : Type := SIGTERM | SIGKILL.

(** [stop]: the signals sent, and how long it took, given how long after the
    first the process ended by itself, if ever; [killed] is how long after the
    second it did. *)
Definition stop (has_process : bool) (ended : option duration) (killed : duration) : list signal * duration :=
  if negb has_process then ([], 0)
  else
    let grace := 15 * second in
    match ended with
    | Some d => if d <? grace then ([SIGTERM], d) else ([SIGTERM; SIGKILL], grace + Z.min killed (d - grace))
    | None => ([SIGTERM; SIGKILL], grace + killed)
    end.

(** A process is killed only once the grace is over, and a [stop] that kills
    takes no longer than the kill after it. *)
Lemma stop_grace has_process ended killed :
  0 <= killed ->
  let '(signals, took) := stop has_process ended killed in
  (SIGKILL ∈ signals -> 15 * second <= took <= 15 * second + killed) /\
  (SIGKILL ∉ signals -> took = default 0 (if has_process then ended else None)).
Proof.
  intros Hk. unfold stop. destruct has_process; [|split; [set_solver|done]]. cbn [negb].
  destruct ended as [d|]; [destruct (Z.ltb_spec d (15 * second))|]; (split; [intros H0|intros H0; try done]).
  - set_solver.
  - lia.
  - exfalso. apply H0. set_solver.
  - lia.
  - exfalso. apply H0. set_solver.
Qed.

Definition rss (fs : ProcStat.files) (pid : Z) : Z :=
  match RSSBytes fs pid with Ok v => v | Err _ => 0 end.

(** ** The process to sample: [serverPid] *)

Definition comm_path (pid : Z) : string := "/proc/" +:+ itoa pid +:+ "/comm".
Definition children_path (pid : Z) : string := "/proc/" +:+ itoa pid +:+ "/task/" +:+ itoa pid +:+ "/children".

Definition wrappers : list string := ["sudo"; "unshare"; "sh"; "env"; "taskset"].

(** One turn of the loop: the child to go on with, if the process is a wrapper
    with exactly one.  The kernel writes a pid in decimal. *)
Definition child_of (fs : ProcStat.files) (pid : Z) : option Z :=
  match fs (comm_path pid) with
  | None => None
  | Some comm =>
      if bool_decide (trim_space comm ∈ wrappers) then
        match fs (children_path pid) with
        | None => None
        | Some kids => match fields kids with [kid] => parse_int kid | _ => None end
        end
      else None
  end.

(** The loop, [None] when [fuel] turns were not enough. *)
Fixpoint serverPid (fuel : nat) (fs : ProcStat.files) (pid : Z) : option Z :=
  match fuel with
  | O => None
  | S fuel => match child_of fs pid with None => Some pid | Some next => serverPid fuel fs next end
  end.

Definition below (fs : ProcStat.files) (p q : Z) : Prop := child_of fs p = Some q.

(** [serverPid] ends on every process tree, and at the server: in a tree,
    where each process is nearer a leaf than its parent, it follows the wrappers
    from the process that was started down to the first that is not one with a
    single child. *)
Theorem serverPid_ends fs (depth : Z -> nat) pid :
  (forall p q, below fs p q -> (depth q < depth p)%nat) ->
  exists server, (forall fuel, (depth pid < fuel)%nat -> serverPid fuel fs pid = Some server) /\
    rtc (below fs) pid server /\ child_of fs server = None.
Proof.
  intros Hd. remember (depth pid) as n eqn:En. revert pid En.
  induction n as [n IH] using (well_founded_induction lt_wf). intros pid ->.
  destruct (child_of fs pid) as [next|] eqn:Ec.
  - destruct (IH (depth next) (Hd _ _ Ec) next eq_refl) as (server & Hs & Hr & Hn). exists server.
    split; [|split; [by eapply rtc_l|done]]. intros [|fuel] Hf; [lia|]. simpl. rewrite Ec. apply Hs.
    specialize (Hd _ _ Ec). lia.
  - exists pid. split; [|split; [constructor|done]]. intros [|fuel] Hf; [lia|]. simpl. by rewrite Ec.
Qed.

(** Pi-hole under its wrappers: [taskset] became [env] and then [sudo], which
    stays, and [unshare] became the server. *)
Definition a_tree : ProcStat.files := fun path =>
  if String.eqb path "/proc/100/comm" then Some ("sudo" +:+ nls)
  else if String.eqb path "/proc/100/task/100/children" then Some "101 "
  else if String.eqb path "/proc/101/comm" then Some ("pihole-FTL" +:+ nls)
  else None.

Lemma a_tree_child p q : below a_tree p q -> q = 101.
Proof.
  unfold below, child_of. destruct (a_tree (comm_path p)); [|done]. case_bool_decide; [|done].
  unfold a_tree. repeat destruct (String.eqb _ _); vm_compute; by intros [= <-].
Qed.

Lemma serverPid_ends_witness :
  serverPid 2 a_tree 100 = Some 101 /\
  exists server, (forall fuel, (1 < fuel)%nat -> serverPid fuel a_tree 100 = Some server) /\
    rtc (below a_tree) 100 server /\ child_of a_tree server = None.
Proof.
  split; [vm_compute; reflexivity|].
  refine (serverPid_ends a_tree (fun p => match child_of a_tree p with Some _ => 1%nat | None => 0%nat end) 100 _).
  intros p q Hp. pose proof (a_tree_child p q Hp) as ->. unfold below in Hp. rewrite Hp. vm_compute. lia.
Defined.
