(* ===== verification/BenchSections.v ===== *)
(** * [bench/cmd/bench/scenarios.go]: the sections of a benchmark run

    Each section is a program of [BenchRun] that gives its table or the error
    that ends the run, with the servers, loads and checks of the code in its
    order.  The lemmas say what every section leaves behind, whatever the
    machine answers; [BenchMain] puts the sections together. *)

From S2P Require Import Prelude GoStrings GoFloat Hist LoadGen BenchRun.

Definition table_section : Type := string * string.

Section sections.
Context (h : harness) (f : bench_flags).

Definition listRules : Z := 250000.

Definition workloads : prog (result string table_section) :=
  let head := "| workload | throughput | p50 | p99 | peak RSS |" +:+ nls +:+ "|---|---|---|---|---|" +:+ nls in
  with_server (server_opts "workloads" [Cached; BlockRules listRules]) (fun s =>
    let!? (r, sm) := load h f s (load_opts "udp" 200 []) in
    let sb := head +:+ row "cache hits" r (PeakRSS sm) in
    let!? (rb, smb) := load h f s (load_opts "udp" 200 [Qname "blocked.bench.test"]) in
    match expectRcode rb "nxdomain" with
    | Some e => Ret (Err ("blocked row: " +:+ e))
    | None =>
        let sb := sb +:+ row "blocked" rb (PeakRSS smb) in
        let!? (rw, smw) := load h f s (load_opts "udp" 200 [Qname "rewritten.bench.test"]) in
        match expectRcode rw "noerror" with
        | Some e => Ret (Err ("rewritten row: " +:+ e))
        | None =>
            let sb := sb +:+ row "rewritten" rw (PeakRSS smw) in
            let!? (rl, sml) := load h f s (load_opts "udp" 20 []) in
            let sb := sb +:+ row "light mixed load (20 in flight)" rl (PeakRSS sml) in
            let!? (rm, smm) := load h f s (load_opts "udp" 128 [Qmode "unique"]) in
            match expectRcode rm "noerror" with
            | Some e => Ret (Err ("cache-miss row: " +:+ e))
            | None =>
                let sb := sb +:+ row "sustained cache misses" rm (PeakRSS smm) in
                Ret (Ok ("Workloads", sb))
            end
        end
    end).

(** One row of [loops]: the misses, then the hits, on one server. *)
Definition loops_row (clients : Z) (kind : string) (sb : string) (n : Z) : prog (result string string) :=
  let!? (miss, hit) :=
    with_server (server_opts "loops" [Kind kind; Cached; Loops n; MaxPending 4096; Cpus "0-1"]) (fun s =>
      prefix_err (kind +:+ " at " +:+ itoa n +:+ " loops")
        (let!? (miss, _) := expecting "noerror"
           (load h f s (load_opts "udp" clients [Qmode "unique"; OnCpus "2-3"])) in
         let!? (hit, _) := load h f s (load_opts "udp" clients [OnCpus "2-3"]) in
         Ret (Ok (miss, hit)))) in
  let! name := act (ServerLabel kind) in
  Ret (Ok (sb +:+ "| " +:+ name +:+ " | " +:+ itoa n +:+ " | " +:+ thousands (QPS miss) +:+ " qps | " +:+
           ms (P99ms miss) +:+ " | " +:+ thousands (QPS hit) +:+ " qps | " +:+ ms (P99ms hit) +:+ " |" +:+ nls)).

Definition loops : prog (result string table_section) :=
  let title := "Event loops on two cores" in
  let! cpus := act NumCPU in
  if cpus <? 4 then
    Ret (Ok (title, "Skipped: needs four CPUs, two for the server and two for the generator." +:+ nls))
  else
    let! taskset := act HasTaskset in
    if negb taskset then
      Ret (Ok (title, "Skipped: needs taskset to pin the server and the generator." +:+ nls))
    else
      let clients := 1000 in
      let head :=
        "Server pinned to CPUs 0-1, generator to 2-3, " +:+ thousandsZ clients +:+
        " clients over UDP, `max_pending` 4096. elodin's loops are `listeners.udp.readers`; Unbound's are " +:+
        "`num-threads`. A thread-model release takes `readers` as its UDP reader count only." +:+ nls +:+ nls +:+
        "| server | loops | cache misses | miss p99 | cache hits | hit p99 |" +:+ nls +:+
        "|---|---|---|---|---|---|" +:+ nls in
      let!? sb := for_each (h_kinds h)
        (fun sb kind =>
           let! again := act NumCPU in
           for_each [1; 2; Z.min again 64] (fun sb n => loops_row clients kind sb n) sb) head in
      Ret (Ok (title, sb)).

Definition misses_row (clients : Z) (rtt : duration) (mock : string) (sb : string) (kind : string)
  : prog (result string string) :=
  let!? (r, _) :=
    with_server (server_opts "misses" [Kind kind; Cached; MaxPending 4096; UpstreamAddr mock]) (fun s =>
      prefix_err (kind +:+ " at " +:+ dur_string rtt)
        (expecting "noerror" (load h f s (load_opts "udp" clients [Qmode "unique"])))) in
  let! name := act (ServerLabel kind) in
  Ret (Ok (sb +:+ "| " +:+ name +:+ " | " +:+ dur_string rtt +:+ " | " +:+ thousands (QPS r) +:+ " qps | " +:+
           ms (P50ms r) +:+ " | " +:+ ms (P99ms r) +:+ " | " +:+ thousandsZ (Errors r) +:+ " | " +:+
           thousands (fdiv (f_of_Z clients) (seconds rtt)) +:+ " qps |" +:+ nls)).

Definition misses : prog (result string table_section) :=
  let clients := 2000 in
  let head :=
    thousandsZ clients +:+ " clients over UDP, every name unique, `max_pending` 4096." +:+ nls +:+ nls +:+
    "| server | upstream delay | cache misses | p50 | p99 | timed out | generator ceiling |" +:+ nls +:+
    "|---|---|---|---|---|---|---|" +:+ nls in
  let!? sb := for_each [20 * millisecond; 5 * millisecond]
    (fun sb rtt =>
       let!? mock := act (StartMock rtt) in
       for_each (h_kinds h) (fun sb kind => misses_row clients rtt mock sb kind) sb) head in
  Ret (Ok ("Cache misses against the upstream delay", sb)).

Definition unboundHeld : Z := 5000.

Definition connections_row (kind t : string) (sb : string) (n : Z) : prog (result string string) :=
  if (n >? f_held f) || String.eqb kind "unbound" && (n >? unboundHeld) then Ret (Ok sb)
  else
    let!? (before, r, held) :=
      with_server (server_opts "conns" [Kind kind; Cached; MaxConnections (n + 64); ClientTimeout (120 * second)])
        (fun s =>
           let! _ := act (Sleep second) in
           let! before := act (Rss s) in
           prefix_err (kind +:+ " " +:+ t +:+ " at " +:+ itoa n)
             (let!? (r, held, _) := act (Once s t n "fixed") in Ret (Ok (before, r, held)))) in
    let! name := act (ServerLabel kind) in
    Ret (Ok (sb +:+ "| " +:+ name +:+ " | " +:+ label t +:+ " | " +:+ thousandsZ n +:+ " | " +:+
             answeredOf r n +:+ " | " +:+ mib before +:+ " | " +:+ mib held +:+ " | " +:+
             perItem (held - before) n +:+ " |" +:+ nls)).

Definition connections : prog (result string table_section) :=
  let head :=
    "Each client asks one cached name and then holds its connection idle. The figure is " +:+
    "(RSS with every connection held − RSS before the first) ÷ N. `max_connections` and its per-prefix " +:+
    "share are N + 64 (Unbound: `incoming-num-tcp`), and the idle timeout 120 s." +:+ nls +:+ nls +:+
    "| server | transport | connections | answered | RSS before | RSS held | per idle connection |" +:+ nls +:+
    "|---|---|---|---|---|---|---|" +:+ nls in
  let!? sb := for_each (h_kinds h)
    (fun sb kind => for_each ["tcp"; "dot"; "doh2"]
       (fun sb t => for_each [1000; 5000; 20000] (fun sb n => connections_row kind t sb n) sb) sb) head in
  Ret (Ok ("Memory per idle connection", sb)).

Definition inflight_row (mock kind : string) (sb : string) (n : Z) : prog (result string string) :=
  let!? (idle, r, peak) :=
    with_server (server_opts "inflight" [Kind kind; MaxPending (n + 256); UpstreamAddr mock]) (fun s =>
      let! _ := act (Sleep second) in
      let! idle := act (Rss s) in
      prefix_err (kind +:+ " at " +:+ itoa n)
        (let!? (r, _, peak) := act (Once s "udp" n "unique") in Ret (Ok (idle, r, peak)))) in
  let! name := act (ServerLabel kind) in
  Ret (Ok (sb +:+ "| " +:+ name +:+ " | " +:+ thousandsZ n +:+ " | " +:+ answeredOf r n +:+ " | " +:+
           mib idle +:+ " | " +:+ mib peak +:+ " | " +:+ perItem (peak - idle) n +:+ " |" +:+ nls)).

Definition inflight : prog (result string table_section) :=
  let delay := 3 * second in
  let!? mock := act (StartMock delay) in
  let head :=
    "Upstream answering after " +:+ dur_string delay +:+ ", every name unique, cache off, `max_pending` N + 256 " +:+
    "(Unbound: `num-queries-per-thread` 4096). The figure is (peak RSS − idle RSS) ÷ N." +:+ nls +:+ nls +:+
    "| server | in flight | answered | idle RSS | peak RSS | per query in flight |" +:+ nls +:+
    "|---|---|---|---|---|---|" +:+ nls in
  let!? sb := for_each (h_kinds h)
    (fun sb kind => for_each [1000; 3000] (fun sb n => inflight_row mock kind sb n) sb) head in
  Ret (Ok ("Memory per query in flight",
    sb +:+ nls +:+ "A thread-model release carries only as many as it has workers at once and queues the " +:+
    "rest, so behind a three-second upstream most of its queries outlive the generator's five-second wait." +:+ nls)).

Definition latency : prog (result string table_section) :=
  let head :=
    "100 clients, each holding its connection, every answer from the cache." +:+ nls +:+ nls +:+
    "| server | transport | throughput | p50 | p99 |" +:+ nls +:+ "|---|---|---|---|---|" +:+ nls in
  let!? sb := for_each (h_kinds h)
    (fun sb kind =>
       with_server (server_opts "latency" [Kind kind; Cached]) (fun s =>
         for_each ["udp"; "tcp"]
           (fun sb t =>
              let!? (r, _) := prefix_err (kind +:+ " " +:+ t)
                (expecting "noerror" (load h f s (load_opts t 100 []))) in
              let! name := act (ServerLabel kind) in
              Ret (Ok (sb +:+ "| " +:+ name +:+ " | " +:+ label t +:+ " | " +:+ thousands (QPS r) +:+ " qps | " +:+
                       ms (P50ms r) +:+ " | " +:+ ms (P99ms r) +:+ " |" +:+ nls))) sb)) head in
  Ret (Ok ("Cache-hit latency", sb)).

Definition transport_line (name : string) (r : Result) : string :=
  "| " +:+ name +:+ " | " +:+ itoa (Clients r) +:+ " | " +:+ thousands (QPS r) +:+ " qps | " +:+
  ms (P50ms r) +:+ " | " +:+ ms (P99ms r) +:+ " | " +:+ itoa (MinPerClient r) +:+ " – " +:+
  itoa (MaxPerClient r) +:+ " | " +:+ itoa (Errors r) +:+ " |" +:+ nls.

Definition transports : prog (result string table_section) :=
  let head :=
    "| transport | clients | throughput | p50 | p99 | answered per client (min–max) | errors |" +:+ nls +:+
    "|---|---|---|---|---|---|---|" +:+ nls in
  with_server (server_opts "transports" [Cached]) (fun s =>
    let!? sb := for_each ["udp"; "tcp"; "dot"; "doh1"; "doh2"]
      (fun sb t =>
         let!? (r, _) := load h f s (load_opts t 100 []) in
         Ret (Ok (sb +:+ transport_line (label t) r))) head in
    let!? (r, _) := load h f s (load_opts "tcp" 500 []) in
    Ret (Ok ("Transports, one connection per client", sb +:+ transport_line "TCP" r))).

Definition h1VersusH2 : prog (result string table_section) :=
  let head :=
    "10 clients, 8 concurrent requests each, every one a cache miss." +:+ nls +:+ nls +:+
    "| | throughput | p50 | p99 |" +:+ nls +:+ "|---|---|---|---|" +:+ nls in
  with_server (server_opts "h1h2" [Cached]) (fun s =>
    let!? sb := for_each ["doh1"; "doh2"]
      (fun sb t =>
         let!? (r, _) := load h f s (load_opts t 10 [Conc 8; Qmode "unique"]) in
         Ret (Ok (sb +:+ "| " +:+ label t +:+ " | " +:+ thousands (QPS r) +:+ " qps | " +:+
                  ms (P50ms r) +:+ " | " +:+ ms (P99ms r) +:+ " |" +:+ nls))) head in
    Ret (Ok ("HTTP/1.1 against HTTP/2 under concurrency", sb))).

Definition cpu_row (kind : string) (s : server) (sb t : string) : prog (result string string) :=
  if String.eqb kind "unbound" && String.eqb t "doh1" then
    let! name := act (ServerLabel kind) in
    Ret (Ok (sb +:+ "| " +:+ name +:+ " | " +:+ label t +:+ " | — (serves DoH over HTTP/2 only) | |" +:+ nls))
  else
    let!? (r, sm) := prefix_err (kind +:+ " " +:+ t) (load h f s (load_opts t 100 [])) in
    let per := CPUPerQuery sm (Answered r) in
    let cores := fmul (seconds per) (f_of_Z 5000) in
    let! name := act (ServerLabel kind) in
    Ret (Ok (sb +:+ "| " +:+ name +:+ " | " +:+ label t +:+ " | " +:+ itoa (microseconds per) +:+ " µs | " +:+
             fmt_float 2 cores +:+ " core |" +:+ nls)).

Definition cpuPerQuery : prog (result string table_section) :=
  let head :=
    "| server | transport | CPU per query | at 5,000 qps |" +:+ nls +:+ "|---|---|---|---|" +:+ nls in
  let!? sb := for_each (h_kinds h)
    (fun sb kind =>
       with_server (server_opts "cpu" [Kind kind; Cached])
         (fun s => for_each ["tcp"; "udp"; "dot"; "doh1"; "doh2"] (cpu_row kind s) sb)) head in
  Ret (Ok ("CPU per query", sb)).

Definition handshakes : prog (result string table_section) :=
  let head :=
    "| key | handshakes/s | CPU per handshake | p50 |" +:+ nls +:+ "|---|---|---|---|" +:+ nls in
  let!? sb := for_each [("ecdsa", "ECDSA"); ("rsa", "RSA")]
    (fun sb '(kind, upper) =>
       let!? (r, sm) :=
         with_server (server_opts ("handshake-" +:+ kind) [Cached; CertKind kind])
           (fun s => load h f s (load_opts "handshake" 16 [])) in
       let per := CPUPerQuery sm (Answered r) in
       Ret (Ok (sb +:+ "| " +:+ upper +:+ " | " +:+ thousands (QPS r) +:+ " /s | " +:+
                itoa (microseconds per) +:+ " µs | " +:+ ms (P50ms r) +:+ " |" +:+ nls))) head in
  Ret (Ok ("Fresh TLS handshakes", sb)).

Definition idleRSS (o : serverOpts) : prog (result string Z) :=
  with_server o (fun s =>
    let! _ := act (Sleep (2 * second)) in
    let! rss := act (Rss s) in
    Ret (Ok rss)).

(** [cacheFill]: entries, delta and total. *)
Definition cacheFilledRSS (o : serverOpts) : prog (result string (Z * Z * Z)) :=
  with_server o (fun s =>
    let! _ := act (Sleep (2 * second)) in
    let! before := act (Rss s) in
    let!? (r, sm) := load h f s (load_opts "udp" 128 [Qmode "unique"; Dur (30 * second)]) in
    Ret (Ok (Z.min (Answered r) (so_cacheEntries o), PeakRSS sm - before, PeakRSS sm))).

Definition memory : prog (result string table_section) :=
  let head := "| | |" +:+ nls +:+ "|---|---|" +:+ nls in
  let!? idle := idleRSS (server_opts "mem-idle" [Cached]) in
  let rules := listRules in
  let!? withList := idleRSS (server_opts "mem-lists" [Cached; BlockRules rules]) in
  let perRule := fdiv (f_of_Z (withList - idle)) (f_of_Z rules) in
  let!? (smallEntries, _, smallTotal) :=
    cacheFilledRSS (server_opts "mem-cache-small" [Cached; CacheEntries 1000; BlockRules rules]) in
  let!? (bigEntries, _, bigTotal) :=
    cacheFilledRSS (server_opts "mem-cache-big" [Cached; CacheEntries 200000; BlockRules rules]) in
  let perEntry := fdiv (f_of_Z (bigTotal - smallTotal)) (f_of_Z (bigEntries - smallEntries)) in
  Ret (Ok ("Memory",
    head +:+ "| idle, no lists | " +:+ mib idle +:+ " |" +:+ nls +:+
    "| blocklists | ~" +:+ fmt_float 0 perRule +:+ " B per rule (" +:+ mib (withList - idle) +:+ " for " +:+
      thousandsZ rules +:+ " rules) |" +:+ nls +:+
    "| answer cache | ~" +:+ fmt_float 0 perEntry +:+ " B per entry (" +:+
      mib (trunc64 (fmul perEntry (f_of_Z 10000))) +:+ " at the default 10,000) |" +:+ nls +:+
    "| realistic total under load | " +:+ mib bigTotal +:+ " with " +:+ thousandsZ rules +:+ " rules and " +:+
      thousandsZ bigEntries +:+ " cached answers |" +:+ nls)).

Definition shedding_row (clients : Z) (sb : string) (mp : Z) : prog (result string string) :=
  let!? (r, _) :=
    with_server (server_opts ("shed-" +:+ itoa mp) [Cached; MaxPending mp])
      (fun s => load h f s (load_opts "udp" clients [Qmode "unique"; Dur (20 * second)])) in
  Ret (Ok (sb +:+ "| " +:+ thousandsZ mp +:+ " (at most " +:+
           thousands (fdiv (f_of_Z mp) (seconds (f_upstreamRTT f))) +:+ " qps) | " +:+ thousands (QPS r) +:+
           " qps | " +:+ ms (P50ms r) +:+ " | " +:+ ms (P99ms r) +:+ " | " +:+ thousandsZ (Errors r) +:+ " |" +:+ nls)).

Definition shedding : prog (result string table_section) :=
  let clients := 6000 in
  let head :=
    "Cache misses from " +:+ thousandsZ clients +:+ " clients at once, against an upstream answering after " +:+
    dur_string (f_upstreamRTT f) +:+ ". With N queries in flight at that delay, nothing can be served faster " +:+
    "than N ÷ delay." +:+ nls +:+ nls +:+
    "| max_pending | served | p50 | p99 | dropped |" +:+ nls +:+ "|---|---|---|---|---|" +:+ nls in
  let!? sb := for_each [1024; 8192] (shedding_row clients) head in
  Ret (Ok ("Past capacity",
    sb +:+ nls +:+ "A dropped query gets no answer at all, so it shows up as a client timeout rather than an error code. " +:+
    "A thread-model release queues what its workers cannot carry, so for one of those the second row is the unbounded queue." +:+ nls)).

(** [freeBytes], of [Statfs]: the fragment size, the block size and the blocks an
    unprivileged writer may take. *)
Definition freeBytes (fs : result string (Z * Z * Z)) : result string Z :=
  let? (frsize, bsize, bavail) := fs in
  Ok ((bavail * (if frsize =? 0 then bsize else frsize)) mod 2 ^ 64).

(** [fileSize]: a file that is not there weighs nothing. *)
Definition fileSize (size : option Z) : Z := default 0 size.

(** [logDiskNeeded]: [uint64] arithmetic on a truncated [float64]. *)
Definition logDiskNeeded : Z :=
  let secs := seconds (wrap64 (Z.max (f_repeat f) 1 * (f_warmup f + f_duration f))) in
  Z.quot ((trunc64 (fmul (fmul secs (f_of_Z 500000)) (f_of_Z 220)) * 3) mod 2 ^ 64) 2.

Definition logDiskRoom : prog (option string) :=
  let! free := act FreeBytes in
  Ret (match free with
       | Err e => Some e
       | Ok free =>
           let need := logDiskNeeded in
           if free <? need then
             Some (h_dir h +:+ " has " +:+ itoa (Z.shiftr free 20) +:+ " MiB free, short of the " +:+
                   itoa (Z.shiftr need 20) +:+ " MiB a logged run writes; point -workdir at a larger disk")
           else None
       end).

Definition logDiskFilled : prog (option string) :=
  let! free := act FreeBytes in
  Ret (match free with
       | Err e => Some e
       | Ok free =>
           if free <? Z.shiftl 64 20 then
             Some (h_dir h +:+ " filled during a logged run (" +:+ itoa (Z.shiftr free 20) +:+
                   " MiB left), so its log is short; point -workdir at a larger disk")
           else None
       end).

(** A logged run: the load, then the check of the disk, then the log removed
    whatever happened. *)
Definition logged_run (s : server) (r : result string (Result * sample)) : prog (result string (Result * sample)) :=
  let! r := match r with
            | Err e => Ret (Err e)
            | Ok a => let! full := logDiskFilled in Ret (match full with Some e => Err e | None => Ok a end)
            end in
  let! _ := act (Remove (logPath s)) in
  Ret r.

Definition logging_row (acc : string * float64) (on : bool) : prog (result string (string * float64)) :=
  let '(sb, base) := acc in
  let!? s := act (StartServer (server_opts ("log-" +:+ fmt_bool on) [Cached; LogQueries on; LogLevel "info"])) in
  let! r := load h f s (load_opts "udp" 200 []) in
  let! _ := act (StopServer s) in
  let!? (r, sm) := logged_run s r in
  let base' := if on then base else QPS r in
  let cost :=
    if negb on then ""
    else if flt (f_of_Z 0) base then fmt_float 0 (fmul (fdiv (fsub base (QPS r)) base) (f_of_Z 100)) +:+ "%"
    else "" in
  Ret (Ok (sb +:+ "| " +:+ fmt_bool on +:+ " | " +:+ thousands (QPS r) +:+ " qps | ±" +:+
           fmt_float 0 (fmul (Spread sm) (f_of_Z 100)) +:+ "% | " +:+ cost +:+ " |" +:+ nls, base')).

(** The last run of [loggingCost]: what a logged run writes. *)
Definition log_bytes (sb : string) : prog (result string table_section) :=
  let!? s := act (StartServer (server_opts "log-bytes" [Cached; LogQueries true; LogLevel "info"])) in
  let! ran :=
    let! before := act (FileSize (logPath s)) in
    let! r := load h f s (load_opts "udp" 200 [Repeat 1]) in
    Ret (before, r) in
  let! _ := act (StopServer s) in
  let '(before, r) := ran in
  let! size := act (FileSize (logPath s)) in
  let written := size - before in
  let!? (r, _) := logged_run s r in
  Ret (Ok ("Cost of query logging",
    sb +:+ nls +:+ "At " +:+ thousands (QPS r) +:+ " qps it wrote " +:+
    fmt_float 0 (fdiv (fdiv (f_of_Z written) (Seconds r)) (f_of_Z (2 ^ 20))) +:+ " MB/s — " +:+
    fmt_float 0 (fdiv (f_of_Z written) (f_of_Z (Answered r))) +:+ " bytes per query." +:+ nls)).

Definition loggingCost : prog (result string table_section) :=
  let head :=
    "| log.queries | throughput | run-to-run spread | cost |" +:+ nls +:+ "|---|---|---|---|" +:+ nls in
  let!? (sb, _) := for_each [false; true] logging_row (head, f_of_Z 0) in
  log_bytes sb.
End sections.

(** ** What the sections leave behind *)

Lemma workloads_quiet h f : quiet (workloads h f).
Proof. unfold workloads. bench. Qed.

Lemma loops_quiet h f : quiet (loops h f).
Proof. unfold loops, loops_row. bench. Qed.

Lemma misses_quiet h f : quiet (misses h f).
Proof. unfold misses, misses_row. bench. Qed.

Lemma connections_quiet h f : quiet (connections h f).
Proof. unfold connections, connections_row. bench. Qed.

Lemma inflight_quiet h : quiet (inflight h).
Proof. unfold inflight, inflight_row. bench. Qed.

Lemma latency_quiet h f : quiet (latency h f).
Proof. unfold latency. bench. Qed.

Lemma transports_quiet h f : quiet (transports h f).
Proof. unfold transports. bench. Qed.

Lemma h1VersusH2_quiet h f : quiet (h1VersusH2 h f).
Proof. unfold h1VersusH2. bench. Qed.

Lemma cpuPerQuery_quiet h f : quiet (cpuPerQuery h f).
Proof. unfold cpuPerQuery, cpu_row. bench. Qed.

Lemma handshakes_quiet h f : quiet (handshakes h f).
Proof. unfold handshakes. bench. Qed.

Lemma idleRSS_quiet o : quiet (idleRSS o).
Proof. unfold idleRSS. bench. Qed.

Lemma cacheFilledRSS_quiet h f o : quiet (cacheFilledRSS h f o).
Proof. unfold cacheFilledRSS. bench. Qed.
#[export] Hint Resolve idleRSS_quiet cacheFilledRSS_quiet : bench.

Lemma memory_quiet h f : quiet (memory h f).
Proof. unfold memory. bench. Qed.

Lemma shedding_quiet h f : quiet (shedding h f).
Proof. unfold shedding, shedding_row. bench. Qed.

Lemma logDiskFilled_quiet h : quiet (logDiskFilled h).
Proof. unfold logDiskFilled. bench. Qed.

Lemma logDiskRoom_quiet h f : quiet (logDiskRoom h f).
Proof. unfold logDiskRoom. bench. Qed.
#[export] Hint Resolve logDiskFilled_quiet logDiskRoom_quiet : bench.

Lemma logged_run_quiet h s r : quiet (logged_run h s r).
Proof. unfold logged_run. bench. Qed.
#[export] Hint Resolve logged_run_quiet : bench.

Lemma logging_row_quiet h f acc on : quiet (logging_row h f acc on).
Proof. unfold logging_row. bench. Qed.

Lemma log_bytes_quiet h f g : quiet (log_bytes h f g).
Proof. unfold log_bytes. bench. Qed.
#[export] Hint Resolve logging_row_quiet log_bytes_quiet : bench.

Lemma loggingCost_quiet h f : quiet (loggingCost h f).
Proof. unfold loggingCost. bench. Qed.
