(* ===== verification/BenchCompare.v ===== *)
(** * [bench/cmd/bench/compare.go]: elodin against every other server

    The comparison is one section of a run: four tables, a row per server.  A
    cell that fails reads "failed" and its reason joins the notes under the
    tables, so the notes are state every cell threads ([noted]); only a machine
    unfit to compare on ends the section.

    [miss_row_climbs] is the miss ladder: what a row reports as sustained is the
    last rate the server was measured to carry.  [waitBlocked_loaded] is when a
    server is taken to have read its list. *)

From S2P Require Import Prelude GoStrings GoFloat Hist DnsWire LoadGen BenchRun BenchServers BenchSections.

(** ** Failed cells *)

(** [oneLine]: the first 300 bytes of an error, its white space collapsed. *)
Definition oneLine (err : string) : string :=
  let s := join " " (fields err) in
  if (300 <? String.length s)%nat then str_take 300 s +:+ "…" else s.

(** A program that may add to the notes. *)
Definition noted (A : Type) : Type := list string -> prog (list string * A).

(** [fail]. *)
Definition fail (kind what err : string) : noted string := fun notes =>
  let! name := act (ServerLabel kind) in
  Ret (notes ++ ["- " +:+ name +:+ ", " +:+ what +:+ ": " +:+ oneLine err], "failed").

(** A cell that is [fine] of what the measurement gave, or failed. *)
Definition cell {A} (kind what : string) (p : prog (result string A)) (fine : A -> string) : noted string :=
  fun notes =>
    let! r := p in
    match r with Err e => fail kind what e notes | Ok a => Ret (notes, fine a) end.

(** [s, err := h.startServer(o)] and [defer s.stop()], the error of the start
    handled by [no]. *)
Definition started {A} (o : serverOpts) (no : string -> prog A) (body : server -> prog A) : prog A :=
  let! r := act (StartServer o) in
  match r with
  | Err e => no e
  | Ok s => let! a := body s in let! _ := act (StopServer s) in Ret a
  end.

(** Rows in order, threading the notes and the text. *)
Fixpoint rows {X} (l : list X) (row_of : X -> noted string) (acc : list string * string)
  : prog (list string * string) :=
  match l with
  | [] => Ret acc
  | x :: l => let! (notes, text) := row_of x (fst acc) in rows l row_of (notes, snd acc +:+ text)
  end.

Definition timedOut (r : Result) : string :=
  if Reconnects r >? 0 then
    " (**" +:+ thousandsZ (Errors r) +:+ " failed, " +:+ thousandsZ (Reconnects r) +:+ " reconnects**)"
  else if Errors r >? 0 then " (**" +:+ thousandsZ (Errors r) +:+ " timed out**)"
  else "".

Definition equalReceiveBuffer : Z := Z.shiftl 1 20.

(** The error of [strconv.Atoi]. *)
Definition atoi_error (s : string) : string :=
  let unsigned := match s with String "-" s' | String "+" s' => s' | _ => s end in
  "strconv.Atoi: parsing " +:+ quote s +:+ ": " +:+
  match parse_udigits unsigned with Some _ => "value out of range" | None => "invalid syntax" end.

Definition checkReceiveBuffer : prog (option string) :=
  let! b := act RmemDefault in
  Ret (match b with
       | Err e => Some e
       | Ok b =>
           match parse_int (trim_space b) with
           | None => Some (atoi_error (trim_space b))
           | Some n =>
               if n <? equalReceiveBuffer then
                 Some ("net.core.rmem_default is " +:+ itoa n +:+
                       "; the comparison needs every server's UDP buffer at elodin's " +:+ itoa equalReceiveBuffer +:+
                       ": sudo sysctl net.core.rmem_default=" +:+ itoa equalReceiveBuffer)
               else None
           end
       end).

(** [waitBlocked]: the rounds of its loop, each with the time it began and the
    datagram read, if the dial and the read worked; it runs out of them when
    the deadline is past. *)
Fixpoint waitBlocked (rounds : list (Z * option bytes)) (deadline : Z) (last : string) : result string unit :=
  let never := Err ("blocked.bench.test never answered NXDOMAIN (last: " +:+ last +:+ ")") in
  match rounds with
  | [] => never
  | (now, got) :: rest =>
      if now <? deadline then
        match got with
        | None => waitBlocked rest deadline last
        | Some msg =>
            match ParseReply msg with
            | Ok r => if rRcode r =? 3 then Ok tt else waitBlocked rest deadline ("rcode " +:+ itoa (rRcode r))
            | Err _ => waitBlocked rest deadline last
            end
        end
      else never
  end.

(** ** The miss ladder *)

Record step : Type := mkStep { st_rate : Z; st_r : Result; st_sm : sample }.

Definition missLadder : list Z := [2000; 5000; 10000; 25000; 50000; 75000; 100000].
Definition missFirst : Z := hd 0 missLadder.
Definition missRest : list Z := tl missLadder.

Definition missClients : Z := 4000.
Definition missClean : float64 := fconst 1 1000.

Definition ladderText : string := join ", " (map thousandsZ missLadder).

Definition carried (st : step) : bool :=
  let asked := Answered (st_r st) + Errors (st_r st) in
  (asked >? 0) && fle (f_of_Z (Errors (st_r st))) (fmul missClean (f_of_Z asked)) &&
  fle (fmul (fconst 97 100) (f_of_Z (st_rate st))) (QPS (st_r st)).

Definition lost (st : step) : string :=
  let asked := Answered (st_r st) + Errors (st_r st) in
  if asked =? 0 then "all"
  else
    fmt_float 1 (fdiv (fmul (f_of_Z 100) (f_of_Z (Errors (st_r st)))) (f_of_Z asked)) +:+ "% at " +:+
    thousandsZ (st_rate st) +:+ " (answered " +:+ thousands (QPS (st_r st)) +:+ " qps)".

Definition cpu_us (r : Result) (sm : sample) : string := itoa (microseconds (CPUPerQuery sm (Answered r))) +:+ " µs".

Section compare.
Context (h : harness) (f : bench_flags).

Definition miss_opts (rate n : Z) (d : duration) : loadOpts :=
  load_opts "udp" missClients [Qmode "unique"; Rate rate; OnCpus "2-3"; Repeat n; Dur d].

(** [run] of [missRow]. *)
Definition run_step (s : server) (rate n : Z) : prog (result string step) :=
  let!? (r, sm) := load h f s (miss_opts rate n 0) in
  Ret (match (if Answered r >? 0 then expectRcode r "noerror" else None) with
       | Some e => Err e
       | None => Ok (mkStep rate r sm)
       end).

(** The loop of [missRow]: the best step and what is said of the next. *)
Fixpoint climb (s : server) (best : step) (rates : list Z) : prog (result string (step * string)) :=
  match rates with
  | [] => Ret (Ok (best, "— (carried every step)"))
  | rate :: rates =>
      let!? st := run_step s rate 1 in
      if carried st then climb s st rates else Ret (Ok (best, lost st))
  end.

(** Percentiles and CPU of a step. *)
Definition at_step (st : step) (between : string) : string :=
  ms (P50ms (st_r st)) +:+ " / " +:+ ms (P99ms (st_r st)) +:+ between +:+ cpu_us (st_r st) (st_sm st).

Definition under_row (first : step) : string :=
  "under " +:+ thousandsZ (st_rate first) +:+ " | — | — | " +:+ at_step first " / " +:+ " | " +:+ lost first.

Definition sustained_row (best first : step) (next : string) : string :=
  thousandsZ (st_rate best) +:+ " qps | " +:+ at_step best " | " +:+ " | " +:+ at_step first " / " +:+ " | " +:+ next.

Definition missRow (s : server) : prog (result string string) :=
  let!? _ := load h f s (miss_opts missFirst 1 (5 * second)) in
  let!? first := run_step s missFirst 0 in
  if negb (carried first) then Ret (Ok (under_row first))
  else
    let!? (best, next) := climb s first missRest in
    Ret (Ok (sustained_row best first next)).

(** ** The cells *)

Definition heldN : Z := 1000.

(** Throughput, p99 and CPU of one run. *)
Definition speed (a : Result * sample) : string :=
  thousands (QPS (fst a)) +:+ " / " +:+ ms (P99ms (fst a)) +:+ " / " +:+ cpu_us (fst a) (snd a) +:+ timedOut (fst a).

Definition hitCell (s : server) (kind t : string) : noted string := fun notes =>
  if negb (supports kind t) then Ret (notes, "—")
  else
    cell kind (label t) (expecting "noerror" (load h f s (load_opts t 100 [OnCpus "2-3"]))) speed notes.

Definition blockedCell (kind : string) : noted string := fun notes =>
  if negb (supports kind "block") then Ret (notes, "—")
  else
    started (server_opts "cmp-blocked" [Kind kind; Cached; BlockRules listRules; Loops 2; Cpus "0-1"])
      (fun e => fail kind "blocked" e notes)
      (fun s =>
         let! e := act (WaitBlocked s) in
         match e with
         | Some e => fail kind "blocked" e notes
         | None =>
             cell kind "blocked"
               (expecting "nxdomain" (load h f s (load_opts "udp" 100 [Qname "blocked.bench.test"; OnCpus "2-3"])))
               speed notes
         end).

Definition heldCell (kind t : string) : noted string := fun notes =>
  if negb (supports kind t) then Ret (notes, "—")
  else
    cell kind (label t +:+ " held")
      (with_server (server_opts "cmp-conns"
                      [Kind kind; Cached; MaxConnections (heldN + 64); ClientTimeout (120 * second)]) (fun s =>
         let! _ := act (Sleep second) in
         let! before := act (Rss s) in
         let!? (r, held, _) := act (Once s t heldN "fixed") in
         Ret (Ok (before, r, held))))
      (fun '(before, r, held) =>
         perItem (held - before) heldN +:+
         (if negb (Answered r =? heldN) then " (" +:+ answeredOf r heldN +:+ ")" else ""))
      notes.

Definition inflightCell (kind mock : string) : noted string :=
  cell kind "in flight"
    (with_server (server_opts "cmp-inflight" [Kind kind; MaxPending (heldN + 256); UpstreamAddr mock]) (fun s =>
       let! _ := act (Sleep second) in
       let! idle := act (Rss s) in
       let!? (r, _, peak) := act (Once s "udp" heldN "unique") in
       Ret (Ok (idle, r, peak))))
    (fun '(idle, r, peak) => perItem (peak - idle) heldN +:+ " (" +:+ answeredOf r heldN +:+ " answered)").

Definition listRSS (kind : string) : prog (result string Z) :=
  with_server (server_opts "cmp-list" [Kind kind; Cached; BlockRules listRules]) (fun s =>
    let! e := act (WaitBlocked s) in
    match e with
    | Some e => Ret (Err e)
    | None =>
        let! _ := act (Sleep (2 * second)) in
        let! rss := act (Rss s) in
        Ret (Ok rss)
    end).

(** [fill] of [perCacheEntry]: the memory and the entries. *)
Definition fill (kind : string) (entries : Z) : prog (result string (Z * Z)) :=
  with_server (server_opts "cmp-cache" [Kind kind; Cached; CacheEntries entries]) (fun s =>
    let! _ := act (Sleep (2 * second)) in
    let!? (r, _) := expecting "noerror"
      (load h f s (load_opts "udp" 128 [Qmode "unique"; Dur (40 * second); Repeat 1])) in
    let! _ := act (Sleep second) in
    let! rss := act (Rss s) in
    Ret (Ok (rss, Z.min (Answered r) entries))).

Definition perCacheEntry (kind : string) : prog (result string (float64 * Z)) :=
  let!? (a, na) := fill kind 1000 in
  let!? (b, nb) := fill kind 200000 in
  Ret (Ok (fdiv (f_of_Z (b - a)) (f_of_Z (nb - na)), nb)).

(** ** The tables *)

Definition memory_row (kind : string) : noted string := fun notes =>
  let! r := idleRSS (server_opts "cmp-idle" [Kind kind; Cached]) in
  let idle := match r with Ok rss => rss | Err _ => 0 end in
  let! (notes, idleCell) :=
    match r with Err e => fail kind "idle" e notes | Ok rss => Ret (notes, mib rss) end in
  let! (notes, (listCell, ruleCell)) :=
    if supports kind "block" then
      let! r := listRSS kind in
      match r with
      | Err e => let! (notes, c) := fail kind "list" e notes in Ret (notes, (c, "—"))
      | Ok rss =>
          Ret (notes, (mib rss,
            if idle >? 0 then fmt_float 0 (fdiv (f_of_Z (rss - idle)) (f_of_Z listRules)) +:+ " B" else "—"))
      end
    else Ret (notes, ("—", "—")) in
  let! (notes, entryCell) :=
    cell kind "cache entry" (perCacheEntry kind)
      (fun '(per, n) =>
         fmt_float 0 per +:+ " B" +:+ (if n <? 200000 then " (filled " +:+ thousandsZ n +:+ ")" else ""))
      notes in
  let! name := act (ServerLabel kind) in
  Ret (notes, "| " +:+ name +:+ " | " +:+ idleCell +:+ " | " +:+ listCell +:+ " | " +:+ ruleCell +:+ " | " +:+
              entryCell +:+ " |" +:+ nls).

Definition memory_head : string :=
  "### Memory" +:+ nls +:+ nls +:+ "Idle is the server started with its cache on and nothing asked. " +:+
  "Lists is " +:+ thousandsZ listRules +:+ " names, each in the server's own list format, read once " +:+
  "`blocked.bench.test` answers NXDOMAIN. Per cache entry is two servers whose caches hold " +:+
  "1,000 and 200,000 answers, each given 40 s of unique names at 128 clients: the difference " +:+
  "in RSS over the difference in entries held, so a cache allocated up front counts." +:+ nls +:+ nls +:+
  "| server | idle RSS | with the list | per rule | per cache entry |" +:+ nls +:+ "|---|---|---|---|---|" +:+ nls.

Definition compareMemory (acc : list string * string) : prog (list string * string) :=
  rows (h_kinds h) memory_row (fst acc, snd acc +:+ memory_head).

Definition hits_row (kind : string) : noted string := fun notes =>
  let! name := act (ServerLabel kind) in
  let row := "| " +:+ name in
  let! r := act (StartServer (server_opts "cmp-hits" [Kind kind; Cached; Loops 2; Cpus "0-1"])) in
  match r with
  | Err e => let! (notes, c) := fail kind "start" e notes in Ret (notes, row +:+ " | " +:+ c +:+ " |||||" +:+ nls)
  | Ok s =>
      let! _ := act (WaitReady s "cached.bench.test") in
      let! (notes, row) :=
        rows ["udp"; "tcp"; "dot"; "doh1"; "doh2"]
          (fun t notes => let! (notes, c) := hitCell s kind t notes in Ret (notes, " | " +:+ c)) (notes, row) in
      let! _ := act (StopServer s) in
      let! (notes, c) := blockedCell kind notes in
      Ret (notes, row +:+ " | " +:+ c +:+ " |" +:+ nls)
  end.

Definition hits_head : string :=
  nls +:+ "### Cache hits on two cores" +:+ nls +:+ nls +:+
  "Server on CPUs 0-1 with two threads, generator on 2-3, " +:+
  "100 clients each holding its connection, every answer from the cache. Each cell is " +:+
  "throughput / p99 / CPU per query. A blocked answer is the UDP row's name on the list." +:+ nls +:+ nls +:+
  "| server | UDP | TCP | DoT | DoH/1.1 | DoH/2 | blocked (UDP) |" +:+ nls +:+ "|---|---|---|---|---|---|---|" +:+ nls.

Definition compareHits (acc : list string * string) : prog (list string * string) :=
  rows (h_kinds h) hits_row (fst acc, snd acc +:+ hits_head).

(** A row of the miss table: its cells, or where it failed. *)
Definition misses_failed (kind what e : string) : noted string := fun notes =>
  let! name := act (ServerLabel kind) in
  let! (notes, c) := fail kind what e notes in
  Ret (notes, "| " +:+ name +:+ " | " +:+ c +:+ " |||||" +:+ nls).

Definition offered_row (kind : string) : noted string := fun notes =>
  let! r := act (StartServer (server_opts "cmp-miss" [Kind kind; Cached; Loops 2; Cpus "0-1"; MaxPending 4096])) in
  match r with
  | Err e => misses_failed kind "start" e notes
  | Ok s =>
      let! r := missRow s in
      let! _ := act (StopServer s) in
      match r with
      | Err e => misses_failed kind "misses" e notes
      | Ok row => let! name := act (ServerLabel kind) in
                  Ret (notes, "| " +:+ name +:+ " | " +:+ row +:+ " |" +:+ nls)
      end
  end.

Definition misses_head : string :=
  nls +:+ "### Cache misses on two cores" +:+ nls +:+ nls +:+ "As above, every name unique, upstream at " +:+
  dur_string (f_upstreamRTT f) +:+ ", the " +:+
  "in-flight bound raised to 4,096 wherever the server has one. The load is offered at a fixed rate " +:+
  "and climbs " +:+ ladderText +:+ " qps until a step loses more than " +:+ fmt_float 1 (fconst 1 10) +:+
  "% of its queries or answers under 97% of " +:+
  "the rate; sustained is the last step carried, with its latency and CPU. At " +:+ thousandsZ missFirst +:+
  " qps is every server at the same load, median of " +:+ itoa (f_repeat f) +:+ "." +:+ nls +:+ nls +:+
  "| server | sustained | p50 / p99 there | CPU per miss there | at " +:+ thousandsZ missFirst +:+
  " qps: p50 / p99 / CPU | lost at the next step |" +:+ nls +:+ "|---|---|---|---|---|---|" +:+ nls.

Definition compareMisses (acc : list string * string) : prog (list string * string) :=
  rows (h_kinds h) offered_row (fst acc, snd acc +:+ misses_head).

Definition held_row (mock kind : string) : noted string := fun notes =>
  let! name := act (ServerLabel kind) in
  let! (notes, row) :=
    rows ["tcp"; "dot"; "doh2"]
      (fun t notes => let! (notes, c) := heldCell kind t notes in Ret (notes, " | " +:+ c)) (notes, "| " +:+ name) in
  let! (notes, c) := inflightCell kind mock notes in
  Ret (notes, row +:+ " | " +:+ c +:+ " |" +:+ nls).

Definition held_head : string :=
  nls +:+ "### What a held connection and a waiting query cost" +:+ nls +:+ nls +:+ thousandsZ heldN +:+
  " clients each ask one " +:+
  "cached name and hold the connection idle; (RSS held − RSS before) ÷ N. In flight is " +:+ thousandsZ heldN +:+
  " unique " +:+ "names behind a 1 s upstream, cache off; (peak − idle) ÷ N, with how many were answered." +:+
  nls +:+ nls +:+
  "| server | per idle TCP | per idle DoT | per idle DoH/2 | per query in flight |" +:+ nls +:+
  "|---|---|---|---|---|" +:+ nls.

Definition compareHeld (acc : list string * string) : prog (result string (list string * string)) :=
  let!? mock := act (StartMock second) in
  let! acc := rows (h_kinds h) (held_row mock) (fst acc, snd acc +:+ held_head) in
  Ret (Ok acc).

Definition compare : prog (result string table_section) :=
  let title := "Against the competition" in
  let! cpus := act NumCPU in
  if cpus <? 4 then Ret (Ok (title, "Skipped: needs four CPUs." +:+ nls))
  else
    let! unfit := checkReceiveBuffer in
    match unfit with
    | Some e => Ret (Err e)
    | None =>
        let! acc := compareMemory ([], "") in
        let! acc := compareHits acc in
        let! acc := compareMisses acc in
        let!? (notes, text) := compareHeld acc in
        Ret (Ok (title, text +:+
          (if decide (notes = []) then ""
           else nls +:+ "Cells that failed:" +:+ nls +:+ nls +:+ join nls notes +:+ nls)))
    end.
End compare.

(** ** What the comparison leaves behind *)

Lemma fail_quiet kind what e notes : quiet (fail kind what e notes).
Proof. unfold fail. bench. Qed.

Lemma fail_keeps v kind what e notes : keeps v (fail kind what e notes).
Proof. unfold fail. bench. Qed.
#[export] Hint Resolve fail_quiet fail_keeps : bench.

Lemma cell_quiet {A} kind what (p : prog (result string A)) fine notes :
  quiet p -> quiet (cell kind what p fine notes).
Proof. intros H. unfold cell. bench. Qed.

Lemma cell_keeps {A} v kind what (p : prog (result string A)) fine notes :
  keeps v p -> keeps v (cell kind what p fine notes).
Proof. intros H. unfold cell. bench. Qed.

Lemma started_quiet {A} o no (body : server -> prog A) :
  (forall e, quiet (no e)) -> (forall s, keeps s (body s)) -> quiet (started o no body).
Proof. intros Hn Hb. unfold started. bench. Qed.

Lemma rows_quiet {X} (l : list X) row_of acc :
  (forall x notes, quiet (row_of x notes)) -> quiet (rows l row_of acc).
Proof.
  intros H. revert acc. induction l as [|x l IH]; intros acc; [apply quiet_ret|].
  apply quiet_bind; [apply H|]. intros []. apply IH.
Qed.

Lemma rows_keeps {X} v (l : list X) row_of acc :
  (forall x notes, keeps v (row_of x notes)) -> keeps v (rows l row_of acc).
Proof.
  intros H. revert acc. induction l as [|x l IH]; intros acc; [apply keeps_ret|].
  apply keeps_bind; [apply H|]. intros []. apply IH.
Qed.
#[export] Hint Resolve cell_quiet cell_keeps started_quiet rows_quiet rows_keeps : bench.

(** The same step for the combinators of this file. *)
Ltac noted_step :=
  match goal with
  | |- quiet (cell _ _ _ _ _) => apply cell_quiet
  | |- keeps _ (cell _ _ _ _ _) => apply cell_keeps
  | |- quiet (started _ _ _) => apply started_quiet; intros ?
  | |- quiet (rows _ _ _) => apply rows_quiet; intros ??
  | |- keeps _ (rows _ _ _) => apply rows_keeps; intros ??
  end.

Ltac noted := repeat (cbv beta iota zeta; first [noted_step | bench_step | solve [eauto with bench]]).

Lemma run_step_keeps h f s rate n : keeps s (run_step h f s rate n).
Proof. unfold run_step. bench. Qed.
#[export] Hint Resolve run_step_keeps : bench.

Lemma climb_keeps h f s best rates : keeps s (climb h f s best rates).
Proof.
  revert best. induction rates as [|rate rates IH]; intros best; [apply keeps_ret|].
  cbn [climb]. bench.
Qed.
#[export] Hint Resolve climb_keeps : bench.

Lemma missRow_keeps h f s : keeps s (missRow h f s).
Proof. unfold missRow. bench. Qed.

Lemma hitCell_keeps h f s kind t notes : keeps s (hitCell h f s kind t notes).
Proof. unfold hitCell. noted. Qed.

Lemma blockedCell_quiet h f kind notes : quiet (blockedCell h f kind notes).
Proof. unfold blockedCell. noted. Qed.

Lemma heldCell_quiet kind t notes : quiet (heldCell kind t notes).
Proof. unfold heldCell. noted. Qed.

Lemma inflightCell_quiet kind mock notes : quiet (inflightCell kind mock notes).
Proof. unfold inflightCell. noted. Qed.

Lemma listRSS_quiet kind : quiet (listRSS kind).
Proof. unfold listRSS. noted. Qed.

Lemma fill_quiet h f kind n : quiet (fill h f kind n).
Proof. unfold fill. noted. Qed.
#[export] Hint Resolve missRow_keeps hitCell_keeps blockedCell_quiet heldCell_quiet inflightCell_quiet
  listRSS_quiet fill_quiet : bench.

Lemma perCacheEntry_quiet h f kind : quiet (perCacheEntry h f kind).
Proof. unfold perCacheEntry. noted. Qed.
#[export] Hint Resolve perCacheEntry_quiet : bench.

Lemma memory_row_quiet h f kind notes : quiet (memory_row h f kind notes).
Proof. unfold memory_row. noted. Qed.

Lemma hits_row_quiet h f kind notes : quiet (hits_row h f kind notes).
Proof. unfold hits_row. noted. Qed.

Lemma misses_failed_quiet kind what e notes : quiet (misses_failed kind what e notes).
Proof. unfold misses_failed. noted. Qed.

#[export] Hint Resolve misses_failed_quiet : bench.

Lemma offered_row_quiet h f kind notes : quiet (offered_row h f kind notes).
Proof. unfold offered_row. noted. Qed.

Lemma held_row_quiet mock kind notes : quiet (held_row mock kind notes).
Proof. unfold held_row. noted. Qed.
#[export] Hint Resolve memory_row_quiet hits_row_quiet offered_row_quiet held_row_quiet : bench.

Lemma compare_quiet h f : quiet (compare h f).
Proof.
  unfold compare, checkReceiveBuffer, compareMemory, compareHits, compareMisses, compareHeld. noted.
Qed.

(** ** The ladder *)

Lemma last_default {A} (x : A) l d : List.last (x :: l) d = List.last l x.
Proof.
  revert x d. induction l as [|y l IH]; intros x d; [done|].
  etransitivity; [exact (IH y d)|]. symmetry. exact (IH y x).
Qed.

Section ladder.
Context (h : harness) (f : bench_flags) (v : server) (hd : handler).

(** The results measured so far, latest first. *)
Definition results (past : list happened) : list Result := map fst (measurements past).

Lemma run_step_measures rate n past k st k' past' :
  exec hd past k (run_step h f v rate n) = (Ok st, k', past') ->
  st_rate st = rate /\
  exists runs : list (Result * sample), zlen runs = runs_asked f (miss_opts rate n 0) /\ st_r st ∈ map fst runs /\
    results past' = rev (map fst runs) ++ results past.
Proof.
  unfold run_step. intros (r & n1 & past1 & Hr & H)%exec_bind_inv. destruct r as [[r sm]|e]; [|done].
  apply load_measures in Hr as (runs & Hl & Em & Hm). simpl in H.
  match type of H with context [if ?b then expectRcode _ _ else _] => destruct (if b then expectRcode r "noerror" else None) end; [done|].
  injection H as <- <- <-. split; [done|]. exists runs.
  split; [done|]. split; [|unfold results; by rewrite Hm, map_app, map_rev].
  apply median_member in Em as (sm0 & Hin). apply list_elem_of_fmap. by exists (r, sm0).
Qed.

Lemma run_once_measures rate past k st k' past' :
  exec hd past k (run_step h f v rate 1) = (Ok st, k', past') ->
  st_rate st = rate /\ results past' = st_r st :: results past.
Proof.
  intros (-> & runs & Hl & Hin & ->)%run_step_measures. split; [done|].
  destruct runs as [|a [|b runs]]; [done| |unfold zlen, runs_asked in Hl; simpl in Hl; lia].
  apply list_elem_of_singleton in Hin as ->. done.
Qed.

(** What climbing [rates] from [best] finds: the steps carried one after the
    other, and the step that was not, all measured. *)
Definition climbed (best : step) (rates : list Z) (past past' : list happened) (top : step) (next : string) : Prop :=
  exists steps, Forall (fun st => carried st = true) steps /\ top = List.last steps best /\
    ((rates = map st_rate steps /\ next = "— (carried every step)" /\
      results past' = rev (map st_r steps) ++ results past) \/
     exists st rest, carried st = false /\ rates = map st_rate steps ++ st_rate st :: rest /\
       next = lost st /\ results past' = st_r st :: rev (map st_r steps) ++ results past).

Lemma climb_measures best rates past n top next n' past' :
  exec hd past n (climb h f v best rates) = (Ok (top, next), n', past') ->
  climbed best rates past past' top next.
Proof.
  revert best past n. induction rates as [|rate rates IH]; intros best past n; cbn [climb].
  { intros [= <- <- <- <-]. exists []. split; [done|]. split; [done|]. by left. }
  intros (st & n1 & past1 & Hst & H)%exec_bind_inv. destruct st as [st|e]; [|done].
  apply run_once_measures in Hst as [Er Em]. destruct (carried st) eqn:Ec.
  - apply IH in H as (steps & Hs & Ht & H). exists (st :: steps). split; [by constructor|].
    split; [by rewrite Ht, last_default|].
    destruct H as [(-> & -> & Hm)|(st' & rest & Hc & -> & -> & Hm)]; [left|right].
    + rewrite Hm, Em, <- Er. simpl. by rewrite <- app_assoc.
    + exists st', rest. rewrite Hm, Em, <- Er. simpl. by rewrite <- app_assoc.
  - injection H as <- <- <- <-. exists []. split; [done|]. split; [done|]. right.
    exists st, rates. by rewrite Em, <- Er.
Qed.

(** C17. The figure the comparison calls sustained was carried.  A row of the
    miss table that did not fail is about a first step measured at the first
    rate; if the server did not carry it, the row says so and gives what was
    lost.  If it did, the ladder was climbed from there, each rate measured once
    in the order of the ladder, and the row reports the last step before the
    first one the server did not carry, with what was lost at that one -- or the
    last of all, when every step was carried. *)
Theorem miss_row_climbs past n row n' past' :
  exec hd past n (missRow h f v) = (Ok row, n', past') ->
  exists first past1,
    st_rate first = missFirst /\ st_r first ∈ results past1 /\
    ((carried first = false /\ row = under_row first /\ past' = past1) \/
     (carried first = true /\ exists top next,
        row = sustained_row top first next /\ climbed first missRest past1 past' top next)).
Proof.
  unfold missRow. intros (w & n0 & past0 & _ & H)%exec_bind_inv. destruct w as [w|e]; [|done].
  apply exec_bind_inv in H as (first & n1 & past1 & Hf & H). destruct first as [first|e]; [|done].
  apply run_step_measures in Hf as (Er & runs & _ & Hin & Hm). exists first, past1. split; [done|].
  split. { rewrite Hm. apply elem_of_app. left. by rewrite <- (Permutation_rev (map fst runs)). }
  destruct (carried first) eqn:Ec; cbn [negb] in H; [right|left].
  - split; [done|]. apply exec_bind_inv in H as (b & n2 & past2 & Hb & H).
    destruct b as [[top next]|e]; [|done]. injection H as <- <- <-. exists top, next. split; [done|].
    by eapply climb_measures.
  - by injection H as <- <- <-.
Qed.
End ladder.

(** A server that carries 2,000 and 5,000 queries a second and loses a tenth of
    10,000. *)
Definition ladder_runs (i : nat) : Result * sample :=
  let '(answered, errors, qps) :=
    match i with
    | 0%nat | 1%nat | 2%nat | 3%nat => (20000, 0, 2000)
    | 4%nat => (50000, 10, 5000)
    | _ => (90000, 10000, 9000)
    end in
  (mkResult "udp" 4000 1 answered errors {["noerror" := answered]} (f_of_Z 10) (f_of_Z qps) (f_of_Z 20) (f_of_Z 30) 1 1 0,
   mkSample 0 (answered * 10000) 2 (f_of_Z 0)).

Definition ladder_run : result string string * nat * list happened :=
  exec (a_handler ladder_runs) [] 0 (missRow a_harness default_bench a_server).

Example ladder_row : fst (fst ladder_run) =
  Ok "5,000 qps | 20.0 ms / 30.0 ms | 10 µs | 20.0 ms / 30.0 ms / 10 µs | 10.0% at 10,000 (answered 9,000 qps)".
Proof. vm_compute. reflexivity. Qed.

Lemma miss_row_climbs_witness :
  exists row n' past', ladder_run = (Ok row, n', past') /\
  exists first past1,
    st_rate first = missFirst /\ st_r first ∈ results past1 /\
    ((carried first = false /\ row = under_row first /\ past' = past1) \/
     (carried first = true /\ exists top next,
        row = sustained_row top first next /\ climbed first missRest past1 past' top next)).
Proof.
  destruct ladder_run as [[[row|e] n'] past'] eqn:E; [|vm_compute in E; discriminate].
  exists row, n', past'. split; [done|]. exact (miss_row_climbs _ _ _ _ [] _ _ _ _ E).
Defined.

(** ** Waiting for the list *)

(** A reply that says the blocked name is on the list, and the replies read. *)
Definition nxdomain (got : option bytes) : Prop :=
  exists msg r, got = Some msg /\ ParseReply msg = Ok r /\ rRcode r = 3.

Definition rcode_read (got : option bytes) : list Z :=
  match got with
  | Some msg => match ParseReply msg with Ok r => [rRcode r] | Err _ => [] end
  | None => []
  end.

Definition in_time (deadline : Z) (round : Z * option bytes) : Prop := fst round < deadline.

(** What the wait may end as. *)
Definition wait_outcome (rounds : list (Z * option bytes)) (deadline : Z) (last : string)
  (out : result string unit) : Prop :=
  match out with
  | Ok _ => exists pre now got post, rounds = pre ++ (now, got) :: post /\
      Forall (in_time deadline) (pre ++ [(now, got)]) /\ nxdomain got /\ Forall (fun x => ~ nxdomain (snd x)) pre
  | Err e => exists pre post, rounds = pre ++ post /\ Forall (in_time deadline) pre /\
      Forall (fun x => ~ nxdomain (snd x)) pre /\ match post with [] => True | x :: _ => ~ in_time deadline x end /\
      e = "blocked.bench.test never answered NXDOMAIN (last: " +:+
          List.last (map (fun c => "rcode " +:+ itoa c) (flat_map (fun x => rcode_read (snd x)) pre)) last +:+ ")"
  end.

(** A round in time that did not end it. *)
Lemma wait_outcome_skip now got rounds deadline last last' out :
  now < deadline -> ~ nxdomain got ->
  (forall l, List.last (map (fun c => "rcode " +:+ itoa c) (rcode_read got ++ l)) last =
             List.last (map (fun c => "rcode " +:+ itoa c) l) last') ->
  wait_outcome rounds deadline last' out -> wait_outcome ((now, got) :: rounds) deadline last out.
Proof.
  intros Hn Hg Hl. destruct out as [u|e].
  - intros (pre & now' & got' & post & -> & Ht & Hx & Hp). exists ((now, got) :: pre), now', got', post.
    split_and!; [done| |done|by constructor]. by constructor.
  - intros (pre & post & -> & Ht & Hp & Hpost & ->). exists ((now, got) :: pre), post.
    split_and!; [done|by constructor|by constructor|done|]. simpl. by rewrite Hl.
Qed.

(** A server is taken to have read its list when, and only when, a reply
    read before the deadline -- and in no round after it passed -- answers the
    blocked name NXDOMAIN; otherwise the wait ends with an error that names the
    last code it was answered by. *)
Theorem waitBlocked_loaded rounds deadline last :
  wait_outcome rounds deadline last (waitBlocked rounds deadline last).
Proof.
  revert last. induction rounds as [|[now got] rounds IH]; intros last; cbn [waitBlocked]; [by exists [], []|].
  destruct (Z.ltb_spec now deadline) as [Hn|Hn].
  2: { exists [], ((now, got) :: rounds). unfold in_time. simpl. split_and!; try done. lia. }
  destruct got as [msg|]; [|by eapply wait_outcome_skip; [done|intros (? & ? & ? & _)| |apply IH]].
  destruct (ParseReply msg) as [r|e] eqn:Ep.
  - destruct (Z.eqb_spec (rRcode r) 3) as [Hr|Hr].
    + exists [], now, (Some msg), rounds. split_and!; [done|by repeat constructor| |done]. by exists msg, r.
    + eapply wait_outcome_skip; [done| | |apply IH]; [intros (m & r' & [= <-] & Ep' & Hr'); congruence|].
      intros l. unfold rcode_read. rewrite Ep. apply last_default.
  - eapply wait_outcome_skip; [done| | |apply IH]; [intros (m & r' & [= <-] & Ep' & Hr'); congruence|].
    intros l. unfold rcode_read. by rewrite Ep.
Qed.
