(* ===== verification/BenchMain.v ===== *)
(** * [bench/cmd/bench/main.go, scenarios.go]: a run of the benchmark

    [runAll] chooses the sections, runs them in order and writes the report.  The
    descriptions of the machine and of the servers in the report are functions of
    the files and the output they are read from.  What happens around a run is
    [BenchCommand].

    [runAll_servers] is about every run on every machine: one server at a time,
    asked only while it runs, and none left behind.  [runAll_report] is what is
    in a report, and what ends a run without one. *)

From Stdlib Require Import SpecFloat.
From S2P Require Import Prelude GoStrings GoFloat Hist ProcStat LoadGen BenchRun BenchServers BenchSections BenchCompare.

(** ** What a run is about *)

(** [strconv.ParseFloat] of a plain decimal, the form the kernel writes: the
    digits as one integer over a power of ten, correctly rounded. *)
Definition decimal (s : string) : option float64 :=
  let '(whole, frac, _) := cut "." s in
  match parse_udigits (whole +:+ frac) with
  | Some (Zpos n) =>
      Some (SFdiv fprec femax (S754_finite false n 0)
              (S754_finite false (Z.to_pos (10 ^ Z.of_nat (String.length frac))) 0))
  | Some _ => Some (f_of_Z 0)
  | None => None
  end.

(** One line of [/proc/cpuinfo] in [avgMHz]. *)
Definition mhz_line (acc : float64 * Z) (line : string) : float64 * Z :=
  if negb (has_prefix "cpu MHz" line) then acc
  else
    let '(_, v, found) := cut ":" line in
    if negb found then acc
    else
      match decimal (trim_space v) with
      | None => acc
      | Some f => (fadd (fst acc) f, snd acc + 1)
      end.

Definition avgMHz (cpuinfo : option string) : float64 :=
  match cpuinfo with
  | None => f_of_Z 0
  | Some data =>
      let '(sum, n) := fold_left mhz_line (GoStrings.split nl data) (f_of_Z 0, 0) in
      if n =? 0 then f_of_Z 0 else fdiv sum (f_of_Z n)
  end.

(** The first line that names the model. *)
Fixpoint cpu_model (lines : list string) : string :=
  match lines with
  | [] => "unknown CPU"
  | line :: rest =>
      if has_prefix "model name" line then
        let '(_, v, found) := cut ":" (trim_prefix "model name" line) in
        if found then trim_space v else cpu_model rest
      else cpu_model rest
  end.

Definition memory_of (line : string) : string :=
  match fields line with
  | _ :: kb :: _ =>
      match decimal kb with
      | Some kb => ", " +:+ fmt_float 0 (fdiv kb (f_of_Z (2 ^ 20))) +:+ " GB RAM"
      | None => ""
      end
  | _ => ""
  end.

Fixpoint mem_total (lines : list string) : string :=
  match lines with
  | [] => ""
  | line :: rest => if has_prefix "MemTotal:" line then memory_of line else mem_total rest
  end.

(** [describeMachine] of the three files of [/proc], what [elodin --version]
    prints and the processors. *)
Definition describeMachine (cpuinfo meminfo osrelease version : option string) (cpus : Z) : string :=
  let model := match cpuinfo with Some d => cpu_model (GoStrings.split nl d) | None => "unknown CPU" end in
  let mem := match meminfo with Some d => mem_total (GoStrings.split nl d) | None => "" end in
  let kernel := match osrelease with Some d => ", Linux " +:+ trim_space d | None => "" end in
  let version := match version with Some v => trim_space v | None => "unknown" end in
  "Measured on " +:+ model +:+ " (" +:+ itoa cpus +:+ " logical cores" +:+ mem +:+ kernel +:+ "), " +:+ version +:+ ".".

(** The digits a string begins with, and the rest. *)
Fixpoint digits_of (s : string) : string * string :=
  match s with
  | EmptyString => ("", "")
  | String c rest =>
      match digit_val c with
      | Some _ => let '(d, r) := digits_of rest in (String c d, r)
      | None => ("", s)
      end
  end.

(** A dot and digits after it. *)
Definition dot_digits (s : string) : option (string * string) :=
  match s with
  | String "." rest => let '(d, r) := digits_of rest in if String.eqb d "" then None else Some ("." +:+ d, r)
  | _ => None
  end.

(** The version [v?\d+\.\d+(\.\d+)?] matches at the start of a string, its [v]
    trimmed. *)
Definition version_at (s : string) : option string :=
  let s := trim_prefix "v" s in
  let '(major, rest) := digits_of s in
  if String.eqb major "" then None
  else
    match dot_digits rest with
    | None => None
    | Some (minor, rest) =>
        Some (major +:+ minor +:+ match dot_digits rest with Some (patch, _) => patch | None => "" end)
    end.

Fixpoint find_version (s : string) : string :=
  match version_at s with
  | Some v => v
  | None => match s with EmptyString => "" | String _ rest => find_version rest end
  end.

Definition competitor_names : gmap string string :=
  list_to_map
    [("adguardhome", "AdGuard Home"); ("blocky", "Blocky"); ("coredns", "CoreDNS"); ("dnsmasq", "dnsmasq");
     ("pdns", "PowerDNS Recursor"); ("dnsdist", "dnsdist"); ("bind", "BIND"); ("knot", "Knot Resolver");
     ("pihole", "Pi-hole FTL")].

(** [competitorLabel], of what the server prints when asked its version. *)
Definition competitorLabel (kind out : string) : string :=
  trim_space (default "" (competitor_names !! kind) +:+ " " +:+ find_version out).

(** [serverLabel]: [out] is what the version command printed, if it ran. *)
Definition serverLabel (kind : string) (out : option string) : string :=
  match competitors !! kind with
  | Some _ => competitorLabel kind (default "" out)
  | None =>
      if String.eqb kind "unbound" then
        match out with
        | Some o => let '(first, _, _) := cut nl o in "Unbound " +:+ trim_space (trim_prefix "Version" first)
        | None => "Unbound"
        end
      else match out with Some o => trim_space o | None => "elodin" end
  end.

Definition unit_file : string := "packaging/elodin.service".

Definition environmentNote (unitEnv : list string) : string :=
  "elodin was started with " +:+ unit_file +:+ "'s environment (" +:+ join " " unitEnv +:+ ").".

Example labels_ex :
  (serverLabel "bind" (Some "BIND 9.20.4-Ubuntu (Stable Release)"), serverLabel "adguardhome" (Some "AdGuard Home, version v0.107.52"),
   serverLabel "unbound" (Some ("Version 1.24.2" +:+ nls +:+ "Configure line:")), serverLabel "elodin" (Some ("elodin 1.2.0" +:+ nls)),
   serverLabel "knot" None) =
  ("BIND 9.20.4", "AdGuard Home 0.107.52", "Unbound 1.24.2", "elodin 1.2.0", "Knot Resolver").
Proof. vm_compute. reflexivity. Qed.

Example avgMHz_ex :
  fmt_float 1 (avgMHz (Some ("cpu MHz		: 2400.500" +:+ nls +:+ "cache size : 1" +:+ nls +:+ "cpu MHz		: 3600.000" +:+ nls))) =
  "3000.2".
Proof. vm_compute. reflexivity. Qed.

Example describeMachine_ex :
  describeMachine (Some ("vendor_id : x" +:+ nls +:+ "model name	: Intel(R) Core(TM) i7" +:+ nls))
    (Some ("MemTotal:       16242952 kB" +:+ nls)) (Some ("6.8.0" +:+ nls)) (Some "elodin 1.2.0") 8 =
  "Measured on Intel(R) Core(TM) i7 (8 logical cores, 15 GB RAM, Linux 6.8.0), elodin 1.2.0.".
Proof. vm_compute. reflexivity. Qed.

(** ** [runAll] *)

Section run.
Context (h : harness) (f : bench_flags).

Definition steps : list (string * prog (result string table_section)) :=
  [("workloads", workloads h f); ("transports", transports h f); ("h1h2", h1VersusH2 h f);
   ("cpu", cpuPerQuery h f); ("handshake", handshakes h f); ("memory", memory h f); ("shedding", shedding h f);
   ("loops", loops h f); ("misses", misses h f); ("connections", connections h f); ("inflight", inflight h);
   ("latency", latency h f); ("logging", loggingCost h f); ("compare", compare h f)].

Definition want (filter name : string) : bool := String.eqb filter "" || contains filter name.

(** The loop over the steps. *)
Definition run_section (filter : string) (sections : list table_section)
  (st : string * prog (result string table_section)) : prog (result string (list table_section)) :=
  if negb (want filter (fst st)) then Ret (Ok sections)
  else
    let! _ := act AvgMHz in
    let!? sec := prefix_err (fst st) (snd st) in
    Ret (Ok (sections ++ [sec])).

Definition section_text (s : table_section) : string :=
  "## " +:+ fst s +:+ nls +:+ nls +:+ snd s +:+ nls.

Definition report_text (machine : string) (labels : list string) (mhz : float64) (sections : list table_section)
  : string :=
  "# elodin benchmark" +:+ nls +:+ nls +:+
  machine +:+ " " +:+ environmentNote (h_unitEnv h) +:+ nls +:+ nls +:+
  "Mock upstream held at " +:+ dur_string (f_upstreamRTT f) +:+ ". DNSSEC off. Each run " +:+
  dur_string (f_duration f) +:+ " measured after " +:+ dur_string (f_warmup f) +:+ " of warmup, median of " +:+
  itoa (f_repeat f) +:+ ", " +:+ dur_string (f_cooldown f) +:+ " idle between runs." +:+ nls +:+ nls +:+
  (if decide (h_kinds h = []) then ""
   else "Sections that compare servers ran against: " +:+ join ", " labels +:+ "." +:+ nls +:+ nls) +:+
  concat_all (map (fun sk => sk +:+ nls +:+ nls) (h_skipped h)) +:+
  "Cores were averaging " +:+ fmt_float 0 mhz +:+ " MHz when the run finished. This is a 15 W laptop part " +:+
  "that cannot hold its boost clock through the whole matrix, so treat the absolute figures as " +:+
  "the shape of the thing rather than a specification." +:+ nls +:+ nls +:+
  concat_all (map section_text sections).

(** A loop of effects that cannot fail. *)
Fixpoint label_all (kinds : list string) : prog (list string) :=
  match kinds with
  | [] => Ret []
  | k :: kinds => let! l := act (ServerLabel k) in let! ls := label_all kinds in Ret (l :: ls)
  end.

Definition write_report (sections : list table_section) : prog string :=
  let! machine := act DescribeMachine in
  let! labels := label_all (h_kinds h) in
  let! mhz := act AvgMHz in
  Ret (report_text machine labels mhz sections).

(** The sections asked for, in order, or the first error. *)
Definition run_sections (filter : string) : prog (result string (list table_section)) :=
  let! room := if want filter "logging" then logDiskRoom h f else Ret None in
  match room with
  | Some e => Ret (Err ("logging: " +:+ e))
  | None => for_each steps (run_section filter) []
  end.

Definition runAll (filter : string) : prog (result string string) :=
  let!? sections := run_sections filter in
  let! report := write_report sections in
  Ret (Ok report).
End run.

(** ** What a run does to the servers *)

Lemma label_all_quiet kinds : quiet (label_all kinds).
Proof. induction kinds as [|k kinds IH]; [apply quiet_ret|]. cbn [label_all]. bench. Qed.

Lemma write_report_quiet h f sections : quiet (write_report h f sections).
Proof. unfold write_report. bench. apply label_all_quiet. Qed.

Lemma steps_quiet h f : Forall (fun st => quiet (snd st)) (steps h f).
Proof.
  unfold steps. repeat (apply Forall_cons_2; [cbn [snd];
    auto using workloads_quiet, transports_quiet, h1VersusH2_quiet, cpuPerQuery_quiet, handshakes_quiet,
      memory_quiet, shedding_quiet, loops_quiet, misses_quiet, connections_quiet, inflight_quiet,
      latency_quiet, loggingCost_quiet, compare_quiet|]).
  apply Forall_nil_2.
Qed.

Lemma run_sections_quiet h f filter : quiet (run_sections h f filter).
Proof.
  unfold run_sections. apply quiet_bind; [destruct (want _ _); [apply logDiskRoom_quiet|apply quiet_ret]|].
  intros [e|]; [apply quiet_ret|]. apply for_each_Forall. eapply Forall_impl; [apply steps_quiet|].
  intros st Hq sections. unfold run_section. bench.
Qed.

Lemma runAll_quiet h f filter : quiet (runAll h f filter).
Proof.
  unfold runAll. apply quiet_bind; [apply run_sections_quiet|]. intros [sections|e]; [|apply quiet_ret].
  apply quiet_bind; [apply write_report_quiet|]. intros. apply quiet_ret.
Qed.

(** What happened when a benchmark ran on a machine, latest first. *)
Definition trace_of (hd : handler) (h : harness) (f : bench_flags) (filter : string) : list happened :=
  snd (exec hd [] 0%nat (runAll h f filter)).

Lemma runAll_live hd h f filter : live_of (trace_of hd h f filter) = Some None.
Proof.
  unfold trace_of. pose proof (wp_sound (runAll h f filter) hd [] 0%nat None (fun _ _ l => l = None) eq_refl
    (runAll_quiet h f filter 0%nat)) as H.
  destruct (exec hd [] 0%nat (runAll h f filter)) as [[r n] past]. by destruct H as (l & Hl & ->).
Qed.

(** C10. Whatever the machine answers -- servers that do not come up, runs that
    fail, disks that fill -- the benchmark runs one server at a time: each is
    started when no other runs, and measured, waited for and stopped only while
    it runs; and when the run is over, with a report or an error, none is
    running. *)
Theorem runAll_servers hd h f filter :
  in_order (trace_of hd h f filter) /\ running (trace_of hd h f filter) = None.
Proof. exact (live_in_order _ _ (runAll_live hd h f filter)). Qed.

(** ** What a run reports *)

(** The section [sec] is what the program of [st] gave on this machine. *)
Definition gave (hd : handler) (st : string * prog (result string table_section)) (sec : table_section) : Prop :=
  exists past n n' past', exec hd past n (snd st) = (Ok sec, n', past').

Lemma run_section_ok hd filter sections st past n sections' n' past' :
  exec hd past n (run_section filter sections st) = (Ok sections', n', past') ->
  if want filter (fst st) then exists sec, sections' = sections ++ [sec] /\ gave hd st sec
  else sections' = sections.
Proof.
  unfold run_section. destruct (want filter (fst st)); cbn [negb]; [|by intros [= <- _ _]].
  intros (x & n1 & past1 & _ & H)%exec_bind_inv. apply exec_bind_inv in H as (r & n2 & past2 & Hr & H).
  unfold prefix_err in Hr. apply exec_bind_inv in Hr as (r' & n3 & past3 & Hr' & Hr).
  destruct r' as [sec|e]; injection Hr as <- <- <-; [|done]. injection H as <- _ _. exists sec. split; [done|].
  by eexists _, _, _, _.
Qed.

Lemma run_section_err hd filter sections st past n e n' past' :
  exec hd past n (run_section filter sections st) = (Err e, n', past') ->
  want filter (fst st) = true /\ exists e', e = fst st +:+ ": " +:+ e'.
Proof.
  unfold run_section. destruct (want filter (fst st)); cbn [negb]; [|done].
  intros (x & n1 & past1 & _ & H)%exec_bind_inv. apply exec_bind_inv in H as (r & n2 & past2 & Hr & H).
  unfold prefix_err in Hr. apply exec_bind_inv in Hr as (r' & n3 & past3 & Hr' & Hr).
  destruct r' as [sec|e']; injection Hr as <- <- <-; [done|]. injection H as <- _ _. eauto.
Qed.

Lemma run_sections_gave hd filter l sections past n r n' past' :
  exec hd past n (for_each l (run_section filter) sections) = (r, n', past') ->
  match r with
  | Ok sections' => exists new, sections' = sections ++ new /\
      Forall2 (gave hd) (List.filter (fun st => want filter (fst st)) l) new
  | Err e => exists st e', st ∈ l /\ want filter (fst st) = true /\ e = fst st +:+ ": " +:+ e'
  end.
Proof.
  revert sections past n. induction l as [|st l IH]; intros sections past n; cbn [for_each].
  { intros [= <- _ _]. exists []. by rewrite app_nil_r. }
  intros (x & n1 & past1 & Hx & H)%exec_bind_inv. destruct x as [sections1|e].
  - apply run_section_ok in Hx. apply IH in H. destruct r as [sections'|e].
    + destruct H as (new & -> & Hn). cbn [List.filter]. destruct (want filter (fst st)).
      * destruct Hx as (sec & -> & Hg). exists (sec :: new). rewrite <- app_assoc. split; [done|by constructor].
      * subst sections1. by exists new.
    + destruct H as (st' & e' & ? & ?). exists st', e'. set_solver.
  - injection H as <- _ _. apply run_section_err in Hx as (Hw & e' & ->). exists st, e'. set_solver.
Qed.

(** C28. A run asked for some of the sections reports exactly those, in the order
    of the matrix, each as its own program gave it; and a run that reports
    nothing says in which section asked for it failed. *)
Theorem runAll_report hd h f filter :
  match fst (fst (exec hd [] 0%nat (runAll h f filter))) with
  | Ok report => exists machine labels mhz sections,
      report = report_text h f machine labels mhz sections /\
      Forall2 (gave hd) (List.filter (fun st => want filter (fst st)) (steps h f)) sections
  | Err e => exists st e', st ∈ steps h f /\ want filter (fst st) = true /\ e = fst st +:+ ": " +:+ e'
  end.
Proof.
  unfold runAll. destruct (exec hd [] 0%nat _) as [[r n'] past'] eqn:E. cbn [fst].
  apply exec_bind_inv in E as (sections & n1 & past1 & Hs & E).
  unfold run_sections in Hs. apply exec_bind_inv in Hs as (room & n2 & past2 & Hr & Hs).
  destruct room as [e|].
  - injection Hs as <- _ _. injection E as <- _ _. destruct (want filter "logging") eqn:Ew.
    + exists ("logging", loggingCost h f), e. split_and!; [|done|done]. by apply (list_elem_of_lookup_2 _ 12%nat).
    + by injection Hr.
  - apply run_sections_gave in Hs. destruct sections as [sections|e]; [|by injection E as <- _ _].
    destruct Hs as (new & -> & Hn). apply exec_bind_inv in E as (report & n3 & past3 & Hrep & E).
    injection E as <- _ _. unfold write_report in Hrep.
    apply exec_bind_inv in Hrep as (machine & n4 & past4 & _ & Hrep).
    apply exec_bind_inv in Hrep as (labels & n5 & past5 & _ & Hrep).
    apply exec_bind_inv in Hrep as (mhz & n6 & past6 & _ & Hrep). injection Hrep as <- _ _.
    by exists machine, labels, mhz, new.
Qed.
