(* ===== verification/BenchCommand.v ===== *)
(** * [bench/cmd/bench/main.go]: the command, from its arguments to its children

    [bench_args] is what the flags come to, [prepare] what [main] does before the
    run -- the repository, the environment of the shipped unit, the servers, the
    builds, the certificates and the mock -- and [bench_main] the whole command on
    a machine ([main_machine]) that answers for everything outside.

    The run itself is [BenchMain]'s [runAll] on the harness [prepare] leaves; this
    file is where the driver's programs meet the commands they start:
    [bench_children] is that no run, whatever its arguments, starts a generator or
    a mock that would not take its command line. *)

From S2P Require Import Prelude GoStrings GoFloat GoFlag LoadGen BenchRun LoadGenProc BenchServers.
From S2P Require Import BenchSections BenchCompare Survey BenchMain.

(** ** The flags *)

(** The flags of the command; the figures the sections read are [bench_flags]. *)
Record command_flags : Type := mkCommandFlags {
  bc_binary : string; bc_unbound : string; bc_servers : string; bc_competitors : string; bc_only : string;
  bc_workdir : string; bc_out : string; bc_survey : string; bc_mockCPUs : string; bc_rows : bench_flags
}.

Definition bench_flag_set : flag_set :=
  [("binary", FString); ("unbound", FString); ("servers", FString); ("competitors", FString); ("held", FInt);
   ("only", FString); ("duration", FDuration); ("warmup", FDuration); ("upstream-rtt", FDuration);
   ("workdir", FString); ("out", FString); ("repeat", FInt); ("survey", FString); ("mock-cpus", FString);
   ("cooldown", FDuration)].

Definition bench_args (args : list string) : result flag_error command_flags :=
  let? (set, _) := parse_args bench_flag_set args in
  Ok (mkCommandFlags (str_flag set "binary" "") (str_flag set "unbound" "unbound")
        (str_flag set "servers" "elodin,unbound") (str_flag set "competitors" "") (str_flag set "only" "")
        (str_flag set "workdir" "") (str_flag set "out" "") (str_flag set "survey" "") (str_flag set "mock-cpus" "")
        {| f_held := num_flag set "held" 20000; f_duration := num_flag set "duration" (10 * second);
           f_warmup := num_flag set "warmup" (2 * second);
           f_upstreamRTT := num_flag set "upstream-rtt" (20 * millisecond);
           f_repeat := num_flag set "repeat" 3; f_cooldown := num_flag set "cooldown" (15 * second) |}).

Example bench_args_ex :
  bc_rows <$> match bench_args [] with Ok o => Some o | Err _ => None end = Some default_bench /\
  (f_held ∘ bc_rows) <$> match bench_args ["-held=5_000"; "-only"; "compare"] with Ok o => Some o | Err _ => None end =
    Some 5000 /\
  bench_args ["-duration"; "10"] = Err (InvalidValue "10" "duration").
Proof. vm_compute. done. Qed.

(** ** Around the run *)

Definition path_of (up : list string) : string := "/" +:+ join "/" (rev up).

(** [repoRoot]: the working directory as its components, the innermost first.
    The root of the file system itself is not tried. *)
Fixpoint root_above (is_there : string -> bool) (up : list string) : option string :=
  match up with
  | [] => None
  | _ :: above =>
      if is_there (path_of up +:+ "/mise.toml") then Some (path_of up) else root_above is_there above
  end.

Definition repoRoot (is_there : string -> bool) (up : list string) : result string string :=
  match root_above is_there up with
  | Some d => Ok d
  | None => Err ("no mise.toml above " +:+ path_of up)
  end.

(** What [setup] runs. *)
Inductive command : Type :=
  | Build (bin pkg : string)
  | Openssl (args : list string)
  | Mockdns (argv : list string).

Definition cert_specs : list (string * string) :=
  [("ecdsa", "-newkey ec -pkeyopt ec_paramgen_curve:prime256v1"); ("rsa", "-newkey rsa:2048")].

Definition openssl_args (dir : string) (spec : string * string) : list string :=
  fields ("req -x509 " +:+ snd spec +:+ " -nodes") ++
  ["-keyout"; path_join [dir; fst spec +:+ "-key.pem"]; "-out"; path_join [dir; fst spec +:+ "-cert.pem"];
   "-days"; "30"; "-subj"; "/CN=elodin.bench"; "-addext"; "subjectAltName=DNS:localhost,IP:127.0.0.1"].

(** [makeCerts], where [run] is how a command ends and [is_there] a file that
    exists: the commands run and the error. *)
Fixpoint makeCerts (dir : string) (is_there : string -> bool) (run : command -> option string)
  (specs : list (string * string)) : list command * option string :=
  match specs with
  | [] => ([], None)
  | spec :: specs =>
      if is_there (path_join [dir; fst spec +:+ "-cert.pem"]) then makeCerts dir is_there run specs
      else
        let c := Openssl (openssl_args dir spec) in
        match run c with
        | Some e => ([c], Some ("generating the " +:+ fst spec +:+ " certificate: " +:+ e))
        | None => let '(cs, e) := makeCerts dir is_there run specs in (c :: cs, e)
        end
  end.

Definition mock_argv (mockdns addr : string) (delay : duration) (mockCPUs : string) : list string :=
  let argv := [mockdns; "-addr"; addr; "-delay"; dur_string delay] in
  if String.eqb mockCPUs "" then argv else "taskset" :: "-c" :: mockCPUs :: argv.

(** [startMock]: the command, and the address or the error. *)
Definition startMock (mockdns mockCPUs : string) (port : result string Z) (run : command -> option string)
  (delay : duration) : list command * result string string :=
  match port with
  | Err e => ([], Err e)
  | Ok port =>
      let addr := "127.0.0.1:" +:+ itoa port in
      let c := Mockdns (mock_argv mockdns addr delay mockCPUs) in
      ([c], match run c with Some e => Err ("starting mockdns: " +:+ e) | None => Ok addr end)
  end.

(** [setup]: the address of the mock every row shares, and the commands that led
    to it. *)
Definition setup (f : bench_flags) (dir mockCPUs : string) (is_there : string -> bool)
  (run : command -> option string) (port : result string Z) : list command * result string string :=
  let build cmd := Build (path_join [dir; cmd]) ("./cmd/" +:+ cmd) in
  match run (build "loadgen") with
  | Some e => ([build "loadgen"], Err ("building loadgen: " +:+ e))
  | None =>
      match run (build "mockdns") with
      | Some e => ([build "loadgen"; build "mockdns"], Err ("building mockdns: " +:+ e))
      | None =>
          let '(certs, e) := makeCerts dir is_there run cert_specs in
          let built := [build "loadgen"; build "mockdns"] ++ certs in
          match e with
          | Some e => (built, Err e)
          | None =>
              let '(mock, addr) := startMock (path_join [dir; "mockdns"]) mockCPUs port run (f_upstreamRTT f) in
              (built ++ mock, addr)
          end
      end
  end.

(** ** [main] *)

(** How [main] goes: what it prints and logs, the commands it runs, the mocks it
    stops, how it ends. *)
Inductive main_step : Type :=
  | Printed (s : string) | Logged (s : string) | Ran (c : command) | Teardown | Fatal_exit (s : string).

(** What the survey met: the list of domains, the start of its server, what each
    side answered and the order the goroutines ended in. *)
Record survey_answers : Type := mkSurveyAnswers {
  sv_domains : option string; sv_started : bool; sv_error : string; sv_machine : string;
  sv_here : string -> result ask_error (Z * bool); sv_there : string -> result ask_error (Z * bool);
  sv_order : list nat
}.

(** Everything [main] asks: the working directory (its components, the innermost
    first), what exists and what is a file, the unit, the directories it makes,
    PATH, the commands it runs, a free port, the machine of the run, the survey,
    and what became of writing the report. *)
Record main_machine : Type := mkMain {
  mm_wd : result string (list string); mm_exists : string -> bool; mm_is_file : string -> bool;
  mm_unit : string -> result string (list string); mm_tempdir : result string string;
  mm_mkdir : string -> option string; mm_on_path : string -> option string; mm_run : command -> option string;
  mm_port : result string Z; mm_bench : handler; mm_survey : survey_answers; mm_write : string -> string -> option string
}.

Definition fatal (e : string) : list main_step := [Fatal_exit ("bench: " +:+ e)].

(** [main] up to the run: its steps, and the harness unless it ended.  The limit on
    open files it raises, for its children to inherit, changes none of them. *)
Definition prepare (o : command_flags) (m : main_machine) : list main_step * option harness :=
  match (let? up := mm_wd m in repoRoot (mm_exists m) up) with
  | Err e => (fatal e, None)
  | Ok root =>
      let binary := if String.eqb (bc_binary o) "" then path_join [root; "bin"; "elodin"] else bc_binary o in
      if negb (mm_exists m binary) then (fatal (binary +:+ " is not there — run `mise run release` first"), None)
      else
        match mm_unit m (path_join [root; "packaging/elodin.service"]) with
        | Err e => (fatal e, None)
        | Ok unitEnv =>
            match (if String.eqb (bc_workdir o) "" then mm_tempdir m else Ok (bc_workdir o)) with
            | Err e => (fatal e, None)
            | Ok dir =>
                match mm_mkdir m dir with
                | Some e => (fatal e, None)
                | None =>
                    let logged := Logged ("bench: work dir " +:+ dir) in
                    let find bin := findCompetitor (bc_competitors o) bin (mm_is_file m) (mm_on_path m) in
                    match addServers (bc_only o) (bc_unbound o) (mm_on_path m (bc_unbound o)) find (bc_servers o) with
                    | Fatal e => ([logged; Fatal_exit e], None)
                    | Added kinds skipped _ =>
                        let '(commands, addr) :=
                          setup (bc_rows o) dir (bc_mockCPUs o) (mm_exists m) (mm_run m) (mm_port m) in
                        match addr with
                        | Err e => (logged :: map Ran commands ++ fatal e, None)
                        | Ok _ =>
                            (logged :: map Ran commands,
                             Some (mkHarness kinds skipped (path_join [dir; "loadgen"]) unitEnv dir))
                        end
                    end
                end
            end
        end
  end.

(** The report: the survey's, or the run's. *)
Definition report_of (o : command_flags) (m : main_machine) (h : harness) : result string string :=
  if negb (String.eqb (bc_survey o) "") then
    let sv := mm_survey m in
    match dnssecSurvey (sv_domains sv) (sv_started sv) (sv_machine sv) (environmentNote (h_unitEnv h)) (bc_survey o)
            (sv_here sv) (sv_there sv) (sv_order sv) with
    | Some report => Ok report
    | None => Err (sv_error sv)
    end
  else fst (fst (exec (mm_bench m) [] 0%nat (runAll h (bc_rows o) (bc_only o)))).

(** From the report on.  [log.Fatalf] runs no deferred call. *)
Definition main_end (report : result string string) (out : string) (write : string -> string -> option string)
  : list main_step :=
  match report with
  | Err e => Teardown :: fatal e
  | Ok report =>
      Printed report ::
      (if String.eqb out "" then [Teardown]
       else match write out report with
            | Some e => fatal e
            | None => [Logged ("bench: wrote " +:+ out); Teardown]
            end)
  end.

Definition bench_main (o : command_flags) (m : main_machine) : list main_step :=
  match prepare o m with
  | (steps, None) => steps
  | (steps, Some h) => steps ++ main_end (report_of o m h) (bc_out o) (mm_write m)
  end.

(** ** The steps before the run *)

Lemma path_join_taskset dir name : (7 < String.length name)%nat \/ name = "loadgen" \/ name = "mockdns" ->
  path_join [dir; name] <> "taskset".
Proof.
  intros Hn E. apply (f_equal String.length) in E. cbn [path_join join] in E. rewrite !str_length_app in E.
  simpl in E. destruct Hn as [Hn|[-> | ->]]; simpl in *; lia.
Qed.

(** A certificate that was missing is made, by a command that worked. *)
Lemma makeCerts_done dir is_there run specs cmds :
  makeCerts dir is_there run specs = (cmds, None) ->
  Forall (fun c => run c = None) cmds /\
  Forall (fun spec => is_there (path_join [dir; fst spec +:+ "-cert.pem"]) = true \/
                      Openssl (openssl_args dir spec) ∈ cmds) specs.
Proof.
  revert cmds. induction specs as [|spec specs IH]; intros cmds; cbn [makeCerts]; [by intros [= <-]|].
  destruct (is_there _) eqn:Ei.
  - intros H. destruct (IH _ H) as [H1 H2]. split; [done|]. constructor; [by left|done].
  - destruct (run _) eqn:Er; [done|]. destruct (makeCerts dir is_there run specs) as [cs e] eqn:E.
    intros [= <- ->]. destruct (IH _ eq_refl) as [H1 H2]. split; [by constructor|].
    constructor; [right; by left|]. eapply Forall_impl; [exact H2|]. intros sp [H|H]; [by left|right; by right].
Qed.

(** The mock reads its flags back. *)
Lemma mock_args_parse mockdns addr delay cpus :
  mockdns <> "taskset" -> int64_range delay ->
  mockdns_args (argv_args (mock_argv mockdns addr delay cpus)) = Ok (addr, delay, 300).
Proof.
  intros Hn Hd. assert (argv_args (mock_argv mockdns addr delay cpus) = ["-addr"; addr; "-delay"; dur_string delay]) as ->.
  { unfold mock_argv, argv_args. destruct (String.eqb cpus ""); [|done]. by destruct (String.eqb_spec mockdns "taskset"). }
  unfold mockdns_args. repeat one_flag. reflexivity.
Qed.

(** What a set-up that worked leaves: the generator and the mock built, each
    certificate there before or made, every command having worked, and, started
    last, a mock that reads its command line as the address every row forwards
    to, the delay of [-upstream-rtt] and a TTL of 300. *)
Theorem setup_ready f dir mockCPUs is_there run port cmds addr :
  int64_range (f_upstreamRTT f) -> setup f dir mockCPUs is_there run port = (cmds, Ok addr) ->
  Forall (fun c => run c = None) cmds /\
  Forall (fun cmd => Build (path_join [dir; cmd]) ("./cmd/" +:+ cmd) ∈ cmds) ["loadgen"; "mockdns"] /\
  Forall (fun spec => is_there (path_join [dir; fst spec +:+ "-cert.pem"]) = true \/
                      Openssl (openssl_args dir spec) ∈ cmds) cert_specs /\
  exists argv, last cmds = Some (Mockdns argv) /\ mockdns_args (argv_args argv) = Ok (addr, f_upstreamRTT f, 300).
Proof.
  intros Hr. unfold setup. cbv zeta. destruct (run _) eqn:E1; [done|]. destruct (run _) eqn:E2 in |- *; [done|].
  destruct (makeCerts dir is_there run cert_specs) as [certs [e|]] eqn:E3; [done|].
  apply makeCerts_done in E3 as [Hc Hs]. unfold startMock. destruct port as [port|e]; [|done].
  destruct (run (Mockdns _)) eqn:E4; [done|]. intros [= <- <-]. split_and!.
  - repeat constructor; [done..|]. apply Forall_app. split; [done|by repeat constructor].
  - repeat constructor; set_solver.
  - eapply Forall_impl; [exact Hs|]. intros spec [H|H]; [by left|right; set_solver].
  - eexists. split; [apply (last_snoc _ (_ :: _ :: certs))|]. apply mock_args_parse; [apply path_join_taskset; auto|done].
Qed.

Lemma prepare_steps o m : Teardown ∉ fst (prepare o m) /\ (forall s, Printed s ∉ fst (prepare o m)).
Proof.
  enough (Forall (fun st => match st with Teardown | Printed _ => False | _ => True end) (fst (prepare o m))) as H.
  { rewrite Forall_forall in H. split; [intros He|intros s He]; exact (H _ He). }
  unfold prepare, fatal. repeat case_match; simplify_eq/=; repeat constructor; try apply Forall_app; try split;
    try (apply Forall_map, Forall_true; done); repeat constructor.
Qed.

(** C37. The mocks a benchmark started are stopped however its run ends -- with a
    report or with an error, of the sections or of the survey -- but for one way:
    a run that made its report and could not write it where [-out] said ends
    leaving every mock running. *)
Theorem bench_main_teardown o m steps h :
  prepare o m = (steps, Some h) ->
  Teardown ∈ bench_main o m <->
  ~ exists report e, report_of o m h = Ok report /\ bc_out o <> "" /\ mm_write m (bc_out o) report = Some e.
Proof.
  intros Hp. pose proof (proj1 (prepare_steps o m)) as Hs. rewrite Hp in Hs. cbn [fst] in Hs.
  unfold bench_main. rewrite Hp, elem_of_app. unfold main_end, fatal. destruct (report_of o m h) as [report|e].
  2:{ split; [by intros _ (? & ? & ? & _)|]. right. by left. }
  destruct (String.eqb_spec (bc_out o) "") as [Ho|Ho].
  { split; [intros _ (? & ? & _ & H & _); done|]. right. right. by left. }
  destruct (mm_write m (bc_out o) report) as [e|] eqn:Ew.
  - split; [|intros H; exfalso; apply H; by exists report, e]. intros [H|H]; [done|]. by set_solver.
  - split; [intros _ (r & e & [= <-] & _ & H); congruence|]. right. right. right. by left.
Qed.

(** ** What the children are started with *)




Section children.
Context (h : harness) (f : bench_flags).


Context (Hl : h_loadgen h <> "taskset").











End children.





Section sections.
Context (h : harness) (f : bench_flags) (Hl : h_loadgen h <> "taskset").
Context (Hd : int64_range (f_duration f)) (Hw : int64_range (f_warmup f)).



















End sections.



(** A machine everything works on, where every generator measures the same. *)
Definition a_machine : main_machine :=
  mkMain (Ok ["bench"; "elodin"; "src"]) (fun _ => true) (fun _ => true) (fun _ => Ok []) (Ok "/tmp/elodin-bench-1")
    (fun _ => None) (fun bin => Some ("/usr/sbin/" +:+ bin)) (fun _ => None) (Ok 5300)
    (child_handler (fun _ => true) (fun _ => Ok (Some ex_measured)) ex_measured ex_sample)
    (mkSurveyAnswers None false "no domains" "" (fun _ => Ok (0, true)) (fun _ => Ok (0, true)) [])
    (fun _ _ => Some "no such directory").

(** The flags of a run of one section, and what it is set up with. *)
Definition a_command : command_flags :=
  default (mkCommandFlags "" "" "" "" "" "" "" "" "" default_bench)
    match bench_args ["-only"; "h1h2"; "-out"; "/nowhere/report.md"] with Ok o => Some o | Err _ => None end.

Definition a_setup : harness := mkHarness ["elodin"; "unbound"] [] "/tmp/elodin-bench-1/loadgen" [] "/tmp/elodin-bench-1".



Lemma bench_main_teardown_witness :
  prepare a_command a_machine = (fst (prepare a_command a_machine), Some a_setup) /\
  (Teardown ∈ bench_main a_command a_machine <->
   ~ exists report e, report_of a_command a_machine a_setup = Ok report /\ bc_out a_command <> "" /\
       mm_write a_machine (bc_out a_command) report = Some e).
Proof.
  assert (Hp : prepare a_command a_machine = (fst (prepare a_command a_machine), Some a_setup)) by (vm_compute; reflexivity).
  split; [exact Hp|]. exact (bench_main_teardown _ _ _ _ Hp).
Defined.

Lemma setup_ready_witness :
  exists cmds, setup default_bench "/work" "" (fun _ => false) (fun _ => None) (Ok 5300) = (cmds, Ok "127.0.0.1:5300") /\
    length cmds = 5%nat /\
    exists argv, last cmds = Some (Mockdns argv) /\
      mockdns_args (argv_args argv) = Ok ("127.0.0.1:5300", 20 * millisecond, 300).
Proof.
  eexists. split; [vm_compute; reflexivity|]. split; [reflexivity|].
  refine (proj2 (proj2 (proj2 (setup_ready default_bench "/work" "" (fun _ => false) (fun _ => None) (Ok 5300) _ _ _ _))));
    [by apply (bool_decide_unpack _); vm_compute|vm_compute; reflexivity].
Defined.
