(* ===== verification/Re2Diff.v ===== *)
(** * [scripts/re2diff]: holding elodin's reading of a regex rule to AdGuard Home's

    The command draws random patterns and random query names, asks the driver
    built from elodin and urlfilter's engine which names each pattern blocks, and
    fails on a pattern elodin keeps and reads otherwise.

    What is outside the repository's Go is an argument: the random source
    ([intn]), the driver (its output for the two files it is given), urlfilter's
    engine ([engine_error], [blocks]) and miekg/dns's presentation of a name
    ([unpack]).

    [re2diff_verdict] is what the exit status of the command means,
    [compare_counts] what the verdict counts whatever the driver answers,
    [runElodin_aligned] that the driver is asked about exactly the patterns and
    names drawn, and [drawNames_valid] that each name drawn is a name of the
    DNS. *)

From S2P Require Import Prelude GoStrings GoFlag DnsWire BenchServers.

(** ** The alphabet *)

Definition fragments : list string :=
  ["a"; "b"; "k"; "s"; "z"; "A"; "K"; "S"; "Z"; "0"; "9"; "-"; "_"; "."; " "; "\."; "\-"; "\_"; "\ "; "\#";
   "\\"; "\$"; "\^"; "\|"; "\{"; "\}"; "\("; "\)"; "\*"; "\+"; "\?"; "\["; "\]"; "\/"; "\'"; "\@"; "\;";
   "\" +:+ dq; "\d"; "\D"; "\w"; "\W"; "\s"; "\S"; "\b"; "\B"; "("; ")"; "(?:"; "(?i)"; "(?P<n>"; "(?="; "|";
   "*"; "+"; "?"; "*?"; "+?"; "??"; "{2}"; "{1,3}"; "{0,}"; "{2,}"; "{,2}"; "{}"; "{a}"; "{0}"; "{0,0}";
   "{-1}"; "{2,1}"; "{1000}"; "{1001}"; "{500}"; "{02}"; "{+2}"; "{1_0}"; "{ 2}"; "{2,03}"; "{"; "}"; "[";
   "]"; "[^"; "[]"; "[^]"; "a-z"; "0-9"; "A-Z"; "a-"; "-]"; "--"; "[:alpha:]"; "[[:"; "^"; "$"; "#"; "!";
   "~"; ","; "/"; ":"; "="; "'"; "@"; ";"; dq; "\n"; "\t"; "\x41"; "\pL"; "\A"; "\z"; "\1"; "\0"; "\Q";
   "$important"; "$badfilter"; "/$"; "$match-case"].

Definition labelBytes : string :=
  "abkszAKZ09-_.\ '@;()" +:+ dq +:+ "*#$^~/+" +:+ String "001" (String "127" (String "195" "")).

(** ** Drawing *)

(** A source of random integers: [intn i n] is the [i]-th, drawn below [n]. *)
Section draw.
Context (intn : nat -> Z -> Z).

(** A drawing, from the number of integers drawn so far. *)
Definition drawing (A : Type) : Type := nat -> A * nat.

Definition IntN (n : Z) : drawing Z := fun i => (intn i n, S i).

(** A drawing [k] times. *)
Fixpoint draw_n {A} (k : nat) (d : drawing A) : drawing (list A) := fun i =>
  match k with
  | O => ([], i)
  | S k => let '(x, i) := d i in let '(xs, i) := draw_n k d i in (x :: xs, i)
  end.

Definition draw_fragment : drawing string := fun i =>
  let '(k, i) := IntN (zlen fragments) i in (nth (Z.to_nat k) fragments "", i).

Definition draw_pattern : drawing string := fun i =>
  let '(k, i) := IntN 8 i in
  let '(pieces, i) := draw_n (Z.to_nat (k + 1)) draw_fragment i in
  (concat_all pieces, i).

Definition drawPatterns (n : Z) : drawing (list string) := draw_n (Z.to_nat n) draw_pattern.

(** A byte of a label: one in four any of [labelBytes], the others the first
    twelve. *)
Definition draw_byte : drawing string := fun i =>
  let '(q, i) := IntN 4 i in
  let '(k, i) := IntN (if q =? 0 then slen labelBytes else 12) i in
  (str_take 1 (str_drop (Z.to_nat k) labelBytes), i).

Definition draw_label : drawing string := fun i =>
  let '(k, i) := IntN 6 i in
  let '(cs, i) := draw_n (Z.to_nat (k + 1)) draw_byte i in
  (concat_all cs, i).

Definition draw_labels : drawing (list string) := fun i =>
  let '(k, i) := IntN 3 i in draw_n (Z.to_nat (k + 1)) draw_label i.

Definition fixed_labels : list (list string) :=
  map (fun n => [n]) ["a"; "b"; "k"; "s"; "z"; "0"; "_"; "-"; "ab"; "aa"; "ba"; "a-b"; "a_b"; "a9"] ++
  [["a"; "b"]; ["ads"; "example"; "com"]].

(** A name as wire bytes. *)
Definition wire_of (labels : list string) : bytes :=
  concat (map (fun l => u8 (slen l) :: bytes_of l) labels) ++ [0].

Definition lower_byte (c : ascii) : ascii :=
  let n := nat_of_ascii c in
  if (65 <=? Z.of_nat n) && (Z.of_nat n <=? 90) then ascii_of_nat (n + 32) else c.

(** [strings.ToLower] of ASCII, which is what [unpack] gives. *)
Fixpoint to_lower (s : string) : string :=
  match s with EmptyString => "" | String c rest => String (lower_byte c) (to_lower rest) end.

(** The names as urlfilter is handed them; the first that cannot be unpacked ends
    the command. *)
Fixpoint present_all (unpack : bytes -> result string string) (wires : list bytes) : result string (list string) :=
  match wires with
  | [] => Ok []
  | w :: wires =>
      let? name := unpack w in
      let? names := present_all unpack wires in
      Ok (to_lower (trim_suffix "." name) :: names)
  end.

Definition drawNames (unpack : bytes -> result string string) : drawing (list bytes * result string (list string)) :=
  fun i =>
    let '(drawn, i) := draw_n 90 draw_labels i in
    let wires := map wire_of (fixed_labels ++ drawn) in
    ((wires, present_all unpack wires), i).
End draw.

(** ** The driver *)

Definition hex_digit (d : Z) : ascii := if d <? 10 then digit_char d else ascii_of_nat (Z.to_nat (87 + d)).

Fixpoint hex_of (w : bytes) : string :=
  match w with
  | [] => ""
  | b :: w => String (hex_digit (b / 16)) (String (hex_digit (b mod 16)) (hex_of w))
  end.

(** How the command stops short: [check] and the mismatch exit with status 2; an
    index past a string panics. *)
Inductive stop : Type := Exit2 (message : string) | Panic.

(** [runElodin]: [files] is the error of making the directory or writing the two
    files, [driver] what the driver prints for their contents. *)
Definition runElodin (files : option string) (driver : string -> string -> result string string)
  (patterns : list string) (wires : list bytes) : result stop (list string) :=
  match files with
  | Some e => Err (Exit2 ("re2diff: " +:+ e))
  | None =>
      match driver (lines_of patterns) (lines_of (map hex_of wires)) with
      | Err e => Err (Exit2 ("re2diff: " +:+ e))
      | Ok out =>
          let got := GoStrings.split nl (trim_suffix nls out) in
          if negb (zlen got =? zlen patterns) then
            Err (Exit2 ("re2diff: " +:+ itoa (zlen got) +:+ " results for " +:+ itoa (zlen patterns) +:+ " patterns"))
          else Ok got
      end
  end.

(** ** The verdict *)

Section verdict.
Context (engine_error : string -> option string) (blocks : string -> string -> bool).

Definition bit (b : bool) : ascii := if b then "1"%char else "0"%char.

Fixpoint bits (bs : list bool) : string :=
  match bs with [] => "" | b :: bs => String (bit b) (bits bs) end.

(** [urlfilterBits]: the rule [/pattern/] in an engine of its own. *)
Definition urlfilterBits (pattern : string) (names : list string) : result stop string :=
  match engine_error ("/" +:+ pattern +:+ "/") with
  | Some e => Err (Exit2 ("re2diff: " +:+ e))
  | None => Ok (bits (map (blocks ("/" +:+ pattern +:+ "/")) names))
  end.

(** The lines of [report] after the first: the names the two disagree on. *)
Fixpoint report_names (names : list string) (got want : string) : result stop (list string) :=
  match names with
  | [] => Ok []
  | name :: names =>
      match got, want with
      | String g got, String w want =>
          let? rest := report_names names got want in
          Ok (if Ascii.eqb g w then rest
              else ("  " +:+ quote name +:+ ": elodin " +:+ String g (", urlfilter " +:+ String w "")) :: rest)
      | _, _ => Err Panic
      end
  end.

Definition report (pattern : string) (names : list string) (got want : string) : result stop (list string) :=
  let? ls := report_names names got want in Ok (("DIVERGENT " +:+ quote pattern) :: ls).

Record verdict : Type := mkVerdict { kept : Z; refused : Z; declined : Z; divergent : Z; out : list string }.

(** One pattern of [compare]. *)
Definition judge (names : list string) (verbose : bool) (v : verdict) (pg : string * string)
  : result stop verdict :=
  let '(p, got) := pg in
  let? want := urlfilterBits p names in
  if String.eqb got "-" then
    if contains "1" want then
      Ok (mkVerdict (kept v) (refused v + 1) (declined v + 1) (divergent v)
            (out v ++ (if verbose then ["REFUSED " +:+ quote p] else [])))
    else Ok (mkVerdict (kept v) (refused v + 1) (declined v) (divergent v) (out v))
  else if String.eqb got want then
    Ok (mkVerdict (kept v + 1) (refused v) (declined v) (divergent v) (out v))
  else
    let n := divergent v + 1 in
    let? ls := if n <=? 40 then report p names got want else Ok [] in
    Ok (mkVerdict (kept v + 1) (refused v) (declined v) n (out v ++ ls)).

Fixpoint judge_all (names : list string) (verbose : bool) (v : verdict) (pgs : list (string * string))
  : result stop verdict :=
  match pgs with
  | [] => Ok v
  | pg :: pgs => let? v := judge names verbose v pg in judge_all names verbose v pgs
  end.

(** [compare], on as many answers as patterns. *)
Definition compare (patterns names got : list string) (verbose : bool) : result stop verdict :=
  let? v := judge_all names verbose (mkVerdict 0 0 0 0 []) (combine patterns got) in
  Ok (mkVerdict (kept v) (refused v) (declined v) (divergent v)
        (out v ++ ["patterns " +:+ itoa (zlen patterns) +:+ ", kept " +:+ itoa (kept v) +:+ ", refused " +:+
                   itoa (refused v) +:+ " (" +:+ itoa (declined v) +:+ " that urlfilter blocks with), divergent " +:+
                   itoa (divergent v)])).

(** The exit status of [main] once it has compared. *)
Definition status (r : result stop verdict) : Z :=
  match r with
  | Ok v => if divergent v >? 0 then 1 else 0
  | Err _ => 2
  end.
End verdict.

(** ** The command *)

Record re2diff_flags : Type := mkRe2diff { elodin : string; count : Z; seed : Z; verbose : bool }.

Definition re2diff_args (args : list string) : result flag_error re2diff_flags :=
  let? (set, _) := parse_args [("elodin", FString); ("n", FInt); ("seed", FUint); ("v", FBool)] args in
  Ok (mkRe2diff (str_flag set "elodin" "") (num_flag set "n" 20000) (num_flag set "seed" 0) (bool_flag set "v" false)).

(** [main]: [now] is the clock's nanoseconds, [source] what the generator of a
    seed draws.  A negative count cannot be made room for. *)
Definition re2diff_main (o : re2diff_flags) (now : Z) (source : Z -> nat -> Z -> Z)
  (unpack : bytes -> result string string) (files : option string)
  (driver : string -> string -> result string string)
  (engine_error : string -> option string) (blocks : string -> string -> bool) : result stop verdict :=
  if String.eqb (elodin o) "" then Err (Exit2 "re2diff: -elodin is required")
  else if count o <? 0 then Err Panic
  else
    let intn := source (if seed o =? 0 then now mod 2 ^ 64 else seed o) in
    let '(patterns, i) := drawPatterns intn (count o) 0%nat in
    let '((wires, presented), _) := drawNames intn unpack i in
    match presented with
    | Err e => Err (Exit2 ("re2diff: " +:+ e))
    | Ok names =>
        let? got := runElodin files driver patterns wires in
        compare engine_error blocks patterns names got (verbose o)
    end.

(** The command on its arguments, as its exit status. *)
Definition re2diff_command (args : list string) (now : Z) (source : Z -> nat -> Z -> Z)
  (unpack : bytes -> result string string) (files : option string)
  (driver : string -> string -> result string string)
  (engine_error : string -> option string) (blocks : string -> string -> bool) : Z :=
  match re2diff_args args with
  | Err e => flag_exit e
  | Ok o => status (re2diff_main o now source unpack files driver engine_error blocks)
  end.

(** ** What the verdict counts *)

Lemma zcount_zero {A} (f : A -> bool) l : zcount f l = 0 <-> Forall (fun x => f x = false) l.
Proof.
  split; [|apply zcount_false]. induction l as [|x l IH]; [done|]. rewrite zcount_cons.
  pose proof (zcount_nonneg f l). destruct (f x) eqn:E; intros H0; [lia|]. constructor; [done|apply IH; lia].
Qed.

Section counted.
Context (engine_error : string -> option string) (blocks : string -> string -> bool).

(** The rule a pattern is, the bits urlfilter gives it, and an answer that says
    elodin refused it. *)
Definition rule (pattern : string) : string := "/" +:+ pattern +:+ "/".

Definition want (names : list string) (pattern : string) : string := bits (map (blocks (rule pattern)) names).

Definition is_refused (pg : string * string) : bool := String.eqb (snd pg) "-".
Definition is_kept (pg : string * string) : bool := negb (is_refused pg).
Definition is_declined (names : list string) (pg : string * string) : bool :=
  is_refused pg && contains "1" (want names (fst pg)).
Definition diverges (names : list string) (pg : string * string) : bool :=
  is_kept pg && negb (String.eqb (snd pg) (want names (fst pg))).

Definition unreadable (pg : string * string) : Prop := is_Some (engine_error (rule (fst pg))).
Definition cut_short (names : list string) (pg : string * string) : Prop :=
  is_kept pg = true /\ (String.length (snd pg) < length names)%nat.

Lemma bits_length bs : String.length (bits bs) = length bs.
Proof. induction bs as [|b bs IH]; simpl; congruence. Qed.

Lemma report_names_stops names got wanted e :
  report_names names got wanted = Err e ->
  e = Panic /\ ((String.length got < length names)%nat \/ (String.length wanted < length names)%nat).
Proof.
  revert got wanted. induction names as [|name names IH]; intros got wanted; simpl; [done|].
  destruct got as [|g got]; [intros [= <-]; split; [done|left; simpl; lia]|].
  destruct wanted as [|w wanted]; [intros [= <-]; split; [done|right; simpl; lia]|].
  destruct (report_names names got wanted) as [rest|e'] eqn:E; simpl; [done|].
  intros [= <-]. destruct (IH _ _ E) as (-> & H). split; [done|]. simpl. lia.
Qed.

Lemma judge_counts names verbose v pg :
  match judge engine_error blocks names verbose v pg with
  | Ok v' => engine_error (rule (fst pg)) = None /\
      kept v' = kept v + (if is_kept pg then 1 else 0) /\ refused v' = refused v + (if is_refused pg then 1 else 0) /\
      declined v' = declined v + (if is_declined names pg then 1 else 0) /\
      divergent v' = divergent v + (if diverges names pg then 1 else 0)
  | Err Panic => cut_short names pg
  | Err (Exit2 _) => unreadable pg
  end.
Proof.
  destruct pg as [p got]. unfold judge, urlfilterBits, is_kept, is_declined, diverges, cut_short, unreadable, is_kept, is_refused.
  cbn [fst snd]. change ("/" +:+ p +:+ "/") with (rule p). destruct (engine_error (rule p)) as [e|]; simpl; [by eexists|].
  change (bits (map (blocks (rule p)) names)) with (want names p).
  destruct (String.eqb got "-") eqn:Eg; simpl.
  - destruct (contains "1" (want names p)); simpl; split_and!; lia || done.
  - destruct (String.eqb got (want names p)) eqn:Ew; simpl; [split_and!; lia || done|].
    destruct (_ <=? 40); simpl; [|split_and!; lia || done]. unfold report.
    destruct (report_names names got (want names p)) as [ls|e] eqn:Er; simpl; [split_and!; lia || done|].
    destruct (report_names_stops _ _ _ _ Er) as (-> & [H|H]); [done|].
    unfold want in H. rewrite bits_length, length_map in H. lia.
Qed.

(** What judging [pgs] comes to. *)
Definition counted (names : list string) (pgs : list (string * string)) (v v' : verdict) : Prop :=
  Forall (fun pg => engine_error (rule (fst pg)) = None) pgs /\
  kept v' = kept v + zcount is_kept pgs /\ refused v' = refused v + zcount is_refused pgs /\
  declined v' = declined v + zcount (is_declined names) pgs /\ divergent v' = divergent v + zcount (diverges names) pgs.

Lemma judge_all_counts names verbose v pgs :
  match judge_all engine_error blocks names verbose v pgs with
  | Ok v' => counted names pgs v v'
  | Err Panic => exists pg, pg ∈ pgs /\ cut_short names pg
  | Err (Exit2 _) => exists pg, pg ∈ pgs /\ unreadable pg
  end.
Proof.
  revert v. induction pgs as [|pg pgs IH]; intros v; simpl; [split; [done|split_and!; symmetry; apply Z.add_0_r]|].
  pose proof (judge_counts names verbose v pg) as Hj.
  destruct (judge engine_error blocks names verbose v pg) as [v1|[m|]]; simpl; [|by exists pg; split; [left|]..].
  specialize (IH v1). destruct (judge_all _ _ names verbose v1 pgs) as [v'|[m|]].
  - destruct Hj as (He & Hk & Hr & Hd & Hv), IH as (Hes & Hks & Hrs & Hds & Hvs).
    split; [by constructor|]. rewrite !zcount_cons. split_and!; lia.
  - destruct IH as (pg' & Hin & H). exists pg'. split; [by right|done].
  - destruct IH as (pg' & Hin & H). exists pg'. split; [by right|done].
Qed.

Lemma kept_or_refused pgs : zcount is_kept pgs + zcount is_refused pgs = zlen pgs.
Proof.
  induction pgs as [|pg pgs IH]; [done|]. rewrite !zcount_cons, zlen_cons. unfold is_kept at 1.
  destruct (is_refused pg); simpl; lia.
Qed.

(** The verdict of a run is exact.  Every pattern is counted once, kept or
    refused, as elodin answered; the divergent ones are those elodin kept and
    read otherwise than urlfilter; and the command succeeds exactly when there
    is none.  It stops short only where urlfilter refused a rule, or where a
    kept pattern's answer is shorter than the names it is about. *)
Theorem compare_counts patterns names got verbose :
  let pgs := combine patterns got in
  let r := compare engine_error blocks patterns names got verbose in
  match r with
  | Ok v =>
      Forall (fun pg => engine_error (rule (fst pg)) = None) pgs /\
      kept v = zcount is_kept pgs /\ refused v = zcount is_refused pgs /\ kept v + refused v = zlen pgs /\
      declined v = zcount (is_declined names) pgs /\ divergent v = zcount (diverges names) pgs /\
      (status r = 0 <-> Forall (fun pg => diverges names pg = false) pgs)
  | Err Panic => exists pg, pg ∈ pgs /\ cut_short names pg
  | Err (Exit2 _) => exists pg, pg ∈ pgs /\ unreadable pg
  end.
Proof.
  cbv zeta. unfold compare. pose proof (judge_all_counts names verbose (mkVerdict 0 0 0 0 []) (combine patterns got)) as H.
  destruct (judge_all _ _ _ _ _ _) as [v|[m|]]; simpl; [|exact H..].
  destruct H as (He & Hk & Hr & Hd & Hv). pose proof (kept_or_refused (combine patterns got)). simpl in *.
  split_and!; try done; try lia. rewrite Hv. pose proof (zcount_nonneg (diverges names) (combine patterns got)).
  rewrite <- zcount_zero. destruct (_ >? 0) eqn:E; lia.
Qed.
End counted.

(** ** What is drawn, and what the driver is handed *)

(** What holds of every drawing holds of all that are drawn. *)
Lemma draw_n_Forall {A} (P : A -> Prop) k (d : drawing A) i :
  (forall j, P (fst (d j))) -> Forall P (fst (draw_n k d i)) /\ length (fst (draw_n k d i)) = k.
Proof.
  intros H. revert i. induction k as [|k IH]; intros i; [by split|]. simpl. specialize (H i).
  destruct (d i) as [x i1]. specialize (IH i1). destruct (draw_n k d i1) as [xs i2]. simpl in *.
  destruct IH as [IH ->]. by split; [constructor|].
Qed.

Lemma draw_n_at {A} k (d : drawing A) i : draw_n k d i = (fst (draw_n k d i), snd (draw_n k d i)).
Proof. by destruct (draw_n k d i). Qed.

Lemma lacks_concat c l : Forall (lacks c) l -> lacks c (concat_all l).
Proof. induction 1 as [|s l Hs Hl IH]; [done|]. by apply lacks_app. Qed.

Lemma fragments_lack : Forall (lacks nl) fragments.
Proof. repeat (apply Forall_cons_2; [vm_compute; reflexivity|]). apply Forall_nil_2. Qed.

Lemma draw_pattern_lacks intn i : lacks nl (fst (draw_pattern intn i)).
Proof.
  unfold draw_pattern. simpl.
  rewrite (draw_n_at (Z.to_nat (intn i 8 + 1)) (draw_fragment intn) (S i)). apply lacks_concat, draw_n_Forall.
  intros j. unfold draw_fragment, IntN. cbn [fst].
  destruct (nth_in_or_default (Z.to_nat (intn j (zlen fragments))) fragments "") as [Hin| ->]; [|done].
  exact (proj1 (List.Forall_forall _ _) fragments_lack _ Hin).
Qed.

(** Hexadecimal read back. *)
Definition hex_val (c : ascii) : option Z :=
  match digit_val c with
  | Some d => Some d
  | None => let n := Z.of_nat (nat_of_ascii c) in if (97 <=? n) && (n <=? 102) then Some (n - 87) else None
  end.

Fixpoint unhex (s : string) : option bytes :=
  match s with
  | EmptyString => Some []
  | String a (String b rest) =>
      match hex_val a, hex_val b, unhex rest with
      | Some x, Some y, Some w => Some (16 * x + y :: w)
      | _, _, _ => None
      end
  | _ => None
  end.

Lemma hex_digit_val d : 0 <= d < 16 -> hex_val (hex_digit d) = Some d /\ hex_digit d <> nl.
Proof.
  intros Hd. assert (d = 0 \/ d = 1 \/ d = 2 \/ d = 3 \/ d = 4 \/ d = 5 \/ d = 6 \/ d = 7 \/ d = 8 \/ d = 9 \/
    d = 10 \/ d = 11 \/ d = 12 \/ d = 13 \/ d = 14 \/ d = 15) as H by lia.
  repeat destruct H as [->|H]; [..|subst]; by vm_compute.
Qed.

Lemma nibbles b : 0 <= b < 256 -> 0 <= b / 16 < 16 /\ 0 <= b mod 16 < 16 /\ 16 * (b / 16) + b mod 16 = b.
Proof. intros Hb. Z.to_euclidean_division_equations. lia. Qed.

Lemma unhex_hex w : bytes_ok w -> unhex (hex_of w) = Some w.
Proof.
  induction 1 as [|b w Hb Hw IH]; [done|]. destruct (nibbles b Hb) as (H1 & H2 & H3). cbn [hex_of unhex].
  rewrite (proj1 (hex_digit_val _ H1)), (proj1 (hex_digit_val _ H2)), IH. by rewrite H3.
Qed.

Lemma hex_lacks w : bytes_ok w -> lacks nl (hex_of w).
Proof.
  induction 1 as [|b w Hb Hw IH]; [done|]. destruct (nibbles b Hb) as (H1 & H2 & _). cbn [hex_of].
  apply lacks_cons. split; [by apply hex_digit_val|]. apply lacks_cons. split; [by apply hex_digit_val|done].
Qed.

Lemma bytes_of_ok s : bytes_ok (bytes_of s).
Proof.
  unfold bytes_ok, bytes_of. apply Forall_forall. intros x Hx. apply list_elem_of_fmap in Hx as (c & -> & _).
  unfold byte_of. pose proof (nat_ascii_bounded c). lia.
Qed.

Lemma wire_bytes_ok labels : bytes_ok (wire_of labels).
Proof.
  apply Forall_app. split; [|repeat constructor; lia]. induction labels as [|l labels IH]; [constructor|].
  simpl. constructor; [apply u8_range|]. apply Forall_app. split; [apply bytes_of_ok|exact IH].
Qed.

(** The driver is asked about exactly what was drawn: the pattern file reads
    back as the patterns, one a line, and the name file as the names' wire bytes
    in hexadecimal; and when it is taken to have answered, it answered each
    pattern. *)
Theorem runElodin_aligned intn i n unpack j driver got :
  0 < n ->
  let patterns := fst (drawPatterns intn n i) in
  let wires := fst (fst (drawNames intn unpack j)) in
  zlen patterns = n /\ read_back (lines_of patterns) = patterns /\
  map unhex (read_back (lines_of (map hex_of wires))) = map Some wires /\
  (runElodin None driver patterns wires = Ok got -> zlen got = n).
Proof.
  intros Hn. cbv zeta.
  destruct (draw_n_Forall (lacks nl) (Z.to_nat n) (draw_pattern intn) i (draw_pattern_lacks intn)) as [Hl Hk].
  fold (drawPatterns intn n i) in Hl, Hk. assert (Hlen : zlen (fst (drawPatterns intn n i)) = n) by (unfold zlen; lia).
  split; [done|]. split.
  { apply read_back_lines; [|done]. intros E. rewrite E in Hlen. by rewrite <- Hlen in Hn. }
  split.
  - unfold drawNames. rewrite (draw_n_at 90 (draw_labels intn) j). cbn [fst].
    rewrite read_back_lines; [|by rewrite map_app|].
    + rewrite !map_map. apply map_ext. intros labels. apply unhex_hex, wire_bytes_ok.
    + apply Forall_forall. intros h Hh. apply list_elem_of_fmap in Hh as (w & -> & Hw).
      apply list_elem_of_fmap in Hw as (labels & -> & _). apply hex_lacks, wire_bytes_ok.
  - unfold runElodin. destruct (driver _ _) as [out|]; [|done].
    destruct (Z.eqb_spec (zlen (GoStrings.split nl (trim_suffix nls out))) (zlen (fst (drawPatterns intn n i)))) as [E|];
      simpl; [|done]. intros [= <-]. by rewrite E.
Qed.

(** A source that draws below the bound it is given. *)
Definition in_bounds (intn : nat -> Z -> Z) : Prop := forall i n, 0 < n -> 0 <= intn i n < n.

(** A name read off the wire: its labels, up to the empty one that ends it. *)
Fixpoint read_name (fuel : nat) (w : bytes) : option (list bytes * bytes) :=
  match fuel, w with
  | S fuel, l :: w =>
      if l =? 0 then Some ([], w)
      else if zlen w <? l then None
      else match read_name fuel (drop (Z.to_nat l) w) with
           | Some (labels, rest) => Some (take (Z.to_nat l) w :: labels, rest)
           | None => None
           end
  | _, _ => None
  end.

Definition label_ok (l : string) : Prop := 0 < slen l < 64.

Lemma bytes_of_length s : zlen (bytes_of s) = slen s.
Proof. unfold zlen, bytes_of. rewrite length_map. induction s as [|c s IH]; [done|]. simpl. simpl in IH. lia. Qed.

Lemma read_wire labels rest :
  Forall label_ok labels ->
  read_name (S (length labels)) (wire_of labels ++ rest) = Some (map bytes_of labels, rest).
Proof.
  induction 1 as [|l labels Hl Hls IH]; [done|].
  assert (E : wire_of (l :: labels) ++ rest = slen l :: bytes_of l ++ wire_of labels ++ rest).
  { unfold wire_of. simpl. rewrite u8_id by (unfold label_ok in Hl; lia). by rewrite <- !app_assoc. }
  rewrite E. cbn [length]. revert IH. generalize (S (length labels)). intros fuel IH.
  cbn [read_name]. unfold label_ok in Hl.
  destruct (Z.eqb_spec (slen l) 0); [lia|]. rewrite zlen_app, bytes_of_length.
  destruct (Z.ltb_spec (slen l + zlen (wire_of labels ++ rest)) (slen l));
    [pose proof (zlen_nonneg (wire_of labels ++ rest)); lia|].
  assert (Hb : Z.to_nat (slen l) = length (bytes_of l)) by (pose proof (bytes_of_length l); unfold zlen in *; lia).
  by rewrite Hb, drop_app_length, take_app_length, IH.
Qed.

Lemma wire_length k labels :
  Forall (fun l => slen l <= k) labels -> zlen (wire_of labels) <= (k + 1) * zlen labels + 1.
Proof.
  induction 1 as [|l labels Hl Hls IH]; [unfold zlen; simpl; lia|]. unfold wire_of in *. simpl.
  rewrite <- app_assoc, zlen_cons, zlen_app, bytes_of_length, !zlen_cons. nia.
Qed.

(** Labels a name may have: one to three of at most seven bytes. *)
Definition labels_ok (ls : list string) : Prop :=
  0 < zlen ls <= 3 /\ Forall (fun l => 0 < slen l <= 7) ls.

Lemma concat_length l : Forall (fun s => slen s = 1) l -> slen (concat_all l) = zlen l.
Proof. induction 1 as [|s l Hs Hl IH]; [done|]. simpl. rewrite str_length_app, zlen_cons. lia. Qed.

Lemma draw_byte_one intn i : in_bounds intn -> slen (fst (draw_byte intn i)) = 1.
Proof.
  intros Hr. unfold draw_byte, IntN. cbn [fst].
  assert (Hl : slen labelBytes = 31) by reflexivity. rewrite str_length_take, str_length_drop.
  destruct (intn i 4 =? 0); [pose proof (Hr (S i) (slen labelBytes))|pose proof (Hr (S i) 12)]; lia.
Qed.

Lemma draw_label_ok intn i : in_bounds intn -> 0 < slen (fst (draw_label intn i)) <= 7.
Proof.
  intros Hr. unfold draw_label, IntN. cbn [fst]. rewrite (draw_n_at _ (draw_byte intn) (S i)). cbn [fst].
  destruct (draw_n_Forall (fun s => slen s = 1) (Z.to_nat (intn i 6 + 1)) (draw_byte intn) (S i)) as [Hf Hl];
    [intros j; by apply draw_byte_one|].
  rewrite (concat_length _ Hf). unfold zlen. rewrite Hl. pose proof (Hr i 6). lia.
Qed.

Lemma draw_labels_ok intn i : in_bounds intn -> labels_ok (fst (draw_labels intn i)).
Proof.
  intros Hr. unfold draw_labels, IntN.
  destruct (draw_n_Forall (fun l => 0 < slen l <= 7) (Z.to_nat (intn i 3 + 1)) (draw_label intn) (S i)) as [Hf Hl];
    [intros j; by apply draw_label_ok|].
  split; [|done]. unfold zlen. rewrite Hl. pose proof (Hr i 3). lia.
Qed.

Lemma fixed_labels_ok : Forall labels_ok fixed_labels.
Proof.
  unfold fixed_labels. cbn [map app].
  repeat (apply Forall_cons_2; [split; [unfold zlen; simpl; lia|]; repeat (apply Forall_cons_2; [simpl; lia|]);
    apply Forall_nil_2|]).
  apply Forall_nil_2.
Qed.

(** C34. Every name drawn is a name of the DNS: each of the 106 wires is made of
    labels of 1 to 63 bytes, is within the 255 bytes of a name, ends with the
    root and reads back as its labels. *)
Theorem drawNames_valid intn unpack i :
  in_bounds intn ->
  let wires := fst (fst (drawNames intn unpack i)) in
  zlen wires = 106 /\
  Forall (fun w => exists labels, Forall label_ok labels /\ w = wire_of labels /\ bytes_ok w /\ zlen w <= 255 /\
            read_name (S (length labels)) w = Some (map bytes_of labels, [])) wires.
Proof.
  intros Hr. unfold drawNames. rewrite (draw_n_at 90 (draw_labels intn) i). cbv zeta. cbn [fst].
  destruct (draw_n_Forall labels_ok 90 (draw_labels intn) i) as [Hf Hl]; [intros j; by apply draw_labels_ok|].
  split; [unfold zlen; by rewrite length_map, length_app, Hl|]. apply Forall_map.
  eapply Forall_impl; [apply Forall_app; split; [apply fixed_labels_ok|exact Hf]|].
  intros labels [Hn Hls]. exists labels.
  assert (Hok : Forall label_ok labels) by (eapply Forall_impl; [exact Hls|]; unfold label_ok; simpl; lia).
  split; [done|]. split; [done|]. split; [apply wire_bytes_ok|]. split.
  - pose proof (wire_length 7 labels) as H. etransitivity; [apply H|lia].
    eapply Forall_impl; [exact Hls|]. simpl. lia.
  - rewrite <- (app_nil_r (wire_of labels)). by apply read_wire.
Qed.

(** ** The whole command *)

(** What the driver prints of one pattern, from how elodin reads it: refused, or
    which names it blocks. *)
Definition driver_line (reads : string -> option (bytes -> bool)) (wires : list bytes) (pattern : string) : string :=
  match reads pattern with None => "-" | Some f => bits (map f wires) end.

(** The driver answers as elodin reads on the two files [runElodin] writes for
    these patterns and names: a line a pattern.  Nothing is asked of it on other
    files; it exits with 2 on a name that is not hexadecimal, which none here is
    ([runElodin_aligned]). *)
Definition answers_for (reads : string -> option (bytes -> bool)) (driver : string -> string -> result string string)
  (patterns : list string) (wires : list bytes) : Prop :=
  driver (lines_of patterns) (lines_of (map hex_of wires)) =
    Ok (lines_of (map (driver_line reads wires) patterns)).

Lemma bits_lack bs : lacks nl (bits bs).
Proof. induction bs as [|b bs IH]; [done|]. simpl. apply lacks_cons. split; [by destruct b|done]. Qed.

Lemma bits_inj bs cs : bits bs = bits cs <-> bs = cs.
Proof.
  split; [|by intros ->]. revert cs. induction bs as [|b bs IH]; intros [|c cs]; try done.
  simpl. intros [= Hb Hs]. f_equal; [by destruct b, c|by apply IH].
Qed.

Lemma bits_dash bs : bits bs <> "-".
Proof. destruct bs as [|[] bs]; done. Qed.

Lemma driver_line_lacks reads wires p : lacks nl (driver_line reads wires p).
Proof. unfold driver_line. destruct (reads p); [apply bits_lack|done]. Qed.

Lemma present_all_length unpack wires names : present_all unpack wires = Ok names -> length names = length wires.
Proof.
  revert names. induction wires as [|w wires IH]; simpl; intros names; [by intros [= <-]|].
  intros (name & _ & (ns & Hn & [= <-])%rbind_ok)%rbind_ok. simpl. f_equal. by apply IH.
Qed.

Lemma map_eq_Forall2 {A B C} (f : A -> C) (g : B -> C) l k :
  length l = length k -> map f l = map g k <-> Forall2 (fun x y => f x = g y) l k.
Proof.
  revert k. induction l as [|x l IH]; intros [|y k]; simpl; intros H; try done.
  rewrite Forall2_cons, <- IH by lia. split; [by intros [= -> ->]|by intros [-> ->]].
Qed.

(** What an honest driver's answer says of a pattern, held to urlfilter's. *)
Lemma driver_line_verdict blocks reads wires names p :
  length names = length wires ->
  diverges blocks names (p, driver_line reads wires p) = false <->
  (forall f, reads p = Some f -> Forall2 (fun w name => f w = blocks (rule p) name) wires names).
Proof.
  intros Hl. unfold diverges, is_kept, is_refused, driver_line, want. cbn [fst snd].
  destruct (reads p) as [f|]; [|split; [done|by intros _]].
  destruct (String.eqb_spec (bits (map f wires)) "-") as [E|_]; [by apply bits_dash in E|]. cbn [negb andb].
  rewrite negb_false_iff, String.eqb_eq, bits_inj, map_eq_Forall2 by done.
  split; [intros H g [= <-]; exact H|intros H; by apply H].
Qed.

Lemma combine_map_r {A B} (f : A -> B) l : combine l (map f l) = map (fun x => (x, f x)) l.
Proof. induction l as [|x l IH]; [done|]. simpl. by rewrite IH. Qed.

(** What such a driver makes of the files [runElodin] writes it. *)
Lemma honest_run reads driver patterns wires :
  answers_for reads driver patterns wires -> patterns <> [] ->
  runElodin None driver patterns wires = Ok (map (driver_line reads wires) patterns).
Proof.
  intros Hd Hn. unfold runElodin. rewrite Hd.
  set (got := map _ patterns). fold (read_back (lines_of got)).
  assert (zlen got = zlen patterns) as Hg by (unfold got, zlen; by rewrite length_map).
  rewrite read_back_lines, Hg, Z.eqb_refl; [done| |].
  - intros E. apply Hn. unfold got in E. by destruct patterns.
  - apply Forall_map, Forall_forall. intros x _. apply driver_line_lacks.
Qed.

Lemma honest_compare engine_error blocks reads patterns names wires verbose :
  length names = length wires -> (forall p, p ∈ patterns -> engine_error (rule p) = None) ->
  let r := status (compare engine_error blocks patterns names (map (driver_line reads wires) patterns) verbose) in
  (r = 0 \/ r = 1) /\
  (r = 0 <-> forall p f, p ∈ patterns -> reads p = Some f ->
     Forall2 (fun w name => f w = blocks (rule p) name) wires names).
Proof.
  intros Hl He. unfold compare. rewrite combine_map_r.
  pose proof (judge_all_counts engine_error blocks names verbose (mkVerdict 0 0 0 0 [])
    (map (fun x => (x, driver_line reads wires x)) patterns)) as H.
  destruct (judge_all _ _ _ _ _ _) as [v|[m|]]; cbn [rbind status divergent]; cbv zeta.
  - destruct H as (_ & _ & _ & _ & Hv). cbn [divergent] in Hv. rewrite Z.add_0_l in Hv.
    pose proof (zcount_nonneg (diverges blocks names) (map (fun x => (x, driver_line reads wires x)) patterns)).
    split; [destruct (_ >? 0); lia|].
    transitivity (divergent v = 0); [destruct (_ >? 0) eqn:?; lia|].
    rewrite Hv, zcount_zero, Forall_map, Forall_forall.
    split; [intros Ha p f Hp; apply driver_line_verdict, Ha; done|intros Ha p Hp; apply driver_line_verdict; eauto].
  - destruct H as (? & (q & -> & Hin)%list_elem_of_fmap & [e Hu]). cbn [fst] in Hu. by rewrite He in Hu.
  - destruct H as (? & (q & -> & Hin)%list_elem_of_fmap & Hk & Hs). unfold is_kept, is_refused, driver_line in *.
    cbn [snd] in *. destruct (reads q); [rewrite bits_length, length_map in Hs; lia|done].
Qed.

(** C24. The command decides what it is for.  Given arguments that name a driver
    and ask for at least one pattern, the driver answering, for the patterns and
    names drawn and no others, as elodin reads them, and all of the patterns rules
    urlfilter takes: it exits with 0 or 1, and with 0 exactly when every pattern drawn that
    elodin keeps blocks, of the names drawn, those urlfilter blocks -- elodin
    given the wire bytes of a name, urlfilter what miekg/dns presents of them. *)
Theorem re2diff_verdict args o now source unpack driver engine_error blocks reads names :
  let intn := source (if seed o =? 0 then now mod 2 ^ 64 else seed o) in
  let drawn := drawPatterns intn (count o) 0%nat in
  let patterns := fst drawn in
  let wires := fst (fst (drawNames intn unpack (snd drawn))) in
  re2diff_args args = Ok o -> elodin o <> "" -> 0 < count o ->
  present_all unpack wires = Ok names ->
  answers_for reads driver patterns wires ->
  (forall p, p ∈ patterns -> engine_error (rule p) = None) ->
  let r := re2diff_command args now source unpack None driver engine_error blocks in
  (r = 0 \/ r = 1) /\
  (r = 0 <-> forall p f, p ∈ patterns -> reads p = Some f ->
     Forall2 (fun w name => f w = blocks (rule p) name) wires names).
Proof.
  cbv zeta. intros Ha Ho Hn Hp Hd He. unfold re2diff_command. rewrite Ha. unfold re2diff_main.
  set (intn := source _) in *. destruct (String.eqb_spec (elodin o) "") as [|_]; [done|].
  destruct (Z.ltb_spec (count o) 0) as [|_]; [lia|].
  destruct (runElodin_aligned intn 0%nat (count o) unpack (snd (drawPatterns intn (count o) 0%nat)) driver [] Hn)
    as (Hlen & Hfile & Hnames & _).
  destruct (drawPatterns intn (count o) 0%nat) as [patterns i]. cbn [fst snd] in *.
  assert (Hpres : snd (fst (drawNames intn unpack i)) = Ok names).
  { rewrite <- Hp. unfold drawNames. by destruct (draw_n 90 (draw_labels intn) i). }
  destruct (drawNames intn unpack i) as [[wires presented] j]. cbn [fst snd] in *. subst presented.
  rewrite (honest_run reads) by (done || (intros ->; change (zlen []) with 0 in Hlen; lia)).
  cbn [rbind]. apply honest_compare; [by eapply present_all_length|done].
Qed.

(** A driver that keeps no pattern with a parenthesis, and takes the others to
    block the names of a first label of one byte. *)
Definition a_reading (p : string) : option (bytes -> bool) :=
  if contains "(" p then None else Some (fun w => Z.eqb (hd 0 w) 1).

Definition a_driver (patternFile nameFile : string) : result string string :=
  let wires := omap unhex (read_back nameFile) in
  Ok (lines_of (map (driver_line a_reading wires) (read_back patternFile))).

(** ** Witnesses *)

Definition an_intn (i : nat) (n : Z) : Z := (7 * Z.of_nat i + 3) mod n.

Lemma an_intn_bounds : in_bounds an_intn.
Proof. intros i n Hn. by apply Z.mod_pos_bound. Qed.

Lemma runElodin_aligned_witness :
  0 < 2 /\
  let patterns := fst (drawPatterns an_intn 2 0%nat) in
  let wires := fst (fst (drawNames an_intn (fun _ => Ok "") 20%nat)) in
  zlen patterns = 2 /\ read_back (lines_of patterns) = patterns /\
  map unhex (read_back (lines_of (map hex_of wires))) = map Some wires /\
  (runElodin None (fun _ _ => Ok ("-" +:+ nls +:+ "010" +:+ nls)) patterns wires = Ok ["-"; "010"] ->
   zlen ["-"; "010"] = 2).
Proof. split; [done|]. exact (runElodin_aligned an_intn 0%nat 2 _ 20%nat _ ["-"; "010"] eq_refl). Defined.

Lemma drawNames_valid_witness :
  in_bounds an_intn /\
  let wires := fst (fst (drawNames an_intn (fun _ => Ok "") 0%nat)) in
  zlen wires = 106 /\
  Forall (fun w => exists labels, Forall label_ok labels /\ w = wire_of labels /\ bytes_ok w /\ zlen w <= 255 /\
            read_name (S (length labels)) w = Some (map bytes_of labels, [])) wires.
Proof. split; [exact an_intn_bounds|]. exact (drawNames_valid an_intn _ 0%nat an_intn_bounds). Defined.

Lemma re2diff_verdict_witness :
  let r := re2diff_command ["-elodin"; "re2diff-elodin"; "-n"; "20"; "-seed=7"] 0 (fun s i n => (7 * Z.of_nat i + s) mod n)
             (fun _ => Ok "a.") None a_driver (fun _ => None) (fun _ _ => true) in
  r = 1 /\ (r = 0 \/ r = 1).
Proof.
  split; [vm_compute; reflexivity|].
  refine (proj1 (re2diff_verdict ["-elodin"; "re2diff-elodin"; "-n"; "20"; "-seed=7"]
    (mkRe2diff "re2diff-elodin" 20 7 false) 0 (fun s i n => (7 * Z.of_nat i + s) mod n)
    (fun _ => Ok "a.") a_driver (fun _ => None) (fun _ _ => true) a_reading (repeat "a" 106) _ _ _ _ _ _)).
  - reflexivity.
  - discriminate.
  - reflexivity.
  - vm_compute. reflexivity.
  - vm_compute. reflexivity.
  - reflexivity.
Defined.

Example compare_ex :
  compare (fun _ => None) (fun r n => String.eqb n "ab") ["a"; "("; "b"] ["ab"; "c"] ["10"; "-"; "00"] true =
  Ok (mkVerdict 2 1 1 1 ["REFUSED " +:+ quote "("; "DIVERGENT " +:+ quote "b"; "  " +:+ quote "ab" +:+ ": elodin 0, urlfilter 1";
        "patterns 3, kept 2, refused 1 (1 that urlfilter blocks with), divergent 1"]).
Proof. vm_compute. reflexivity. Qed.
